(** * Retry, backoff and reconciliation helpers of the video migration scripts

    A shallow embedding of the helpers shared by the batch scripts
    ([dropbox_leftovers_producer.py], [gdrive_design_compare.py],
    [video_producer.py], [video_consumer.py], [gdrive_encoded_downloader.py],
    [encode_local_videos.py]) and the properties proved about them.

    Conventions of the embedding:
    - a Python [str] is a [string] (its UTF-8 bytes); an [int] is a [Z];
      a [float] is a [Q], the exact value the float stands for;
    - a Python exception is a value of [Exception] (instances of the class
      [Exception]) or, for what derives from [BaseException] only, an
      [Interrupt];
    - code with effects runs in the monad [M]: a function from a [World] to an
      [outcome] and the next [World]; what was written to the world before an
      exception was raised stays written. *)

From Stdlib Require Import ZArith QArith Qminmax Lqa Lia Bool Strings.Byte Ascii String DecimalString.
From stdpp Require Import gmap strings list sorting.

Local Open Scope Z_scope.
Local Open Scope string_scope.

(** ** Strings *)

Module Str.

(** [c.lower()] on one ASCII character: the capitals are folded. *)
Definition lower_ascii (c : ascii) : ascii :=
  let n := nat_of_ascii c in
  if (Nat.leb 65 n && Nat.leb n 90)%bool then ascii_of_nat (n + 32) else c.

Definition is_byte (c : ascii) (n : nat) : bool := Nat.eqb (nat_of_ascii c) n.

(** [s.lower()], on the UTF-8 bytes of [s]. The ASCII capitals are folded.
    Two other characters have a lower-case form with an ASCII letter in it
    and are folded too: the Kelvin sign U+212A (bytes E2 84 AA) gives [k], and
    the capital I with a dot above, U+0130 (bytes C4 B0), gives [i] followed
    by the combining dot U+0307 (bytes CC 87). Every other character is kept:
    its lower-case form holds no ASCII character, so that a search for an
    ASCII text in [s.lower()], as the classifiers make it, has the answer it
    has in Python; two lowered texts compare as in Python when neither holds
    another capital from outside ASCII. *)
Fixpoint lower (s : string) : string :=
  match s with
  | EmptyString => EmptyString
  | String c s1 =>
      match s1 with
      | EmptyString => String (lower_ascii c) EmptyString
      | String c1 s2 =>
          if (is_byte c 196 && is_byte c1 176)%bool
          then String "i"%char
                 (String (ascii_of_nat 204) (String (ascii_of_nat 135) (lower s2)))
          else
            match s2 with
            | EmptyString => String (lower_ascii c) (lower s1)
            | String c2 s3 =>
                if (is_byte c 226 && is_byte c1 132 && is_byte c2 170)%bool
                then String "k"%char (lower s3)
                else String (lower_ascii c) (lower s1)
            end
      end
  end.

(** [m in s]: [m] occurs in [s] as a contiguous substring. *)
Fixpoint contains (m s : string) : bool :=
  String.prefix m s ||
  match s with
  | EmptyString => false
  | String _ s' => contains m s'
  end.

(** [str(n)] for an [int]. *)
Definition of_Z (n : Z) : string := NilZero.string_of_int (Z.to_int n).

(** The first [n] characters of [s], [s[:n]]: a byte of the form 10xxxxxx
    continues the character before it and is not counted. *)
Definition is_continuation (c : ascii) : bool :=
  let n := nat_of_ascii c in (Nat.leb 128 n && Nat.ltb n 192)%bool.

Fixpoint take_chars (n : nat) (s : string) : string :=
  match s with
  | EmptyString => EmptyString
  | String c s' =>
      if is_continuation c then String c (take_chars n s')
      else match n with
           | O => EmptyString
           | Datatypes.S k => String c (take_chars k s')
           end
  end.

(** [s.replace("'", "\\'")] *)
Fixpoint escape_quotes (s : string) : string :=
  match s with
  | EmptyString => EmptyString
  | String c s' =>
      if Ascii.eqb c "'"%char then String "\"%char (String "'"%char (escape_quotes s'))
      else String c (escape_quotes s')
  end.

(** [s.lstrip(c)], [s.rstrip(c)] and [s.strip(c)] for a one-character [c]. *)
Fixpoint lstrip (c : ascii) (s : string) : string :=
  match s with
  | EmptyString => EmptyString
  | String a s' => if Ascii.eqb a c then lstrip c s' else s
  end.

Fixpoint rstrip (c : ascii) (s : string) : string :=
  match s with
  | EmptyString => EmptyString
  | String a s' =>
      match rstrip c s' with
      | EmptyString => if Ascii.eqb a c then EmptyString else String a EmptyString
      | r => String a r
      end
  end.

Definition strip (c : ascii) (s : string) : string := rstrip c (lstrip c s).

(** [s.split(sep)] for a one-character [sep]: never the empty list. *)
Fixpoint split (sep : ascii) (s : string) : list string :=
  match s with
  | EmptyString => [EmptyString]
  | String a s' =>
      if Ascii.eqb a sep then EmptyString :: split sep s'
      else match split sep s' with
           | h :: t => String a h :: t
           | [] => [String a EmptyString]
           end
  end.

(** [sep.join(parts)] *)
Fixpoint join (sep : string) (parts : list string) : string :=
  match parts with
  | [] => EmptyString
  | [x] => x
  | x :: rest => x ++ sep ++ join sep rest
  end.

(** [s.rfind(c)] for a one-character [c]: the last index, or -1. *)
Fixpoint rfind_from (c : ascii) (s : string) (i found : Z) : Z :=
  match s with
  | EmptyString => found
  | String a s' => rfind_from c s' (i + 1) (if Ascii.eqb a c then i else found)
  end.

Definition rfind (c : ascii) (s : string) : Z := rfind_from c s 0 (-1).

(** [s[:i]] and [s[i:]] for [0 <= i]. *)
Definition slice_to (i : Z) (s : string) : string := String.substring 0 (Z.to_nat i) s.
Definition slice_from (i : Z) (s : string) : string :=
  String.substring (Z.to_nat i) (String.length s - Z.to_nat i) s.

(** [s.endswith(suffix)] *)
Definition endswith (s suffix : string) : bool :=
  let n := String.length s in
  let k := String.length suffix in
  (Nat.leb k n && String.eqb (String.substring (n - k) k s) suffix)%bool.

(** [s.count(c)] for a one-character [c]. *)
Fixpoint count (c : ascii) (s : string) : nat :=
  match s with
  | EmptyString => O
  | String a s' => ((if Ascii.eqb a c then 1 else 0) + count c s')%nat
  end.

(** [a <= b] on [str]: the order of the code points, character by
    character, which on UTF-8 text is the order of the bytes. *)
Fixpoint leb (a b : string) : bool :=
  match a, b with
  | EmptyString, _ => true
  | String _ _, EmptyString => false
  | String x a', String y b' =>
      if Nat.ltb (nat_of_ascii x) (nat_of_ascii y) then true
      else if Nat.ltb (nat_of_ascii y) (nat_of_ascii x) then false
      else leb a' b'
  end.

End Str.

(** ** Lists of strings *)

(** [x in parts] *)
Definition str_in (x : string) (parts : list string) : bool :=
  existsb (String.eqb x) parts.

(** [parts.index(x)]: the first index at which [x] stands; [None] where
    Python raises a [ValueError]. *)
Fixpoint str_index (x : string) (parts : list string) : option nat :=
  match parts with
  | [] => None
  | p :: rest =>
      if String.eqb p x then Some O else option_map Datatypes.S (str_index x rest)
  end.

(** [[p for p in path_display.split("/") if p]] *)
Definition nonempty_parts (path_display : string) : list string :=
  List.filter (fun p => negb (String.eqb p EmptyString)) (Str.split "/"%char path_display).

(** ** Exceptions *)

(** The classes the scripts test for with [isinstance], and a case for every
    other subclass of [Exception], which carries the class name. An instance
    of a subclass of one of the named classes is an instance of that case. *)
Inductive exc_class : Type :=
| ConnectionResetError
| ConnectionAbortedError
| TimeoutError
| HttpError (resp_status : option Z)   (* [e.resp.status], when there is one *)
| RuntimeError
| TypeError
| OtherException (name : string).

(** An instance of [Exception]: its class and [str(e)]. *)
Record Exception : Type := mkException {
  exc_class_of : exc_class;
  exc_str : string
}.

(** What derives from [BaseException] without deriving from [Exception]. *)
Inductive interrupt_class : Type := KeyboardInterrupt | SystemExit | GeneratorExit.

(** Anything a Python call can raise. *)
Inductive raised : Type :=
| Err (e : Exception)
| Interrupt (c : interrupt_class) (msg : string).

(** [type(e).__name__] *)
Definition type_name (e : Exception) : string :=
  match exc_class_of e with
  | ConnectionResetError => "ConnectionResetError"
  | ConnectionAbortedError => "ConnectionAbortedError"
  | TimeoutError => "TimeoutError"
  | HttpError _ => "HttpError"
  | RuntimeError => "RuntimeError"
  | TypeError => "TypeError"
  | OtherException name => name
  end.

(** [isinstance(e, (ConnectionResetError, ConnectionAbortedError, TimeoutError))] *)
Definition isinstance_network (e : Exception) : bool :=
  match exc_class_of e with
  | ConnectionResetError | ConnectionAbortedError | TimeoutError => true
  | _ => false
  end.

(** [isinstance(e, HttpError)] *)
Definition isinstance_HttpError (e : Exception) : bool :=
  match exc_class_of e with
  | HttpError _ => true
  | _ => false
  end.

(** [getattr(getattr(e, "resp", None), "status", None)] *)
Definition resp_status_of (e : Exception) : option Z :=
  match exc_class_of e with
  | HttpError st => st
  | _ => None
  end.

(** [isinstance(e, KeyboardInterrupt)] for an [e] bound by [except Exception]:
    [KeyboardInterrupt] derives from [BaseException] only, so no instance of
    [Exception] is one. *)
Definition isinstance_KeyboardInterrupt (e : Exception) : bool := false.

(** [status in (429, 500, 502, 503, 504)]; [None] is in no tuple of ints. *)
Definition retryable_status (status : option Z) : bool :=
  match status with
  | Some st => existsb (Z.eqb st) [429; 500; 502; 503; 504]
  | None => false
  end.

(** The marker set of the specification. *)
Definition spec_markers : list string :=
  [ "connection reset"; "connection aborted"; "timed out"; "timeout";
    "temporarily unavailable"; "remote host"; "10053"; "10054"; "tls"; "ssl";
    "chunkedencodingerror"; "incompleteread" ].

(** ** Worlds and effects *)

(** What a run does that can be observed from outside. *)
Inductive event : Type :=
| EvExecute                  (* one invocation of the remote operation *)
| EvPrint (line : string)    (* [print(line)] *)
| EvSleep (seconds : Q).     (* [time.sleep(seconds)] *)

(** The result of running a piece of Python code. *)
Inductive outcome (A : Type) : Type :=
| Return (a : A)
| Raise (r : raised).
Arguments Return {A} a.
Arguments Raise {A} r.

(** The world a script runs in: the state [env] of what it talks to (remote
    service, file system, shared dictionaries), the generator behind
    [random.random()] as the sequence of the 53 random bits of each draw and
    the position in it, and the events so far, oldest first. *)
Record World (S : Type) : Type := mkWorld {
  env : S;
  rng : nat -> N;
  rng_pos : nat;
  trace : list event
}.
Arguments mkWorld {S} env rng rng_pos trace.
Arguments env {S} w.
Arguments rng {S} w.
Arguments rng_pos {S} w.
Arguments trace {S} w.

Definition M (S A : Type) : Type := World S -> outcome A * World S.

(** [random.random()] is [k / 2^53] for 53 random bits [k]: a float of the
    interval from 0 to 1, 1 excluded. *)
Definition unit_draw (k : N) : Q := (Z.of_N k mod 2 ^ 53) # (2 ^ 53).

(** What [time.sleep] raises for a negative argument. *)
Definition sleep_length_error : Exception :=
  mkException (OtherException "ValueError") "sleep length must be non-negative".

Section Effects.
Context {S : Type}.

Definition ret {A} (a : A) : M S A := fun w => (Return a, w).

Definition raise {A} (r : raised) : M S A := fun w => (Raise r, w).

Definition bind {A B} (m : M S A) (k : A -> M S B) : M S B :=
  fun w =>
    match m w with
    | (Return a, w') => k a w'
    | (Raise r, w') => (Raise r, w')
    end.

(** [try: body  except Exception as e: handler]: an [Interrupt] is not an
    instance of [Exception] and passes through. *)
Definition try_except {A} (body : M S A) (handler : Exception -> M S A) : M S A :=
  fun w =>
    match body w with
    | (Raise (Err e), w') => handler e w'
    | other => other
    end.

Definition emit (ev : event) : M S unit :=
  fun w => (Return tt, mkWorld (env w) (rng w) (rng_pos w) (trace w ++ [ev])).

Definition print (line : string) : M S unit := emit (EvPrint line).

(** [time.sleep(seconds)]: a negative length is refused. *)
Definition time_sleep (seconds : Q) : M S unit :=
  if Qle_bool 0 seconds then emit (EvSleep seconds)
  else raise (Err sleep_length_error).

(** [random.random()]: the next draw of the generator. *)
Definition random_random : M S Q :=
  fun w => (Return (unit_draw (rng w (rng_pos w))),
            mkWorld (env w) (rng w) (Datatypes.S (rng_pos w)) (trace w)).

(** Runs a step that only concerns the environment. *)
Definition on_env {A} (f : S -> outcome A * S) : M S A :=
  fun w =>
    let (r, s') := f (env w) in
    (r, mkWorld s' (rng w) (rng_pos w) (trace w)).

Definition get_env : M S S := fun w => (Return (env w), w).

Definition put_env (s : S) : M S unit :=
  fun w => (Return tt, mkWorld s (rng w) (rng_pos w) (trace w)).

End Effects.

Declare Scope py_scope.
Delimit Scope py_scope with py.
Notation "x <- m ;; k" := (bind m (fun x => k))
  (at level 100, m at next level, right associativity) : py_scope.
Notation "m ;; k" := (bind m (fun _ => k))
  (at level 100, right associativity) : py_scope.
Local Open Scope py_scope.

(** Counters read off the trace. *)
Definition is_execute (ev : event) : bool :=
  match ev with EvExecute => true | _ => false end.

Definition is_sleep (ev : event) : bool :=
  match ev with EvSleep _ => true | _ => false end.

Definition count_events (p : event -> bool) (t : list event) : Z :=
  Z.of_nat (List.length (List.filter p t)).

Definition calls {S} (w : World S) : Z := count_events is_execute (trace w).
Definition sleeps {S} (w : World S) : Z := count_events is_sleep (trace w).

(** [range(lo, hi)] *)
Definition py_range (lo hi : Z) : list Z :=
  List.map (fun i => lo + Z.of_nat i) (List.seq 0 (Z.to_nat (hi - lo))).

(** ** Backoff delay *)

(** [random.uniform(a, b)] is [a + (b - a) * random.random()]; [u] is the
    draw. *)
Definition uniform (a b u : Q) : Q := (a + (b - a) * u)%Q.

(** [expo] in [_sleep_with_backoff]. *)
Definition backoff_expo (base_delay : Q) (attempt : Z) (cap : Q) : Q :=
  Qmin cap (base_delay * inject_Z (2 ^ Z.max 0 (attempt - 1)))%Q.

(** The argument of [time.sleep] in [_sleep_with_backoff], for the draw [u] of
    the generator. *)
Definition backoff_delay (base_delay : Q) (attempt : Z) (cap : Q) (u : Q) : Q :=
  let expo := backoff_expo base_delay attempt cap in
  let jitter := uniform 0 ((25 # 100) * expo) u in
  (expo + jitter)%Q.

Definition default_cap : Q := 60.

(** [_sleep_with_backoff(base_delay, attempt, *, cap=60.0)], the same text in
    [dropbox_leftovers_producer.py] and [gdrive_design_compare.py]. *)
Definition _sleep_with_backoff {S} (base_delay : Q) (attempt : Z) (cap : Q) : M S unit :=
  u <- random_random ;;
  time_sleep (backoff_delay base_delay attempt cap u).

(** ** The retrying executor *)

(** [_gdrive_execute_with_retry(request, *, desc, max_retries, base_delay)]:
    [dropbox_leftovers_producer.py] and [gdrive_design_compare.py] hold the
    same text, each with its own [_is_transient_error]. [request.execute()] is
    any step [request_execute] on the environment. *)
Section GdriveExecuteWithRetry.
Context {S V : Type}.
Variable _is_transient_error : Exception -> bool.
Variable request_execute : S -> outcome V * S.

(** [request.execute()] *)
Definition execute : M S V := emit EvExecute ;; on_env request_execute.

Definition retry_line (desc : string) (attempt max_retries : Z) (e : Exception) : string :=
  "[GDRIVE-RETRY] " ++ desc ++ " 시도 " ++ Str.of_Z attempt ++ "/" ++ Str.of_Z max_retries
    ++ " 실패: " ++ type_name e ++ ": " ++ exc_str e.

(** [raise last_err]; raising [None] is a [TypeError]. *)
Definition raise_last {A} (last_err : option Exception) : M S A :=
  match last_err with
  | Some e => raise (Err e)
  | None => raise (Err (mkException TypeError "exceptions must derive from BaseException"))
  end.

(** The [for attempt in ...] loop over the attempts still to make. *)
Fixpoint gdrive_retry_loop (desc : string) (max_retries base_delay : Z)
    (attempts : list Z) (last_err : option Exception) : M S V :=
  match attempts with
  | [] => raise_last last_err
  | attempt :: rest =>
      try_except execute (fun e =>
        if isinstance_KeyboardInterrupt e then raise (Err e)
        else
          print (retry_line desc attempt max_retries e) ;;
          if (attempt >=? max_retries)%Z || negb (_is_transient_error e)
          then raise (Err e)
          else
            _sleep_with_backoff (inject_Z base_delay) attempt default_cap ;;
            gdrive_retry_loop desc max_retries base_delay rest (Some e))
  end.

Definition _gdrive_execute_with_retry (desc : string) (max_retries base_delay : Z) : M S V :=
  gdrive_retry_loop desc max_retries base_delay (py_range 1 (max_retries + 1)) None.

End GdriveExecuteWithRetry.

(** ** The Drive service *)

(** One entry of the remote drive, with the fields the scripts read. [f_size]
    is the number in the ["size"] field; folders and native documents have
    none. *)
Record DriveFile : Type := mkDriveFile {
  f_id : string;
  f_name : string;
  f_mimeType : string;
  f_parents : list string;
  f_trashed : bool;
  f_size : option Z
}.

Definition FOLDER_MIMETYPE : string := "application/vnd.google-apps.folder".

(** The search expression [q] of [files().list]: the scripts build
    [name = '..' and mimeType = '..' and '..' in parents and trashed = false],
    with or without the [mimeType] clause. *)
Record Query : Type := mkQuery {
  q_name : string;
  q_mimeType : option string;
  q_parent : string
}.

(** [_escape_drive_q] *)
Definition _escape_drive_q (s : string) : string := Str.escape_quotes s.

(** The text of [q] as the f-strings build it; [name_q] is the escaped name. *)
Definition query_text (name_q : string) (q : Query) : string :=
  "name = '" ++ name_q ++ "' and " ++
  match q_mimeType q with
  | Some mt => "mimeType = '" ++ mt ++ "' and "
  | None => EmptyString
  end ++
  "'" ++ q_parent q ++ "' in parents and trashed = false".

(** What the service answers to a search: the entries that satisfy every
    clause, in the order the drive lists them. *)
Definition matches (q : Query) (f : DriveFile) : bool :=
  String.eqb (f_name f) (q_name q)
  && match q_mimeType q with
     | Some mt => String.eqb (f_mimeType f) mt
     | None => true
     end
  && existsb (String.eqb (q_parent q)) (f_parents f)
  && negb (f_trashed f).

Definition run_query (drive : list DriveFile) (q : Query) : list DriveFile :=
  List.filter (matches q) drive.

(** The environment of the reconciliation check: the content of the drive,
    the failures the network will inject into the coming requests (one entry
    per [request.execute()], [None] for a request that goes through; past the
    end every request goes through), and the [folder_cache] dictionary. *)
Record DriveEnv : Type := mkDriveEnv {
  drive : list DriveFile;
  faults : list (option raised);
  folder_cache : gmap (string * string) (option string)
}.

(** [execute()] on the request that [service.files().list] builds for [q]. *)
Definition list_request (q : Query) (s : DriveEnv) : outcome (list DriveFile) * DriveEnv :=
  match faults s with
  | Some r :: rest => (Raise r, mkDriveEnv (drive s) rest (folder_cache s))
  | None :: rest => (Return (run_query (drive s) q), mkDriveEnv (drive s) rest (folder_cache s))
  | [] => (Return (run_query (drive s) q), s)
  end.

(** Truth value of an [Optional[str]]: [None] and the empty string are false. *)
Definition truthy (o : option string) : bool :=
  match o with
  | Some id => negb (String.eqb id EmptyString)
  | None => false
  end.

(** ** [os.path.splitext] *)

Module OsPath.

(** The [while filenameIndex < dotIndex] loop of [genericpath._splitext]:
    is there a character other than [extsep] among the [count] characters
    from [filenameIndex] on? *)
Fixpoint has_non_dot (p : string) (extsep : ascii) (filenameIndex count : nat) : bool :=
  match count with
  | O => false
  | Datatypes.S k =>
      match String.get filenameIndex p with
      | Some a =>
          if Ascii.eqb a extsep then has_non_dot p extsep (Datatypes.S filenameIndex) k
          else true
      | None => true
      end
  end.

(** [genericpath._splitext(p, sep, altsep, extsep)] *)
Definition _splitext (p : string) (sep : ascii) (altsep : option ascii) (extsep : ascii)
    : string * string :=
  let sepIndex := Str.rfind sep p in
  let sepIndex :=
    match altsep with
    | Some alt => Z.max sepIndex (Str.rfind alt p)
    | None => sepIndex
    end in
  let dotIndex := Str.rfind extsep p in
  if (dotIndex >? sepIndex)%Z
     && has_non_dot p extsep (Z.to_nat (sepIndex + 1)) (Z.to_nat (dotIndex - (sepIndex + 1)))
  then (Str.slice_to dotIndex p, Str.slice_from dotIndex p)
  else (p, EmptyString).

(** [posixpath.splitext] and [ntpath.splitext] *)
Definition posix_splitext (p : string) : string * string :=
  _splitext p "/"%char None "."%char.

Definition nt_splitext (p : string) : string * string :=
  _splitext p "\"%char (Some "/"%char) "."%char.

End OsPath.

(** ** The local file system *)

(** The regular files by path, and the state [remote] of the service the
    bytes come from. Directories are not files: [mkdir] leaves [files] as it
    is. *)
Record FsEnv (R : Type) : Type := mkFsEnv {
  files : gmap string (list byte);
  remote : R
}.
Arguments mkFsEnv {R} files remote.
Arguments files {R} f.
Arguments remote {R} f.

Section Paths.
Context {R : Type}.

(** [p.with_suffix(p.suffix + ".part")]: the suffix is replaced by itself
    followed by [.part], which appends [.part] to the path. *)
Definition with_part_suffix (p : string) : string := p ++ ".part".

(** [p.parent.mkdir(parents=True, exist_ok=True)] *)
Definition mkdir_parents (p : string) : M (FsEnv R) unit := ret tt.

(** [p.exists()] *)
Definition path_exists (p : string) : M (FsEnv R) bool :=
  s <- get_env ;; ret (bool_decide (is_Some (files s !! p))).

Definition file_not_found (p : string) : raised :=
  Err (mkException (OtherException "FileNotFoundError")
         ("[Errno 2] No such file or directory: '" ++ p ++ "'")).

(** [p.unlink()] *)
Definition path_unlink (p : string) : M (FsEnv R) unit :=
  s <- get_env ;;
  match files s !! p with
  | Some _ => put_env (mkFsEnv (delete p (files s)) (remote s))
  | None => raise (file_not_found p)
  end.

(** [src.replace(dst)]: [dst] takes the content of [src], which is gone. *)
Definition path_replace (src dst : string) : M (FsEnv R) unit :=
  s <- get_env ;;
  match files s !! src with
  | Some content => put_env (mkFsEnv (<[dst := content]> (delete src (files s))) (remote s))
  | None => raise (file_not_found src)
  end.

(** [p.stat().st_size] *)
Definition path_size (p : string) : M (FsEnv R) Z :=
  s <- get_env ;;
  match files s !! p with
  | Some content => ret (Z.of_nat (List.length content))
  | None => raise (file_not_found p)
  end.

(** [io.FileIO(p, mode="wb")]: [p] is created, or emptied. *)
Definition open_wb (p : string) : M (FsEnv R) unit :=
  s <- get_env ;; put_env (mkFsEnv (<[p := []]> (files s)) (remote s)).

(** [fh.write(data)] on the file opened at [p]. *)
Definition write_bytes (p : string) (data : list byte) : M (FsEnv R) unit :=
  s <- get_env ;;
  put_env (mkFsEnv (<[p := (default [] (files s !! p) ++ data)%list]> (files s)) (remote s)).

End Paths.

(** What one call of the Dropbox SDK's [files_download_to_file] does: the
    whole content arrives, or the call raises after having written nothing
    ([None]) or some bytes to the download path. *)
Inductive transfer : Type :=
| Complete (content : list byte)
| Broken (written : option (list byte)) (err : raised).

(** ** The error classifier *)

(** [_is_transient_error] of [dropbox_leftovers_producer.py]. *)
Module DropboxLeftoversProducer.

Definition transient_markers : list string :=
  [ "connection reset";
    "connection aborted";
    "timed out";
    "timeout";
    "temporarily unavailable";
    "remote host";
    "10053";
    "10054";
    "tls";
    "ssl";
    "chunkedencodingerror" ].

Definition _is_transient_error (e : Exception) : bool :=
  if isinstance_network e then true
  else if (isinstance_HttpError e && retryable_status (resp_status_of e))%bool then true
  else
    let msg := Str.lower (exc_str e) in
    existsb (fun m => Str.contains m msg) transient_markers.

Definition _gdrive_execute_with_retry {S V : Type} :=
  @_gdrive_execute_with_retry S V _is_transient_error.

(** [drive_list]; [name_q] is the escaped name that went into the text of
    [q]. The [service] is the drive of the environment; [fields] selects which
    fields of the entries come back, and the scopes [drive_id] adds do not
    change which entries of [drive] answer. *)
Definition drive_list (name_q : string) (q : Query) (drive_id : option string)
    (max_retries base_delay : Z) : M DriveEnv (list DriveFile) :=
  _gdrive_execute_with_retry (list_request q)
    ("list q=" ++ Str.take_chars 80 (query_text name_q q) ++ "...")
    max_retries base_delay.

Definition duplicate_folder_line (name parent_id : string) (count : nat) : string :=
  "[WARN] 동일 폴더명 중복 감지: name=" ++ name ++ " parent=" ++ parent_id
    ++ " count=" ++ Str.of_Z (Z.of_nat count).

Definition get_folder_if_exists (parent_id name : string) (drive_id : option string)
    (max_retries base_delay : Z) : M DriveEnv (option string) :=
  let name_q := _escape_drive_q name in
  let query := mkQuery name (Some FOLDER_MIMETYPE) parent_id in
  files <- drive_list name_q query drive_id max_retries base_delay ;;
  match files with
  | f :: _ =>
      (if Nat.ltb 1 (List.length files)
       then print (duplicate_folder_line name parent_id (List.length files))
       else ret tt) ;;
      ret (Some (f_id f))
  | [] => ret None
  end.

Definition cache_get (key : string * string) : M DriveEnv (option (option string)) :=
  s <- get_env ;; ret (folder_cache s !! key).

Definition cache_set (key : string * string) (v : option string) : M DriveEnv unit :=
  s <- get_env ;;
  put_env (mkDriveEnv (drive s) (faults s) (<[key := v]> (folder_cache s))).

Fixpoint get_path_if_exists_cached (current_id : string) (parts : list string)
    (drive_id : option string) (max_retries base_delay : Z) : M DriveEnv (option string) :=
  match parts with
  | [] => ret (Some current_id)
  | name :: rest =>
      let key := (current_id, name) in
      cached <- cache_get key ;;
      folder_id <-
        match cached with
        | Some v => ret v
        | None =>
            v <- get_folder_if_exists current_id name drive_id max_retries base_delay ;;
            cache_set key v ;;
            ret v
        end ;;
      if negb (truthy folder_id) then ret None
      else
        match folder_id with
        | Some id => get_path_if_exists_cached id rest drive_id max_retries base_delay
        | None => ret None
        end
  end.

(** [int(f.get("size", 0) or 0)] *)
Definition size_of (f : DriveFile) : Z :=
  match f_size f with
  | Some n => n
  | None => 0
  end.

Definition find_file_in_folder_with_size (parent_id filename : string)
    (drive_id : option string) (max_retries base_delay : Z)
    : M DriveEnv (option (string * Z)) :=
  let filename_q := _escape_drive_q filename in
  let query := mkQuery filename None parent_id in
  files <- drive_list filename_q query drive_id max_retries base_delay ;;
  match files with
  | [] => ret None
  | f :: _ => ret (Some (f_id f, size_of f))
  end.

(** [gdrive_has_same_file_strict]; the dictionary [folder_cache] the caller
passes, and shares between calls, is the one of the environment. *)
Definition gdrive_has_same_file_strict (root_id : string) (drive_id : option string)
    (folder_parts : list string) (filename : string) (expected_size_bytes : Z)
    (max_retries base_delay : Z) : M DriveEnv (bool * string) :=
  parent_id <- get_path_if_exists_cached root_id folder_parts drive_id max_retries base_delay ;;
  match parent_id with
  | Some parent_id' =>
      if negb (truthy parent_id) then ret (false, "folder_missing")
      else
        found <- find_file_in_folder_with_size parent_id' filename drive_id
                   max_retries base_delay ;;
        match found with
        | None => ret (false, "file_missing")
        | Some (_, gsize) =>
            if (gsize <=? 0)%Z then ret (false, "size_unknown")
            else if (gsize =? expected_size_bytes)%Z then ret (true, "same_name_and_size")
            else ret (false, "size_mismatch(gdrive=" ++ Str.of_Z gsize ++ ",dropbox="
                               ++ Str.of_Z expected_size_bytes ++ ")")
        end
  | None => ret (false, "folder_missing")
  end.

Definition MAX_RETRIES : Z := 3.
Definition RETRY_DELAY_SECONDS : Z := 5.

Section SafeDownload.
Context {R : Type}.
(** What the Dropbox service does with a download of [path], from its
    state. *)
Variable files_download : R -> string -> transfer * R.

(** [dbx.files_download_to_file(download_path=.., path=..)]: only the file
    at [download_path] is written. *)
Definition files_download_to_file (download_path path : string) : M (FsEnv R) unit :=
  emit EvExecute ;;
  on_env (fun s =>
    let (t, r') := files_download (remote s) path in
    match t with
    | Complete content =>
        (Return tt, mkFsEnv (<[download_path := content]> (files s)) r')
    | Broken (Some partial) err =>
        (Raise err, mkFsEnv (<[download_path := partial]> (files s)) r')
    | Broken None err =>
        (Raise err, mkFsEnv (files s) r')
    end).

Definition download_retry_line (dbx_path : string) (attempt retries : Z) (e : Exception)
    : string :=
  "[DL-RETRY] " ++ dbx_path ++ " 시도 " ++ Str.of_Z attempt ++ "/" ++ Str.of_Z retries
    ++ " 실패: " ++ type_name e ++ ": " ++ exc_str e.

(** The [RuntimeError] of the last line; [type(None).__name__] is
    [NoneType] and [str(None)] is [None]. *)
Definition download_failed (dbx_path : string) (last_err : option Exception) : Exception :=
  mkException RuntimeError
    ("Dropbox 다운로드 실패: " ++ dbx_path ++ " (" ++
     match last_err with
     | Some e => type_name e ++ ": " ++ exc_str e
     | None => "NoneType: None"
     end ++ ")").

(** The [for attempt in ...] loop and the [raise] after it. *)
Fixpoint download_loop (dbx_path tmp_path out_path : string) (retries base_delay_seconds : Z)
    (attempts : list Z) (last_err : option Exception) : M (FsEnv R) unit :=
  match attempts with
  | [] => raise (Err (download_failed dbx_path last_err))
  | attempt :: rest =>
      try_except
        (files_download_to_file tmp_path dbx_path ;;
         path_replace tmp_path out_path)
        (fun e =>
           print (download_retry_line dbx_path attempt retries e) ;;
           if (attempt >=? retries)%Z || negb (_is_transient_error e)
           then raise (Err (download_failed dbx_path (Some e)))
           else
             _sleep_with_backoff (inject_Z base_delay_seconds) attempt default_cap ;;
             download_loop dbx_path tmp_path out_path retries base_delay_seconds
               rest (Some e))
  end.

Definition safe_download_to_file (dbx_path out_path : string)
    (retries base_delay_seconds : Z) : M (FsEnv R) unit :=
  mkdir_parents out_path ;;
  let tmp_path := with_part_suffix out_path in
  tmp_exists <- path_exists tmp_path ;;
  (if tmp_exists : bool
   then try_except (path_unlink tmp_path) (fun _ => ret tt)
   else ret tt) ;;
  download_loop dbx_path tmp_path out_path retries base_delay_seconds
    (py_range 1 (retries + 1)) None.

End SafeDownload.

(** [should_skip]; [path_suffix] is [Path(path_display).suffix] of the
    platform and the Python version at hand. *)
Section ShouldSkip.
Variable path_suffix : string -> string.

Definition should_skip (path_display : string) (include_substr exclude_substr : option string)
    (skip_closed : bool) (skip_extensions : list string) : bool :=
  if skip_closed && Str.contains "(폐강" path_display then true
  else if match include_substr with
          | Some inc => truthy include_substr && negb (Str.contains inc path_display)
          | None => false
          end
  then true
  else if match exclude_substr with
          | Some exc => truthy exclude_substr && Str.contains exc path_display
          | None => false
          end
  then true
  else
    let suffix := Str.lower (path_suffix path_display) in
    if negb (String.eqb suffix EmptyString)
       && str_in suffix (List.map Str.lower skip_extensions)
    then true
    else false.

End ShouldSkip.

End DropboxLeftoversProducer.

(** [_is_transient_error] of [gdrive_design_compare.py]: the same text with
    one more marker. *)
Module GdriveDesignCompare.

Definition transient_markers : list string :=
  [ "connection reset";
    "connection aborted";
    "timed out";
    "timeout";
    "temporarily unavailable";
    "remote host";
    "10053";
    "10054";
    "tls";
    "ssl";
    "chunkedencodingerror";
    "incompleteread" ].

Definition _is_transient_error (e : Exception) : bool :=
  if isinstance_network e then true
  else if (isinstance_HttpError e && retryable_status (resp_status_of e))%bool then true
  else
    let msg := Str.lower (exc_str e) in
    existsb (fun m => Str.contains m msg) transient_markers.

Definition _gdrive_execute_with_retry {S V : Type} :=
  @_gdrive_execute_with_retry S V _is_transient_error.

(** [_norm_rel_folder] *)
Definition _norm_rel_folder (folder : string) : string :=
  if str_in folder [EmptyString; "."; "./"] then EmptyString else folder.

(** The [for p in parts[:-1]] loop of [accumulate_folder_counts]: [cur] grows
    by one segment per round and its join is appended to [folders]. *)
Fixpoint folder_prefixes (cur parts : list string) : list string :=
  match parts with
  | [] => []
  | p :: rest =>
      let cur := (cur ++ [p])%list in
      Str.join "/" cur :: folder_prefixes cur rest
  end.

(** [folders] in [accumulate_folder_counts]. *)
Definition folders_above (rel_path : string) : list string :=
  let parts := Str.split "/"%char rel_path in
  EmptyString ::
    (if Nat.ltb 1 (List.length parts) then folder_prefixes [] (List.removelast parts)
     else []).

(** [d.get(k, 0)] *)
Definition dict_get (d : gmap string Z) (k : string) : Z := default 0 (d !! k).

(** One round of the [for f in folders] loop on the two dictionaries. *)
Definition count_folder (is_ok : bool) (dicts : gmap string Z * gmap string Z) (f : string)
    : gmap string Z * gmap string Z :=
  let (total, ok) := dicts in
  let f := _norm_rel_folder f in
  let total := <[f := dict_get total f + 1]> total in
  let ok := if is_ok then <[f := dict_get ok f + 1]> ok else ok in
  (total, ok).

(** [accumulate_folder_counts]: the two dictionaries, which the function
    updates in place, are returned as they are after the call. They are two
    objects, as in [main]. *)
Definition accumulate_folder_counts (rel_path : string) (total ok : gmap string Z)
    (is_ok : bool) : gmap string Z * gmap string Z :=
  List.fold_left (count_folder is_ok) (folders_above rel_path) (total, ok).

(** The sort key [(x.count("/"), x)] of [compress_highest_folders], as the
    order on the folders it induces. *)
Definition folder_key_leb (x y : string) : bool :=
  let cx := Str.count "/"%char x in
  let cy := Str.count "/"%char y in
  Nat.ltb cx cy || (Nat.eqb cx cy && Str.leb x y).

Definition folder_key_le (x y : string) : Prop := folder_key_leb x y = true.

#[global] Instance folder_key_le_dec (x y : string) : Decision (folder_key_le x y) :=
  bool_eq_dec (folder_key_leb x y) true.

(** The [any(...)] of the loop: [f] is one of [kept] or lies under one. *)
Definition under_kept (kept : list string) (f : string) : bool :=
  existsb (fun k => String.eqb f k
                    || (negb (String.eqb k EmptyString) && String.prefix (k ++ "/") f))
    kept.

(** One round of the [for f in ordered] loop. *)
Definition keep_folder (kept : list string) (f : string) : list string :=
  if str_in EmptyString kept && negb (String.eqb f EmptyString) then kept
  else if under_kept kept f then kept
  else (kept ++ [f])%list.

(** [compress_highest_folders] *)
Definition compress_highest_folders (full_folders : gset string) : list string :=
  let normalized : gset string := set_map _norm_rel_folder full_folders in
  let ordered := merge_sort folder_key_le (elements normalized) in
  List.fold_left keep_folder ordered [].

Definition GOOGLE_APP_PREFIX : string := "application/vnd.google-apps.".

(** What [main] reads of a Dropbox file entry: [m.path_display] and
    [int(m.size)]. *)
Record DropboxFile : Type := mkDropboxFile {
  path_display : string;
  size : Z
}.

Record FileMatch : Type := mkFileMatch {
  rel_path : string;
  dropbox_size : Z;
  status : string;
  gdrive_size : option Z;
  gdrive_file_ids : string;
  note : string
}.

Record FolderMatch : Type := mkFolderMatch {
  rel_folder : string;
  dropbox_exists : bool;
  gdrive_exists : bool;
  file_total_under : Z;
  file_ok_under : Z;
  deletable : bool;
  folder_note : string
}.

(** An entry of [gdrive_index]: the [(fileId, size_bytes, mimeType)] of an
    item of the drive. *)
Definition Candidate : Type := (string * option Z * string)%type.

(** The verdict of step 3 of [main] on one file, from
    [gdrive_index.get(rel)]: the status, [gdrive_size], [gdrive_file_ids] and
    note of its [FileMatch], and the [is_ok] that the branch passes to
    [accumulate_folder_counts]. *)
Definition judge_file (expected : Z) (candidates : option (list Candidate))
    : string * option Z * string * string * bool :=
  match candidates with
  | None | Some [] =>
      ("MISSING", None, EmptyString, "not_found_in_gdrive_by_relpath", false)
  | Some ((file_id, gsize, mime) :: others) =>
      let candidates := (file_id, gsize, mime) :: others in
      if Nat.ltb 1 (List.length candidates)
      then ("AMBIGUOUS", None, Str.join ";" (List.map (fun c => fst (fst c)) candidates),
            "multiple_items_same_relpath(count="
              ++ Str.of_Z (Z.of_nat (List.length candidates)) ++ ")",
            false)
      else if String.prefix GOOGLE_APP_PREFIX mime
      then ("GDRIVE_GOOGLE_APP", gsize, file_id, "gdrive_mime=" ++ mime, false)
      else
        match gsize with
        | None => ("GDRIVE_SIZE_UNKNOWN", gsize, file_id, "gdrive_size_missing", false)
        | Some g =>
            if (g <=? 0)%Z
            then ("GDRIVE_SIZE_UNKNOWN", gsize, file_id, "gdrive_size_missing", false)
            else if (g =? expected)%Z
            then ("OK", gsize, file_id, "same_relpath_and_size", true)
            else ("SIZE_MISMATCH", gsize, file_id,
                  "size_mismatch(gdrive=" ++ Str.of_Z g ++ ",dropbox=" ++ Str.of_Z expected
                    ++ ")",
                  false)
        end
  end.

(** The verdict of step 4 of [main] on one folder. *)
Definition judge_folder (include_empty_folders allow_root_delete : bool) (folder : string)
    (total ok : Z) : bool * string :=
  if (total =? 0)%Z
  then
    if include_empty_folders
    then
      if String.eqb folder EmptyString && negb allow_root_delete
      then (false, "empty_but_root_delete_not_allowed")
      else (true, "empty_under_dropbox (no files under this folder)")
    else (false, "empty_but_excluded_by_flag")
  else
    if (total =? ok)%Z
    then
      if String.eqb folder EmptyString && negb allow_root_delete
      then (false, "all_ok_but_root_delete_not_allowed")
      else (true, "all_files_ok_under_folder")
    else (false, "not_all_ok(total=" ++ Str.of_Z total ++ ",ok=" ++ Str.of_Z ok ++ ")").

(** Steps 3 to 5 of [main]: the comparison of the files, the verdict on the
    folders and the compression of the folders that can be deleted.
    [normalize_rel_under_root] is the function of that name, which goes
    through [pathlib] and raises when the path does not lie under the root;
    [include_empty_folders] is the flag as step 4 reads it ([main] has set it
    to [True] by then); the tallies of the summary, printed only, are left
    out. *)
Section Main.
Variable normalize_rel_under_root : string -> string -> string + Exception.
Variable dropbox_root : string.
Variable gdrive_index : gmap string (list Candidate).
Variable gdrive_folders : gset string.
Variables include_empty_folders allow_root_delete : bool.

(** One round of [for m in dropbox_files], on [file_results] and the two
    counters. *)
Definition audit_file (st : list FileMatch * (gmap string Z * gmap string Z))
    (m : DropboxFile) : list FileMatch * (gmap string Z * gmap string Z) :=
  let (file_results, counts) := st in
  match normalize_rel_under_root (path_display m) dropbox_root with
  | inl rel =>
      let expected := size m in
      let '(status, gsize, ids, note, is_ok) := judge_file expected (gdrive_index !! rel) in
      ((file_results ++ [mkFileMatch rel expected status gsize ids note])%list,
       accumulate_folder_counts rel (fst counts) (snd counts) is_ok)
  | inr e =>
      ((file_results
        ++ [mkFileMatch (path_display m) (size m) "ERROR" None EmptyString
              (type_name e ++ ": " ++ exc_str e)])%list,
       counts)
  end.

(** One round of the loop over the folders, on [folder_results] and
    [deletable_folders]. *)
Definition audit_folder (total_by_folder ok_by_folder : gmap string Z)
    (st : list FolderMatch * gset string) (folder : string)
    : list FolderMatch * gset string :=
  let (folder_results, deletable_folders) := st in
  let total := dict_get total_by_folder folder in
  let ok := dict_get ok_by_folder folder in
  let g_exists := bool_decide (_norm_rel_folder folder ∈ gdrive_folders) in
  let (deletable, note) :=
    judge_folder include_empty_folders allow_root_delete folder total ok in
  ((folder_results
    ++ [mkFolderMatch folder true g_exists total ok deletable
          (if g_exists then note else note ++ " | gdrive_folder_missing")])%list,
   if deletable then {[folder]} ∪ deletable_folders else deletable_folders).

Definition main_steps_3_to_5 (dropbox_files : list DropboxFile) (dropbox_folders : gset string)
    : list FileMatch * list FolderMatch * list string :=
  let total_by_folder : gmap string Z := gset_to_gmap 0 dropbox_folders in
  let ok_by_folder : gmap string Z := gset_to_gmap 0 dropbox_folders in
  let '(file_results, (total_by_folder, ok_by_folder)) :=
    List.fold_left audit_file dropbox_files ([], (total_by_folder, ok_by_folder)) in
  let normalized : gset string := set_map _norm_rel_folder dropbox_folders in
  let ordered := merge_sort folder_key_le (elements normalized) in
  let '(folder_results, deletable_folders) :=
    List.fold_left (audit_folder total_by_folder ok_by_folder) ordered ([], ∅) in
  let compressed := compress_highest_folders deletable_folders in
  (file_results, folder_results, compressed).

End Main.

End GdriveDesignCompare.


(** [gdrive_encoded_downloader.py] *)
Module GdriveEncodedDownloader.

(** One call of [downloader.next_chunk()]: a chunk arrives and is written to
    the open file, or the call raises. The transfer is done with the chunk
    after which none is left. *)
Inductive chunk_step : Type :=
| ChunkOk (data : list byte)
| ChunkFail (err : raised).

Section DownloadFile.
Context {R : Type}.
(** [service.files().get_media(fileId=..)] with the [MediaIoBaseDownload]
    on it: what the coming calls of [next_chunk] will do. *)
Variable service : string -> list chunk_step.

(** The [while not done] loop on the file opened at [tmp_path]; the
    progress lines between chunks are console output only. *)
Fixpoint chunk_loop (tmp_path : string) (steps : list chunk_step) : M (FsEnv R) unit :=
  match steps with
  | [] => emit EvExecute
  | ChunkOk data :: rest =>
      emit EvExecute ;;
      write_bytes tmp_path data ;;
      match rest with
      | [] => ret tt
      | _ => chunk_loop tmp_path rest
      end
  | ChunkFail err :: _ =>
      emit EvExecute ;;
      raise err
  end.

Definition download_body (file_id target_path : string) : M (FsEnv R) unit :=
  let tmp_path := with_part_suffix target_path in
  tmp_exists <- path_exists tmp_path ;;
  (if tmp_exists : bool then path_unlink tmp_path else ret tt) ;;
  let request := service file_id in
  open_wb tmp_path ;;
  chunk_loop tmp_path request ;;
  path_replace tmp_path target_path ;;
  print ("[DONE] " ++ target_path).

Definition download_file (file_id target_path : string) (size_bytes : option Z)
    (chunksize : Z) (skip_existing : bool) : M (FsEnv R) unit :=
  mkdir_parents target_path ;;
  target_exists <- (if skip_existing then path_exists target_path else ret false) ;;
  same_size <-
    match size_bytes with
    | Some size =>
        if target_exists : bool
        then st_size <- path_size target_path ;; ret (st_size =? size)%Z
        else ret false
    | None => ret false
    end ;;
  if same_size : bool
  then print ("[SKIP] exists: " ++ target_path)
  else download_body file_id target_path.

End DownloadFile.

End GdriveEncodedDownloader.

(** [video_producer.py] *)
Module VideoProducer.

Definition GDRIVE_API_MAX_RETRIES : Z := 3.
Definition GDRIVE_API_RETRY_DELAY : Z := 5.

Section ExecuteGdriveWithRetry.
Context {S V : Type}.
Variable request_execute : S -> outcome V * S.

Definition retry_line (desc : string) (attempt : Z) (e : Exception) : string :=
  "[GDRIVE-RETRY] " ++ desc ++ " 시도 " ++ Str.of_Z attempt ++ "/"
    ++ Str.of_Z GDRIVE_API_MAX_RETRIES ++ " 실패: " ++ exc_str e.

Definition give_up_line (desc : string) : string :=
  "[GDRIVE-RETRY] " ++ desc ++ " 재시도 한계 도달 → 예외 전파".

(** The [for attempt in ...] loop; after the last attempt the function
    ends without a [return], which returns [None]. *)
Fixpoint execute_loop (desc : string) (attempts : list Z) : M S (option V) :=
  match attempts with
  | [] => ret None
  | attempt :: rest =>
      try_except (v <- execute request_execute ;; ret (Some v)) (fun e =>
        if isinstance_KeyboardInterrupt e then raise (Err e)
        else
          print (retry_line desc attempt e) ;;
          if (attempt >=? GDRIVE_API_MAX_RETRIES)%Z
          then print (give_up_line desc) ;; raise (Err e)
          else
            time_sleep (inject_Z GDRIVE_API_RETRY_DELAY) ;;
            execute_loop desc rest)
  end.

Definition _execute_gdrive_with_retry (desc : string) : M S (option V) :=
  execute_loop desc (py_range 1 (GDRIVE_API_MAX_RETRIES + 1)).

End ExecuteGdriveWithRetry.

Definition final_cut_folder : string := "최종편집영상".

(** [flat_name_from_dropbox_path], the same text in [video_producer.py] and
    [encode_local_videos.py]. [os_path_splitext] is [os.path.splitext] of
    the platform; unpacking [*dirs, filename] from an empty list would raise,
    which is the [None] here. *)
Section FlatName.
Variable os_path_splitext : string -> string * string.

Definition unpack_last (parts : list string) : option (list string * string) :=
  match List.rev parts with
  | filename :: rev_dirs => Some (List.rev rev_dirs, filename)
  | [] => None
  end.

Definition flat_name_from_dropbox_path (path_display : string) : option string :=
  let p := Str.strip "/"%char path_display in
  let parts := Str.split "/"%char p in
  match unpack_last parts with
  | Some (dirs, filename) =>
      let (name_without_ext, _) := os_path_splitext filename in
      let dirs := List.filter (fun d => negb (String.eqb d final_cut_folder)) dirs in
      let all_parts := (dirs ++ [name_without_ext])%list in
      let flat := Str.join "_" all_parts in
      Some (flat ++ ".mp4")
  | None => None
  end.

End FlatName.

Definition value_error (msg : string) : raised :=
  Err (mkException (OtherException "ValueError") msg).

(** [encoded_rel_folder_from_dropbox]; [parts.index] cannot fail after the
    test before it. *)
Definition encoded_rel_folder_from_dropbox (path_display : string) : outcome (list string) :=
  let parts := nonempty_parts path_display in
  if negb (str_in final_cut_folder parts)
  then Raise (value_error ("'최종편집영상' 폴더를 찾을 수 없습니다: " ++ path_display))
  else
    match str_index final_cut_folder parts with
    | Some idx =>
        let prefix := take idx parts in
        Return (prefix ++ ["encoded"])%list
    | None => Raise (value_error "'최종편집영상' is not in list")
    end.

(** [drive_list] of [video_producer.py]: the request goes through the
    executor of the file, which may end without a result. *)
Definition drive_list (name_q : string) (q : Query) (drive_id : option string)
    : M DriveEnv (option (list DriveFile)) :=
  _execute_gdrive_with_retry (list_request q)
    ("list q=" ++ Str.take_chars 80 (query_text name_q q) ++ "...").

(** [res.get("files", [])]; on [None] the attribute lookup raises. *)
Definition files_of (res : option (list DriveFile)) : M DriveEnv (list DriveFile) :=
  match res with
  | Some files => ret files
  | None =>
      raise (Err (mkException (OtherException "AttributeError")
                    "'NoneType' object has no attribute 'get'"))
  end.

Definition duplicate_line (kind name parent_id : string) (count : nat) : string :=
  "[WARN] 동일 " ++ kind ++ " 중복 감지: name=" ++ name ++ " parent=" ++ parent_id
    ++ " count=" ++ Str.of_Z (Z.of_nat count).

Definition get_folder_if_exists (parent_id name : string) (drive_id : option string)
    : M DriveEnv (option string) :=
  let name_q := _escape_drive_q name in
  let query := mkQuery name (Some FOLDER_MIMETYPE) parent_id in
  res <- drive_list name_q query drive_id ;;
  files <- files_of res ;;
  match files with
  | f :: _ =>
      (if Nat.ltb 1 (List.length files)
       then print (duplicate_line "폴더명" name parent_id (List.length files))
       else ret tt) ;;
      ret (Some (f_id f))
  | [] => ret None
  end.

(** [get_path_if_exists]: the [for name in parts] loop from [current_id]
    on. *)
Fixpoint get_path_if_exists (current_id : string) (parts : list string)
    (drive_id : option string) : M DriveEnv (option string) :=
  match parts with
  | [] => ret (Some current_id)
  | name :: rest =>
      folder_id <- get_folder_if_exists current_id name drive_id ;;
      if negb (truthy folder_id) then ret None
      else
        match folder_id with
        | Some id => get_path_if_exists id rest drive_id
        | None => ret None
        end
  end.

Definition find_file_in_folder (parent_id name : string) (drive_id : option string)
    : M DriveEnv (option string) :=
  let name_q := _escape_drive_q name in
  let query := mkQuery name None parent_id in
  res <- drive_list name_q query drive_id ;;
  files <- files_of res ;;
  match files with
  | f :: _ =>
      (if Nat.ltb 1 (List.length files)
       then print (duplicate_line "파일명" name parent_id (List.length files))
       else ret tt) ;;
      ret (Some (f_id f))
  | [] => ret None
  end.

Definition find_gdrive_file_by_path (root_id : string) (drive_id : option string)
    (folder_parts : list string) (filename : string) : M DriveEnv (option string) :=
  parent_id <- get_path_if_exists root_id folder_parts drive_id ;;
  if negb (truthy parent_id) then ret None
  else
    match parent_id with
    | Some parent_id' => find_file_in_folder parent_id' filename drive_id
    | None => ret None
    end.

End VideoProducer.

(** [encode_local_videos.py] *)
Module EncodeLocalVideos.

(** [gdrive_folder_parts_from_dropbox]: the text of
    [encoded_rel_folder_from_dropbox] of [video_producer.py]. *)
Definition gdrive_folder_parts_from_dropbox (path_display : string) : outcome (list string) :=
  let parts := nonempty_parts path_display in
  if negb (str_in VideoProducer.final_cut_folder parts)
  then Raise (VideoProducer.value_error
                ("'최종편집영상' 폴더를 찾을 수 없습니다: " ++ path_display))
  else
    match str_index VideoProducer.final_cut_folder parts with
    | Some idx =>
        let prefix := take idx parts in
        Return (prefix ++ ["encoded"])%list
    | None => Raise (VideoProducer.value_error "'최종편집영상' is not in list")
    end.

(** [gdrive_raw_folder_parts_from_dropbox] *)
Definition gdrive_raw_folder_parts_from_dropbox (path_display : string)
    : outcome (list string) :=
  let parts := nonempty_parts path_display in
  if Nat.ltb (List.length parts) 2
  then Raise (VideoProducer.value_error ("경로가 너무 짧습니다: " ++ path_display))
  else Return (List.removelast parts).

End EncodeLocalVideos.

(** [video_consumer.py] *)
Module VideoConsumer.

(** [drive_list]: the request is executed as it is, without a retry. *)
Definition drive_list (q : Query) (drive_id : option string) : M DriveEnv (list DriveFile) :=
  execute (list_request q).

Section GetOrCreate.
(** What the service does with [files().create] of a folder: the id it gives
    the new folder and the place at which it lists the folder from then on,
    both as the drive stands; and whether a request that ends in the error
    [r] has made the folder all the same. *)
Variable new_id : list DriveFile -> string -> string -> string.
Variable new_place : list DriveFile -> nat.
Variable made_despite : raised -> bool.

Definition created_folder (d : list DriveFile) (name parent_id : string) : DriveFile :=
  mkDriveFile (new_id d name parent_id) name FOLDER_MIMETYPE [parent_id] false None.

Definition drive_with (d : list DriveFile) (f : DriveFile) : list DriveFile :=
  (take (new_place d) d ++ f :: drop (new_place d) d)%list.

(** [execute()] on the request that [service.files().create] builds for the
    folder [name] in [parent_id]; it answers with the new id. *)
Definition create_request (name parent_id : string) (s : DriveEnv)
    : outcome string * DriveEnv :=
  let f := created_folder (drive s) name parent_id in
  match faults s with
  | Some r :: rest =>
      (Raise r,
       mkDriveEnv (if made_despite r then drive_with (drive s) f else drive s) rest
         (folder_cache s))
  | None :: rest => (Return (f_id f), mkDriveEnv (drive_with (drive s) f) rest (folder_cache s))
  | [] => (Return (f_id f), mkDriveEnv (drive_with (drive s) f) [] (folder_cache s))
  end.

Definition get_or_create_folder (parent_id name : string) (drive_id : option string)
    : M DriveEnv string :=
  let query := mkQuery name (Some FOLDER_MIMETYPE) parent_id in
  files <- drive_list query drive_id ;;
  match files with
  | f :: _ =>
      (if Nat.ltb 1 (List.length files)
       then print (VideoProducer.duplicate_line "폴더명" name parent_id (List.length files))
       else ret tt) ;;
      ret (f_id f)
  | [] =>
      folder_id <- execute (create_request name parent_id) ;;
      ret folder_id
  end.

(** [get_or_create_path]: the [for name in parts] loop from [current_id]
    on. *)
Fixpoint get_or_create_path (current_id : string) (parts : list string)
    (drive_id : option string) : M DriveEnv string :=
  match parts with
  | [] => ret current_id
  | name :: rest =>
      folder_id <- get_or_create_folder current_id name drive_id ;;
      get_or_create_path folder_id rest drive_id
  end.

End GetOrCreate.

End VideoConsumer.

(** ** Notions the statements use *)

(** The run of a remote operation from a state: the state after [n]
    invocations, and what invocation [n + 1] answers. *)
Section Trajectory.
Context {S A : Type}.
Variable request_execute : S -> A * S.

Fixpoint state_after (n : nat) (s : S) : S :=
  match n with
  | O => s
  | Datatypes.S k => state_after k (snd (request_execute s))
  end.

Definition outcome_at (n : nat) (s : S) : A :=
  fst (request_execute (state_after n s)).

(** What a world [w1] reached from [w] adds to it: the environment went one
    invocation further, with [dc] more invocations and [ds] more sleeps. *)
Definition advanced (w w1 : World S) (dc ds : Z) : Prop :=
  env w1 = snd (request_execute (env w))
  /\ calls w1 = calls w + dc /\ sleeps w1 = sleeps w + ds.

End Trajectory.

(** What a broken transfer leaves at the download path. *)
Definition write_partial (written : option (list byte)) (download_path : string)
    (fs : gmap string (list byte)) : gmap string (list byte) :=
  match written with
  | Some partial => <[download_path := partial]> fs
  | None => fs
  end.

(** An invocation that raises an error the classifier calls transient, and one
    that raises an error it calls fatal. *)
Definition transient_failure {V} (is_transient : Exception -> bool) (o : outcome V) : bool :=
  match o with
  | Raise (Err e) => is_transient e
  | _ => false
  end.

Definition fatal_failure {V} (is_transient : Exception -> bool) (o : outcome V) : bool :=
  match o with
  | Raise (Err e) => negb (is_transient e)
  | _ => false
  end.

(** An invocation that raises an instance of [Exception]. *)
Definition exception_failure {V} (o : outcome V) : bool :=
  match o with
  | Raise (Err _) => true
  | _ => false
  end.

(** A transfer that breaks off with an error the classifier of
    [dropbox_leftovers_producer.py] calls transient. *)
Definition transient_break (t : transfer) : bool :=
  match t with
  | Broken _ (Err e) => DropboxLeftoversProducer._is_transient_error e
  | _ => false
  end.

(** The counters of [gdrive_design_compare.py] are in order: under no folder
    are more files counted as matched than counted at all. *)
Definition counts_bounded (total ok : gmap string Z) : Prop :=
  forall f : string,
    0 <= GdriveDesignCompare.dict_get ok f <= GdriveDesignCompare.dict_get total f.

(** [f] is the root or a folder on the way to the file at [rel_path]. *)
Definition folder_above (f rel_path : string) : bool :=
  String.eqb f EmptyString || String.prefix (f ++ "/") rel_path.

(** A relative path as [normalize_rel_under_root] writes it: no folder on the
    way to the file has an empty name or the name [.]. *)
Definition clean_rel_path (rel_path : string) : Prop :=
  forall p : string,
    In p (List.removelast (Str.split "/"%char rel_path)) -> p <> EmptyString /\ p <> ".".

(** The folder [f] is [k] or lies under [k]; everything lies under the root. *)
Definition folder_covers (k f : string) : bool :=
  String.eqb k f || String.eqb k EmptyString || String.prefix (k ++ "/") f.

(** The candidates [compress_highest_folders] works on: the folders of the
    set it is given, after [_norm_rel_folder]. *)
Definition candidate_folder (full_folders : gset string) (f : string) : Prop :=
  exists g : string, g ∈ full_folders /\ GdriveDesignCompare._norm_rel_folder g = f.

(** A Dropbox file is matched on the drive: the index holds exactly one item
    at its relative path, not a native Google document, with the size of the
    file, which is not zero. *)
Definition file_matched (gdrive_index : gmap string (list GdriveDesignCompare.Candidate))
    (rel : string) (expected : Z) : Prop :=
  exists file_id mime : string,
    gdrive_index !! rel = Some [(file_id, Some expected, mime)]
    /\ String.prefix GdriveDesignCompare.GOOGLE_APP_PREFIX mime = false
    /\ 0 < expected.

(** The record of the file report [r] is the one of the Dropbox file [m]:
    its size, and either its relative path with a status that says [OK]
    exactly for a matched file, or, when the relative path could not be
    computed, its full path with the status [ERROR]. *)
Definition reports_file (normalize_rel_under_root : string -> string -> string + Exception)
    (dropbox_root : string) (gdrive_index : gmap string (list GdriveDesignCompare.Candidate))
    (m : GdriveDesignCompare.DropboxFile) (r : GdriveDesignCompare.FileMatch) : Prop :=
  GdriveDesignCompare.dropbox_size r = GdriveDesignCompare.size m
  /\ match normalize_rel_under_root (GdriveDesignCompare.path_display m) dropbox_root with
     | inl rel =>
         GdriveDesignCompare.rel_path r = rel
         /\ GdriveDesignCompare.status r <> "ERROR"
         /\ (GdriveDesignCompare.status r = "OK"
             <-> file_matched gdrive_index rel (GdriveDesignCompare.size m))
     | inr e =>
         GdriveDesignCompare.rel_path r = GdriveDesignCompare.path_display m
         /\ GdriveDesignCompare.status r = "ERROR"
         /\ GdriveDesignCompare.note r = type_name e ++ ": " ++ exc_str e
     end.

(** What the statements about flat names say of a path, in terms of its
    text alone. *)

(** Does the character [c] occur in [s]? *)
Fixpoint occurs (c : ascii) (s : string) : bool :=
  match s with
  | EmptyString => false
  | String a s' => Ascii.eqb a c || occurs c s'
  end.

(** The string of [n] characters [c]. *)
Fixpoint repeated (c : ascii) (n : nat) : string :=
  match n with
  | O => EmptyString
  | Datatypes.S k => String c (repeated c k)
  end.

(** Is [s] made of dots only? *)
Fixpoint only_dots (s : string) : bool :=
  match s with
  | EmptyString => true
  | String a s' => Ascii.eqb a "."%char && only_dots s'
  end.

(** [stem] is the file name [filename] without its extension: the extension
    starts at the last dot of the name, provided a character other than a dot
    stands before that dot; a name without such a dot ([README], [.bashrc],
    [..]) has no extension and is its own stem. *)
Inductive without_extension : string -> string -> Prop :=
| extension_cut (stem ext : string) :
    only_dots stem = false ->
    occurs "."%char ext = false ->
    without_extension (stem ++ "." ++ ext) stem
| no_extension (n : nat) (rest : string) :
    occurs "."%char rest = false ->
    without_extension (repeated "."%char n ++ rest) (repeated "."%char n ++ rest).

(** On Windows a backslash in the file name separates components too, and
    the extension is looked for in the last component: [stem] is [filename]
    without the extension of what follows its last backslash. *)
Inductive without_extension_nt : string -> string -> Prop :=
| after_backslash (pre tail stem : string) :
    pre = EmptyString \/ (exists q, pre = q ++ "\") ->
    occurs "\"%char tail = false ->
    without_extension tail stem ->
    without_extension_nt (pre ++ tail) (pre ++ stem).

(** The path with the segments [segments] between single slashes, after
    [lead] slashes and before [trail] slashes. *)
Definition path_of (lead : nat) (segments : list string) (trail : nat) : string :=
  repeated "/"%char lead ++ String.concat "/" segments ++ repeated "/"%char trail.

(** ** Sample operations and worlds *)

(** A world in which nothing has happened yet and every draw of the generator
    has the bits [k]. *)
Definition fresh_world {S} (s : S) (k : N) : World S := mkWorld s (fun _ => k) O [].

(** The bits of the draw one half. *)
Definition half : N := 2 ^ 52.

(** Operations whose state counts their invocations. *)
Definition read_timeout : Exception := mkException TimeoutError "The read operation timed out".

Definition not_found : Exception :=
  mkException (HttpError (Some 404))
    "<HttpError 404 when requesting https://www.googleapis.com/drive/v3/files/1AbC?alt=json returned File not found: 1AbC.>".

(** Times out on every invocation. *)
Definition always_times_out (n : nat) : outcome string * nat :=
  (Raise (Err read_timeout), Datatypes.S n).

(** Times out until invocation [k], which returns [v]. *)
Definition succeeds_at (k : nat) (v : string) (n : nat) : outcome string * nat :=
  if Nat.eqb (Datatypes.S n) k then (Return v, Datatypes.S n)
  else (Raise (Err read_timeout), Datatypes.S n).

(** Answers 404 on every invocation. *)
Definition always_not_found (n : nat) : outcome string * nat :=
  (Raise (Err not_found), Datatypes.S n).

(** Times out until invocation [k], during which the user presses Ctrl-C. *)
Definition interrupted_at (k : nat) (n : nat) : outcome string * nat :=
  if Nat.eqb (Datatypes.S n) k
  then (Raise (Interrupt KeyboardInterrupt EmptyString), Datatypes.S n)
  else (Raise (Err read_timeout), Datatypes.S n).

(** What [requests] raises when a streamed body breaks off, as the Dropbox SDK
    lets it through. *)
Definition broken_stream : Exception :=
  mkException (OtherException "ChunkedEncodingError")
    "('Connection broken: IncompleteRead(0 bytes read, 512 more expected)', IncompleteRead(0 bytes read, 512 more expected))".

(** A 403 of the Drive API whose reason mentions SSL. *)
Definition ssl_required : Exception :=
  mkException (HttpError (Some 403))
    "<HttpError 403 when requesting https://www.googleapis.com/drive/v3/files?alt=json returned SSL is required to perform this operation.>".

(** Does the lower-cased text of [e] contain one of [markers]? *)
Definition mentions_marker (markers : list string) (e : Exception) : bool :=
  existsb (fun m => Str.contains m (Str.lower (exc_str e))) markers.



(** What a download through a temporary file may do to the files, between a
    world [w] and the world [w'] it ends in. [step] is the service's answer to
    one download call. *)
Section DownloadOutcomes.
Context {R : Type}.
Variable step : R -> transfer * R.
Variables tmp_path out_path : string.

(** Every file other than the temporary file and the target is as before. *)
Definition others_untouched (w w' : World (FsEnv R)) : Prop :=
  forall p, p <> tmp_path -> p <> out_path ->
    files (env w') !! p = files (env w) !! p.

(** The target is as before: still absent, or still with its old content. *)
Definition target_untouched (w w' : World (FsEnv R)) : Prop :=
  files (env w') !! out_path = files (env w) !! out_path.

(** The target holds the whole content of a transfer that completed, the
    last of [k + 1] calls, and no temporary file is left. *)
Definition delivered (w w' : World (FsEnv R)) : Prop :=
  exists (k : nat) (content : list byte),
    outcome_at step k (remote (env w)) = Complete content
    /\ files (env w') !! out_path = Some content
    /\ files (env w') !! tmp_path = None
    /\ calls w' = calls w + Z.of_nat (Datatypes.S k).

(** The temporary file is as at the start, or holds what a broken transfer
    of this run wrote. *)
Definition only_partial_left (w w' : World (FsEnv R)) : Prop :=
  files (env w') !! tmp_path = files (env w) !! tmp_path
  \/ exists (k : nat) (partial : list byte) (err : raised),
       outcome_at step k (remote (env w)) = Broken (Some partial) err
       /\ files (env w') !! tmp_path = Some partial.

End DownloadOutcomes.

(** The error [safe_download_to_file] ends with after a transfer: the
    interrupt of one of its transfers as it is, or the [RuntimeError] built
    from the error of one of them. *)
Definition wraps_transfer_error {R} (step : R -> transfer * R) (dbx_path : string)
    (r0 : R) (x : raised) : Prop :=
  (exists c msg k written,
      x = Interrupt c msg /\ outcome_at step k r0 = Broken written (Interrupt c msg))
  \/ (exists k written e,
        x = Err (DropboxLeftoversProducer.download_failed dbx_path (Some e))
        /\ outcome_at step k r0 = Broken written (Err e)).


(** The bytes the chunks before the first failing chunk carry, and that
    failure if there is one. *)
Fixpoint received (steps : list GdriveEncodedDownloader.chunk_step) : list byte :=
  match steps with
  | GdriveEncodedDownloader.ChunkOk data :: rest => (data ++ received rest)%list
  | _ => []
  end.

Fixpoint first_failure (steps : list GdriveEncodedDownloader.chunk_step) : option raised :=
  match steps with
  | [] => None
  | GdriveEncodedDownloader.ChunkOk _ :: rest => first_failure rest
  | GdriveEncodedDownloader.ChunkFail err :: _ => Some err
  end.

(** [download_file] returns without a transfer: it was asked to skip existing
    files and the target has the expected size. *)
Definition skips_download {R} (w : World (FsEnv R)) (target_path : string)
    (size_bytes : option Z) (skip_existing : bool) : Prop :=
  skip_existing = true
  /\ exists content,
       files (env w) !! target_path = Some content
       /\ size_bytes = Some (Z.of_nat (List.length content)).

(** A folder in which a finished file lies next to a left-over temporary file
    of the same target. *)
Definition finished_with_leftover : gmap string (list byte) :=
  <["out/encoded/a.mp4" := [x01; x02; x03]]> (<["out/encoded/a.mp4.part" := [x09]]> ∅).

(** A service with nothing to say; [get_media] delivers two chunks. *)
Definition two_chunks (file_id : string) : list GdriveEncodedDownloader.chunk_step :=
  [GdriveEncodedDownloader.ChunkOk [x01; x02]; GdriveEncodedDownloader.ChunkOk [x03]].

(** A Dropbox service whose every download times out after one byte. *)
Definition always_breaks (n : nat) (path : string) : transfer * nat :=
  (Broken (Some [x07]) (Err read_timeout), Datatypes.S n).

(** A Dropbox service whose downloads time out after one byte until transfer
    [k], which delivers [content]. *)
Definition completes_at (k : nat) (content : list byte) (n : nat) (path : string)
    : transfer * nat :=
  if Nat.eqb (Datatypes.S n) k then (Complete content, Datatypes.S n)
  else (Broken (Some [x07]) (Err read_timeout), Datatypes.S n).



(** ** What the drive holds, for the reconciliation check *)

(** The first folder named [name] under [parent_id], as the service lists
    them, and the first file named [filename] there. *)
Definition first_folder (d : list DriveFile) (parent_id name : string) : option string :=
  match run_query d (mkQuery name (Some FOLDER_MIMETYPE) parent_id) with
  | f :: _ => Some (f_id f)
  | [] => None
  end.

Definition first_file (d : list DriveFile) (parent_id filename : string) : option DriveFile :=
  match run_query d (mkQuery filename None parent_id) with
  | f :: _ => Some f
  | [] => None
  end.

(** The folder the path [parts] leads to from [current], following at each
    step the first folder of that name; [None] when a folder is missing (or
    has an empty id). *)
Fixpoint resolve_path (d : list DriveFile) (current : string) (parts : list string)
    : option string :=
  match parts with
  | [] => Some current
  | name :: rest =>
      match first_folder d current name with
      | Some id => if String.eqb id EmptyString then None else resolve_path d id rest
      | None => None
      end
  end.

(** Every folder of the path exists: a chain of live folders of the drive,
    each named as the path says and lying in the one before, leads from
    [current] to [dest]. *)
Inductive folder_chain (d : list DriveFile) : string -> list string -> string -> Prop :=
| chain_here (current : string) : folder_chain d current [] current
| chain_down (current name : string) (rest : list string) (f : DriveFile) (dest : string) :
    In f d ->
    f_name f = name ->
    f_mimeType f = FOLDER_MIMETYPE ->
    In current (f_parents f) ->
    f_trashed f = false ->
    folder_chain d (f_id f) rest dest ->
    folder_chain d current (name :: rest) dest.

(** A live file named [filename] lies in the folder [parent_id]. *)
Definition file_in_folder (d : list DriveFile) (parent_id filename : string) (f : DriveFile)
    : Prop :=
  In f d /\ f_name f = filename /\ In parent_id (f_parents f) /\ f_trashed f = false.

(** The [folder_cache] holds only what the drive answers. *)
Definition cache_consistent (d : list DriveFile)
    (cache : gmap (string * string) (option string)) : Prop :=
  forall parent_id name v, cache !! (parent_id, name) = Some v -> v = first_folder d parent_id name.

(** The verdict of the strict check as the claim words it, case by case. *)
Definition strict_verdict (d : list DriveFile) (root_id : string) (folder_parts : list string)
    (filename : string) (expected_size_bytes : Z) : bool * string :=
  match resolve_path d root_id folder_parts with
  | None => (false, "folder_missing")
  | Some parent_id =>
      if String.eqb parent_id EmptyString then (false, "folder_missing")
      else
        match first_file d parent_id filename with
        | None => (false, "file_missing")
        | Some f =>
            match f_size f with
            | None => (false, "size_unknown")
            | Some gsize =>
                if (gsize <=? 0)%Z then (false, "size_unknown")
                else if (gsize =? expected_size_bytes)%Z then (true, "same_name_and_size")
                else (false, "size_mismatch(gdrive=" ++ Str.of_Z gsize ++ ",dropbox="
                               ++ Str.of_Z expected_size_bytes ++ ")")
            end
        end
  end.

(** A drive with the folder [lectures/w1] under the root and two files in it;
    the second has no size. *)
Definition sample_drive : list DriveFile :=
  [ mkDriveFile "F1" "lectures" FOLDER_MIMETYPE ["ROOT"] false None;
    mkDriveFile "F2" "w1" FOLDER_MIMETYPE ["F1"] false None;
    mkDriveFile "A1" "1.mp4" "video/mp4" ["F2"] false (Some 1048576);
    mkDriveFile "A2" "notes" "application/vnd.google-apps.document" ["F2"] false None ].

(** A world over [sample_drive] with an empty cache, in which the first
    request runs into a timeout. *)
Definition sample_drive_world : World DriveEnv :=
  fresh_world (mkDriveEnv sample_drive [Some (Err read_timeout)] ∅) 0.

(** A drive that holds one video in what was the folder [GONE]; no folder is
    left on it, but the cache a caller hands over still has [GONE] as the
    answer for [lectures] under the root. No failure is pending. *)
Definition stale_cache_world : World DriveEnv :=
  fresh_world
    (mkDriveEnv [mkDriveFile "A9" "1.mp4" "video/mp4" ["GONE"] false (Some 1048576)] []
       (<[("ROOT", "lectures") := Some "GONE"]> ∅)) 0.

(** A service that numbers the folders it makes and lists a new folder after
    the others. *)
Definition numbered_id (d : list DriveFile) (name parent_id : string) : string :=
  "NEW" ++ Str.of_Z (Z.of_nat (List.length d)).

Definition listed_last (d : list DriveFile) : nat := List.length d.

Definition never_made (r : raised) : bool := false.

(** A world over [sample_drive] in which every request goes through. *)
Definition healthy_drive_world : World DriveEnv :=
  fresh_world (mkDriveEnv sample_drive [] ∅) 0.

(** A small audit: two files under [A], one of them matched on the drive;
    the paths are taken relative to [/디자인] by cutting the root off. *)
Definition cut_root (path_display dropbox_root : string) : string + Exception :=
  if String.prefix (dropbox_root ++ "/") path_display
  then inl (String.substring (Datatypes.S (String.length dropbox_root))
              (String.length path_display) path_display)
  else inr (mkException (OtherException "ValueError")
              (path_display ++ " is not in the subpath of " ++ dropbox_root)).

Definition sample_dropbox_files : list GdriveDesignCompare.DropboxFile :=
  [ GdriveDesignCompare.mkDropboxFile "/디자인/A/B/a.png" 10;
    GdriveDesignCompare.mkDropboxFile "/디자인/A/C/b.png" 20 ].

Definition sample_dropbox_folders : gset string :=
  list_to_set [EmptyString; "A"; "A/B"; "A/C"; "D"].

Definition sample_gdrive_index : gmap string (list GdriveDesignCompare.Candidate) :=
  <["A/B/a.png" := [("G1", Some 10, "image/png")]]>
    (<["A/C/b.png" := [("G2", Some 21, "image/png")]]> ∅).

(** * Properties *)

(** ** Counting events *)

Lemma count_events_app p t1 t2 :
  count_events p (t1 ++ t2) = count_events p t1 + count_events p t2.
Proof.
  unfold count_events. rewrite List.filter_app, List.length_app. lia.
Qed.

Lemma count_events_single p ev : count_events p [ev] = if p ev then 1 else 0.
Proof. unfold count_events. cbn. destruct (p ev); reflexivity. Qed.

Lemma calls_emit {S} (w : World S) ev :
  calls (snd (emit ev w)) = calls w + (if is_execute ev then 1 else 0).
Proof.
  unfold calls. cbn. rewrite count_events_app. unfold count_events at 2. cbn.
  destruct (is_execute ev); cbn; lia.
Qed.

Lemma sleeps_emit {S} (w : World S) ev :
  sleeps (snd (emit ev w)) = sleeps w + (if is_sleep ev then 1 else 0).
Proof.
  unfold sleeps. cbn. rewrite count_events_app. unfold count_events at 2. cbn.
  destruct (is_sleep ev); cbn; lia.
Qed.

Lemma py_range_nil lo hi : hi <= lo -> py_range lo hi = [].
Proof.
  intros H. unfold py_range. replace (Z.to_nat (hi - lo)) with O by lia. reflexivity.
Qed.

Lemma py_range_nil_inv lo hi : py_range lo hi = [] -> hi <= lo.
Proof.
  unfold py_range. intros H.
  destruct (Z.to_nat (hi - lo)) as [| n] eqn:E; [lia | discriminate].
Qed.

Lemma py_range_cons lo hi : lo < hi -> py_range lo hi = lo :: py_range (lo + 1) hi.
Proof.
  intros H. unfold py_range.
  replace (Z.to_nat (hi - lo)) with (Datatypes.S (Z.to_nat (hi - (lo + 1)))) by lia.
  cbn [List.seq List.map]. f_equal; [lia |].
  rewrite <- List.seq_shift, List.map_map.
  apply List.map_ext. intros i. lia.
Qed.

Lemma calls_log {S} (s : S) g n t ev :
  calls (mkWorld s g n (t ++ [ev])) = count_events is_execute t + (if is_execute ev then 1 else 0).
Proof.
  unfold calls. cbn [trace]. rewrite count_events_app. f_equal.
  destruct ev; reflexivity.
Qed.

Lemma sleeps_log {S} (s : S) g n t ev :
  sleeps (mkWorld s g n (t ++ [ev])) = count_events is_sleep t + (if is_sleep ev then 1 else 0).
Proof.
  unfold sleeps. cbn [trace]. rewrite count_events_app. f_equal.
  destruct ev; reflexivity.
Qed.

(** ** Backoff delay *)

Section Backoff.
Local Open Scope Q_scope.


Lemma backoff_expo_nonneg (base cap : Q) (n : Z) :
  0 <= base -> 0 <= cap -> 0 <= backoff_expo base n cap.
Proof.
  intros Hb Hc. unfold backoff_expo. apply Q.min_glb; [exact Hc |].
  apply Qmult_le_0_compat; [exact Hb |].
  change 0 with (inject_Z 0). rewrite <- Zle_Qle. apply Z.pow_nonneg. lia.
Qed.


Lemma backoff_delay_in_terms_of_expo (base cap : Q) (n : Z) (u : Q) :
  backoff_delay base n cap u
  == backoff_expo base n cap * (1 + (25 # 100) * u).
Proof. unfold backoff_delay, uniform. cbv zeta. ring. Qed.

Lemma unit_draw_range (k : N) : 0 <= unit_draw k /\ unit_draw k < 1.
Proof.
  unfold unit_draw, Qle, Qlt. cbn [Qnum Qden].
  pose proof (Z.mod_pos_bound (Z.of_N k) (2 ^ 53) ltac:(lia)) as [Hlo Hhi].
  change (Z.pos (2 ^ 53)) with (2 ^ 53)%Z. split; lia.
Qed.

Lemma backoff_delay_nonneg (base cap : Q) (n : Z) (u : Q) :
  0 <= base -> 0 <= cap -> 0 <= u -> 0 <= backoff_delay base n cap u.
Proof.
  intros Hb Hc Hu. rewrite backoff_delay_in_terms_of_expo.
  pose proof (backoff_expo_nonneg base cap n Hb Hc). nra.
Qed.

Lemma backoff_delay_negative (base cap : Q) (n : Z) (u : Q) :
  base < 0 -> 0 <= u -> backoff_delay base n cap u < 0.
Proof.
  intros Hb Hu. rewrite backoff_delay_in_terms_of_expo.
  assert (He : backoff_expo base n cap < 0).
  { unfold backoff_expo. eapply Qle_lt_trans; [apply Q.le_min_r |].
    assert (Hp : 1 <= inject_Z (2 ^ Z.max 0 (n - 1))).
    { change 1 with (inject_Z 1). rewrite <- Zle_Qle.
      pose proof (Z.pow_pos_nonneg 2 (Z.max 0 (n - 1)) ltac:(lia) ltac:(lia)). lia. }
    nra. }
  nra.
Qed.

(** What [_sleep_with_backoff] sleeps is [backoff_delay] at the next draw of
    the generator; with a negative base delay [time.sleep] refuses. *)
Lemma sleep_with_backoff_run {S} (base : Z) (n : Z) (w : World S) :
  _sleep_with_backoff (inject_Z base) n default_cap w
  = if (0 <=? base)%Z
    then (Return tt,
          mkWorld (env w) (rng w) (Datatypes.S (rng_pos w))
            (trace w ++ [EvSleep (backoff_delay (inject_Z base) n default_cap
                                    (unit_draw (rng w (rng_pos w))))]))
    else (Raise (Err sleep_length_error),
          mkWorld (env w) (rng w) (Datatypes.S (rng_pos w)) (trace w)).
Proof.
  unfold _sleep_with_backoff, bind, random_random, time_sleep.
  cbn [env rng rng_pos trace].
  destruct (unit_draw_range (rng w (rng_pos w))) as [Hu0 Hu1].
  destruct (0 <=? base)%Z eqn:Hb.
  - apply Z.leb_le in Hb.
    assert (Hd : 0 <= backoff_delay (inject_Z base) n default_cap
                        (unit_draw (rng w (rng_pos w)))).
    { apply backoff_delay_nonneg; [| discriminate | exact Hu0].
      change 0 with (inject_Z 0). rewrite <- Zle_Qle. exact Hb. }
    apply Qle_bool_iff in Hd. rewrite Hd. reflexivity.
  - apply Z.leb_gt in Hb.
    assert (Hd : backoff_delay (inject_Z base) n default_cap
                   (unit_draw (rng w (rng_pos w))) < 0).
    { apply backoff_delay_negative; [| exact Hu0].
      change 0 with (inject_Z 0). rewrite <- Zlt_Qlt. exact Hb. }
    destruct (Qle_bool 0 (backoff_delay (inject_Z base) n default_cap
                            (unit_draw (rng w (rng_pos w))))) eqn:Hq; [| reflexivity].
    apply Qle_bool_iff in Hq. exfalso. apply (Qlt_not_le _ _ Hd). exact Hq.
Qed.


End Backoff.

(** ** One attempt of the retrying executor *)

Section OneAttempt.
Context {S V : Type}.
Variable is_transient : Exception -> bool.
Variable req : S -> outcome V * S.

Lemma execute_run (w : World S) :
  exists w1,
    execute req w = (fst (req (env w)), w1)
    /\ env w1 = snd (req (env w))
    /\ calls w1 = calls w + 1
    /\ sleeps w1 = sleeps w.
Proof.
  unfold execute, bind, on_env, emit. cbn [env rng rng_pos trace].
  destruct (req (env w)) as [r s'] eqn:E. cbn [fst snd].
  eexists; split; [reflexivity |]. cbn [env]. repeat split.
  - rewrite calls_log. reflexivity.
  - rewrite sleeps_log. cbn. unfold sleeps. lia.
Qed.

Lemma attempt_returns desc max_retries base_delay attempt rest last w v :
  fst (req (env w)) = Return v ->
  exists w1,
    gdrive_retry_loop is_transient req desc max_retries base_delay (attempt :: rest) last w
      = (Return v, w1)
    /\ advanced req w w1 1 0.
Proof.
  intros Hv. destruct (execute_run w) as (w1 & Hrun & He & Hc & Hs).
  exists w1. split.
  - cbn [gdrive_retry_loop]. unfold try_except. rewrite Hrun, Hv. reflexivity.
  - unfold advanced. repeat split; [exact He | exact Hc | lia].
Qed.

Lemma attempt_interrupted desc max_retries base_delay attempt rest last w c msg :
  fst (req (env w)) = Raise (Interrupt c msg) ->
  exists w1,
    gdrive_retry_loop is_transient req desc max_retries base_delay (attempt :: rest) last w
      = (Raise (Interrupt c msg), w1)
    /\ advanced req w w1 1 0.
Proof.
  intros Hv. destruct (execute_run w) as (w1 & Hrun & He & Hc & Hs).
  exists w1. split.
  - cbn [gdrive_retry_loop]. unfold try_except. rewrite Hrun, Hv. reflexivity.
  - unfold advanced. repeat split; [exact He | exact Hc | lia].
Qed.

Lemma attempt_gives_up desc max_retries base_delay attempt rest last w e :
  fst (req (env w)) = Raise (Err e) ->
  (attempt >=? max_retries)%Z || negb (is_transient e) = true ->
  exists w1,
    gdrive_retry_loop is_transient req desc max_retries base_delay (attempt :: rest) last w
      = (Raise (Err e), w1)
    /\ advanced req w w1 1 0.
Proof.
  intros Hv Hstop. destruct (execute_run w) as (w1 & Hrun & He & Hc & Hs).
  eexists. split.
  - cbn [gdrive_retry_loop]. unfold try_except. rewrite Hrun, Hv.
    unfold isinstance_KeyboardInterrupt, bind, print, emit at 1. cbn [env rng rng_pos trace].
    rewrite Hstop. unfold raise. reflexivity.
  - unfold advanced. cbn [env]. rewrite calls_log, sleeps_log. cbn [is_execute is_sleep].
    unfold calls, sleeps in *. repeat split; [exact He | lia | lia].
Qed.

Lemma attempt_retries desc max_retries base_delay attempt rest last w e :
  fst (req (env w)) = Raise (Err e) ->
  (attempt >=? max_retries)%Z || negb (is_transient e) = false ->
  0 <= base_delay ->
  exists w1,
    gdrive_retry_loop is_transient req desc max_retries base_delay (attempt :: rest) last w
      = gdrive_retry_loop is_transient req desc max_retries base_delay rest (Some e) w1
    /\ advanced req w w1 1 1.
Proof.
  intros Hv Hgo Hbase. destruct (execute_run w) as (w1 & Hrun & He & Hc & Hs).
  eexists. split.
  - cbn [gdrive_retry_loop]. unfold try_except. rewrite Hrun, Hv.
    unfold isinstance_KeyboardInterrupt, bind at 1, print, emit at 1.
    cbn [env rng rng_pos trace]. rewrite Hgo.
    unfold bind at 1. rewrite sleep_with_backoff_run.
    replace (0 <=? base_delay)%Z with true by (symmetry; apply Z.leb_le; exact Hbase).
    cbn [env rng rng_pos trace]. reflexivity.
  - unfold advanced. cbn [env]. rewrite calls_log, sleeps_log. cbn [is_execute is_sleep].
    rewrite !count_events_app, !count_events_single. cbn [is_execute is_sleep].
    unfold calls, sleeps in *. repeat split; [exact He | lia | lia].
Qed.

(** With a negative base delay the sleep before the next attempt is refused,
    and that error ends the call. *)
Lemma attempt_sleep_refused desc max_retries base_delay attempt rest last w e :
  fst (req (env w)) = Raise (Err e) ->
  (attempt >=? max_retries)%Z || negb (is_transient e) = false ->
  base_delay < 0 ->
  exists w1,
    gdrive_retry_loop is_transient req desc max_retries base_delay (attempt :: rest) last w
      = (Raise (Err sleep_length_error), w1)
    /\ advanced req w w1 1 0.
Proof.
  intros Hv Hgo Hbase. destruct (execute_run w) as (w1 & Hrun & He & Hc & Hs).
  eexists. split.
  - cbn [gdrive_retry_loop]. unfold try_except. rewrite Hrun, Hv.
    unfold isinstance_KeyboardInterrupt, bind at 1, print, emit at 1.
    cbn [env rng rng_pos trace]. rewrite Hgo.
    unfold bind at 1. rewrite sleep_with_backoff_run.
    replace (0 <=? base_delay)%Z with false by (symmetry; apply Z.leb_gt; exact Hbase).
    cbn [env rng rng_pos trace]. reflexivity.
  - unfold advanced. cbn [env]. unfold calls, sleeps in *. cbn [trace].
    rewrite !count_events_app, !count_events_single. cbn [is_execute is_sleep].
    repeat split; [exact He | lia | lia].
Qed.

End OneAttempt.

(** ** Runs of the retrying executor *)

Section ExecutorRuns.
Context {S V : Type}.
Variable is_transient : Exception -> bool.
Variable req : S -> outcome V * S.

Lemma outcome_at_succ n s :
  outcome_at req (Datatypes.S n) s = outcome_at req n (snd (req s)).
Proof. reflexivity. Qed.

(** While the invocations fail with transient errors and attempts are left,
    the loop goes on: after [j] such failures it stands at attempt
    [a + j], [j] invocations and [j] sleeps later. *)
Lemma loop_skips_transient_failures desc max_retries base_delay :
  0 <= base_delay ->
  forall (j : nat) (a : Z) (last : option Exception) (w : World S),
    a + Z.of_nat j <= max_retries ->
    (forall i, (i < j)%nat ->
       transient_failure is_transient (outcome_at req i (env w)) = true) ->
    exists last' w',
      gdrive_retry_loop is_transient req desc max_retries base_delay
        (py_range a (max_retries + 1)) last w
      = gdrive_retry_loop is_transient req desc max_retries base_delay
          (py_range (a + Z.of_nat j) (max_retries + 1)) last' w'
      /\ env w' = state_after req j (env w)
      /\ calls w' = calls w + Z.of_nat j
      /\ sleeps w' = sleeps w + Z.of_nat j.
Proof.
  intros Hbase.
  induction j as [| j IH]; intros a last w Hle Hfail.
  - exists last, w. replace (a + Z.of_nat 0) with a by lia.
    repeat split; cbn; lia.
  - assert (H0 : transient_failure is_transient (outcome_at req 0 (env w)) = true)
      by (apply Hfail; lia).
    unfold outcome_at in H0. cbn [state_after] in H0.
    destruct (fst (req (env w))) as [v | [e | c msg]] eqn:Hout; cbn in H0; try discriminate.
    assert (Hgo : (a >=? max_retries)%Z || negb (is_transient e) = false).
    { rewrite H0. cbn [negb]. rewrite orb_false_r, Z.geb_leb. apply Z.leb_gt. lia. }
    rewrite (py_range_cons a) by lia.
    destruct (attempt_retries is_transient req desc max_retries base_delay a
                (py_range (a + 1) (max_retries + 1)) last w e Hout Hgo Hbase)
      as (w1 & Hstep & He1 & Hc1 & Hs1).
    destruct (IH (a + 1) (Some e) w1) as (last' & w' & Hrun & He & Hc & Hs).
    { lia. }
    { intros i Hi. rewrite He1. rewrite <- outcome_at_succ. apply Hfail. lia. }
    exists last', w'. rewrite Hstep, Hrun.
    replace (a + 1 + Z.of_nat j) with (a + Z.of_nat (Datatypes.S j)) by lia.
    repeat split; [| lia | lia].
    rewrite He, He1. reflexivity.
Qed.

(** Whatever the executor yields after at least one attempt is what its last
    invocation yielded, unless the base delay is negative and the sleep after
    a transient failure was refused. *)
Lemma loop_result_is_last_attempt desc max_retries base_delay :
  forall (attempts : list Z) (last : option Exception) (w w' : World S) (o : outcome V),
    attempts <> [] ->
    gdrive_retry_loop is_transient req desc max_retries base_delay attempts last w = (o, w') ->
    exists k : nat,
      (k < List.length attempts)%nat
      /\ env w' = state_after req (Datatypes.S k) (env w)
      /\ calls w' = calls w + Z.of_nat (Datatypes.S k)
      /\ (forall i, (i < k)%nat ->
            transient_failure is_transient (outcome_at req i (env w)) = true)
      /\ (outcome_at req k (env w) = o
          \/ (base_delay < 0 /\ o = Raise (Err sleep_length_error))).
Proof.
  induction attempts as [| a rest IH]; intros last w w' o Hne Hrun; [congruence |].
  destruct (fst (req (env w))) as [v | [e | c msg]] eqn:Hout.
  - destruct (attempt_returns is_transient req desc max_retries base_delay a rest last w v Hout)
      as (w1 & Hstep & He1 & Hc1 & Hs1).
    rewrite Hstep in Hrun. inversion Hrun; subst. exists O.
    split; [cbn; lia |]. split; [exact He1 |]. split; [lia |].
    split; [intros i Hi; lia | left; exact Hout].
  - destruct ((a >=? max_retries)%Z || negb (is_transient e)) eqn:Hstop.
    + destruct (attempt_gives_up is_transient req desc max_retries base_delay a rest last w e
                  Hout Hstop) as (w1 & Hstep & He1 & Hc1 & Hs1).
      rewrite Hstep in Hrun. inversion Hrun; subst. exists O.
      split; [cbn; lia |]. split; [exact He1 |]. split; [lia |].
      split; [intros i Hi; lia | left; exact Hout].
    + destruct (Z.lt_ge_cases base_delay 0) as [Hneg | Hbase].
      * destruct (attempt_sleep_refused is_transient req desc max_retries base_delay a rest
                    last w e Hout Hstop Hneg) as (w1 & Hstep & He1 & Hc1 & Hs1).
        rewrite Hstep in Hrun. inversion Hrun; subst. exists O.
        split; [cbn; lia |]. split; [exact He1 |]. split; [lia |].
        split; [intros i Hi; lia | right; split; [exact Hneg | reflexivity]].
      * destruct (attempt_retries is_transient req desc max_retries base_delay a rest last w e
                    Hout Hstop Hbase) as (w1 & Hstep & He1 & Hc1 & Hs1).
        rewrite Hstep in Hrun.
        assert (Htr : is_transient e = true).
        { apply orb_false_elim in Hstop. destruct Hstop as [_ Hn].
          apply negb_false_iff in Hn. exact Hn. }
        destruct rest as [| a' rest'].
        -- cbn in Hrun. unfold raise in Hrun. inversion Hrun; subst. exists O.
           split; [cbn; lia |]. split; [exact He1 |]. split; [lia |].
           split; [intros i Hi; lia | left; exact Hout].
        -- destruct (IH (Some e) w1 w' o ltac:(discriminate) Hrun)
             as (k & Hk & He & Hc & Hprev & Ho).
           exists (Datatypes.S k). split; [cbn [List.length] in *; lia |].
           split; [rewrite He, He1; reflexivity |]. split; [lia |]. split.
           ++ intros [| i] Hi.
              ** unfold outcome_at. cbn [state_after]. rewrite Hout. exact Htr.
              ** rewrite outcome_at_succ, <- He1. apply Hprev. lia.
           ++ destruct Ho as [Ho | Ho]; [left | right; exact Ho].
              rewrite outcome_at_succ, <- He1. exact Ho.
  - destruct (attempt_interrupted is_transient req desc max_retries base_delay a rest last w
                c msg Hout) as (w1 & Hstep & He1 & Hc1 & Hs1).
    rewrite Hstep in Hrun. inversion Hrun; subst. exists O.
    split; [cbn; lia |]. split; [exact He1 |]. split; [lia |].
    split; [intros i Hi; lia | left; exact Hout].
Qed.

End ExecutorRuns.

(** ** Runs of the executor of [video_producer.py] *)

Section VideoProducerRuns.
Context {S V : Type}.
Variable req : S -> outcome V * S.

Lemma vp_attempt_returns desc attempt rest w v :
  fst (req (env w)) = Return v ->
  exists w1,
    VideoProducer.execute_loop req desc (attempt :: rest) w = (Return (Some v), w1)
    /\ advanced req w w1 1 0.
Proof.
  intros Hv. destruct (execute_run req w) as (w1 & Hrun & He & Hc & Hs).
  exists w1. split.
  - cbn [VideoProducer.execute_loop]. unfold try_except, bind at 1.
    rewrite Hrun, Hv. reflexivity.
  - unfold advanced. repeat split; [exact He | exact Hc | lia].
Qed.

Lemma vp_attempt_interrupted desc attempt rest w c msg :
  fst (req (env w)) = Raise (Interrupt c msg) ->
  exists w1,
    VideoProducer.execute_loop req desc (attempt :: rest) w = (Raise (Interrupt c msg), w1)
    /\ advanced req w w1 1 0.
Proof.
  intros Hv. destruct (execute_run req w) as (w1 & Hrun & He & Hc & Hs).
  exists w1. split.
  - cbn [VideoProducer.execute_loop]. unfold try_except, bind at 1.
    rewrite Hrun, Hv. reflexivity.
  - unfold advanced. repeat split; [exact He | exact Hc | lia].
Qed.

Lemma vp_attempt_gives_up desc attempt rest w e :
  fst (req (env w)) = Raise (Err e) ->
  (attempt >=? VideoProducer.GDRIVE_API_MAX_RETRIES)%Z = true ->
  exists w1,
    VideoProducer.execute_loop req desc (attempt :: rest) w = (Raise (Err e), w1)
    /\ advanced req w w1 1 0.
Proof.
  intros Hv Hstop. destruct (execute_run req w) as (w1 & Hrun & He & Hc & Hs).
  eexists. split.
  - cbn [VideoProducer.execute_loop]. unfold try_except, bind at 1.
    rewrite Hrun, Hv.
    unfold isinstance_KeyboardInterrupt, bind at 1, print, emit at 1.
    cbn [env rng rng_pos trace]. rewrite Hstop.
    unfold bind, emit, raise. cbn [env rng rng_pos trace]. reflexivity.
  - unfold advanced. cbn [env]. rewrite calls_log, sleeps_log. cbn [is_execute is_sleep].
    rewrite !count_events_app, !count_events_single. cbn [is_execute is_sleep].
    unfold calls, sleeps in *. repeat split; [exact He | lia | lia].
Qed.

Lemma vp_attempt_retries desc attempt rest w e :
  fst (req (env w)) = Raise (Err e) ->
  (attempt >=? VideoProducer.GDRIVE_API_MAX_RETRIES)%Z = false ->
  exists w1,
    VideoProducer.execute_loop req desc (attempt :: rest) w
      = VideoProducer.execute_loop req desc rest w1
    /\ advanced req w w1 1 1.
Proof.
  intros Hv Hgo. destruct (execute_run req w) as (w1 & Hrun & He & Hc & Hs).
  eexists. split.
  - cbn [VideoProducer.execute_loop]. unfold try_except, bind at 1.
    rewrite Hrun, Hv.
    unfold isinstance_KeyboardInterrupt, bind at 1, print, emit at 1.
    cbn [env rng rng_pos trace]. rewrite Hgo.
    unfold bind at 1, time_sleep.
    change (Qle_bool 0 (inject_Z VideoProducer.GDRIVE_API_RETRY_DELAY)) with true.
    cbv iota. unfold emit. cbn [env rng rng_pos trace]. reflexivity.
  - unfold advanced. cbn [env]. rewrite calls_log, sleeps_log. cbn [is_execute is_sleep].
    rewrite !count_events_app, !count_events_single. cbn [is_execute is_sleep].
    unfold calls, sleeps in *. repeat split; [exact He | lia | lia].
Qed.

(** The loop goes on through every kind of [Exception] while attempts are
    left. *)
Lemma vp_loop_skips_failures desc :
  forall (j : nat) (a : Z) (w : World S),
    a + Z.of_nat j <= VideoProducer.GDRIVE_API_MAX_RETRIES ->
    (forall i, (i < j)%nat -> exception_failure (outcome_at req i (env w)) = true) ->
    exists w',
      VideoProducer.execute_loop req desc
        (py_range a (VideoProducer.GDRIVE_API_MAX_RETRIES + 1)) w
      = VideoProducer.execute_loop req desc
          (py_range (a + Z.of_nat j) (VideoProducer.GDRIVE_API_MAX_RETRIES + 1)) w'
      /\ env w' = state_after req j (env w)
      /\ calls w' = calls w + Z.of_nat j
      /\ sleeps w' = sleeps w + Z.of_nat j.
Proof.
  induction j as [| j IH]; intros a w Hle Hfail.
  - exists w. replace (a + Z.of_nat 0) with a by lia.
    repeat split; cbn; lia.
  - assert (H0 : exception_failure (outcome_at req 0 (env w)) = true)
      by (apply Hfail; lia).
    unfold outcome_at in H0. cbn [state_after] in H0.
    destruct (fst (req (env w))) as [v | [e | c msg]] eqn:Hout; cbn in H0; try discriminate.
    assert (Hgo : (a >=? VideoProducer.GDRIVE_API_MAX_RETRIES)%Z = false).
    { rewrite Z.geb_leb. apply Z.leb_gt. lia. }
    rewrite (py_range_cons a) by lia.
    destruct (vp_attempt_retries desc a
                (py_range (a + 1) (VideoProducer.GDRIVE_API_MAX_RETRIES + 1)) w e Hout Hgo)
      as (w1 & Hstep & He1 & Hc1 & Hs1).
    destruct (IH (a + 1) w1) as (w' & Hrun & He & Hc & Hs).
    { lia. }
    { intros i Hi. rewrite He1. rewrite <- outcome_at_succ. apply Hfail. lia. }
    exists w'. rewrite Hstep, Hrun.
    replace (a + 1 + Z.of_nat j) with (a + Z.of_nat (Datatypes.S j)) by lia.
    repeat split; [| lia | lia].
    rewrite He, He1. reflexivity.
Qed.

End VideoProducerRuns.

(** ** The retrying executor: exhaustion, success, fatal errors *)

(** The claim C1 fails for a negative base delay, which [--gdrive-retry-delay]
    (an unchecked [int]) lets through: with the bound 3 and a base delay of -1
    second, an operation that times out on every invocation is invoked once;
    the sleep before the second attempt is refused by [time.sleep], and the
    caller gets that [ValueError], not the time-out of the last attempt. *)
Lemma negative_delay_ends_retries_after_one_attempt :
  1 <= 3
  /\ (forall i, (i < Z.to_nat 3)%nat ->
        transient_failure DropboxLeftoversProducer._is_transient_error
          (outcome_at always_times_out i (env (fresh_world O 0))) = true)
  /\ fst (DropboxLeftoversProducer._gdrive_execute_with_retry always_times_out "list" 3 (-1)
            (fresh_world O 0))
     = Raise (Err sleep_length_error)
  /\ outcome_at always_times_out (Z.to_nat 3 - 1) (env (fresh_world O 0))
     = Raise (Err read_timeout)
  /\ sleep_length_error <> read_timeout
  /\ calls (snd (DropboxLeftoversProducer._gdrive_execute_with_retry always_times_out "list"
                   3 (-1) (fresh_world O 0))) = 1
  /\ ~ (exists e w',
          DropboxLeftoversProducer._gdrive_execute_with_retry always_times_out "list" 3 (-1)
            (fresh_world O 0) = (Raise (Err e), w')
          /\ outcome_at always_times_out (Z.to_nat 3 - 1) (env (fresh_world O 0))
             = Raise (Err e)
          /\ calls w' = calls (fresh_world O 0) + 3).
Proof.
  split; [lia |]. split; [intros i Hi; reflexivity |].
  split; [vm_compute; reflexivity |]. split; [reflexivity |].
  split; [discriminate |]. split; [vm_compute; reflexivity |].
  intros (e & w' & Hrun & Hlast & Hcalls).
  apply (f_equal fst) in Hrun. cbn [fst] in Hrun.
  assert (Hfst : fst (DropboxLeftoversProducer._gdrive_execute_with_retry always_times_out
                        "list" 3 (-1) (fresh_world O 0))
                 = Raise (Err sleep_length_error)) by (vm_compute; reflexivity).
  rewrite Hfst in Hrun. injection Hrun as He. subst e.
  cbn in Hlast. discriminate Hlast.
Qed.

(** C1, amended. For every bound [N >= 1], every base delay that is at least
    0 seconds when a second attempt is allowed ([N >= 2]), and every operation
    whose invocations all raise an error the classifier calls transient, the
    executor [_gdrive_execute_with_retry] invokes the operation exactly [N]
    times, sleeps between the attempts only ([N - 1] times) and raises the
    error of the last attempt; with [N = 1] there is one invocation and no
    sleep, whatever the delay. The executor of [video_producer.py], whose
    bound is the constant [GDRIVE_API_MAX_RETRIES] and whose delay is fixed,
    does the same for that [N]. *)
Theorem retry_exhausts_after_max_attempts :
  forall (S V : Type) (is_transient : Exception -> bool) (req : S -> outcome V * S)
         (desc : string) (N base_delay : Z) (w : World S),
    1 <= N ->
    (2 <= N -> 0 <= base_delay) ->
    (forall i, (i < Z.to_nat N)%nat ->
       transient_failure is_transient (outcome_at req i (env w)) = true) ->
    (exists e w',
        _gdrive_execute_with_retry is_transient req desc N base_delay w = (Raise (Err e), w')
        /\ outcome_at req (Z.to_nat N - 1) (env w) = Raise (Err e)
        /\ calls w' = calls w + N
        /\ sleeps w' = sleeps w + (N - 1))
    /\ (N = VideoProducer.GDRIVE_API_MAX_RETRIES ->
        exists e w',
          VideoProducer._execute_gdrive_with_retry req desc w = (Raise (Err e), w')
          /\ outcome_at req (Z.to_nat N - 1) (env w) = Raise (Err e)
          /\ calls w' = calls w + N
          /\ sleeps w' = sleeps w + (N - 1)).
Proof.
  intros S V is_transient req desc N base_delay w HN Hdelay Hfail.
  set (j := (Z.to_nat N - 1)%nat).
  assert (Hj : Z.of_nat j = N - 1) by (unfold j; lia).
  assert (Hlast : transient_failure is_transient (outcome_at req j (env w)) = true)
    by (apply Hfail; unfold j; lia).
  destruct (outcome_at req j (env w)) as [v | [e | c msg]] eqn:Hout; cbn in Hlast;
    try discriminate.
  split.
  - assert (Hloop : exists last' w1,
               gdrive_retry_loop is_transient req desc N base_delay (py_range 1 (N + 1)) None w
               = gdrive_retry_loop is_transient req desc N base_delay
                   (py_range (1 + Z.of_nat j) (N + 1)) last' w1
               /\ env w1 = state_after req j (env w)
               /\ calls w1 = calls w + Z.of_nat j
               /\ sleeps w1 = sleeps w + Z.of_nat j).
    { destruct (Z.le_gt_cases 2 N) as [H2 | H2].
      - apply (loop_skips_transient_failures is_transient req desc N base_delay (Hdelay H2)
                 j 1 None w); [lia |].
        intros i Hi. apply Hfail. unfold j in Hi. lia.
      - assert (Hj0 : j = O) by lia. rewrite Hj0. exists None, w.
        replace (1 + Z.of_nat 0) with 1 by lia. repeat split; cbn; lia. }
    destruct Hloop as (last' & w1 & Hrun & He & Hc & Hs).
    unfold _gdrive_execute_with_retry. rewrite Hrun.
    replace (1 + Z.of_nat j) with N by lia.
    rewrite (py_range_cons N) by lia.
    destruct (attempt_gives_up is_transient req desc N base_delay N
                (py_range (N + 1) (N + 1)) last' w1 e) as (w2 & Hstep & He2 & Hc2 & Hs2).
    { rewrite He. exact Hout. }
    { rewrite Z.geb_leb, Z.leb_refl. reflexivity. }
    exists e, w2. rewrite Hstep. repeat split; lia.
  - intros HN3.
    destruct (vp_loop_skips_failures req desc j 1 w) as (w1 & Hrun & He & Hc & Hs).
    { lia. }
    { intros i Hi.
      assert (Hi' : transient_failure is_transient (outcome_at req i (env w)) = true)
        by (apply Hfail; unfold j in Hi; lia).
      destruct (outcome_at req i (env w)) as [? | [? | ? ?]]; cbn in *; congruence. }
    unfold VideoProducer._execute_gdrive_with_retry. rewrite Hrun.
    replace (1 + Z.of_nat j) with VideoProducer.GDRIVE_API_MAX_RETRIES by lia.
    rewrite (py_range_cons VideoProducer.GDRIVE_API_MAX_RETRIES) by lia.
    destruct (vp_attempt_gives_up req desc VideoProducer.GDRIVE_API_MAX_RETRIES
                (py_range (VideoProducer.GDRIVE_API_MAX_RETRIES + 1)
                          (VideoProducer.GDRIVE_API_MAX_RETRIES + 1)) w1 e)
      as (w2 & Hstep & He2 & Hc2 & Hs2).
    { rewrite He. exact Hout. }
    { reflexivity. }
    exists e, w2. rewrite Hstep. repeat split; lia.
Qed.

(** The statement of C1 at the bound 3 of the scripts, for an operation that
    times out on every invocation. *)
Lemma retry_exhausts_after_max_attempts_witness :
  1 <= 3
  /\ (2 <= 3 -> 0 <= 3)
  /\ (forall i, (i < Z.to_nat 3)%nat ->
        transient_failure DropboxLeftoversProducer._is_transient_error
          (outcome_at always_times_out i (env (fresh_world O 0))) = true)
  /\ (exists e w',
        DropboxLeftoversProducer._gdrive_execute_with_retry always_times_out "list" 3 3
          (fresh_world O 0) = (Raise (Err e), w')
        /\ outcome_at always_times_out (Z.to_nat 3 - 1) (env (fresh_world O 0)) = Raise (Err e)
        /\ calls w' = calls (fresh_world O 0) + 3
        /\ sleeps w' = sleeps (fresh_world O 0) + (3 - 1)).
Proof.
  assert (H1 : 1 <= 3) by lia.
  assert (H0 : 2 <= 3 -> 0 <= 3) by lia.
  assert (H2 : forall i, (i < Z.to_nat 3)%nat ->
             transient_failure DropboxLeftoversProducer._is_transient_error
               (outcome_at always_times_out i (env (fresh_world O 0))) = true)
    by (intros i Hi; reflexivity).
  split; [exact H1 |]. split; [exact H0 |]. split; [exact H2 |].
  exact (proj1 (retry_exhausts_after_max_attempts nat string
                  DropboxLeftoversProducer._is_transient_error always_times_out
                  "list" 3 3 (fresh_world O 0) H1 H0 H2)).
Defined.

(** The claim C2 fails for a negative base delay: with the bound 3 and a base
    delay of -1 second, an operation that times out once and would answer
    ["ok"] on its second invocation is invoked once; the sleep before the
    second attempt is refused by [time.sleep], and the executor raises that
    [ValueError] instead of returning ["ok"]. *)
Lemma negative_delay_loses_later_success :
  (1 <= 2)%nat
  /\ Z.of_nat 2 <= 3
  /\ (forall i, (i < 2 - 1)%nat ->
        transient_failure GdriveDesignCompare._is_transient_error
          (outcome_at (succeeds_at 2 "ok") i (env (fresh_world O 0))) = true)
  /\ outcome_at (succeeds_at 2 "ok") (2 - 1) (env (fresh_world O 0)) = Return "ok"
  /\ fst (GdriveDesignCompare._gdrive_execute_with_retry (succeeds_at 2 "ok") "list" 3 (-1)
            (fresh_world O 0))
     = Raise (Err sleep_length_error)
  /\ calls (snd (GdriveDesignCompare._gdrive_execute_with_retry (succeeds_at 2 "ok") "list"
                   3 (-1) (fresh_world O 0))) = 1
  /\ ~ (exists w',
          GdriveDesignCompare._gdrive_execute_with_retry (succeeds_at 2 "ok") "list" 3 (-1)
            (fresh_world O 0) = (Return "ok", w')
          /\ calls w' = calls (fresh_world O 0) + Z.of_nat 2).
Proof.
  split; [lia |]. split; [lia |]. split.
  { intros i Hi. assert (Hi0 : i = O) by lia. rewrite Hi0. reflexivity. }
  split; [reflexivity |]. split; [vm_compute; reflexivity |].
  split; [vm_compute; reflexivity |].
  intros (w' & Hrun & Hcalls).
  apply (f_equal fst) in Hrun. cbn [fst] in Hrun.
  assert (Hfst : fst (GdriveDesignCompare._gdrive_execute_with_retry (succeeds_at 2 "ok")
                        "list" 3 (-1) (fresh_world O 0))
                 = Raise (Err sleep_length_error)) by (vm_compute; reflexivity).
  rewrite Hfst in Hrun. discriminate.
Qed.

(** C2, amended. For every bound [N >= 1], every [k] with [1 <= k <= N] and
    every base delay that is at least 0 seconds when a sleep is due
    ([k >= 2]): if the invocations [1 .. k - 1] raise errors the classifier
    calls transient and invocation [k] returns [v], the executor returns [v]
    after exactly [k] invocations (and [k - 1] sleeps). *)
Theorem retry_returns_first_success :
  forall (S V : Type) (is_transient : Exception -> bool) (req : S -> outcome V * S)
         (desc : string) (N base_delay : Z) (k : nat) (v : V) (w : World S),
    (1 <= k)%nat ->
    Z.of_nat k <= N ->
    ((2 <= k)%nat -> 0 <= base_delay) ->
    (forall i, (i < k - 1)%nat ->
       transient_failure is_transient (outcome_at req i (env w)) = true) ->
    outcome_at req (k - 1) (env w) = Return v ->
    exists w',
      _gdrive_execute_with_retry is_transient req desc N base_delay w = (Return v, w')
      /\ calls w' = calls w + Z.of_nat k
      /\ sleeps w' = sleeps w + (Z.of_nat k - 1)
      /\ env w' = state_after req k (env w).
Proof.
  intros S V is_transient req desc N base_delay k v w Hk HkN Hdelay Hfail Hok.
  assert (Hloop : exists last' w1,
             gdrive_retry_loop is_transient req desc N base_delay (py_range 1 (N + 1)) None w
             = gdrive_retry_loop is_transient req desc N base_delay
                 (py_range (1 + Z.of_nat (k - 1)) (N + 1)) last' w1
             /\ env w1 = state_after req (k - 1) (env w)
             /\ calls w1 = calls w + Z.of_nat (k - 1)
             /\ sleeps w1 = sleeps w + Z.of_nat (k - 1)).
  { destruct (Nat.le_gt_cases 2 k) as [H2 | H2].
    - apply (loop_skips_transient_failures is_transient req desc N base_delay (Hdelay H2)
               (k - 1) 1 None w); [lia | exact Hfail].
    - assert (Hk0 : (k - 1 = 0)%nat) by lia. rewrite Hk0. exists None, w.
      replace (1 + Z.of_nat 0) with 1 by lia. repeat split; cbn; lia. }
  destruct Hloop as (last' & w1 & Hrun & He & Hc & Hs).
  unfold _gdrive_execute_with_retry. rewrite Hrun.
  rewrite (py_range_cons (1 + Z.of_nat (k - 1))) by lia.
  destruct (attempt_returns is_transient req desc N base_delay (1 + Z.of_nat (k - 1))
              (py_range (1 + Z.of_nat (k - 1) + 1) (N + 1)) last' w1 v)
    as (w2 & Hstep & He2 & Hc2 & Hs2).
  { rewrite He. exact Hok. }
  exists w2. rewrite Hstep. repeat split; try lia.
  rewrite He2, He. replace k with (Datatypes.S (k - 1)) at 2 by lia.
  clear. generalize (env w). induction (k - 1)%nat as [| n IH]; intros s; cbn.
  - reflexivity.
  - apply IH.
Qed.

(** The statement of C2 for an operation that times out twice and answers on
    the third of three attempts. *)
Lemma retry_returns_first_success_witness :
  (1 <= 3)%nat
  /\ Z.of_nat 3 <= 3
  /\ ((2 <= 3)%nat -> 0 <= 5)
  /\ (forall i, (i < 3 - 1)%nat ->
        transient_failure GdriveDesignCompare._is_transient_error
          (outcome_at (succeeds_at 3 "ok") i (env (fresh_world O 0))) = true)
  /\ outcome_at (succeeds_at 3 "ok") (3 - 1) (env (fresh_world O 0)) = Return "ok"
  /\ exists w',
       GdriveDesignCompare._gdrive_execute_with_retry (succeeds_at 3 "ok") "list" 3 5
         (fresh_world O 0) = (Return "ok", w')
       /\ calls w' = calls (fresh_world O 0) + Z.of_nat 3
       /\ sleeps w' = sleeps (fresh_world O 0) + (Z.of_nat 3 - 1)
       /\ env w' = state_after (succeeds_at 3 "ok") 3 (env (fresh_world O 0)).
Proof.
  assert (H1 : (1 <= 3)%nat) by lia.
  assert (H2 : Z.of_nat 3 <= 3) by lia.
  assert (H0 : (2 <= 3)%nat -> 0 <= 5) by lia.
  assert (H3 : forall i, (i < 3 - 1)%nat ->
             transient_failure GdriveDesignCompare._is_transient_error
               (outcome_at (succeeds_at 3 "ok") i (env (fresh_world O 0))) = true).
  { intros i Hi. destruct i as [| [| i]]; [reflexivity | reflexivity | cbn in Hi; lia]. }
  assert (H4 : outcome_at (succeeds_at 3 "ok") (3 - 1) (env (fresh_world O 0)) = Return "ok")
    by reflexivity.
  repeat (split; [assumption |]).
  exact (retry_returns_first_success nat string GdriveDesignCompare._is_transient_error
           (succeeds_at 3 "ok") "list" 3 5 3%nat "ok" (fresh_world O 0) H1 H2 H0 H3 H4).
Defined.

(** The claim C3 fails on the executor of [video_producer.py]: a 404 on the
    first invocation, fatal for both classifiers, is followed by two sleeps and
    two more invocations. *)
Lemma fatal_error_is_retried_by_video_producer :
  fatal_failure DropboxLeftoversProducer._is_transient_error
    (outcome_at always_not_found 0 (env (fresh_world O 0))) = true
  /\ fatal_failure GdriveDesignCompare._is_transient_error
       (outcome_at always_not_found 0 (env (fresh_world O 0))) = true
  /\ calls (snd (VideoProducer._execute_gdrive_with_retry always_not_found "get"
                   (fresh_world O 0))) = 3
  /\ sleeps (snd (VideoProducer._execute_gdrive_with_retry always_not_found "get"
                    (fresh_world O 0))) = 2
  /\ ~ (calls (snd (VideoProducer._execute_gdrive_with_retry always_not_found "get"
                      (fresh_world O 0))) = calls (fresh_world O 0) + 1
        /\ sleeps (snd (VideoProducer._execute_gdrive_with_retry always_not_found "get"
                          (fresh_world O 0))) = sleeps (fresh_world O 0)).
Proof.
  repeat split; try (vm_compute; reflexivity).
  intros [Hc _]. vm_compute in Hc. discriminate.
Qed.

(** C3, amended. For every bound [N >= 1] and every operation whose first
    invocation raises an error the classifier calls fatal, the classifying
    executor [_gdrive_execute_with_retry] invokes the operation exactly once,
    does not sleep, and raises that error. *)
Theorem fatal_error_propagates_at_once :
  forall (S V : Type) (is_transient : Exception -> bool) (req : S -> outcome V * S)
         (desc : string) (N base_delay : Z) (w : World S),
    1 <= N ->
    fatal_failure is_transient (outcome_at req 0 (env w)) = true ->
    exists e w',
      _gdrive_execute_with_retry is_transient req desc N base_delay w = (Raise (Err e), w')
      /\ outcome_at req 0 (env w) = Raise (Err e)
      /\ calls w' = calls w + 1
      /\ sleeps w' = sleeps w.
Proof.
  intros S V is_transient req desc N base_delay w HN Hfatal.
  destruct (outcome_at req 0 (env w)) as [v | [e | c msg]] eqn:Hout; cbn in Hfatal;
    try discriminate.
  unfold _gdrive_execute_with_retry. rewrite (py_range_cons 1) by lia.
  destruct (attempt_gives_up is_transient req desc N base_delay 1
              (py_range (1 + 1) (N + 1)) None w e) as (w1 & Hstep & He & Hc & Hs).
  { exact Hout. }
  { rewrite Hfatal. apply orb_true_r. }
  exists e, w1. rewrite Hstep. repeat split; lia.
Qed.

(** The statement of C3 for a 404 under the bound 3. *)
Lemma fatal_error_propagates_at_once_witness :
  1 <= 3
  /\ fatal_failure DropboxLeftoversProducer._is_transient_error
       (outcome_at always_not_found 0 (env (fresh_world O 0))) = true
  /\ exists e w',
       DropboxLeftoversProducer._gdrive_execute_with_retry always_not_found "get" 3 3
         (fresh_world O 0) = (Raise (Err e), w')
       /\ outcome_at always_not_found 0 (env (fresh_world O 0)) = Raise (Err e)
       /\ calls w' = calls (fresh_world O 0) + 1
       /\ sleeps w' = sleeps (fresh_world O 0).
Proof.
  assert (H1 : 1 <= 3) by lia.
  assert (H2 : fatal_failure DropboxLeftoversProducer._is_transient_error
                 (outcome_at always_not_found 0 (env (fresh_world O 0))) = true)
    by (vm_compute; reflexivity).
  split; [exact H1 |]. split; [exact H2 |].
  exact (fatal_error_propagates_at_once nat string
           DropboxLeftoversProducer._is_transient_error always_not_found "get" 3 3
           (fresh_world O 0) H1 H2).
Defined.

(** ** The error classifier *)

Lemma spec_markers_are_gdrive_design_compare_markers :
  spec_markers = GdriveDesignCompare.transient_markers.
Proof. reflexivity. Qed.

Lemma leftovers_markers_lack_incompleteread :
  spec_markers = (DropboxLeftoversProducer.transient_markers ++ ["incompleteread"])%list.
Proof. reflexivity. Qed.

(** In [gdrive_design_compare.py] every marker of the specification makes an
    error transient. *)
Lemma design_compare_marker_is_transient (e : Exception) (m : string) :
  In m spec_markers ->
  Str.contains m (Str.lower (exc_str e)) = true ->
  GdriveDesignCompare._is_transient_error e = true.
Proof.
  intros Hin Hm. unfold GdriveDesignCompare._is_transient_error.
  destruct (isinstance_network e); [reflexivity |].
  destruct (isinstance_HttpError e && retryable_status (resp_status_of e)); [reflexivity |].
  cbv zeta. apply List.existsb_exists. exists m. split; [exact Hin | exact Hm].
Qed.

(** In [dropbox_leftovers_producer.py] every marker of the specification but
    [incompleteread] does. *)
Lemma leftovers_marker_is_transient (e : Exception) (m : string) :
  In m spec_markers ->
  m <> "incompleteread" ->
  Str.contains m (Str.lower (exc_str e)) = true ->
  DropboxLeftoversProducer._is_transient_error e = true.
Proof.
  intros Hin Hne Hm. unfold DropboxLeftoversProducer._is_transient_error.
  destruct (isinstance_network e); [reflexivity |].
  destruct (isinstance_HttpError e && retryable_status (resp_status_of e)); [reflexivity |].
  cbv zeta. apply List.existsb_exists. exists m. split; [| exact Hm].
  rewrite leftovers_markers_lack_incompleteread in Hin.
  apply List.in_app_or in Hin. destruct Hin as [Hin | [Heq | []]]; [exact Hin | congruence].
Qed.

(** C4, at the input on which [dropbox_leftovers_producer.py] departs from
    it: the text of a broken stream, lower-cased, contains the marker
    [incompleteread], the classifier of [gdrive_design_compare.py] calls the
    error transient, and the classifier of [dropbox_leftovers_producer.py],
    whose list lacks that marker, calls it fatal. *)
Theorem leftovers_classifier_misses_incompleteread :
  In "incompleteread" spec_markers
  /\ Str.contains "incompleteread" (Str.lower (exc_str broken_stream)) = true
  /\ GdriveDesignCompare._is_transient_error broken_stream = true
  /\ DropboxLeftoversProducer._is_transient_error broken_stream = false.
Proof.
  repeat split; try (vm_compute; reflexivity).
  unfold spec_markers. do 11 right. left. reflexivity.
Qed.

(** The claim C5 fails on a 403 whose text mentions SSL: the status is outside
    the retryable set and both classifiers call the error transient. *)
Lemma http_403_mentioning_ssl_is_transient :
  isinstance_HttpError ssl_required = true
  /\ resp_status_of ssl_required = Some 403
  /\ retryable_status (resp_status_of ssl_required) = false
  /\ DropboxLeftoversProducer._is_transient_error ssl_required = true
  /\ GdriveDesignCompare._is_transient_error ssl_required = true
  /\ ~ (DropboxLeftoversProducer._is_transient_error ssl_required = true
        <-> retryable_status (resp_status_of ssl_required) = true).
Proof.
  repeat split; try (vm_compute; reflexivity).
  intros [H _]. specialize (H ltac:(vm_compute; reflexivity)).
  vm_compute in H. discriminate.
Qed.

Lemma retryable_status_iff (st : option Z) :
  retryable_status st = true <-> exists n, st = Some n /\ In n [429; 500; 502; 503; 504].
Proof.
  unfold retryable_status. destruct st as [n |].
  - rewrite List.existsb_exists. split.
    + intros (x & Hin & Heq). apply Z.eqb_eq in Heq. subst x. exists n. split; [reflexivity | exact Hin].
    + intros (x & Heq & Hin). inversion Heq; subst x. exists n. split; [exact Hin | apply Z.eqb_refl].
  - split; [discriminate | intros (n & Heq & _); discriminate].
Qed.

(** C5, amended. For every error that carries an HTTP-style status code: with
    the status in {429, 500, 502, 503, 504} both classifiers return transient;
    with any other status (400, 401, 403 and 404 among them) each returns
    transient exactly when the lower-cased text of the error contains one of
    its markers, and fatal otherwise. *)
Theorem http_error_classification :
  forall (e : Exception) (status : Z),
    exc_class_of e = HttpError (Some status) ->
    (In status [429; 500; 502; 503; 504] ->
       DropboxLeftoversProducer._is_transient_error e = true
       /\ GdriveDesignCompare._is_transient_error e = true)
    /\ (~ In status [429; 500; 502; 503; 504] ->
          DropboxLeftoversProducer._is_transient_error e
            = mentions_marker DropboxLeftoversProducer.transient_markers e
          /\ GdriveDesignCompare._is_transient_error e
               = mentions_marker GdriveDesignCompare.transient_markers e)
    /\ (In status [400; 401; 403; 404] ->
          mentions_marker GdriveDesignCompare.transient_markers e = false ->
          DropboxLeftoversProducer._is_transient_error e = false
          /\ GdriveDesignCompare._is_transient_error e = false).
Proof.
  intros e status Hcls.
  assert (Hnet : isinstance_network e = false) by (unfold isinstance_network; rewrite Hcls; reflexivity).
  assert (Hhttp : isinstance_HttpError e = true) by (unfold isinstance_HttpError; rewrite Hcls; reflexivity).
  assert (Hst : resp_status_of e = Some status) by (unfold resp_status_of; rewrite Hcls; reflexivity).
  assert (Hout : ~ In status [429; 500; 502; 503; 504] ->
                 DropboxLeftoversProducer._is_transient_error e
                   = mentions_marker DropboxLeftoversProducer.transient_markers e
                 /\ GdriveDesignCompare._is_transient_error e
                      = mentions_marker GdriveDesignCompare.transient_markers e).
  { intros Hnot.
    assert (Hr : retryable_status (resp_status_of e) = false).
    { destruct (retryable_status (resp_status_of e)) eqn:E; [| reflexivity].
      apply retryable_status_iff in E. destruct E as (n & Hn & Hin).
      rewrite Hst in Hn. inversion Hn; subst n. contradiction. }
    unfold DropboxLeftoversProducer._is_transient_error,
      GdriveDesignCompare._is_transient_error.
    rewrite Hnet, Hhttp, Hr. split; reflexivity. }
  split; [| split].
  - intros Hin.
    assert (Hr : retryable_status (resp_status_of e) = true).
    { apply retryable_status_iff. exists status. split; [exact Hst | exact Hin]. }
    unfold DropboxLeftoversProducer._is_transient_error,
      GdriveDesignCompare._is_transient_error.
    rewrite Hnet, Hhttp, Hr. split; reflexivity.
  - exact Hout.
  - intros Hin Hno.
    assert (Hnot : ~ In status [429; 500; 502; 503; 504]).
    { cbn in *. intros Hbad.
      repeat match goal with H : _ \/ _ |- _ => destruct H as [H | H] end;
        try contradiction; lia. }
    destruct (Hout Hnot) as [Hd Hg]. rewrite Hd, Hg, Hno. split; [| reflexivity].
    unfold mentions_marker in *.
    change GdriveDesignCompare.transient_markers
      with (DropboxLeftoversProducer.transient_markers ++ ["incompleteread"])%list in Hno.
    rewrite List.existsb_app in Hno. apply orb_false_elim in Hno. exact (proj1 Hno).
Qed.

(** The statement of C5 for a 404 that mentions no marker. *)
Lemma http_error_classification_witness :
  exc_class_of not_found = HttpError (Some 404)
  /\ In 404 [400; 401; 403; 404]
  /\ mentions_marker GdriveDesignCompare.transient_markers not_found = false
  /\ DropboxLeftoversProducer._is_transient_error not_found = false
  /\ GdriveDesignCompare._is_transient_error not_found = false.
Proof.
  assert (H : exc_class_of not_found = HttpError (Some 404)) by reflexivity.
  assert (Hin : In 404 [400; 401; 403; 404]) by (cbn; tauto).
  assert (Hno : mentions_marker GdriveDesignCompare.transient_markers not_found = false)
    by (vm_compute; reflexivity).
  split; [exact H |]. split; [exact Hin |]. split; [exact Hno |].
  exact (proj2 (proj2 (http_error_classification not_found 404 H)) Hin Hno).
Defined.

(** ** The bounds of the backoff delay *)




(** ** Downloads through a temporary file *)

Lemma string_length_append (s1 s2 : string) :
  String.length (s1 ++ s2) = (String.length s1 + String.length s2)%nat.
Proof. induction s1 as [| c s1 IH]; simpl; [reflexivity | f_equal; exact IH]. Qed.

Lemma with_part_suffix_differs (p : string) : with_part_suffix p <> p.
Proof.
  unfold with_part_suffix. intros H.
  assert (Hlen : String.length (p ++ ".part") = String.length p) by (rewrite H; reflexivity).
  rewrite string_length_append in Hlen. cbn in Hlen. lia.
Qed.

Section SafeDownloadRuns.
Context {R : Type}.
Variable files_download : R -> string -> transfer * R.
Variables dbx_path tmp_path out_path : string.
Variables retries base_delay_seconds : Z.

Local Abbreviation step := (fun r : R => files_download r dbx_path).
Local Abbreviation loop :=
  (DropboxLeftoversProducer.download_loop files_download dbx_path tmp_path out_path
     retries base_delay_seconds).

(** One call of the SDK: the service goes one step further and only the
    download path is written. *)
Lemma files_download_to_file_run (w : World (FsEnv R)) :
  exists w1,
    DropboxLeftoversProducer.files_download_to_file files_download tmp_path dbx_path w
      = (match fst (step (remote (env w))) with
         | Complete _ => Return tt
         | Broken _ err => Raise err
         end, w1)
    /\ remote (env w1) = snd (step (remote (env w)))
    /\ files (env w1)
       = match fst (step (remote (env w))) with
         | Complete content => <[tmp_path := content]> (files (env w))
         | Broken written _ => write_partial written tmp_path (files (env w))
         end
    /\ calls w1 = calls w + 1
    /\ sleeps w1 = sleeps w.
Proof.
  unfold DropboxLeftoversProducer.files_download_to_file, bind, on_env, emit.
  cbn [env rng rng_pos trace].
  destruct (files_download (remote (env w)) dbx_path) as [t r'] eqn:E. cbn [fst snd].
  destruct t as [content | [partial |] err]; eexists; (split; [reflexivity |]);
    cbn [env files remote write_partial]; rewrite calls_log, sleeps_log;
    cbn [is_execute is_sleep]; unfold calls, sleeps; repeat split; lia.
Qed.

Lemma download_attempt_completes attempt rest last (w : World (FsEnv R)) content :
  fst (step (remote (env w))) = Complete content ->
  exists w2,
    loop (attempt :: rest) last w = (Return tt, w2)
    /\ files (env w2) = <[out_path := content]> (delete tmp_path (files (env w)))
    /\ remote (env w2) = snd (step (remote (env w)))
    /\ calls w2 = calls w + 1.
Proof.
  intros Ht. destruct (files_download_to_file_run w) as (w1 & Hrun & Hr & Hf & Hc & Hs).
  rewrite Ht in Hrun, Hf.
  eexists. split.
  - cbn [DropboxLeftoversProducer.download_loop].
    unfold try_except, bind at 1. rewrite Hrun.
    unfold path_replace, bind, get_env, put_env, ret. cbn [env rng rng_pos trace].
    rewrite Hf, lookup_insert_eq. reflexivity.
  - cbn [env files remote]. repeat split.
    + rewrite delete_insert_eq. reflexivity.
    + exact Hr.
    + exact Hc.
Qed.

Lemma download_attempt_interrupted attempt rest last (w : World (FsEnv R)) written c msg :
  fst (step (remote (env w))) = Broken written (Interrupt c msg) ->
  exists w1,
    loop (attempt :: rest) last w = (Raise (Interrupt c msg), w1)
    /\ files (env w1) = write_partial written tmp_path (files (env w))
    /\ remote (env w1) = snd (step (remote (env w)))
    /\ calls w1 = calls w + 1.
Proof.
  intros Ht. destruct (files_download_to_file_run w) as (w1 & Hrun & Hr & Hf & Hc & Hs).
  rewrite Ht in Hrun, Hf.
  exists w1. split.
  - cbn [DropboxLeftoversProducer.download_loop].
    unfold try_except, bind at 1. rewrite Hrun. reflexivity.
  - repeat split; assumption.
Qed.

Lemma download_attempt_gives_up attempt rest last (w : World (FsEnv R)) written e :
  fst (step (remote (env w))) = Broken written (Err e) ->
  (attempt >=? retries)%Z || negb (DropboxLeftoversProducer._is_transient_error e) = true ->
  exists w1,
    loop (attempt :: rest) last w
      = (Raise (Err (DropboxLeftoversProducer.download_failed dbx_path (Some e))), w1)
    /\ files (env w1) = write_partial written tmp_path (files (env w))
    /\ remote (env w1) = snd (step (remote (env w)))
    /\ calls w1 = calls w + 1.
Proof.
  intros Ht Hstop.
  destruct (files_download_to_file_run w) as (w1 & Hrun & Hr & Hf & Hc & Hs).
  rewrite Ht in Hrun, Hf.
  eexists. split.
  - cbn [DropboxLeftoversProducer.download_loop].
    unfold try_except, bind at 1. rewrite Hrun.
    unfold bind at 1, print, emit at 1. cbn [env rng rng_pos trace].
    rewrite Hstop. unfold raise. reflexivity.
  - cbn [env]. rewrite calls_log. cbn [is_execute]. unfold calls in *.
    repeat split; [assumption | assumption | lia].
Qed.

Lemma download_attempt_retries attempt rest last (w : World (FsEnv R)) written e :
  fst (step (remote (env w))) = Broken written (Err e) ->
  (attempt >=? retries)%Z || negb (DropboxLeftoversProducer._is_transient_error e) = false ->
  0 <= base_delay_seconds ->
  exists w1,
    loop (attempt :: rest) last w = loop rest (Some e) w1
    /\ files (env w1) = write_partial written tmp_path (files (env w))
    /\ remote (env w1) = snd (step (remote (env w)))
    /\ calls w1 = calls w + 1.
Proof.
  intros Ht Hgo Hbase.
  destruct (files_download_to_file_run w) as (w1 & Hrun & Hr & Hf & Hc & Hs).
  cbv beta in Ht, Hrun, Hf, Hr. rewrite Ht in Hrun, Hf.
  eexists. split.
  - cbn [DropboxLeftoversProducer.download_loop].
    unfold try_except, bind at 1. rewrite Hrun.
    unfold bind at 1, print, emit at 1. cbn [env rng rng_pos trace].
    rewrite Hgo. unfold bind at 1. rewrite sleep_with_backoff_run.
    replace (0 <=? base_delay_seconds)%Z with true
      by (symmetry; apply Z.leb_le; exact Hbase).
    cbn [env rng rng_pos trace]. reflexivity.
  - cbn [env]. rewrite calls_log. cbn [is_execute].
    rewrite !count_events_app, !count_events_single. cbn [is_execute].
    unfold calls in *. repeat split; [assumption | assumption | lia].
Qed.

(** With a negative base delay the sleep before the next attempt is refused,
    and that error ends the call. *)
Lemma download_attempt_sleep_refused attempt rest last (w : World (FsEnv R)) written e :
  fst (step (remote (env w))) = Broken written (Err e) ->
  (attempt >=? retries)%Z || negb (DropboxLeftoversProducer._is_transient_error e) = false ->
  base_delay_seconds < 0 ->
  exists w1,
    loop (attempt :: rest) last w = (Raise (Err sleep_length_error), w1)
    /\ files (env w1) = write_partial written tmp_path (files (env w))
    /\ remote (env w1) = snd (step (remote (env w)))
    /\ calls w1 = calls w + 1.
Proof.
  intros Ht Hgo Hbase.
  destruct (files_download_to_file_run w) as (w1 & Hrun & Hr & Hf & Hc & Hs).
  cbv beta in Ht, Hrun, Hf, Hr. rewrite Ht in Hrun, Hf.
  eexists. split.
  - cbn [DropboxLeftoversProducer.download_loop].
    unfold try_except, bind at 1. rewrite Hrun.
    unfold bind at 1, print, emit at 1. cbn [env rng rng_pos trace].
    rewrite Hgo. unfold bind at 1. rewrite sleep_with_backoff_run.
    replace (0 <=? base_delay_seconds)%Z with false
      by (symmetry; apply Z.leb_gt; exact Hbase).
    cbn [env rng rng_pos trace]. reflexivity.
  - cbn [env]. unfold calls in *. cbn [trace].
    rewrite !count_events_app, !count_events_single. cbn [is_execute].
    repeat split; [assumption | assumption | lia].
Qed.

Hypothesis tmp_is_not_target : tmp_path <> out_path.

Lemma write_partial_other written (fs : gmap string (list byte)) p :
  p <> tmp_path -> write_partial written tmp_path fs !! p = fs !! p.
Proof.
  intros Hp. destruct written as [partial |]; cbn; [| reflexivity].
  apply lookup_insert_ne. congruence.
Qed.

(** What the retry loop of [safe_download_to_file] does to the files. *)
Lemma download_loop_outcome :
  forall (attempts : list Z) (last : option Exception) (w w' : World (FsEnv R))
         (r : outcome unit),
    loop attempts last w = (r, w') ->
    others_untouched tmp_path out_path w w'
    /\ match r with
       | Return _ => delivered step tmp_path out_path w w'
       | Raise x =>
           target_untouched out_path w w'
           /\ only_partial_left step tmp_path w w'
           /\ (wraps_transfer_error step dbx_path (remote (env w)) x
               \/ (attempts = []
                   /\ x = Err (DropboxLeftoversProducer.download_failed dbx_path last))
               \/ (base_delay_seconds < 0 /\ x = Err sleep_length_error))
       end.
Proof using tmp_is_not_target.
  induction attempts as [| a rest IH]; intros last w w' r Hrun.
  - cbn in Hrun. unfold raise in Hrun. inversion Hrun; subst.
    split; [intros p _ _; reflexivity |].
    split; [reflexivity |]. split; [left; reflexivity | right; left; split; reflexivity].
  - destruct (fst (step (remote (env w)))) as [content | written [e | c msg]] eqn:Ht.
    + destruct (download_attempt_completes a rest last w content Ht)
        as (w2 & Hstep & Hf & Hr & Hc).
      rewrite Hstep in Hrun. inversion Hrun; subst. split.
      * intros p Hp1 Hp2. rewrite Hf, lookup_insert_ne, lookup_delete_ne; congruence.
      * exists O, content. repeat split.
        -- exact Ht.
        -- rewrite Hf. apply lookup_insert_eq.
        -- rewrite Hf, lookup_insert_ne, lookup_delete_eq; congruence.
        -- exact Hc.
    + assert (Hbroken : forall (w1 : World (FsEnv R)),
                 files (env w1) = write_partial written tmp_path (files (env w)) ->
                 others_untouched tmp_path out_path w w1
                 /\ target_untouched out_path w w1
                 /\ only_partial_left step tmp_path w w1).
      { intros w1 Hf. split; [| split].
        - intros p Hp1 Hp2. rewrite Hf. apply write_partial_other. exact Hp1.
        - unfold target_untouched. rewrite Hf. apply write_partial_other. congruence.
        - destruct written as [partial |].
          + right. exists O, partial, (Err e). split; [exact Ht |].
            rewrite Hf. apply lookup_insert_eq.
          + left. rewrite Hf. reflexivity. }
      destruct ((a >=? retries)%Z || negb (DropboxLeftoversProducer._is_transient_error e))
        eqn:Hstop.
      * destruct (download_attempt_gives_up a rest last w written e Ht Hstop)
          as (w1 & Hstep & Hf & Hr & Hc).
        rewrite Hstep in Hrun. inversion Hrun; subst.
        destruct (Hbroken w' Hf) as (Ho & Htg & Hp).
        split; [exact Ho |]. split; [exact Htg |]. split; [exact Hp |].
        left. right. exists O, written, e. split; [reflexivity | exact Ht].
      * destruct (Z.lt_ge_cases base_delay_seconds 0) as [Hneg | Hbase].
        { destruct (download_attempt_sleep_refused a rest last w written e Ht Hstop Hneg)
            as (w1 & Hstep & Hf & Hr & Hc).
          rewrite Hstep in Hrun. inversion Hrun; subst.
          destruct (Hbroken w' Hf) as (Ho & Htg & Hp).
          split; [exact Ho |]. split; [exact Htg |]. split; [exact Hp |].
          right. right. split; [exact Hneg | reflexivity]. }
        destruct (download_attempt_retries a rest last w written e Ht Hstop Hbase)
          as (w1 & Hstep & Hf & Hr & Hc).
        rewrite Hstep in Hrun.
        destruct (IH (Some e) w1 w' r Hrun) as [Hothers Hres]. split.
        -- intros p Hp1 Hp2. rewrite (Hothers p Hp1 Hp2), Hf.
           apply write_partial_other. exact Hp1.
        -- destruct r as [[] | x].
           ++ destruct Hres as (k & content & Hk & Hout & Htmp & Hcalls).
              exists (Datatypes.S k), content. repeat split; try assumption.
              ** unfold outcome_at in *. cbn [state_after]. rewrite <- Hr. exact Hk.
              ** lia.
           ++ destruct Hres as (Htarget & Hpartial & Hshape). split; [| split].
              ** unfold target_untouched in *. rewrite Htarget, Hf.
                 apply write_partial_other. congruence.
              ** destruct Hpartial as [Hsame | (k & partial & err & Hk & Hlook)].
                 --- destruct written as [partial |].
                     +++ right. exists O, partial, (Err e). split; [exact Ht |].
                         rewrite Hsame, Hf. apply lookup_insert_eq.
                     +++ left. rewrite Hsame, Hf. reflexivity.
                 --- right. exists (Datatypes.S k), partial, err. split; [| exact Hlook].
                     unfold outcome_at in *. cbn [state_after]. rewrite <- Hr. exact Hk.
              ** destruct Hshape
                   as [[(c & msg & k & wr & Hx & Hk) | (k & wr & e' & Hx & Hk)]
                      | [[_ Hx] | Hsleep]].
                 --- left. left. exists c, msg, (Datatypes.S k), wr. split; [exact Hx |].
                     unfold outcome_at in *. cbn [state_after]. rewrite <- Hr. exact Hk.
                 --- left. right. exists (Datatypes.S k), wr, e'. split; [exact Hx |].
                     unfold outcome_at in *. cbn [state_after]. rewrite <- Hr. exact Hk.
                 --- left. right. exists O, written, e. split; [exact Hx | exact Ht].
                 --- right. right. exact Hsleep.
    + destruct (download_attempt_interrupted a rest last w written c msg Ht)
        as (w1 & Hstep & Hf & Hr & Hc).
      rewrite Hstep in Hrun. inversion Hrun; subst. split; [| split; [| split]].
      * intros p Hp1 Hp2. rewrite Hf. apply write_partial_other. exact Hp1.
      * unfold target_untouched. rewrite Hf. apply write_partial_other. congruence.
      * destruct written as [partial |].
        -- right. exists O, partial, (Interrupt c msg). split; [exact Ht |].
           rewrite Hf. apply lookup_insert_eq.
        -- left. rewrite Hf. reflexivity.
      * left. left. exists c, msg, O, written. split; [reflexivity | exact Ht].
Qed.

End SafeDownloadRuns.

Section SafeDownload.
Context {R : Type}.
Variable files_download : R -> string -> transfer * R.
Variables dbx_path out_path : string.
Variables retries base_delay_seconds : Z.

(** Before its loop [safe_download_to_file] has removed the temporary file,
    and nothing else has changed. *)
Lemma safe_download_starts_clean (w : World (FsEnv R)) :
  exists w0,
    DropboxLeftoversProducer.safe_download_to_file files_download dbx_path out_path
      retries base_delay_seconds w
    = DropboxLeftoversProducer.download_loop files_download dbx_path
        (with_part_suffix out_path) out_path retries base_delay_seconds
        (py_range 1 (retries + 1)) None w0
    /\ files (env w0) = delete (with_part_suffix out_path) (files (env w))
    /\ remote (env w0) = remote (env w)
    /\ calls w0 = calls w.
Proof.
  unfold DropboxLeftoversProducer.safe_download_to_file, mkdir_parents.
  unfold bind at 1, ret at 1. unfold bind at 1, path_exists, bind at 1, get_env, ret.
  destruct (files (env w) !! with_part_suffix out_path) as [old |] eqn:Hold.
  - rewrite bool_decide_eq_true_2 by eauto.
    unfold bind at 1, try_except, path_unlink, bind at 1, get_env, put_env.
    rewrite Hold. eexists. split; [reflexivity |]. cbn. repeat split; reflexivity.
  - rewrite bool_decide_eq_false_2 by (intros [? ?]; congruence).
    unfold bind at 1, ret. exists w. split; [reflexivity |].
    repeat split; try reflexivity.
    symmetry. apply delete_id. exact Hold.
Qed.

(** [safe_download_to_file]: files other than the target and its temporary
    file are never touched; when the call returns, the target holds the
    content of the transfer that completed and no temporary file is left;
    when it raises, the target is as before and the temporary file is absent
    or holds what a broken transfer of this call wrote. *)
Lemma safe_download_outcome (w w' : World (FsEnv R)) (r : outcome unit) :
  DropboxLeftoversProducer.safe_download_to_file files_download dbx_path out_path
    retries base_delay_seconds w = (r, w') ->
  others_untouched (with_part_suffix out_path) out_path w w'
  /\ match r with
     | Return _ =>
         delivered (fun s => files_download s dbx_path) (with_part_suffix out_path)
           out_path w w'
     | Raise x =>
         target_untouched out_path w w'
         /\ (files (env w') !! with_part_suffix out_path = None
             \/ exists (k : nat) (partial : list byte) (err : raised),
                  outcome_at (fun s => files_download s dbx_path) k (remote (env w))
                    = Broken (Some partial) err
                  /\ files (env w') !! with_part_suffix out_path = Some partial)
         /\ (wraps_transfer_error (fun s => files_download s dbx_path) dbx_path
               (remote (env w)) x
             \/ (retries <= 0
                 /\ x = Err (DropboxLeftoversProducer.download_failed dbx_path None))
             \/ (base_delay_seconds < 0 /\ x = Err sleep_length_error))
     end.
Proof.
  intros Hrun.
  destruct (safe_download_starts_clean w) as (w0 & Hstart & Hf0 & Hr0 & Hc0).
  rewrite Hstart in Hrun.
  pose proof (with_part_suffix_differs out_path) as Hne.
  destruct (download_loop_outcome files_download dbx_path (with_part_suffix out_path)
              out_path retries base_delay_seconds Hne _ _ _ _ _ Hrun) as [Hothers Hres].
  split.
  - intros p Hp1 Hp2. rewrite (Hothers p Hp1 Hp2), Hf0. apply lookup_delete_ne. congruence.
  - destruct r as [[] | x].
    + destruct Hres as (k & content & Hk & Hout & Htmp & Hcalls).
      exists k, content. rewrite <- Hr0. repeat split; try assumption. lia.
    + destruct Hres as (Htarget & Hpartial & Hshape). split; [| split].
      * unfold target_untouched in *. rewrite Htarget, Hf0. apply lookup_delete_ne. exact Hne.
      * destruct Hpartial as [Hsame | (k & partial & err & Hk & Hlook)].
        -- left. rewrite Hsame, Hf0. apply lookup_delete_eq.
        -- right. exists k, partial, err. rewrite <- Hr0. split; assumption.
      * rewrite <- Hr0.
        destruct Hshape as [Hwraps | [[Hnil Hx] | Hsleep]];
          [left; exact Hwraps | | right; right; exact Hsleep].
        right. left. split; [| exact Hx]. apply py_range_nil_inv in Hnil. lia.
Qed.

End SafeDownload.

Section DownloadFile.
Context {R : Type}.
Variable service : string -> list GdriveEncodedDownloader.chunk_step.

(** The chunk loop appends to the open temporary file what arrives before
    the first failure, and raises that failure if there is one. *)
Lemma chunk_loop_run (tmp_path : string) :
  forall (steps : list GdriveEncodedDownloader.chunk_step) (w : World (FsEnv R))
         (pre : list byte),
    files (env w) !! tmp_path = Some pre ->
    exists w',
      GdriveEncodedDownloader.chunk_loop tmp_path steps w
        = (match first_failure steps with
           | None => Return tt
           | Some err => Raise err
           end, w')
      /\ files (env w') = <[tmp_path := (pre ++ received steps)%list]> (files (env w))
      /\ remote (env w') = remote (env w).
Proof.
  induction steps as [| [data | err] rest IH]; intros w pre Hpre.
  - eexists. split; [reflexivity |]. cbn. split; [| reflexivity].
    rewrite app_nil_r. symmetry. apply insert_id. exact Hpre.
  - cbn [GdriveEncodedDownloader.chunk_loop first_failure received].
    unfold bind at 1, emit at 1. unfold bind at 1, write_bytes, bind at 1, get_env, put_env.
    cbn [env rng rng_pos trace files remote]. rewrite Hpre. cbn [default].
    destruct rest as [| next rest'].
    + eexists. split; [reflexivity |]. cbn. rewrite app_nil_r. split; reflexivity.
    + match goal with
      | |- context [GdriveEncodedDownloader.chunk_loop tmp_path (next :: rest') ?w1] =>
          destruct (IH w1 (pre ++ data)%list) as (w' & Hrun & Hf & Hr)
      end.
      { cbn. apply lookup_insert_eq. }
      exists w'. rewrite Hrun. split; [reflexivity |]. split.
      * rewrite Hf. cbn [env files]. rewrite insert_insert_eq, <- app_assoc. reflexivity.
      * rewrite Hr. reflexivity.
  - eexists. split; [reflexivity |]. cbn. split; [| reflexivity].
    rewrite app_nil_r. symmetry. apply insert_id. exact Hpre.
Qed.

(** The transfer of [download_file]: files other than the target and its
    temporary file are never touched; without a failing chunk the call
    returns, the target holds every byte received and no temporary file is
    left; with a failing chunk the call raises its error, the target is as
    before and the temporary file holds the bytes received until then. *)
Lemma download_body_outcome (file_id target_path : string) (w w' : World (FsEnv R))
    (r : outcome unit) :
  GdriveEncodedDownloader.download_body service file_id target_path w = (r, w') ->
  others_untouched (with_part_suffix target_path) target_path w w'
  /\ match first_failure (service file_id) with
     | None =>
         r = Return tt
         /\ files (env w') !! target_path = Some (received (service file_id))
         /\ files (env w') !! with_part_suffix target_path = None
     | Some err =>
         r = Raise err
         /\ target_untouched target_path w w'
         /\ files (env w') !! with_part_suffix target_path
            = Some (received (service file_id))
     end.
Proof.
  pose proof (with_part_suffix_differs target_path) as Hne.
  unfold GdriveEncodedDownloader.download_body.
  unfold bind at 1, path_exists, bind at 1, get_env, ret.
  set (tmp := with_part_suffix target_path) in *.
  assert (Hclean : exists w0,
             (if bool_decide (is_Some (files (env w) !! tmp)) then path_unlink tmp
              else (fun w => (Return tt, w))) w = (Return tt, w0)
             /\ files (env w0) = delete tmp (files (env w))
             /\ remote (env w0) = remote (env w)).
  { destruct (files (env w) !! tmp) as [old |] eqn:Hold.
    - rewrite bool_decide_eq_true_2 by eauto.
      unfold path_unlink, bind, get_env, put_env. rewrite Hold.
      eexists. split; [reflexivity |]. cbn. split; reflexivity.
    - rewrite bool_decide_eq_false_2 by (intros [? ?]; congruence).
      exists w. split; [reflexivity |]. split; [| reflexivity].
      symmetry. apply delete_id. exact Hold. }
  destruct Hclean as (w0 & Hrun0 & Hf0 & Hr0).
  unfold bind at 1. rewrite Hrun0.
  unfold bind at 1, open_wb, bind at 1, get_env, put_env.
  cbn [env rng rng_pos trace files remote]. unfold bind at 1.
  match goal with
  | |- context [GdriveEncodedDownloader.chunk_loop tmp (service file_id) ?w1] =>
      destruct (chunk_loop_run tmp (service file_id) w1 []) as (w2 & Hrun2 & Hf2 & Hr2)
  end.
  { cbn. apply lookup_insert_eq. }
  rewrite Hrun2. cbn [app env files remote] in Hf2.
  rewrite insert_insert_eq, Hf0 in Hf2.
  destruct (first_failure (service file_id)) as [err |].
  - intros Hrun. inversion Hrun; subst. split; [| split; [reflexivity | split]].
    + intros p Hp1 Hp2. rewrite Hf2, lookup_insert_ne, lookup_delete_ne; congruence.
    + unfold target_untouched. rewrite Hf2, lookup_insert_ne, lookup_delete_ne; congruence.
    + rewrite Hf2. apply lookup_insert_eq.
  - unfold bind at 1, path_replace, bind at 1, get_env, put_env.
    rewrite Hf2, lookup_insert_eq. unfold print, emit. cbn [env rng rng_pos trace].
    intros Hrun. inversion Hrun; subst. unfold others_untouched. cbn [env files].
    split; [| split; [reflexivity | split]].
    + intros p Hp1 Hp2.
      rewrite lookup_insert_ne, lookup_delete_ne, lookup_insert_ne, lookup_delete_ne;
        congruence.
    + apply lookup_insert_eq.
    + rewrite lookup_insert_ne, lookup_delete_eq; congruence.
Qed.

(** [download_file] either skips, leaving every file as it is, or makes the
    transfer. *)
Lemma download_file_cases (file_id target_path : string) (size_bytes : option Z)
    (chunksize : Z) (skip_existing : bool) (w : World (FsEnv R)) :
  (skips_download w target_path size_bytes skip_existing
   /\ exists w',
        GdriveEncodedDownloader.download_file service file_id target_path size_bytes
          chunksize skip_existing w = (Return tt, w')
        /\ env w' = env w)
  \/ (~ skips_download w target_path size_bytes skip_existing
      /\ GdriveEncodedDownloader.download_file service file_id target_path size_bytes
           chunksize skip_existing w
         = GdriveEncodedDownloader.download_body service file_id target_path w).
Proof.
  unfold GdriveEncodedDownloader.download_file, skips_download, mkdir_parents,
    path_exists, path_size, bind, get_env, ret.
  cbv beta iota.
  destruct skip_existing.
  - destruct (files (env w) !! target_path) as [content |] eqn:Hold.
    + rewrite bool_decide_eq_true_2 by eauto.
      destruct size_bytes as [size |].
      * cbv beta iota. rewrite ?Hold. cbv beta iota.
        destruct (Z.of_nat (List.length content) =? size)%Z eqn:Hsize.
        -- left. apply Z.eqb_eq in Hsize. split.
           ++ split; [reflexivity |]. exists content. split; [reflexivity | congruence].
           ++ eexists. split; [reflexivity |]. reflexivity.
        -- right. apply Z.eqb_neq in Hsize. split; [| reflexivity].
           intros (_ & c & Hc & Hs). inversion Hc; subst c. inversion Hs. congruence.
      * right. split; [| reflexivity].
        intros (_ & c & _ & Hs). discriminate.
    + rewrite bool_decide_eq_false_2 by (intros [? ?]; congruence).
      right. split.
      * intros (_ & c & Hc & _). discriminate.
      * destruct size_bytes; reflexivity.
  - right. split; [intros [H _]; discriminate |].
    destruct size_bytes; reflexivity.
Qed.

End DownloadFile.

(** The claim C8 fails when [download_file] skips: asked to skip existing
    files, with the target already at the expected size, it returns at once
    and the temporary file left over from an earlier run is still there. *)
Lemma skipped_download_keeps_leftover :
  files (env (fresh_world (mkFsEnv finished_with_leftover tt) 0))
    !! with_part_suffix "out/encoded/a.mp4" = Some [x09]
  /\ fst (GdriveEncodedDownloader.download_file two_chunks "1AbC" "out/encoded/a.mp4"
            (Some 3) 1048576 true (fresh_world (mkFsEnv finished_with_leftover tt) 0))
     = Return tt
  /\ files (env (snd (GdriveEncodedDownloader.download_file two_chunks "1AbC"
                        "out/encoded/a.mp4" (Some 3) 1048576 true
                        (fresh_world (mkFsEnv finished_with_leftover tt) 0))))
       !! with_part_suffix "out/encoded/a.mp4" = Some [x09].
Proof. repeat split; vm_compute; reflexivity. Qed.

(** C8, amended. Unless [download_file] skips (it was asked to skip existing
    files and the target already has the expected size; then nothing is
    touched), every download first removes the temporary [.part] file of the
    target, writes the bytes of the transfer to that temporary path only, and
    renames it to the target only after a transfer that completed. Hence when
    [safe_download_to_file] or [download_file] raises, the target is as it was
    before the call (absent, or with its earlier content), and what is left at
    the temporary path, if anything, is what this call's broken transfer
    wrote; when the call returns, the target holds the whole content and no
    temporary file is left. No other file is touched. *)
Theorem download_renames_only_complete_transfers :
  forall (R : Type) (files_download : R -> string -> transfer * R)
         (service : string -> list GdriveEncodedDownloader.chunk_step)
         (dbx_path out_path : string) (retries base_delay_seconds : Z)
         (w w' : World (FsEnv R)) (r : outcome unit)
         (file_id target_path : string) (size_bytes : option Z) (chunksize : Z)
         (skip_existing : bool) (v v' : World (FsEnv R)) (q : outcome unit),
    DropboxLeftoversProducer.safe_download_to_file files_download dbx_path out_path
      retries base_delay_seconds w = (r, w') ->
    GdriveEncodedDownloader.download_file service file_id target_path size_bytes chunksize
      skip_existing v = (q, v') ->
    ~ skips_download v target_path size_bytes skip_existing ->
    (others_untouched (with_part_suffix out_path) out_path w w'
     /\ match r with
        | Return _ =>
            delivered (fun s => files_download s dbx_path) (with_part_suffix out_path)
              out_path w w'
        | Raise _ =>
            target_untouched out_path w w'
            /\ (files (env w') !! with_part_suffix out_path = None
                \/ exists (k : nat) (partial : list byte) (err : raised),
                     outcome_at (fun s => files_download s dbx_path) k (remote (env w))
                       = Broken (Some partial) err
                     /\ files (env w') !! with_part_suffix out_path = Some partial)
        end)
    /\ (others_untouched (with_part_suffix target_path) target_path v v'
        /\ match q with
           | Return _ =>
               first_failure (service file_id) = None
               /\ files (env v') !! target_path = Some (received (service file_id))
               /\ files (env v') !! with_part_suffix target_path = None
           | Raise err =>
               first_failure (service file_id) = Some err
               /\ target_untouched target_path v v'
               /\ files (env v') !! with_part_suffix target_path
                  = Some (received (service file_id))
           end).
Proof.
  intros R files_download service dbx_path out_path retries base_delay_seconds w w' r
    file_id target_path size_bytes chunksize skip_existing v v' q Hsafe Hfile Hnoskip.
  split.
  - destruct (safe_download_outcome files_download dbx_path out_path retries
                base_delay_seconds w w' r Hsafe) as [Hothers Hres].
    split; [exact Hothers |].
    destruct r as [[] | x]; [exact Hres |].
    destruct Hres as (Ht & Hp & _). split; assumption.
  - destruct (download_file_cases service file_id target_path size_bytes chunksize
                skip_existing v) as [[Hskip _] | [_ Hbody]]; [contradiction |].
    rewrite Hbody in Hfile.
    destruct (download_body_outcome service file_id target_path v v' q Hfile)
      as [Hothers Hres].
    split; [exact Hothers |].
    destruct (first_failure (service file_id)) as [err |].
    + destruct Hres as (Hq & Ht & Hp). subst q. repeat split; assumption.
    + destruct Hres as (Hq & Ht & Hp). subst q. repeat split; assumption.
Qed.

(** The statement of C8 for a Dropbox download that breaks twice after one
    byte, over an older target, and a Drive download of two chunks into an
    empty folder. *)
Lemma download_renames_only_complete_transfers_witness :
  target_untouched "raw/a.mp4"
    (fresh_world (mkFsEnv (<["raw/a.mp4" := [x05]]> (<["raw/a.mp4.part" := [x06; x06]]> ∅)) O) 0)
    (snd (DropboxLeftoversProducer.safe_download_to_file always_breaks "/videos/a.mp4"
            "raw/a.mp4" 2 5
            (fresh_world
               (mkFsEnv (<["raw/a.mp4" := [x05]]> (<["raw/a.mp4.part" := [x06; x06]]> ∅)) O) 0)))
  /\ files (env (snd (GdriveEncodedDownloader.download_file two_chunks "1AbC"
                        "out/encoded/a.mp4" (Some 3) 1048576 true
                        (fresh_world (mkFsEnv ∅ O) 0))))
       !! "out/encoded/a.mp4" = Some (received (two_chunks "1AbC")).
Proof.
  pose proof (download_renames_only_complete_transfers nat always_breaks two_chunks
                "/videos/a.mp4" "raw/a.mp4" 2 5
                (fresh_world
                   (mkFsEnv (<["raw/a.mp4" := [x05]]> (<["raw/a.mp4.part" := [x06; x06]]> ∅)) O) 0)
                _ _
                "1AbC" "out/encoded/a.mp4" (Some 3) 1048576 true
                (fresh_world (mkFsEnv ∅ O) 0) _ _
                (surjective_pairing _) (surjective_pairing _)) as H.
  assert (Hnoskip : ~ skips_download (fresh_world (mkFsEnv (∅ : gmap string (list byte)) O) 0)
                      "out/encoded/a.mp4" (Some 3) true).
  { intros (_ & content & Hc & _). vm_compute in Hc. discriminate. }
  specialize (H Hnoskip). destruct H as [[_ Hsafe] [_ Hfile]].
  split.
  - revert Hsafe.
    replace (fst (DropboxLeftoversProducer.safe_download_to_file always_breaks "/videos/a.mp4"
                    "raw/a.mp4" 2 5
                    (fresh_world
                       (mkFsEnv (<["raw/a.mp4" := [x05]]> (<["raw/a.mp4.part" := [x06; x06]]> ∅)) O)
                       0)))
      with (Raise (A := unit)
              (Err (DropboxLeftoversProducer.download_failed "/videos/a.mp4" (Some read_timeout))))
      by (vm_compute; reflexivity).
    intros [Ht _]. exact Ht.
  - revert Hfile.
    replace (fst (GdriveEncodedDownloader.download_file two_chunks "1AbC" "out/encoded/a.mp4"
                    (Some 3) 1048576 true (fresh_world (mkFsEnv ∅ O) 0)))
      with (Return tt) by (vm_compute; reflexivity).
    intros (_ & Hf & _). exact Hf.
Defined.

(** ** Which error the caller sees *)

Section LastTransfer.
Context {R : Type}.
Variable files_download : R -> string -> transfer * R.
Variables dbx_path tmp_path out_path : string.
Variables retries base_delay_seconds : Z.

Local Abbreviation step := (fun r : R => files_download r dbx_path).


End LastTransfer.




(** ** The strict reconciliation check *)

Section DriveRequests.
Variable q : Query.

Lemma list_request_keeps (s : DriveEnv) :
  drive (snd (list_request q s)) = drive s
  /\ folder_cache (snd (list_request q s)) = folder_cache s.
Proof.
  unfold list_request. destruct (faults s) as [| [r |] rest]; cbn; split; reflexivity.
Qed.

Lemma state_after_list_request_keeps (n : nat) :
  forall s : DriveEnv,
    drive (state_after (list_request q) n s) = drive s
    /\ folder_cache (state_after (list_request q) n s) = folder_cache s.
Proof.
  induction n as [| n IH]; intros s; cbn [state_after]; [split; reflexivity |].
  destruct (IH (snd (list_request q s))) as [Hd Hc].
  destruct (list_request_keeps s) as [Hd' Hc'].
  split; congruence.
Qed.

Lemma list_request_answer (s : DriveEnv) (answer : list DriveFile) :
  fst (list_request q s) = Return answer -> answer = run_query (drive s) q.
Proof.
  unfold list_request. destruct (faults s) as [| [r |] rest]; cbn; congruence.
Qed.

(** [drive_list] changes neither the drive nor the cache; what it returns
    is the answer of the drive; with no failure pending and at least one
    attempt allowed, it returns. *)
Lemma drive_list_run name_q drive_id max_retries base_delay
    (w w' : World DriveEnv) (o : outcome (list DriveFile)) :
  DropboxLeftoversProducer.drive_list name_q q drive_id max_retries base_delay w = (o, w') ->
  drive (env w') = drive (env w)
  /\ folder_cache (env w') = folder_cache (env w)
  /\ (forall answer, o = Return answer -> answer = run_query (drive (env w)) q)
  /\ (faults (env w) = [] -> 1 <= max_retries ->
      o = Return (run_query (drive (env w)) q) /\ faults (env w') = []).
Proof.
  unfold DropboxLeftoversProducer.drive_list,
    DropboxLeftoversProducer._gdrive_execute_with_retry, _gdrive_execute_with_retry.
  intros Hrun.
  destruct (py_range 1 (max_retries + 1)) as [| a rest] eqn:Hrange.
  - cbn in Hrun. unfold raise in Hrun. inversion Hrun; subst.
    split; [reflexivity |]. split; [reflexivity |].
    split; [intros answer Hans; discriminate |].
    intros _ Hmax. apply py_range_nil_inv in Hrange. lia.
  - destruct (loop_result_is_last_attempt _ _ _ _ _ (a :: rest) None w w' o
                ltac:(discriminate) Hrun) as (k & _ & He & _ & _ & Ho).
    destruct (state_after_list_request_keeps (Datatypes.S k) (env w)) as [Hd Hc].
    rewrite <- He in Hd, Hc.
    split; [exact Hd |]. split; [exact Hc |]. split.
    + intros answer Hans. rewrite Hans in Ho.
      destruct Ho as [Ho | [_ Hbad]]; [| discriminate]. unfold outcome_at in Ho.
      apply list_request_answer in Ho.
      destruct (state_after_list_request_keeps k (env w)) as [Hdk _]. congruence.
    + intros Hfaults Hmax.
      assert (Hfirst : fst (list_request q (env w)) = Return (run_query (drive (env w)) q))
        by (unfold list_request; rewrite Hfaults; reflexivity).
      destruct (attempt_returns DropboxLeftoversProducer._is_transient_error
                  (list_request q)
                  ("list q=" ++ Str.take_chars 80 (query_text name_q q) ++ "...")
                  max_retries base_delay a rest None w _ Hfirst)
        as (w1 & Hstep & He1 & _).
      rewrite Hstep in Hrun. inversion Hrun; subst. split; [reflexivity |].
      rewrite He1. unfold list_request. rewrite Hfaults. exact Hfaults.
Qed.

End DriveRequests.

Section StrictCheck.
Variable drive_id : option string.
Variables max_retries base_delay : Z.

Lemma get_folder_if_exists_run parent_id name (w w' : World DriveEnv)
    (o : outcome (option string)) :
  DropboxLeftoversProducer.get_folder_if_exists parent_id name drive_id max_retries
    base_delay w = (o, w') ->
  drive (env w') = drive (env w)
  /\ folder_cache (env w') = folder_cache (env w)
  /\ (forall v, o = Return v -> v = first_folder (drive (env w)) parent_id name)
  /\ (faults (env w) = [] -> 1 <= max_retries ->
      (exists v, o = Return v) /\ faults (env w') = []).
Proof.
  unfold DropboxLeftoversProducer.get_folder_if_exists. cbv zeta. unfold bind at 1.
  destruct (DropboxLeftoversProducer.drive_list _ _ drive_id max_retries base_delay w)
    as [o1 w1] eqn:H1.
  apply drive_list_run in H1. destruct H1 as (Hd & Hc & Hans & Hrel).
  destruct o1 as [answer | r].
  - specialize (Hans answer eq_refl).
    assert (Hff : first_folder (drive (env w)) parent_id name
                  = match answer with f :: _ => Some (f_id f) | [] => None end)
      by (unfold first_folder; rewrite <- Hans; reflexivity).
    destruct answer as [| f rest].
    + unfold ret. intros Hrun. inversion Hrun; subst.
      split; [exact Hd |]. split; [exact Hc |]. split.
      * intros v Hv. inversion Hv; subst. symmetry. exact Hff.
      * intros Hf Hm. destruct (Hrel Hf Hm) as [_ Hf']. split; [eauto | exact Hf'].
    + destruct (Nat.ltb 1 (List.length (f :: rest)));
        unfold bind, print, emit, ret; cbn [env rng rng_pos trace];
        intros Hrun; inversion Hrun; subst; cbn [env];
        (split; [exact Hd |]); (split; [exact Hc |]); split;
        try (intros v Hv; inversion Hv; subst; symmetry; exact Hff);
        intros Hf Hm; destruct (Hrel Hf Hm) as [_ Hf']; (split; [eauto | exact Hf']).
  - intros Hrun. inversion Hrun; subst.
    split; [exact Hd |]. split; [exact Hc |]. split; [intros v Hv; discriminate |].
    intros Hf Hm. destruct (Hrel Hf Hm) as [Hbad _]. discriminate.
Qed.

Lemma find_file_in_folder_with_size_run parent_id filename (w w' : World DriveEnv)
    (o : outcome (option (string * Z))) :
  DropboxLeftoversProducer.find_file_in_folder_with_size parent_id filename drive_id
    max_retries base_delay w = (o, w') ->
  drive (env w') = drive (env w)
  /\ folder_cache (env w') = folder_cache (env w)
  /\ (forall v, o = Return v ->
        v = match first_file (drive (env w)) parent_id filename with
            | Some f => Some (f_id f, DropboxLeftoversProducer.size_of f)
            | None => None
            end)
  /\ (faults (env w) = [] -> 1 <= max_retries ->
      (exists v, o = Return v) /\ faults (env w') = []).
Proof.
  unfold DropboxLeftoversProducer.find_file_in_folder_with_size. cbv zeta. unfold bind at 1.
  destruct (DropboxLeftoversProducer.drive_list _ _ drive_id max_retries base_delay w)
    as [o1 w1] eqn:H1.
  apply drive_list_run in H1. destruct H1 as (Hd & Hc & Hans & Hrel).
  destruct o1 as [answer | r].
  - specialize (Hans answer eq_refl).
    assert (Hff : first_file (drive (env w)) parent_id filename
                  = match answer with f :: _ => Some f | [] => None end)
      by (unfold first_file; rewrite <- Hans; reflexivity).
    destruct answer as [| f rest]; unfold ret; intros Hrun; inversion Hrun; subst;
      (split; [exact Hd |]); (split; [exact Hc |]); split;
      try (intros v Hv; inversion Hv; subst; rewrite Hff; reflexivity);
      intros Hf Hm; destruct (Hrel Hf Hm) as [_ Hf']; (split; [eauto | exact Hf']).
  - intros Hrun. inversion Hrun; subst.
    split; [exact Hd |]. split; [exact Hc |]. split; [intros v Hv; discriminate |].
    intros Hf Hm. destruct (Hrel Hf Hm) as [Hbad _]. discriminate.
Qed.

Lemma cache_consistent_insert (d : list DriveFile)
    (cache : gmap (string * string) (option string)) parent_id name :
  cache_consistent d cache ->
  cache_consistent d (<[(parent_id, name) := first_folder d parent_id name]> cache).
Proof.
  intros Hcons p n v Hlook.
  destruct (decide ((parent_id, name) = (p, n))) as [Heq | Hne].
  - rewrite Heq, lookup_insert_eq in Hlook. inversion Heq; subst. congruence.
  - rewrite lookup_insert_ne in Hlook by exact Hne. apply Hcons. exact Hlook.
Qed.

(** With a cache that holds only answers of the drive,
    [get_path_if_exists_cached] returns what [resolve_path] says, keeps the
    cache so, and returns whenever no failure is pending. *)
Lemma get_path_if_exists_cached_run :
  forall (parts : list string) (current : string) (w w' : World DriveEnv)
         (o : outcome (option string)),
    cache_consistent (drive (env w)) (folder_cache (env w)) ->
    DropboxLeftoversProducer.get_path_if_exists_cached current parts drive_id max_retries
      base_delay w = (o, w') ->
    drive (env w') = drive (env w)
    /\ cache_consistent (drive (env w)) (folder_cache (env w'))
    /\ (forall v, o = Return v -> v = resolve_path (drive (env w)) current parts)
    /\ (faults (env w) = [] -> 1 <= max_retries ->
        (exists v, o = Return v) /\ faults (env w') = []).
Proof.
  induction parts as [| name rest IH]; intros current w w' o Hcons Hrun.
  - cbn in Hrun. unfold ret in Hrun. inversion Hrun; subst.
    split; [reflexivity |]. split; [exact Hcons |]. split.
    + intros v Hv. inversion Hv. reflexivity.
    + intros Hf _. split; [eauto | exact Hf].
  - assert (Hk : forall (w2 : World DriveEnv),
               drive (env w2) = drive (env w) ->
               cache_consistent (drive (env w)) (folder_cache (env w2)) ->
               (if negb (truthy (first_folder (drive (env w)) current name))
                then ret None
                else match first_folder (drive (env w)) current name with
                     | Some id =>
                         DropboxLeftoversProducer.get_path_if_exists_cached id rest
                           drive_id max_retries base_delay
                     | None => ret None
                     end) w2 = (o, w') ->
               drive (env w') = drive (env w)
               /\ cache_consistent (drive (env w)) (folder_cache (env w'))
               /\ (forall v, o = Return v ->
                     v = resolve_path (drive (env w)) current (name :: rest))
               /\ (faults (env w2) = [] -> 1 <= max_retries ->
                   (exists v, o = Return v) /\ faults (env w') = [])).
    { intros w2 Hd2 Hc2 Hrun2. cbn [resolve_path].
      destruct (first_folder (drive (env w)) current name) as [id |]; cbn [truthy] in Hrun2.
      - destruct (String.eqb id EmptyString); cbn [negb] in Hrun2.
        + unfold ret in Hrun2. inversion Hrun2; subst.
          split; [exact Hd2 |]. split; [exact Hc2 |]. split.
          * intros v Hv. inversion Hv. reflexivity.
          * intros Hf _. split; [eauto | exact Hf].
        + rewrite <- Hd2 in Hc2.
          destruct (IH id w2 w' o Hc2 Hrun2) as (Hd' & Hc' & Hv' & Hr').
          rewrite Hd2 in Hd', Hc', Hv'.
          split; [exact Hd' |]. split; [exact Hc' |]. split; [exact Hv' | exact Hr'].
      - cbn [negb] in Hrun2. unfold ret in Hrun2. inversion Hrun2; subst.
        split; [exact Hd2 |]. split; [exact Hc2 |]. split.
        + intros v Hv. inversion Hv. reflexivity.
        + intros Hf _. split; [eauto | exact Hf]. }
    cbn [DropboxLeftoversProducer.get_path_if_exists_cached] in Hrun. cbv zeta in Hrun.
    unfold bind at 1, DropboxLeftoversProducer.cache_get, bind at 1, get_env, ret at 1
      in Hrun.
    destruct (folder_cache (env w) !! (current, name)) as [v |] eqn:Hcached.
    + unfold bind at 1, ret at 1 in Hrun.
      rewrite (Hcons current name v Hcached) in Hrun.
      exact (Hk w eq_refl Hcons Hrun).
    + unfold bind at 1, bind at 1 in Hrun.
      destruct (DropboxLeftoversProducer.get_folder_if_exists current name drive_id
                  max_retries base_delay w) as [o1 w1] eqn:H1.
      apply get_folder_if_exists_run in H1. destruct H1 as (Hd1 & Hc1 & Hv1 & Hr1).
      destruct o1 as [v | r].
      * rewrite (Hv1 v eq_refl) in Hrun.
        unfold bind at 1, DropboxLeftoversProducer.cache_set, bind at 1, get_env, put_env,
          ret at 1 in Hrun.
        cbn [env rng rng_pos trace drive faults folder_cache] in Hrun.
        match type of Hrun with
        | _ ?w2 = _ =>
            destruct (Hk w2) as (Hd' & Hc' & Hv' & Hr'); [| | exact Hrun |]
        end.
        -- cbn. exact Hd1.
        -- cbn [env folder_cache]. rewrite Hc1.
           apply cache_consistent_insert. exact Hcons.
        -- split; [exact Hd' |]. split; [exact Hc' |]. split; [exact Hv' |].
           intros Hf Hm. apply Hr'; [| exact Hm]. cbn.
           exact (proj2 (Hr1 Hf Hm)).
      * inversion Hrun; subst.
        split; [exact Hd1 |]. split; [rewrite Hc1; exact Hcons |].
        split; [intros v Hv; discriminate |].
        intros Hf Hm. destruct (Hr1 Hf Hm) as [[v Hbad] _]. discriminate.
Qed.

(** The strict check returns the verdict of the claim, and returns
    whenever no failure is pending. *)
Lemma gdrive_has_same_file_strict_run root_id folder_parts filename expected_size_bytes
    (w w' : World DriveEnv) (o : outcome (bool * string)) :
  cache_consistent (drive (env w)) (folder_cache (env w)) ->
  DropboxLeftoversProducer.gdrive_has_same_file_strict root_id drive_id folder_parts
    filename expected_size_bytes max_retries base_delay w = (o, w') ->
  (forall v, o = Return v ->
     v = strict_verdict (drive (env w)) root_id folder_parts filename expected_size_bytes)
  /\ (faults (env w) = [] -> 1 <= max_retries -> exists v, o = Return v).
Proof.
  intros Hcons. unfold DropboxLeftoversProducer.gdrive_has_same_file_strict.
  unfold bind at 1.
  destruct (DropboxLeftoversProducer.get_path_if_exists_cached root_id folder_parts
              drive_id max_retries base_delay w) as [o1 w1] eqn:H1.
  apply get_path_if_exists_cached_run in H1; [| exact Hcons].
  destruct H1 as (Hd1 & Hc1 & Hv1 & Hr1).
  destruct o1 as [parent | r].
  - specialize (Hv1 parent eq_refl). unfold strict_verdict. rewrite <- Hv1.
    destruct parent as [parent_id |].
    + cbn [truthy]. destruct (String.eqb parent_id EmptyString); cbn [negb].
      * unfold ret. intros Hrun. inversion Hrun; subst. split.
        -- intros v Hv. inversion Hv. reflexivity.
        -- intros _ _. eauto.
      * unfold bind at 1.
        destruct (DropboxLeftoversProducer.find_file_in_folder_with_size parent_id
                    filename drive_id max_retries base_delay w1) as [o2 w2] eqn:H2.
        apply find_file_in_folder_with_size_run in H2.
        destruct H2 as (Hd2 & Hc2 & Hv2 & Hr2).
        destruct o2 as [found | r].
        -- specialize (Hv2 found eq_refl). rewrite Hd1 in Hv2. subst found.
           destruct (first_file (drive (env w)) parent_id filename) as [f |].
           ++ unfold DropboxLeftoversProducer.size_of.
              destruct (f_size f) as [gsize |].
              ** destruct (gsize <=? 0)%Z;
                   [| destruct (gsize =? expected_size_bytes)%Z];
                   unfold ret; intros Hrun; inversion Hrun; subst;
                   (split; [intros v Hv; inversion Hv; reflexivity | intros _ _; eauto]).
              ** cbn. unfold ret; intros Hrun; inversion Hrun; subst.
                 split; [intros v Hv; inversion Hv; reflexivity | intros _ _; eauto].
           ++ unfold ret; intros Hrun; inversion Hrun; subst.
              split; [intros v Hv; inversion Hv; reflexivity | intros _ _; eauto].
        -- intros Hrun. inversion Hrun; subst. split; [intros v Hv; discriminate |].
           intros Hf Hm. destruct (Hr1 Hf Hm) as [_ Hf1].
           destruct (Hr2 Hf1 Hm) as [[v Hbad] _]. discriminate.
    + unfold ret. intros Hrun. inversion Hrun; subst. split.
      * intros v Hv. inversion Hv. reflexivity.
      * intros _ _. eauto.
  - intros Hrun. inversion Hrun; subst. split; [intros v Hv; discriminate |].
    intros Hf Hm. destruct (Hr1 Hf Hm) as [[v Hbad] _]. discriminate.
Qed.

End StrictCheck.

(** ** The verdict in terms of what the drive holds *)

Lemma matches_sound (q : Query) (f : DriveFile) :
  matches q f = true ->
  f_name f = q_name q
  /\ (forall mt, q_mimeType q = Some mt -> f_mimeType f = mt)
  /\ In (q_parent q) (f_parents f)
  /\ f_trashed f = false.
Proof.
  unfold matches. intros H.
  apply andb_prop in H. destruct H as [H Htrash].
  apply andb_prop in H. destruct H as [H Hparent].
  apply andb_prop in H. destruct H as [Hname Hmime].
  split; [apply String.eqb_eq; exact Hname |]. split; [| split].
  - intros mt Hq. rewrite Hq in Hmime. apply String.eqb_eq. exact Hmime.
  - apply List.existsb_exists in Hparent. destruct Hparent as (x & Hin & Heq).
    apply String.eqb_eq in Heq. subst x. exact Hin.
  - apply negb_true_iff. exact Htrash.
Qed.

Lemma first_of_query (d : list DriveFile) (q : Query) (f : DriveFile) (rest : list DriveFile) :
  run_query d q = f :: rest -> In f d /\ matches q f = true.
Proof.
  intros H. assert (Hin : In f (run_query d q)) by (rewrite H; left; reflexivity).
  unfold run_query in Hin. apply List.filter_In in Hin. exact Hin.
Qed.

Lemma no_answer_no_match (d : list DriveFile) (q : Query) :
  run_query d q = [] -> forall f, In f d -> matches q f = false.
Proof.
  intros H f Hin. destruct (matches q f) eqn:Hm; [| reflexivity].
  assert (Hf : In f (run_query d q)) by (apply List.filter_In; split; assumption).
  rewrite H in Hf. destruct Hf.
Qed.

(** A path that resolves is a chain of existing folders. *)
Lemma resolve_path_chain (d : list DriveFile) :
  forall (parts : list string) (current dest : string),
    resolve_path d current parts = Some dest -> folder_chain d current parts dest.
Proof.
  induction parts as [| name rest IH]; intros current dest H.
  - cbn in H. inversion H. apply chain_here.
  - cbn [resolve_path] in H. unfold first_folder in H.
    destruct (run_query d (mkQuery name (Some FOLDER_MIMETYPE) current)) as [| f more] eqn:Hq;
      [discriminate |].
    destruct (String.eqb (f_id f) EmptyString); [discriminate |].
    destruct (first_of_query _ _ _ _ Hq) as [Hin Hm].
    destruct (matches_sound _ _ Hm) as (Hname & Hmime & Hparent & Htrash).
    apply (chain_down d current name rest f dest); try assumption.
    + exact (Hmime FOLDER_MIMETYPE eq_refl).
    + apply IH. exact H.
Qed.

Lemma first_file_in_folder (d : list DriveFile) parent_id filename f :
  first_file d parent_id filename = Some f -> file_in_folder d parent_id filename f.
Proof.
  unfold first_file, file_in_folder.
  destruct (run_query d (mkQuery filename None parent_id)) as [| g more] eqn:Hq;
    [discriminate |].
  intros H. inversion H; subst g.
  destruct (first_of_query _ _ _ _ Hq) as [Hin Hm].
  destruct (matches_sound _ _ Hm) as (Hname & _ & Hparent & Htrash).
  repeat split; assumption.
Qed.

Lemma no_first_file_no_file (d : list DriveFile) parent_id filename :
  first_file d parent_id filename = None ->
  forall f, ~ file_in_folder d parent_id filename f.
Proof.
  unfold first_file, file_in_folder.
  destruct (run_query d (mkQuery filename None parent_id)) as [| g more] eqn:Hq;
    [| discriminate].
  intros _ f (Hin & Hname & Hparent & Htrash).
  pose proof (no_answer_no_match _ _ Hq f Hin) as Hm. unfold matches in Hm. cbn in Hm.
  rewrite Hname, String.eqb_refl, Htrash in Hm. cbn in Hm.
  rewrite andb_true_r in Hm.
  assert (Hex : existsb (String.eqb parent_id) (f_parents f) = true).
  { apply List.existsb_exists. exists parent_id. split; [exact Hparent | apply String.eqb_refl]. }
  congruence.
Qed.

(** The claim C9 fails when the [folder_cache] the caller hands over holds an
    answer the drive no longer gives: the check takes the folder id from the
    cache without asking the service, finds a file of the name and size under
    that id, and returns [True], although the drive holds no folder at all and
    so no folder [lectures] under the root. *)
Lemma stale_cache_passes_strict_check :
  fst (DropboxLeftoversProducer.gdrive_has_same_file_strict "ROOT" None ["lectures"] "1.mp4"
         1048576 3 3 stale_cache_world)
  = Return (true, "same_name_and_size")
  /\ (forall f, In f (drive (env stale_cache_world)) -> f_mimeType f <> FOLDER_MIMETYPE)
  /\ resolve_path (drive (env stale_cache_world)) "ROOT" ["lectures"] = None
  /\ ~ (exists parent_id,
          folder_chain (drive (env stale_cache_world)) "ROOT" ["lectures"] parent_id).
Proof.
  split; [vm_compute; reflexivity |]. split.
  { intros f [Hf | []]. subst f. cbn. discriminate. }
  split; [reflexivity |].
  intros (parent_id & Hchain).
  inversion Hchain as [| current name rest f dest Hin Hname Hmime Hparent Htrash Hrest].
  destruct Hin as [Hf | []]. subst f. cbn in Hmime. discriminate Hmime.
Qed.

(** C9, amended. Provided the [folder_cache] handed over holds only answers
    the drive gives (as the empty cache does), whenever
    [gdrive_has_same_file_strict] returns [(b, reason)]:
    [b] is true only when every folder of the path exists, a file of the given
    name lies in the last folder, and its size is positive and equal to the
    expected size, and then the reason is [same_name_and_size]; more
    precisely [b] is true exactly when the path resolves, following the first
    folder of each name, to a folder whose first file of that name has that
    size. In every other case [b] is false and the reason names the failed
    condition: [folder_missing] when the path does not resolve, [file_missing]
    when the folder holds no such file, [size_unknown] when the size of the
    file is absent, zero or negative, and [size_mismatch(..)] with both sizes
    when they differ. With no network failure pending and at least one attempt
    allowed the check does return a verdict. *)
Theorem strict_check_verdict :
  forall (drive_id : option string) (max_retries base_delay : Z) (root_id : string)
         (folder_parts : list string) (filename : string) (expected_size_bytes : Z)
         (w : World DriveEnv),
    cache_consistent (drive (env w)) (folder_cache (env w)) ->
    (forall (b : bool) (reason : string) (w' : World DriveEnv),
        DropboxLeftoversProducer.gdrive_has_same_file_strict root_id drive_id folder_parts
          filename expected_size_bytes max_retries base_delay w = (Return (b, reason), w') ->
        (b = true ->
           reason = "same_name_and_size"
           /\ exists parent_id f,
                folder_chain (drive (env w)) root_id folder_parts parent_id
                /\ file_in_folder (drive (env w)) parent_id filename f
                /\ f_size f = Some expected_size_bytes
                /\ 0 < expected_size_bytes)
        /\ (b = true <->
            exists parent_id f,
              resolve_path (drive (env w)) root_id folder_parts = Some parent_id
              /\ parent_id <> EmptyString
              /\ first_file (drive (env w)) parent_id filename = Some f
              /\ f_size f = Some expected_size_bytes
              /\ 0 < expected_size_bytes)
        /\ (b = false ->
            (reason = "folder_missing"
             /\ (resolve_path (drive (env w)) root_id folder_parts = None
                 \/ resolve_path (drive (env w)) root_id folder_parts = Some EmptyString))
            \/ (reason = "file_missing"
                /\ exists parent_id,
                     resolve_path (drive (env w)) root_id folder_parts = Some parent_id
                     /\ forall f, ~ file_in_folder (drive (env w)) parent_id filename f)
            \/ (reason = "size_unknown"
                /\ exists parent_id f,
                     resolve_path (drive (env w)) root_id folder_parts = Some parent_id
                     /\ first_file (drive (env w)) parent_id filename = Some f
                     /\ DropboxLeftoversProducer.size_of f <= 0)
            \/ (exists parent_id f gsize,
                  reason = "size_mismatch(gdrive=" ++ Str.of_Z gsize ++ ",dropbox="
                             ++ Str.of_Z expected_size_bytes ++ ")"
                  /\ resolve_path (drive (env w)) root_id folder_parts = Some parent_id
                  /\ first_file (drive (env w)) parent_id filename = Some f
                  /\ f_size f = Some gsize
                  /\ 0 < gsize
                  /\ gsize <> expected_size_bytes)))
    /\ (faults (env w) = [] -> 1 <= max_retries ->
        exists (b : bool) (reason : string) (w1 : World DriveEnv),
          DropboxLeftoversProducer.gdrive_has_same_file_strict root_id drive_id folder_parts
            filename expected_size_bytes max_retries base_delay w = (Return (b, reason), w1)
          /\ (b, reason)
             = strict_verdict (drive (env w)) root_id folder_parts filename
                 expected_size_bytes).
Proof.
  intros drive_id max_retries base_delay root_id folder_parts filename expected_size_bytes
    w Hcons.
  split.
  2:{ intros Hf Hm.
      destruct (DropboxLeftoversProducer.gdrive_has_same_file_strict root_id drive_id
                  folder_parts filename expected_size_bytes max_retries base_delay w)
        as [o w1] eqn:Hrun.
      destruct (gdrive_has_same_file_strict_run drive_id max_retries base_delay root_id
                  folder_parts filename expected_size_bytes w w1 o Hcons Hrun) as [Hv Hret].
      destruct (Hret Hf Hm) as [[b reason] Ho]. subst o.
      exists b, reason, w1. split; [reflexivity |]. apply Hv. reflexivity. }
  intros b reason w' Hrun.
  destruct (gdrive_has_same_file_strict_run drive_id max_retries base_delay root_id
              folder_parts filename expected_size_bytes w w' _ Hcons Hrun) as [Hv _].
  specialize (Hv (b, reason) eq_refl).
  unfold strict_verdict in Hv.
  destruct (resolve_path (drive (env w)) root_id folder_parts) as [parent_id |] eqn:Hres.
  2:{ inversion Hv; subst. repeat split; try discriminate.
      - intros (p & f & Hbad & _). discriminate.
      - intros _. left. split; [reflexivity | left; reflexivity]. }
  destruct (String.eqb parent_id EmptyString) eqn:Hempty.
  { apply String.eqb_eq in Hempty. subst parent_id. inversion Hv; subst.
    repeat split; try discriminate.
    - intros (p & f & Hp & Hne & _). inversion Hp; subst. congruence.
    - intros _. left. split; [reflexivity | right; reflexivity]. }
  apply String.eqb_neq in Hempty.
  destruct (first_file (drive (env w)) parent_id filename) as [f |] eqn:Hfile.
  2:{ inversion Hv; subst. repeat split; try discriminate.
      - intros (p & f & Hp & _ & Hf & _). inversion Hp; subst. congruence.
      - intros _. right. left. split; [reflexivity |]. exists parent_id.
        split; [reflexivity |]. apply no_first_file_no_file. exact Hfile. }
  destruct (f_size f) as [gsize |] eqn:Hsize.
  2:{ inversion Hv; subst. repeat split; try discriminate.
      - intros (p & g & Hp & _ & Hf & Hs & _). inversion Hp; subst.
        rewrite Hfile in Hf. inversion Hf; subst. congruence.
      - intros _. right. right. left. split; [reflexivity |]. exists parent_id, f.
        repeat split; try assumption.
        unfold DropboxLeftoversProducer.size_of. rewrite Hsize. lia. }
  destruct (gsize <=? 0)%Z eqn:Hpos.
  { apply Z.leb_le in Hpos. inversion Hv; subst.
    repeat split; try discriminate.
    - intros (p & g & Hp & _ & Hf & Hs & Hexp). inversion Hp; subst.
      rewrite Hfile in Hf. inversion Hf; subst. rewrite Hsize in Hs. inversion Hs. lia.
    - intros _. right. right. left. split; [reflexivity |]. exists parent_id, f.
      repeat split; try assumption.
      unfold DropboxLeftoversProducer.size_of. rewrite Hsize. exact Hpos. }
  apply Z.leb_gt in Hpos.
  destruct (gsize =? expected_size_bytes)%Z eqn:Heq.
  - apply Z.eqb_eq in Heq. subst gsize. inversion Hv; subst.
    split; [| split; [| discriminate]].
    + intros _. split; [reflexivity |]. exists parent_id, f.
      split; [apply resolve_path_chain; exact Hres |].
      split; [apply first_file_in_folder; exact Hfile |].
      split; [exact Hsize | exact Hpos].
    + split; [| reflexivity]. intros _. exists parent_id, f. repeat split; assumption.
  - apply Z.eqb_neq in Heq. inversion Hv; subst.
    repeat split; try discriminate.
    + intros (p & g & Hp & _ & Hf & Hs & Hexp). inversion Hp; subst.
      rewrite Hfile in Hf. inversion Hf; subst. rewrite Hsize in Hs. inversion Hs. congruence.
    + intros _. right. right. right. exists parent_id, f, gsize.
      repeat split; assumption.
Qed.

(** The statement of C9 on [sample_drive]: the first request times out and is
    retried, the path [lectures/w1] resolves and the file has the expected
    size. *)
Lemma strict_check_verdict_witness :
  cache_consistent (drive (env sample_drive_world)) (folder_cache (env sample_drive_world))
  /\ fst (DropboxLeftoversProducer.gdrive_has_same_file_strict "ROOT" None
            ["lectures"; "w1"] "1.mp4" 1048576 3 3 sample_drive_world)
     = Return (true, "same_name_and_size")
  /\ exists parent_id f,
       folder_chain (drive (env sample_drive_world)) "ROOT" ["lectures"; "w1"] parent_id
       /\ file_in_folder (drive (env sample_drive_world)) parent_id "1.mp4" f
       /\ f_size f = Some 1048576
       /\ 0 < 1048576.
Proof.
  assert (H1 : cache_consistent (drive (env sample_drive_world))
                 (folder_cache (env sample_drive_world))).
  { intros p n v H. cbn in H. rewrite lookup_empty in H. discriminate. }
  assert (H2 : DropboxLeftoversProducer.gdrive_has_same_file_strict "ROOT" None
                 ["lectures"; "w1"] "1.mp4" 1048576 3 3 sample_drive_world
               = (Return (true, "same_name_and_size"),
                  snd (DropboxLeftoversProducer.gdrive_has_same_file_strict "ROOT" None
                         ["lectures"; "w1"] "1.mp4" 1048576 3 3 sample_drive_world)))
    by (vm_compute; reflexivity).
  split; [exact H1 |]. split; [rewrite H2; reflexivity |].
  exact (proj2 (proj1 (proj1 (strict_check_verdict None 3 3 "ROOT" ["lectures"; "w1"] "1.mp4"
                                1048576 sample_drive_world H1)
                         true "same_name_and_size" _ H2)
                  eq_refl)).
Defined.

(** ** Flat names *)

Lemma substring_whole (s : string) : String.substring 0 (String.length s) s = s.
Proof. induction s as [| c s IH]; simpl; [reflexivity | f_equal; exact IH]. Qed.

Lemma substring_rejoins (s : string) :
  forall n : nat,
    String.substring 0 n s ++ String.substring n (String.length s - n) s = s.
Proof.
  induction s as [| c s IH]; intros [| n]; simpl; try reflexivity.
  - change (String c (String.substring 0 (String.length s) s) = String c s).
    f_equal. apply substring_whole.
  - change (String c (String.substring 0 n s ++ String.substring n (String.length s - n) s)
            = String c s).
    f_equal. apply IH.
Qed.

(** The two parts [os.path.splitext] cuts a name into give the name back. *)
Lemma splitext_rejoins (p : string) (sep : ascii) (altsep : option ascii) (extsep : ascii) :
  fst (OsPath._splitext p sep altsep extsep) ++ snd (OsPath._splitext p sep altsep extsep) = p.
Proof.
  unfold OsPath._splitext. cbv zeta.
  match goal with |- context [if ?c then _ else _] => destruct c end; cbn [fst snd].
  - unfold Str.slice_to, Str.slice_from. apply substring_rejoins.
  - clear. induction p as [| c p IH]; [reflexivity |].
    change (String c (p ++ EmptyString) = String c p). f_equal. exact IH.
Qed.

Lemma split_not_nil (sep : ascii) (s : string) : Str.split sep s <> [].
Proof.
  destruct s as [| a s']; cbn; [discriminate |].
  destruct (Ascii.eqb a sep); [discriminate |].
  destruct (Str.split sep s'); discriminate.
Qed.

(** The segments of a path, joined by the separator, give the path back. *)
Lemma join_split (sep : ascii) (s : string) :
  Str.join (String sep EmptyString) (Str.split sep s) = s.
Proof.
  induction s as [| a s' IH]; [reflexivity |].
  cbn [Str.split]. pose proof (split_not_nil sep s') as Hne.
  destruct (Ascii.eqb a sep) eqn:Ha.
  - apply Ascii.eqb_eq in Ha. subst a.
    destruct (Str.split sep s') as [| h t]; [congruence |].
    change (Str.join (String sep EmptyString) (EmptyString :: h :: t))
      with (String sep (Str.join (String sep EmptyString) (h :: t))).
    rewrite IH. reflexivity.
  - destruct (Str.split sep s') as [| h t]; [congruence |].
    rewrite <- IH. destruct t as [| h' t']; reflexivity.
Qed.


Lemma substring_after_prefix (a b : string) :
  String.substring (String.length a) (String.length b) (a ++ b) = b.
Proof.
  induction a as [| c a IH]; simpl; [apply substring_whole | exact IH].
Qed.

Lemma endswith_append (a b : string) : Str.endswith (a ++ b) b = true.
Proof.
  unfold Str.endswith. rewrite string_length_append.
  replace (String.length a + String.length b - String.length b)%nat
    with (String.length a) by lia.
  rewrite substring_after_prefix, String.eqb_refl.
  replace (Nat.leb (String.length b) (String.length a + String.length b)) with true
    by (symmetry; apply Nat.leb_le; lia).
  reflexivity.
Qed.

Lemma str_app_assoc (a b c : string) : (a ++ b) ++ c = a ++ (b ++ c).
Proof.
  induction a as [| x a IH]; [reflexivity |].
  change (String x (a ++ b ++ c)) with (String x (a ++ (b ++ c))).
  change ((String x a ++ b) ++ c) with (String x ((a ++ b) ++ c)).
  rewrite IH. reflexivity.
Qed.

Lemma join_is_concat (sep : string) (parts : list string) :
  Str.join sep parts = String.concat sep parts.
Proof.
  induction parts as [| x rest IH]; [reflexivity |].
  destruct rest as [| y rest']; [reflexivity |].
  change (x ++ sep ++ Str.join sep (y :: rest') = x ++ sep ++ String.concat sep (y :: rest')).
  rewrite IH. reflexivity.
Qed.

Lemma app_nil_str (a : string) : a ++ EmptyString = a.
Proof.
  induction a as [| x a IH]; [reflexivity |].
  change (String x (a ++ EmptyString) = String x a). rewrite IH. reflexivity.
Qed.

Lemma occurs_app (c : ascii) (a b : string) :
  occurs c (a ++ b) = occurs c a || occurs c b.
Proof.
  induction a as [| x a IH]; [reflexivity |].
  change (Ascii.eqb x c || occurs c (a ++ b) = Ascii.eqb x c || occurs c a || occurs c b).
  rewrite IH. apply orb_assoc.
Qed.

Lemma repeated_snoc (c : ascii) (n : nat) (s : string) :
  repeated c (Datatypes.S n) ++ s = repeated c n ++ String c s.
Proof.
  induction n as [| n IH]; [reflexivity |].
  change (String c (repeated c (Datatypes.S n) ++ s) = String c (repeated c n ++ String c s)).
  rewrite IH. reflexivity.
Qed.

(** *** Stripping *)

Lemma lstrip_repeated (c : ascii) (n : nat) (s : string) :
  Str.lstrip c (repeated c n ++ s) = Str.lstrip c s.
Proof.
  induction n as [| n IH]; [reflexivity |].
  change (Str.lstrip c (String c (repeated c n ++ s)) = Str.lstrip c s).
  cbn [Str.lstrip]. rewrite Ascii.eqb_refl. exact IH.
Qed.

Lemma lstrip_head (c a : ascii) (s : string) :
  Ascii.eqb a c = false -> Str.lstrip c (String a s) = String a s.
Proof. intros Ha. cbn [Str.lstrip]. rewrite Ha. reflexivity. Qed.

Lemma rstrip_repeated (c : ascii) (n : nat) : Str.rstrip c (repeated c n) = EmptyString.
Proof.
  induction n as [| n IH]; [reflexivity |].
  cbn [repeated Str.rstrip]. rewrite IH, Ascii.eqb_refl. reflexivity.
Qed.

Lemma rstrip_app_repeated (c : ascii) (n : nat) (s : string) :
  Str.rstrip c (s ++ repeated c n) = Str.rstrip c s.
Proof.
  induction s as [| a s IH]; [apply rstrip_repeated |].
  change (Str.rstrip c (String a (s ++ repeated c n)) = Str.rstrip c (String a s)).
  cbn [Str.rstrip]. rewrite IH. reflexivity.
Qed.

(** A string that is not empty and does not end in [c] is its own
    [rstrip]. *)
Lemma rstrip_last (c a : ascii) (s : string) :
  Ascii.eqb a c = false -> Str.rstrip c (s ++ String a EmptyString) = s ++ String a EmptyString.
Proof.
  intros Ha. induction s as [| x s IH].
  - change (Str.rstrip c (String a EmptyString) = String a EmptyString).
    cbn [Str.rstrip]. rewrite Ha. reflexivity.
  - change (Str.rstrip c (String x (s ++ String a EmptyString))
            = String x (s ++ String a EmptyString)).
    cbn [Str.rstrip]. rewrite IH.
    destruct s; reflexivity.
Qed.

Lemma string_last (s : string) :
  s <> EmptyString -> exists t a, s = t ++ String a EmptyString.
Proof.
  induction s as [| x s IH]; [congruence |]. intros _.
  destruct s as [| y s'].
  - exists EmptyString, x. reflexivity.
  - destruct (IH ltac:(discriminate)) as (t & a & Ht).
    exists (String x t), a. rewrite Ht. reflexivity.
Qed.

(** *** Joining and splitting *)

Lemma concat_snoc (sep : string) (l : list string) (f : string) :
  String.concat sep (l ++ [f])
  = match l with
    | [] => f
    | _ => String.concat sep l ++ sep ++ f
    end.
Proof.
  induction l as [| x l IH]; [reflexivity |].
  destruct l as [| y l'].
  - reflexivity.
  - change (x ++ sep ++ String.concat sep ((y :: l') ++ [f])
            = (x ++ sep ++ String.concat sep (y :: l')) ++ sep ++ f).
    rewrite IH. rewrite !str_app_assoc. reflexivity.
Qed.

Lemma split_without_sep (c : ascii) (s : string) :
  occurs c s = false -> Str.split c s = [s].
Proof.
  induction s as [| a s IH]; [reflexivity |].
  cbn [occurs Str.split]. intros H. apply orb_false_elim in H. destruct H as [Ha Hs].
  rewrite Ha, (IH Hs). reflexivity.
Qed.

Lemma split_app_separator (c : ascii) (s rest : string) :
  occurs c s = false -> Str.split c (s ++ String c rest) = s :: Str.split c rest.
Proof.
  induction s as [| a s IH]; intros H.
  - change (Str.split c (String c rest) = EmptyString :: Str.split c rest).
    cbn [Str.split]. rewrite Ascii.eqb_refl. reflexivity.
  - cbn [occurs] in H. apply orb_false_elim in H. destruct H as [Ha Hs].
    change (Str.split c (String a (s ++ String c rest)) = String a s :: Str.split c rest).
    cbn [Str.split]. rewrite Ha, (IH Hs). reflexivity.
Qed.

(** Cutting at the separator gives back the segments that were joined by it,
    when none of them holds the separator. *)
Lemma split_concat (c : ascii) (segments : list string) :
  segments <> [] ->
  (forall d, In d segments -> occurs c d = false) ->
  Str.split c (String.concat (String c EmptyString) segments) = segments.
Proof.
  induction segments as [| x rest IH]; [congruence |]. intros _ Hfree.
  destruct rest as [| y rest'].
  - apply split_without_sep. apply Hfree. left. reflexivity.
  - change (Str.split c (x ++ String c (String.concat (String c EmptyString) (y :: rest')))
            = x :: y :: rest').
    rewrite split_app_separator by (apply Hfree; left; reflexivity).
    rewrite IH; [reflexivity | discriminate |].
    intros d Hd. apply Hfree. right. exact Hd.
Qed.

Lemma unpack_last_app (dirs : list string) (filename : string) :
  VideoProducer.unpack_last (dirs ++ [filename]) = Some (dirs, filename).
Proof.
  unfold VideoProducer.unpack_last. rewrite List.rev_app_distr. cbn [List.rev List.app].
  rewrite List.rev_involutive. reflexivity.
Qed.

(** *** The last dot *)

Lemma rfind_from_absent (c : ascii) (s : string) :
  forall i found : Z, occurs c s = false -> Str.rfind_from c s i found = found.
Proof.
  induction s as [| a s IH]; intros i found H; [reflexivity |].
  cbn [occurs] in H. apply orb_false_elim in H. destruct H as [Ha Hs].
  cbn [Str.rfind_from]. rewrite Ha. apply IH. exact Hs.
Qed.

Lemma rfind_from_app (c : ascii) (a b : string) :
  forall i found : Z,
    Str.rfind_from c (a ++ b) i found
    = Str.rfind_from c b (i + Z.of_nat (String.length a)) (Str.rfind_from c a i found).
Proof.
  induction a as [| x a IH]; intros i found.
  - change (Str.rfind_from c b i found = Str.rfind_from c b (i + 0) found).
    replace (i + 0) with i by lia. reflexivity.
  - change (Str.rfind_from c (String x (a ++ b)) i found
            = Str.rfind_from c b (i + Z.of_nat (Datatypes.S (String.length a)))
                (Str.rfind_from c (String x a) i found)).
    cbn [Str.rfind_from]. rewrite IH. f_equal. lia.
Qed.

(** The last [c] of a string is the one after which no [c] comes. *)
Lemma rfind_last (c : ascii) (a b : string) :
  occurs c b = false -> Str.rfind c (a ++ String c b) = Z.of_nat (String.length a).
Proof.
  intros Hb. unfold Str.rfind. rewrite rfind_from_app. cbn [Str.rfind_from].
  rewrite Ascii.eqb_refl. rewrite rfind_from_absent by exact Hb. lia.
Qed.

Lemma rfind_absent (c : ascii) (s : string) : occurs c s = false -> Str.rfind c s = -1.
Proof. intros H. unfold Str.rfind. apply rfind_from_absent. exact H. Qed.

Lemma get_after (a : string) (x : ascii) (b : string) :
  String.get (String.length a) (a ++ String x b) = Some x.
Proof. induction a as [| y a IH]; [reflexivity | exact IH]. Qed.

(** The loop over the characters before the last dot finds a character other
    than a dot exactly when they are not all dots. *)
Lemma has_non_dot_over (s : string) :
  forall (pre rest : string),
    OsPath.has_non_dot (pre ++ s ++ rest) "."%char (String.length pre) (String.length s)
    = negb (only_dots s).
Proof.
  induction s as [| a s IH]; intros pre rest; [reflexivity |].
  change (String a s ++ rest) with (String a (s ++ rest)).
  cbn [String.length OsPath.has_non_dot only_dots]. rewrite get_after.
  destruct (Ascii.eqb a "."%char) eqn:Ha; [| reflexivity].
  cbn [andb].
  replace (pre ++ String a (s ++ rest)) with ((pre ++ String a EmptyString) ++ s ++ rest)
    by (rewrite str_app_assoc; reflexivity).
  replace (Datatypes.S (String.length pre)) with (String.length (pre ++ String a EmptyString)).
  - apply IH.
  - rewrite string_length_append. cbn [String.length]. lia.
Qed.

Lemma has_non_dot_from_start (s rest : string) :
  OsPath.has_non_dot (s ++ rest) "."%char 0 (String.length s) = negb (only_dots s).
Proof. exact (has_non_dot_over s EmptyString rest). Qed.

Lemma only_dots_repeated (n : nat) : only_dots (repeated "."%char n) = true.
Proof. induction n as [| n IH]; [reflexivity | exact IH]. Qed.

Lemma length_repeated (c : ascii) (n : nat) : String.length (repeated c n) = n.
Proof. induction n as [| n IH]; [reflexivity |]. cbn. rewrite IH. reflexivity. Qed.

Lemma substring_prefix (a b : string) : String.substring 0 (String.length a) (a ++ b) = a.
Proof.
  induction a as [| x a IH]; [destruct b; reflexivity |].
  change (String x (String.substring 0 (String.length a) (a ++ b)) = String x a).
  rewrite IH. reflexivity.
Qed.

(** [os.path.splitext] cuts the extension off a name that holds no
    separator. *)
Lemma splitext_cuts_extension (filename stem : string) (sep : ascii) (altsep : option ascii) :
  without_extension filename stem ->
  occurs sep filename = false ->
  (forall alt, altsep = Some alt -> occurs alt filename = false) ->
  fst (OsPath._splitext filename sep altsep "."%char) = stem.
Proof.
  intros Hcut Hsep Halt. unfold OsPath._splitext. cbv zeta.
  assert (Hidx : match altsep with
                 | Some alt => Z.max (Str.rfind sep filename) (Str.rfind alt filename)
                 | None => Str.rfind sep filename
                 end = -1).
  { rewrite (rfind_absent sep) by exact Hsep. destruct altsep as [alt |]; [| reflexivity].
    rewrite (rfind_absent alt) by (apply Halt; reflexivity). reflexivity. }
  rewrite Hidx. clear Hidx Hsep Halt.
  destruct Hcut as [stem ext Hstem Hext | n rest Hrest].
  - change (stem ++ "." ++ ext) with (stem ++ String "."%char ext).
    rewrite rfind_last by exact Hext.
    replace (Z.of_nat (String.length stem) >? -1) with true by (symmetry; apply Z.gtb_lt; lia).
    replace (Z.to_nat (-1 + 1)) with O by reflexivity.
    replace (Z.to_nat (Z.of_nat (String.length stem) - (-1 + 1))) with (String.length stem)
      by lia.
    rewrite has_non_dot_from_start, Hstem.
    cbn [negb andb fst]. unfold Str.slice_to. rewrite Nat2Z.id. apply substring_prefix.
  - destruct n as [| n].
    + change (repeated "."%char 0 ++ rest) with rest.
      rewrite rfind_absent by exact Hrest. reflexivity.
    + rewrite repeated_snoc. rewrite rfind_last by exact Hrest.
      rewrite length_repeated.
      replace (Z.to_nat (-1 + 1)) with O by reflexivity.
      replace (Z.to_nat (Z.of_nat n - (-1 + 1))) with (String.length (repeated "."%char n))
        by (rewrite length_repeated; lia).
      rewrite has_non_dot_from_start, only_dots_repeated. cbn [negb]. rewrite andb_false_r. reflexivity.
Qed.

Lemma rfind_from_bound (c : ascii) (s : string) :
  forall i found : Z,
    found <= i - 1 -> Str.rfind_from c s i found <= i + Z.of_nat (String.length s) - 1.
Proof.
  induction s as [| a s IH]; intros i found Hf.
  - cbn. lia.
  - cbn [Str.rfind_from String.length].
    specialize (IH (i + 1) (if Ascii.eqb a c then i else found)).
    destruct (Ascii.eqb a c); lia.
Qed.

Lemma rfind_bound (c : ascii) (s : string) : Str.rfind c s <= Z.of_nat (String.length s) - 1.
Proof. unfold Str.rfind. apply (rfind_from_bound c s 0 (-1)). lia. Qed.

Lemma rfind_app_absent (c : ascii) (a b : string) :
  occurs c b = false -> Str.rfind c (a ++ b) = Str.rfind c a.
Proof.
  intros Hb. unfold Str.rfind. rewrite rfind_from_app. apply rfind_from_absent. exact Hb.
Qed.

(** [ntpath.splitext] cuts the extension off the last component of a name
    without a slash. *)
Lemma nt_splitext_cuts_extension (filename stem : string) :
  without_extension_nt filename stem ->
  occurs "/"%char filename = false ->
  fst (OsPath.nt_splitext filename) = stem.
Proof.
  intros Hcut Hslash. unfold OsPath.nt_splitext, OsPath._splitext. cbv zeta.
  rewrite (rfind_absent "/"%char) by exact Hslash.
  destruct Hcut as [pre tail stem Hpre Htail Hcut].
  assert (Hsep : Z.max (Str.rfind "\"%char (pre ++ tail)) (-1)
                 = Z.of_nat (String.length pre) - 1).
  { destruct Hpre as [-> | [q ->]].
    - change (EmptyString ++ tail) with tail. rewrite rfind_absent by exact Htail. reflexivity.
    - rewrite str_app_assoc. change ("\" ++ tail) with (String "\"%char tail).
      rewrite rfind_last by exact Htail. rewrite string_length_append. cbn [String.length].
      lia. }
  rewrite Hsep. clear Hsep Hpre Hslash.
  replace (Z.to_nat (Z.of_nat (String.length pre) - 1 + 1)) with (String.length pre) by lia.
  destruct Hcut as [st ext Hst Hext | n rest Hrest].
  - replace (pre ++ st ++ "." ++ ext) with ((pre ++ st) ++ String "."%char ext)
      by (rewrite str_app_assoc; reflexivity).
    rewrite rfind_last by exact Hext. rewrite string_length_append.
    replace (Z.of_nat (String.length pre + String.length st)
             >? Z.of_nat (String.length pre) - 1) with true
      by (symmetry; apply Z.gtb_lt; lia).
    replace (Z.to_nat (Z.of_nat (String.length pre + String.length st)
                       - (Z.of_nat (String.length pre) - 1 + 1)))
      with (String.length st) by lia.
    rewrite str_app_assoc, has_non_dot_over, Hst. cbn [negb andb fst].
    unfold Str.slice_to. rewrite Nat2Z.id, <- str_app_assoc, <- string_length_append.
    apply substring_prefix.
  - destruct n as [| n].
    + change (repeated "."%char 0 ++ rest) with rest.
      rewrite rfind_app_absent by exact Hrest.
      replace (Str.rfind "."%char pre >? Z.of_nat (String.length pre) - 1) with false
        by (symmetry; rewrite Z.gtb_ltb; apply Z.ltb_ge, rfind_bound).
      reflexivity.
    + rewrite repeated_snoc.
      replace (pre ++ repeated "."%char n ++ String "."%char rest)
        with ((pre ++ repeated "."%char n) ++ String "."%char rest)
        by (rewrite str_app_assoc; reflexivity).
      rewrite rfind_last by exact Hrest. rewrite string_length_append, length_repeated.
      replace (Z.to_nat (Z.of_nat (String.length pre + n)
                         - (Z.of_nat (String.length pre) - 1 + 1)))
        with (String.length (repeated "."%char n)) by (rewrite length_repeated; lia).
      rewrite str_app_assoc, has_non_dot_over, only_dots_repeated.
      cbn [negb]. rewrite andb_false_r. reflexivity.
Qed.

(** *** Paths *)

Lemma occurs_head (c a : ascii) (s : string) :
  occurs c (String a s) = false -> Ascii.eqb a c = false.
Proof. cbn [occurs]. intros H. apply orb_false_elim in H. exact (proj1 H). Qed.

Lemma concat_head (sep : string) (a : ascii) (d : string) (rest : list string) :
  exists t, String.concat sep (String a d :: rest) = String a t.
Proof.
  destruct rest as [| y rest'].
  - exists d. reflexivity.
  - exists (d ++ sep ++ String.concat sep (y :: rest')). reflexivity.
Qed.

(** Stripping the outer slashes of a path leaves its segments, joined by
    single slashes, when the first and the last segment are not empty. *)
Lemma strip_path_of (lead trail : nat) (dirs : list string) (filename : string) :
  (forall d, In d dirs -> occurs "/"%char d = false) ->
  occurs "/"%char filename = false ->
  hd EmptyString (dirs ++ [filename]) <> EmptyString ->
  filename <> EmptyString ->
  Str.strip "/"%char (path_of lead (dirs ++ [filename]) trail)
  = String.concat "/" (dirs ++ [filename]).
Proof.
  intros Hdirs Hfile Hfirst Hlast. unfold Str.strip, path_of.
  rewrite lstrip_repeated.
  assert (Hhead : exists a t,
             String.concat "/" (dirs ++ [filename]) = String a t
             /\ Ascii.eqb a "/"%char = false).
  { destruct dirs as [| d rest].
    - cbn [List.app hd] in Hfirst. cbn [List.app String.concat].
      destruct filename as [| a t]; [congruence |].
      exists a, t. split; [reflexivity | exact (occurs_head _ _ _ Hfile)].
    - cbn [List.app hd] in Hfirst. destruct d as [| a d']; [congruence |].
      change ((String a d' :: rest) ++ [filename])%list
        with (String a d' :: (rest ++ [filename]))%list.
      destruct (concat_head "/" a d' (rest ++ [filename])) as [t Ht].
      exists a, t. split; [exact Ht |].
      apply (occurs_head _ _ d'). apply Hdirs. left. reflexivity. }
  assert (Htail : exists u b,
             String.concat "/" (dirs ++ [filename]) = u ++ String b EmptyString
             /\ Ascii.eqb b "/"%char = false).
  { destruct (string_last filename Hlast) as (t & b & Hf).
    assert (Hb : Ascii.eqb b "/"%char = false).
    { rewrite Hf, occurs_app in Hfile. apply orb_false_elim in Hfile.
      exact (occurs_head _ _ _ (proj2 Hfile)). }
    rewrite concat_snoc. destruct dirs as [| d rest].
    - exists t, b. split; [exact Hf | exact Hb].
    - exists (String.concat "/" (d :: rest) ++ "/" ++ t), b. split; [| exact Hb].
      rewrite Hf, !str_app_assoc. reflexivity. }
  destruct Hhead as (a & t & Hcore & Ha).
  rewrite Hcore.
  change (String a t ++ repeated "/"%char trail) with (String a (t ++ repeated "/"%char trail)).
  rewrite lstrip_head by exact Ha.
  change (String a (t ++ repeated "/"%char trail)) with (String a t ++ repeated "/"%char trail).
  rewrite rstrip_app_repeated, <- Hcore.
  destruct Htail as (u & b & Hcore' & Hb).
  rewrite Hcore'. apply rstrip_last. exact Hb.
Qed.

Lemma flat_name_of_path (os_path_splitext : string -> string * string)
    (lead trail : nat) (dirs : list string) (filename stem : string) :
  (forall d, In d dirs -> occurs "/"%char d = false) ->
  occurs "/"%char filename = false ->
  hd EmptyString (dirs ++ [filename]) <> EmptyString ->
  filename <> EmptyString ->
  fst (os_path_splitext filename) = stem ->
  VideoProducer.flat_name_from_dropbox_path os_path_splitext
    (path_of lead (dirs ++ [filename]) trail)
  = Some (String.concat "_"
            (List.filter (fun d => negb (String.eqb d "최종편집영상")) dirs ++ [stem])
          ++ ".mp4").
Proof.
  intros Hdirs Hfile Hfirst Hlast Hstem.
  unfold VideoProducer.flat_name_from_dropbox_path. cbv zeta.
  rewrite strip_path_of by assumption.
  rewrite split_concat.
  - rewrite unpack_last_app.
    destruct (os_path_splitext filename) as [name_without_ext ext]. cbn [fst] in Hstem.
    subst name_without_ext. rewrite join_is_concat. reflexivity.
  - destruct dirs; discriminate.
  - intros d Hd. apply List.in_app_or in Hd. destruct Hd as [Hd | [<- | []]].
    + apply Hdirs. exact Hd.
    + exact Hfile.
Qed.

(** *** Every path has segments *)

Lemma lstrip_shape (c : ascii) (s : string) :
  exists n,
    s = repeated c n ++ Str.lstrip c s
    /\ (Str.lstrip c s = EmptyString
        \/ exists a t, Str.lstrip c s = String a t /\ Ascii.eqb a c = false).
Proof.
  induction s as [| a s IH].
  - exists O. split; [reflexivity | left; reflexivity].
  - cbn [Str.lstrip]. destruct (Ascii.eqb a c) eqn:Ha.
    + apply Ascii.eqb_eq in Ha. subst a. destruct IH as (n & Hs & Hshape).
      exists (Datatypes.S n). split; [| exact Hshape].
      change (String c s = String c (repeated c n ++ Str.lstrip c s)). rewrite <- Hs.
      reflexivity.
    + exists O. split; [reflexivity |]. right. exists a, s. split; [reflexivity | exact Ha].
Qed.

Lemma rstrip_shape (c : ascii) (s : string) :
  exists m, s = Str.rstrip c s ++ repeated c m.
Proof.
  induction s as [| a s IH].
  - exists O. reflexivity.
  - destruct IH as (m & Hs). cbn [Str.rstrip].
    destruct (Str.rstrip c s) as [| x r] eqn:Hr.
    + change (s = repeated c m) in Hs. destruct (Ascii.eqb a c) eqn:Ha.
      * apply Ascii.eqb_eq in Ha. subst a. exists (Datatypes.S m).
        change (String c s = String c (repeated c m)). rewrite <- Hs. reflexivity.
      * exists m. change (String a s = String a (repeated c m)). rewrite <- Hs.
        reflexivity.
    + exists m. change (String a s = String a (String x r ++ repeated c m)).
      rewrite <- Hs. reflexivity.
Qed.

Lemma rstrip_idempotent (c : ascii) (s : string) :
  Str.rstrip c (Str.rstrip c s) = Str.rstrip c s.
Proof.
  induction s as [| a s IH]; [reflexivity |].
  cbn [Str.rstrip]. destruct (Str.rstrip c s) as [| x r] eqn:Hr.
  - destruct (Ascii.eqb a c) eqn:Ha; [reflexivity |].
    cbn [Str.rstrip]. rewrite Ha. reflexivity.
  - cbn [Str.rstrip] in *. rewrite IH. reflexivity.
Qed.

(** The last segment of a string that is not empty and is its own [rstrip]
    is not empty. *)
Lemma split_last_segment (c : ascii) (s : string) :
  s <> EmptyString -> Str.rstrip c s = s -> List.last (Str.split c s) EmptyString <> EmptyString.
Proof.
  induction s as [| a s IH]; [congruence |]. intros _ Hs.
  cbn [Str.rstrip] in Hs.
  destruct (Str.rstrip c s) as [| x r] eqn:Hr.
  - destruct (Ascii.eqb a c) eqn:Ha; [discriminate |].
    injection Hs as Hs'. subst s. cbn [Str.split]. rewrite Ha. cbn. discriminate.
  - injection Hs as Hs'. assert (Hne : s <> EmptyString) by (rewrite <- Hs'; discriminate).
    specialize (IH Hne Hs').
    cbn [Str.split]. pose proof (split_not_nil c s) as Hnil.
    destruct (Str.split c s) as [| h t]; [congruence |].
    destruct (Ascii.eqb a c).
    + exact IH.
    + destruct t as [| h' t'].
      * cbn. discriminate.
      * exact IH.
Qed.

Lemma split_segments_free (c : ascii) (s : string) :
  forall d, In d (Str.split c s) -> occurs c d = false.
Proof.
  induction s as [| a s IH]; intros d Hd.
  - destruct Hd as [<- | []]. reflexivity.
  - cbn [Str.split] in Hd. destruct (Ascii.eqb a c) eqn:Ha.
    + destruct Hd as [<- | Hd]; [reflexivity | apply IH; exact Hd].
    + pose proof (split_not_nil c s) as Hnil.
      destruct (Str.split c s) as [| h t]; [congruence |].
      destruct Hd as [<- | Hd].
      * cbn [occurs]. rewrite Ha. apply IH. left. reflexivity.
      * apply IH. right. exact Hd.
Qed.

Lemma split_head_segment (c a : ascii) (t : string) :
  Ascii.eqb a c = false -> hd EmptyString (Str.split c (String a t)) <> EmptyString.
Proof.
  intros Ha. cbn [Str.split]. rewrite Ha.
  destruct (Str.split c t); cbn; discriminate.
Qed.

(** Every name has a part without extension. *)
Lemma extension_exists (filename : string) : exists stem, without_extension filename stem.
Proof.
  induction filename as [| a f IH].
  - exists EmptyString. exact (no_extension O EmptyString eq_refl).
  - destruct IH as [stem Hcut]. destruct Hcut as [stem ext Hstem Hext | n rest Hrest].
    + exists (String a stem).
      apply (extension_cut (String a stem) ext); [| exact Hext].
      cbn [only_dots]. rewrite Hstem. apply andb_false_r.
    + destruct (Ascii.eqb a "."%char) eqn:Ha.
      * apply Ascii.eqb_eq in Ha. subst a. exists (repeated "."%char (Datatypes.S n) ++ rest).
        exact (no_extension (Datatypes.S n) rest Hrest).
      * destruct n as [| n].
        -- exists (String a rest).
           apply (no_extension O (String a rest)). cbn [occurs]. rewrite Ha, Hrest. reflexivity.
        -- exists (String a (repeated "."%char n)).
           rewrite repeated_snoc.
           change (String a (repeated "."%char n ++ String "."%char rest))
             with (String a (repeated "."%char n) ++ "." ++ rest).
           apply extension_cut; [| exact Hrest].
           cbn [only_dots]. rewrite Ha. reflexivity.
Qed.

(** Every name is cut at its last [c], if it has one. *)
Lemma last_component (c : ascii) (s : string) :
  exists pre tail,
    s = pre ++ tail
    /\ (pre = EmptyString \/ exists q, pre = q ++ String c EmptyString)
    /\ occurs c tail = false.
Proof.
  induction s as [| a s IH].
  - exists EmptyString, EmptyString. split; [reflexivity |]. split; [left |]; reflexivity.
  - destruct IH as (pre & tail & Hs & [Hpre | [q Hpre]] & Htail).
    + subst pre. change (EmptyString ++ tail) with tail in Hs. subst s.
      destruct (Ascii.eqb a c) eqn:Ha.
      * apply Ascii.eqb_eq in Ha. subst a.
        exists (String c EmptyString), tail. split; [reflexivity |].
        split; [right; exists EmptyString; reflexivity | exact Htail].
      * exists EmptyString, (String a tail). split; [reflexivity |].
        split; [left; reflexivity |]. cbn [occurs]. rewrite Ha, Htail. reflexivity.
    + exists (String a pre), tail. split; [rewrite Hs; reflexivity |].
      split; [| exact Htail]. right. exists (String a q). rewrite Hpre. reflexivity.
Qed.

Lemma extension_exists_nt (filename : string) :
  exists stem, without_extension_nt filename stem.
Proof.
  destruct (last_component "\"%char filename) as (pre & tail & Hs & Hpre & Htail).
  destruct (extension_exists tail) as [stem Hcut].
  exists (pre ++ stem). rewrite Hs. apply after_backslash; assumption.
Qed.

(** A path is made of slashes only, or has segments: after its leading and
    before its trailing slashes come directory segments and a file name,
    joined by single slashes, of which the first and the last are not
    empty. *)
Lemma path_has_segments (path_display : string) :
  (exists n, path_display = repeated "/"%char n)
  \/ exists (lead trail : nat) (dirs : list string) (filename stem stem_nt : string),
       path_display = path_of lead (dirs ++ [filename]) trail
       /\ (forall d, In d dirs -> occurs "/"%char d = false)
       /\ occurs "/"%char filename = false
       /\ hd EmptyString (dirs ++ [filename]) <> EmptyString
       /\ filename <> EmptyString
       /\ without_extension filename stem
       /\ without_extension_nt filename stem_nt.
Proof.
  destruct (lstrip_shape "/"%char path_display) as (lead & Hlead & Hshape).
  destruct Hshape as [Hempty | (a & t & Hcore & Ha)].
  { left. exists lead. rewrite Hlead at 1. rewrite Hempty. apply app_nil_str. }
  right.
  destruct (rstrip_shape "/"%char (Str.lstrip "/"%char path_display)) as (trail & Htrail).
  set (core := Str.rstrip "/"%char (Str.lstrip "/"%char path_display)) in *.
  assert (Hhead : exists t', core = String a t').
  { unfold core. rewrite Hcore. cbn [Str.rstrip].
    destruct (Str.rstrip "/"%char t) as [| x r].
    - rewrite Ha. eauto.
    - eauto. }
  destruct Hhead as [t' Hcore'].
  assert (Hown : Str.rstrip "/"%char core = core) by apply rstrip_idempotent.
  assert (Hne : core <> EmptyString) by (rewrite Hcore'; discriminate).
  pose proof (split_last_segment "/"%char core Hne Hown) as Hlast.
  pose proof (split_head_segment "/"%char a t' Ha) as Hfirst. rewrite <- Hcore' in Hfirst.
  pose proof (split_segments_free "/"%char core) as Hfree.
  pose proof (join_split "/"%char core) as Hjoin. rewrite join_is_concat in Hjoin.
  destruct (@exists_last _ (Str.split "/"%char core) (split_not_nil _ _))
    as (dirs & filename & Hparts).
  rewrite Hparts in Hlast, Hfirst, Hfree, Hjoin. rewrite List.last_last in Hlast.
  destruct (extension_exists filename) as [stem Hstem].
  destruct (extension_exists_nt filename) as [stem_nt Hstem_nt].
  exists lead, trail, dirs, filename, stem, stem_nt.
  split.
  { unfold path_of. change (String "/"%char EmptyString) with "/" in Hjoin.
    rewrite Hjoin, <- Htrail. exact Hlead. }
  split; [intros d Hd; apply Hfree; apply List.in_or_app; left; exact Hd |].
  split; [apply Hfree; apply List.in_or_app; right; left; reflexivity |].
  split; [exact Hfirst |]. split; [exact Hlast |]. split; [exact Hstem | exact Hstem_nt].
Qed.

(** C10. For every path with at least one segment,
    [flat_name_from_dropbox_path] returns the directory segments of the path
    other than [최종편집영상] and the file name without its extension, joined by
    underscores, followed by [.mp4]. A path with segments is any number of
    slashes, the directory segments and the file name joined by single
    slashes, and any number of slashes again; no segment holds a slash, and
    the first segment and the file name are not empty. The extension is the
    one [os.path.splitext] cuts off: on POSIX what starts at the last dot of
    the file name, when a character other than a dot stands before it, and on
    Windows the same within what follows the last backslash of the file name.
    The result ends in [.mp4] whatever the extension of the file. Every path
    is of this form, unless it is made of slashes only. *)
Theorem flat_name_is_joined_segments_with_mp4 :
  (forall (lead trail : nat) (dirs : list string) (filename stem : string),
      (forall d, In d dirs -> occurs "/"%char d = false) ->
      occurs "/"%char filename = false ->
      hd EmptyString (dirs ++ [filename]) <> EmptyString ->
      filename <> EmptyString ->
      (without_extension filename stem ->
       VideoProducer.flat_name_from_dropbox_path OsPath.posix_splitext
         (path_of lead (dirs ++ [filename]) trail)
       = Some (String.concat "_"
                 (List.filter (fun d => negb (String.eqb d "최종편집영상")) dirs ++ [stem])
               ++ ".mp4"))
      /\ (without_extension_nt filename stem ->
          VideoProducer.flat_name_from_dropbox_path OsPath.nt_splitext
            (path_of lead (dirs ++ [filename]) trail)
          = Some (String.concat "_"
                    (List.filter (fun d => negb (String.eqb d "최종편집영상")) dirs ++ [stem])
                  ++ ".mp4"))
      /\ Str.endswith
           (String.concat "_"
              (List.filter (fun d => negb (String.eqb d "최종편집영상")) dirs ++ [stem])
            ++ ".mp4") ".mp4" = true)
  /\ (forall path_display : string,
        (exists n, path_display = repeated "/"%char n)
        \/ exists (lead trail : nat) (dirs : list string) (filename stem stem_nt : string),
             path_display = path_of lead (dirs ++ [filename]) trail
             /\ (forall d, In d dirs -> occurs "/"%char d = false)
             /\ occurs "/"%char filename = false
             /\ hd EmptyString (dirs ++ [filename]) <> EmptyString
             /\ filename <> EmptyString
             /\ without_extension filename stem
             /\ without_extension_nt filename stem_nt).
Proof.
  split; [| exact path_has_segments].
  intros lead trail dirs filename stem Hdirs Hfile Hfirst Hlast.
  split; [| split].
  - intros Hcut. apply flat_name_of_path; try assumption.
    apply splitext_cuts_extension; [exact Hcut | exact Hfile | intros alt H; discriminate].
  - intros Hcut. apply flat_name_of_path; try assumption.
    apply nt_splitext_cuts_extension; [exact Hcut | exact Hfile].
  - apply endswith_append.
Qed.

(** The statement of C10 for a [.MOV] file below the final-cut folder. *)
Lemma flat_name_is_joined_segments_with_mp4_witness :
  VideoProducer.flat_name_from_dropbox_path OsPath.posix_splitext
    "/디자인/최종편집영상/W1/intro.final.MOV"
  = Some "디자인_W1_intro.final.mp4"
  /\ VideoProducer.flat_name_from_dropbox_path OsPath.nt_splitext
       "/디자인/최종편집영상/W1/intro.final.MOV"
     = Some "디자인_W1_intro.final.mp4".
Proof.
  assert (Hdirs : forall d, In d ["디자인"; "최종편집영상"; "W1"] -> occurs "/"%char d = false).
  { intros d Hd. cbn [In] in Hd.
    repeat (destruct Hd as [<- | Hd]; [reflexivity |]). destruct Hd. }
  assert (Hfile : occurs "/"%char "intro.final.MOV" = false) by reflexivity.
  assert (Hfirst : hd EmptyString (["디자인"; "최종편집영상"; "W1"] ++ ["intro.final.MOV"])%list
                   <> EmptyString) by (cbn; discriminate).
  assert (Hlast : "intro.final.MOV" <> EmptyString) by discriminate.
  assert (Hcut : without_extension "intro.final.MOV" "intro.final")
    by exact (extension_cut "intro.final" "MOV" eq_refl eq_refl).
  assert (Hcut_nt : without_extension_nt "intro.final.MOV" "intro.final")
    by exact (after_backslash EmptyString "intro.final.MOV" "intro.final"
                (or_introl eq_refl) eq_refl Hcut).
  pose proof (proj1 flat_name_is_joined_segments_with_mp4 1%nat 0%nat
                ["디자인"; "최종편집영상"; "W1"] "intro.final.MOV" "intro.final"
                Hdirs Hfile Hfirst Hlast) as (Hposix & Hnt & _).
  split; [exact (Hposix Hcut) | exact (Hnt Hcut_nt)].
Defined.

(** ** Sample runs *)

Example lower_mixed : Str.lower "Read TIMED OUT [42]" = "read timed out [42]".
Proof. reflexivity. Qed.

(** The Kelvin sign lowers to [k], the capital I with a dot above to [i] and
    a combining dot; an accented capital is kept. *)
Example lower_outside_ascii :
  Str.lower "BROKEN TİME É" = "broken ti̇me É".
Proof. reflexivity. Qed.

Example contains_inside : Str.contains "ssl" "an sslerror" = true.
Proof. reflexivity. Qed.

Example contains_absent : Str.contains "tls" "t-l-s" = false.
Proof. reflexivity. Qed.

Example of_Z_samples : (Str.of_Z 0, Str.of_Z 429, Str.of_Z (-7)) = ("0", "429", "-7").
Proof. reflexivity. Qed.

Example strip_split_sample :
  Str.split "/"%char (Str.strip "/"%char "//a/b//c.mov/") = ["a"; "b"; EmptyString; "c.mov"].
Proof. reflexivity. Qed.

Example splitext_samples :
  (OsPath.posix_splitext "2.mp4", OsPath.posix_splitext "a.tar.gz",
   OsPath.posix_splitext ".bashrc", OsPath.posix_splitext "noext",
   OsPath.posix_splitext "..x.y")
  = (("2", ".mp4"), ("a.tar", ".gz"), (".bashrc", EmptyString), ("noext", EmptyString),
     ("..x", ".y")).
Proof. vm_compute. reflexivity. Qed.

(** The example of the docstring in [encode_local_videos.py]. *)
Example flat_name_docstring :
  VideoProducer.flat_name_from_dropbox_path OsPath.posix_splitext
    "/디자인/2D 모션그래픽 디자인/TAC_장준석/최종편집영상/W4/2.mp4"
  = Some "디자인_2D 모션그래픽 디자인_TAC_장준석_W4_2.mp4".
Proof. vm_compute. reflexivity. Qed.

(** A backslash in the file name: on Windows the extension is looked for
    after it, on POSIX in the whole name. *)
Example flat_name_with_backslash :
  VideoProducer.flat_name_from_dropbox_path OsPath.posix_splitext "/a/b.x\c"
  = Some "a_b.mp4"
  /\ VideoProducer.flat_name_from_dropbox_path OsPath.nt_splitext "/a/b.x\c"
     = Some "a_b.x\c.mp4".
Proof. split; vm_compute; reflexivity. Qed.

Example flat_name_of_mov :
  VideoProducer.flat_name_from_dropbox_path OsPath.nt_splitext
    "/디자인/최종편집영상/W1/intro.final.MOV"
  = Some "디자인_W1_intro.final.mp4".
Proof. vm_compute. reflexivity. Qed.

(** With one attempt allowed, a timeout is raised after one invocation and no
    sleep. *)
Example one_attempt_no_retry :
  fst (DropboxLeftoversProducer._gdrive_execute_with_retry always_times_out "list" 1 3
         (fresh_world O 0)) = Raise (Err read_timeout)
  /\ calls (snd (DropboxLeftoversProducer._gdrive_execute_with_retry always_times_out "list" 1 3
                   (fresh_world O 0))) = 1
  /\ sleeps (snd (DropboxLeftoversProducer._gdrive_execute_with_retry always_times_out "list"
                    1 3 (fresh_world O 0))) = 0.
Proof. repeat split; vm_compute; reflexivity. Qed.

(** The scenario of the specification: base delay 5, three attempts, two
    timeouts and then an answer; the two sleeps, with draws of one half, last
    5.625 and 11.25 seconds. *)
Example two_timeouts_then_answer :
  DropboxLeftoversProducer._gdrive_execute_with_retry (succeeds_at 3 "ok") "get" 3 5
    (fresh_world O half)
  = (Return "ok",
     mkWorld 3%nat (fun _ => half) 2%nat
       [ EvExecute;
         EvPrint "[GDRIVE-RETRY] get 시도 1/3 실패: TimeoutError: The read operation timed out";
         EvSleep (backoff_delay 5 1 60 (unit_draw half));
         EvExecute;
         EvPrint "[GDRIVE-RETRY] get 시도 2/3 실패: TimeoutError: The read operation timed out";
         EvSleep (backoff_delay 5 2 60 (unit_draw half));
         EvExecute ])
  /\ (unit_draw half == 1 # 2)%Q
  /\ (backoff_delay 5 1 60 (unit_draw half) == 5625 # 1000)%Q
  /\ (backoff_delay 5 2 60 (unit_draw half) == 1125 # 100)%Q.
Proof. repeat split. Qed.

(** With a negative base delay the first sleep is refused: the caller gets
    the [ValueError] of [time.sleep] after one invocation. *)
Example negative_base_delay :
  fst (DropboxLeftoversProducer._gdrive_execute_with_retry always_times_out "get" 3 (-1)
         (fresh_world O 0))
  = Raise (Err sleep_length_error)
  /\ calls (snd (DropboxLeftoversProducer._gdrive_execute_with_retry always_times_out "get"
                   3 (-1) (fresh_world O 0))) = 1.
Proof. split; vm_compute; reflexivity. Qed.

(** With no attempt allowed the executor raises a [TypeError] without
    invoking the operation. *)
Example no_attempt_allowed :
  DropboxLeftoversProducer._gdrive_execute_with_retry always_times_out "list" 0 3
    (fresh_world O 0)
  = (Raise (Err (mkException TypeError "exceptions must derive from BaseException")),
     fresh_world O 0).
Proof. reflexivity. Qed.

(** A keyboard interrupt is not retried, whatever its text says. *)
Example interrupt_passes_through :
  DropboxLeftoversProducer._gdrive_execute_with_retry
    (fun n : nat => (Raise (A := string) (Interrupt KeyboardInterrupt "timeout"), Datatypes.S n))
    "list" 3 3 (fresh_world O 0)
  = (Raise (Interrupt KeyboardInterrupt "timeout"),
     mkWorld 1%nat (fun _ => 0%N) O [EvExecute]).
Proof. reflexivity. Qed.

(** * Further properties of the helpers *)

(** ** How many attempts the executors make *)

Section AttemptBounds.
Context {S V : Type}.
Variable is_transient : Exception -> bool.
Variable req : S -> outcome V * S.

(** A run of the loop over the attempts [a .. N] makes at most one invocation
    per attempt, leaves the service in the state these invocations lead to,
    and sleeps between invocations only. *)
Lemma loop_attempts_bounded desc N base_delay :
  forall (j : nat) (a : Z) (last : option Exception) (w w' : World S) (o : outcome V),
    Z.of_nat j = Z.max 0 (N + 1 - a) ->
    gdrive_retry_loop is_transient req desc N base_delay (py_range a (N + 1)) last w = (o, w') ->
    exists k : nat,
      (k <= j)%nat
      /\ (j <> O -> k <> O)
      /\ calls w' = calls w + Z.of_nat k
      /\ env w' = state_after req k (env w)
      /\ sleeps w <= sleeps w' <= sleeps w + Z.max 0 (Z.of_nat k - 1).
Proof.
  induction j as [| j IH]; intros a last w w' o Hj Hrun.
  - rewrite py_range_nil in Hrun by lia.
    cbn [gdrive_retry_loop] in Hrun. unfold raise_last, raise in Hrun.
    exists O. destruct last; inversion Hrun; subst; cbn [state_after];
      (split; [lia |]); (split; [congruence |]); (split; [lia |]); (split; [reflexivity | lia]).
  - rewrite (py_range_cons a) in Hrun by lia.
    assert (Hone : forall w1, advanced req w w1 1 0 -> w' = w1 ->
              exists k : nat,
                (k <= Datatypes.S j)%nat /\ (Datatypes.S j <> O -> k <> O)
                /\ calls w' = calls w + Z.of_nat k
                /\ env w' = state_after req k (env w)
                /\ sleeps w <= sleeps w' <= sleeps w + Z.max 0 (Z.of_nat k - 1)).
    { intros w1 (He1 & Hc1 & Hs1) ->. exists 1%nat.
      split; [lia |]. split; [congruence |]. split; [lia |].
      split; [exact He1 | lia]. }
    destruct (fst (req (env w))) as [v | [e | c msg]] eqn:Hout.
    + destruct (attempt_returns is_transient req desc N base_delay a
                  (py_range (a + 1) (N + 1)) last w v Hout) as (w1 & Hstep & Hadv).
      rewrite Hstep in Hrun. inversion Hrun; subst. apply (Hone w'); [exact Hadv | reflexivity].
    + destruct ((a >=? N)%Z || negb (is_transient e)) eqn:Hstop.
      * destruct (attempt_gives_up is_transient req desc N base_delay a
                    (py_range (a + 1) (N + 1)) last w e Hout Hstop) as (w1 & Hstep & Hadv).
        rewrite Hstep in Hrun. inversion Hrun; subst.
        apply (Hone w'); [exact Hadv | reflexivity].
      * destruct (Z.lt_ge_cases base_delay 0) as [Hneg | Hbase].
        -- destruct (attempt_sleep_refused is_transient req desc N base_delay a
                       (py_range (a + 1) (N + 1)) last w e Hout Hstop Hneg)
             as (w1 & Hstep & Hadv).
           rewrite Hstep in Hrun. inversion Hrun; subst.
           apply (Hone w'); [exact Hadv | reflexivity].
        -- destruct (attempt_retries is_transient req desc N base_delay a
                       (py_range (a + 1) (N + 1)) last w e Hout Hstop Hbase)
             as (w1 & Hstep & He1 & Hc1 & Hs1).
           rewrite Hstep in Hrun.
           assert (HaN : a < N).
           { apply orb_false_elim in Hstop. destruct Hstop as [Hge _].
             rewrite Z.geb_leb in Hge. apply Z.leb_gt in Hge. exact Hge. }
           destruct (IH (a + 1) (Some e) w1 w' o ltac:(lia) Hrun)
             as (k & Hk & Hpos & Hc & He & Hs).
           assert (Hk0 : k <> O) by (apply Hpos; lia).
           exists (Datatypes.S k). split; [lia |]. split; [congruence |].
           split; [lia |]. split; [| lia].
           cbn [state_after]. rewrite He, He1. reflexivity.
    + destruct (attempt_interrupted is_transient req desc N base_delay a
                  (py_range (a + 1) (N + 1)) last w c msg Hout) as (w1 & Hstep & Hadv).
      rewrite Hstep in Hrun. inversion Hrun; subst. apply (Hone w'); [exact Hadv | reflexivity].
Qed.

End AttemptBounds.

(** X1. Whatever the operation does and whatever the bound [N] and the base
    delay are, [_gdrive_execute_with_retry] invokes the operation at most
    [max 0 N] times, leaves the service in the state these invocations lead
    to, and sleeps fewer times than it invokes: never after the last
    invocation. *)
Theorem executor_attempts_are_bounded :
  forall (S V : Type) (is_transient : Exception -> bool) (req : S -> outcome V * S)
         (desc : string) (N base_delay : Z) (w : World S),
  exists k : nat,
    Z.of_nat k <= Z.max 0 N
    /\ calls (snd (_gdrive_execute_with_retry is_transient req desc N base_delay w))
       = calls w + Z.of_nat k
    /\ env (snd (_gdrive_execute_with_retry is_transient req desc N base_delay w))
       = state_after req k (env w)
    /\ sleeps w
       <= sleeps (snd (_gdrive_execute_with_retry is_transient req desc N base_delay w))
       <= sleeps w + Z.max 0 (Z.of_nat k - 1).
Proof.
  intros S V is_transient req desc N base_delay w.
  unfold _gdrive_execute_with_retry.
  destruct (gdrive_retry_loop is_transient req desc N base_delay (py_range 1 (N + 1)) None w)
    as [o w'] eqn:Hrun.
  destruct (loop_attempts_bounded is_transient req desc N base_delay (Z.to_nat (Z.max 0 N))
              1 None w w' o ltac:(lia) Hrun) as (k & Hk & _ & Hc & He & Hs).
  exists k. cbn [snd]. split; [lia |]. split; [exact Hc |]. split; [exact He | exact Hs].
Qed.

(** X2. An interrupt - Ctrl-C, [SystemExit] - raised by invocation [k + 1],
    after [k] failures that were retried, ends the call at once: it is raised
    as it is, after [k + 1] invocations and [k] sleeps, whatever its text
    says and however many attempts are left. The executor of
    [video_producer.py] does the same under its bound. *)
Theorem interrupt_ends_the_retries :
  forall (S V : Type) (is_transient : Exception -> bool) (req : S -> outcome V * S)
         (desc : string) (N base_delay : Z) (k : nat) (c : interrupt_class) (msg : string)
         (w : World S),
    Z.of_nat k < N ->
    0 <= base_delay ->
    (forall i, (i < k)%nat ->
       transient_failure is_transient (outcome_at req i (env w)) = true) ->
    outcome_at req k (env w) = Raise (Interrupt c msg) ->
    (exists w',
        _gdrive_execute_with_retry is_transient req desc N base_delay w
          = (Raise (Interrupt c msg), w')
        /\ calls w' = calls w + Z.of_nat k + 1
        /\ sleeps w' = sleeps w + Z.of_nat k)
    /\ (N = VideoProducer.GDRIVE_API_MAX_RETRIES ->
        exists w',
          VideoProducer._execute_gdrive_with_retry req desc w = (Raise (Interrupt c msg), w')
          /\ calls w' = calls w + Z.of_nat k + 1
          /\ sleeps w' = sleeps w + Z.of_nat k).
Proof.
  intros S V is_transient req desc N base_delay k c msg w HkN Hbase Hfail Hint.
  split.
  - destruct (loop_skips_transient_failures is_transient req desc N base_delay Hbase
                k 1 None w) as (last' & w1 & Hrun & He & Hc & Hs).
    { lia. }
    { exact Hfail. }
    unfold _gdrive_execute_with_retry. rewrite Hrun.
    rewrite (py_range_cons (1 + Z.of_nat k)) by lia.
    destruct (attempt_interrupted is_transient req desc N base_delay (1 + Z.of_nat k)
                (py_range (1 + Z.of_nat k + 1) (N + 1)) last' w1 c msg)
      as (w2 & Hstep & He2 & Hc2 & Hs2).
    { rewrite He. exact Hint. }
    exists w2. rewrite Hstep. split; [reflexivity |]. split; lia.
  - intros HN3.
    destruct (vp_loop_skips_failures req desc k 1 w) as (w1 & Hrun & He & Hc & Hs).
    { lia. }
    { intros i Hi. specialize (Hfail i Hi).
      destruct (outcome_at req i (env w)) as [? | [? | ? ?]]; cbn in *; congruence. }
    unfold VideoProducer._execute_gdrive_with_retry. rewrite Hrun.
    rewrite (py_range_cons (1 + Z.of_nat k)) by lia.
    destruct (vp_attempt_interrupted req desc (1 + Z.of_nat k)
                (py_range (1 + Z.of_nat k + 1) (VideoProducer.GDRIVE_API_MAX_RETRIES + 1))
                w1 c msg) as (w2 & Hstep & He2 & Hc2 & Hs2).
    { rewrite He. exact Hint. }
    exists w2. rewrite Hstep. split; [reflexivity |]. split; lia.
Qed.

(** The statement of X2 for an operation that times out once and is
    interrupted during its second invocation, with three attempts allowed. *)
Lemma interrupt_ends_the_retries_witness :
  exists w',
    DropboxLeftoversProducer._gdrive_execute_with_retry (interrupted_at 2) "list" 3 3
      (fresh_world O 0) = (Raise (Interrupt KeyboardInterrupt EmptyString), w')
    /\ calls w' = calls (fresh_world O 0) + Z.of_nat 1 + 1
    /\ sleeps w' = sleeps (fresh_world O 0) + Z.of_nat 1.
Proof.
  assert (H1 : Z.of_nat 1 < 3) by lia.
  assert (H0 : 0 <= 3) by lia.
  assert (H2 : forall i, (i < 1)%nat ->
             transient_failure DropboxLeftoversProducer._is_transient_error
               (outcome_at (interrupted_at 2) i (env (fresh_world O 0))) = true).
  { intros i Hi. destruct i as [| i]; [reflexivity | lia]. }
  assert (H3 : outcome_at (interrupted_at 2) 1 (env (fresh_world O 0))
               = Raise (Interrupt KeyboardInterrupt EmptyString)) by reflexivity.
  exact (proj1 (interrupt_ends_the_retries nat string
                  DropboxLeftoversProducer._is_transient_error (interrupted_at 2)
                  "list" 3 3 1%nat KeyboardInterrupt EmptyString (fresh_world O 0)
                  H1 H0 H2 H3)).
Defined.

(** What a call of the executor of [video_producer.py] comes to. *)
Lemma vp_executor_outcome :
  forall (S V : Type) (req : S -> outcome V * S) (desc : string) (w : World S),
  exists k : nat,
    (k < 3)%nat
    /\ (forall i, (i < k)%nat -> exception_failure (outcome_at req i (env w)) = true)
    /\ ((k < 2)%nat -> exception_failure (outcome_at req k (env w)) = false)
    /\ fst (VideoProducer._execute_gdrive_with_retry req desc w)
       = match outcome_at req k (env w) with
         | Return v => Return (Some v)
         | Raise r => Raise r
         end
    /\ calls (snd (VideoProducer._execute_gdrive_with_retry req desc w))
       = calls w + Z.of_nat k + 1
    /\ sleeps (snd (VideoProducer._execute_gdrive_with_retry req desc w))
       = sleeps w + Z.of_nat k
    /\ env (snd (VideoProducer._execute_gdrive_with_retry req desc w))
       = state_after req (Datatypes.S k) (env w).
Proof.
  intros S V req desc w.
  unfold VideoProducer._execute_gdrive_with_retry.
  change (py_range 1 (VideoProducer.GDRIVE_API_MAX_RETRIES + 1)) with [1; 2; 3].
  destruct (fst (req (env w))) as [v | [e | c msg]] eqn:H0.
  - destruct (vp_attempt_returns req desc 1 [2; 3] w v H0) as (w1 & Hstep & He & Hc & Hs).
    exists O. rewrite Hstep. unfold outcome_at. cbn [state_after fst snd]. rewrite H0.
    split; [lia |]. split; [intros i Hi; lia |]. split; [reflexivity |].
    split; [reflexivity |]. split; [lia |]. split; [lia | exact He].
  - destruct (vp_attempt_retries req desc 1 [2; 3] w e H0 eq_refl)
      as (w1 & Hstep & He1 & Hc1 & Hs1).
    rewrite Hstep.
    assert (Hfirst : exception_failure (outcome_at req 0 (env w)) = true).
    { unfold outcome_at. cbn [state_after]. rewrite H0. reflexivity. }
    destruct (fst (req (env w1))) as [v | [e2 | c msg]] eqn:H1.
    + destruct (vp_attempt_returns req desc 2 [3] w1 v H1) as (w2 & Hstep2 & He & Hc & Hs).
      exists 1%nat. rewrite Hstep2. unfold outcome_at at 2 3.
      cbn [state_after fst snd]. rewrite <- He1, H1.
      split; [lia |]. split.
      { intros i Hi. replace i with O by lia. exact Hfirst. }
      split; [reflexivity |]. split; [reflexivity |]. split; [lia |]. split; [lia |].
      rewrite He. reflexivity.
    + destruct (vp_attempt_retries req desc 2 [3] w1 e2 H1 eq_refl)
        as (w2 & Hstep2 & He2 & Hc2 & Hs2).
      rewrite Hstep2.
      assert (Hsecond : exception_failure (outcome_at req 1 (env w)) = true).
      { unfold outcome_at. cbn [state_after]. rewrite <- He1, H1. reflexivity. }
      assert (Hthird : outcome_at req 2 (env w) = fst (req (env w2))).
      { unfold outcome_at. cbn [state_after]. rewrite <- He1, <- He2. reflexivity. }
      assert (Hstate : forall w3, env w3 = snd (req (env w2)) ->
                env w3 = state_after req 3 (env w)).
      { intros w3 H3. cbn [state_after]. rewrite <- He1, <- He2. exact H3. }
      assert (Hbefore : forall i, (i < 2)%nat ->
                exception_failure (outcome_at req i (env w)) = true).
      { intros i Hi. destruct i as [| [| i]]; [exact Hfirst | exact Hsecond | lia]. }
      exists 2%nat. rewrite Hthird.
      destruct (fst (req (env w2))) as [v | [e3 | c msg]] eqn:H2.
      * destruct (vp_attempt_returns req desc 3 [] w2 v H2) as (w3 & Hstep3 & He & Hc & Hs).
        rewrite Hstep3. cbn [fst snd].
        split; [lia |]. split; [exact Hbefore |]. split; [intros Hlt; lia |].
        split; [reflexivity |]. split; [lia |]. split; [lia | apply Hstate; exact He].
      * destruct (vp_attempt_gives_up req desc 3 [] w2 e3 H2 eq_refl)
          as (w3 & Hstep3 & He & Hc & Hs).
        rewrite Hstep3. cbn [fst snd].
        split; [lia |]. split; [exact Hbefore |]. split; [intros Hlt; lia |].
        split; [reflexivity |]. split; [lia |]. split; [lia | apply Hstate; exact He].
      * destruct (vp_attempt_interrupted req desc 3 [] w2 c msg H2)
          as (w3 & Hstep3 & He & Hc & Hs).
        rewrite Hstep3. cbn [fst snd].
        split; [lia |]. split; [exact Hbefore |]. split; [intros Hlt; lia |].
        split; [reflexivity |]. split; [lia |]. split; [lia | apply Hstate; exact He].
    + destruct (vp_attempt_interrupted req desc 2 [3] w1 c msg H1)
        as (w2 & Hstep2 & He & Hc & Hs).
      exists 1%nat. rewrite Hstep2. unfold outcome_at at 2 3.
      cbn [state_after fst snd]. rewrite <- He1, H1.
      split; [lia |]. split.
      { intros i Hi. replace i with O by lia. exact Hfirst. }
      split; [reflexivity |]. split; [reflexivity |]. split; [lia |]. split; [lia |].
      rewrite He. reflexivity.
  - destruct (vp_attempt_interrupted req desc 1 [2; 3] w c msg H0)
      as (w1 & Hstep & He & Hc & Hs).
    exists O. rewrite Hstep. unfold outcome_at. cbn [state_after fst snd]. rewrite H0.
    split; [lia |]. split; [intros i Hi; lia |]. split; [reflexivity |].
    split; [reflexivity |]. split; [lia |]. split; [lia | exact He].
Qed.

(** X3. The executor of [video_producer.py] yields what invocation [k + 1] of
    the operation yields, for some [k] below 3: the invocations before it
    raised instances of [Exception], each followed by one sleep, and unless it
    is the third, invocation [k + 1] did not. It never returns [None], the
    value its text falls through to after the loop. *)
Theorem video_producer_executor_result :
  forall (S V : Type) (req : S -> outcome V * S) (desc : string) (w : World S),
    fst (VideoProducer._execute_gdrive_with_retry req desc w) <> Return None
    /\ exists k : nat,
         (k < 3)%nat
         /\ (forall i, (i < k)%nat -> exception_failure (outcome_at req i (env w)) = true)
         /\ ((k < 2)%nat -> exception_failure (outcome_at req k (env w)) = false)
         /\ fst (VideoProducer._execute_gdrive_with_retry req desc w)
            = match outcome_at req k (env w) with
              | Return v => Return (Some v)
              | Raise r => Raise r
              end
         /\ calls (snd (VideoProducer._execute_gdrive_with_retry req desc w))
            = calls w + Z.of_nat k + 1
         /\ sleeps (snd (VideoProducer._execute_gdrive_with_retry req desc w))
            = sleeps w + Z.of_nat k
         /\ env (snd (VideoProducer._execute_gdrive_with_retry req desc w))
            = state_after req (Datatypes.S k) (env w).
Proof.
  intros S V req desc w.
  destruct (vp_executor_outcome S V req desc w)
    as (k & Hk & Hbefore & Hlast & Hfst & Hcalls & Hsleeps & Henv).
  split.
  - rewrite Hfst. destruct (outcome_at req k (env w)); discriminate.
  - exists k. split; [exact Hk |]. split; [exact Hbefore |]. split; [exact Hlast |].
    split; [exact Hfst |]. split; [exact Hcalls |]. split; [exact Hsleeps | exact Henv].
Qed.



(** ** Downloads that succeed after broken transfers, or give up at once *)

Section DownloadRuns.
Context {R : Type}.
Variable files_download : R -> string -> transfer * R.
Variables dbx_path tmp_path out_path : string.
Variables retries base_delay_seconds : Z.

(** While the transfers break off with transient errors and attempts are
    left, the loop goes on; only the temporary file has been written. *)
Lemma download_loop_skips_transient_breaks :
  0 <= base_delay_seconds ->
  forall (j : nat) (a : Z) (last : option Exception) (w : World (FsEnv R)),
    a + Z.of_nat j <= retries ->
    (forall i, (i < j)%nat ->
       transient_break
         (outcome_at (fun r => files_download r dbx_path) i (remote (env w))) = true) ->
    exists last' w',
      DropboxLeftoversProducer.download_loop files_download dbx_path tmp_path out_path
        retries base_delay_seconds (py_range a (retries + 1)) last w
      = DropboxLeftoversProducer.download_loop files_download dbx_path tmp_path out_path
          retries base_delay_seconds (py_range (a + Z.of_nat j) (retries + 1)) last' w'
      /\ remote (env w') = state_after (fun r => files_download r dbx_path) j (remote (env w))
      /\ calls w' = calls w + Z.of_nat j
      /\ (forall p, p <> tmp_path -> files (env w') !! p = files (env w) !! p).
Proof.
  intros Hbase.
  induction j as [| j IH]; intros a last w Hle Hfail.
  - exists last, w. replace (a + Z.of_nat 0) with a by lia.
    split; [reflexivity |]. split; [reflexivity |]. split; [lia | intros; reflexivity].
  - assert (H0 : transient_break
                   (outcome_at (fun r => files_download r dbx_path) 0 (remote (env w))) = true)
      by (apply Hfail; lia).
    unfold outcome_at in H0. cbn [state_after] in H0.
    destruct (fst (files_download (remote (env w)) dbx_path))
      as [content | written [e | c msg]] eqn:Hout; cbn in H0; try discriminate.
    assert (Hgo : (a >=? retries)%Z || negb (DropboxLeftoversProducer._is_transient_error e)
                  = false).
    { rewrite H0. cbn [negb]. rewrite orb_false_r, Z.geb_leb. apply Z.leb_gt. lia. }
    rewrite (py_range_cons a) by lia.
    destruct (download_attempt_retries files_download dbx_path tmp_path out_path retries
                base_delay_seconds a (py_range (a + 1) (retries + 1)) last w written e
                Hout Hgo Hbase) as (w1 & Hstep & Hf1 & Hr1 & Hc1).
    destruct (IH (a + 1) (Some e) w1) as (last' & w' & Hrun & Hr & Hc & Hf).
    { lia. }
    { intros i Hi. rewrite Hr1.
      change (outcome_at (fun r => files_download r dbx_path) i
                (snd (files_download (remote (env w)) dbx_path)))
        with (outcome_at (fun r => files_download r dbx_path) (Datatypes.S i)
                (remote (env w))).
      apply Hfail. lia. }
    exists last', w'. rewrite Hstep, Hrun.
    replace (a + 1 + Z.of_nat j) with (a + Z.of_nat (Datatypes.S j)) by lia.
    split; [reflexivity |]. split; [rewrite Hr, Hr1; reflexivity |]. split; [lia |].
    intros p Hp. rewrite Hf by exact Hp. rewrite Hf1. apply write_partial_other. exact Hp.
Qed.

End DownloadRuns.

(** X5. If the transfers [1 .. k - 1] of [safe_download_to_file] break off
    with errors its classifier calls transient and transfer [k] completes, for
    a [k] within the bound (and a base delay of at least 0 seconds), the call
    returns after exactly [k] transfers: the target holds the content of
    transfer [k], no temporary file is left, and no other file has changed. *)
Theorem download_returns_first_complete_transfer :
  forall (R : Type) (files_download : R -> string -> transfer * R)
         (dbx_path out_path : string) (retries base_delay_seconds : Z) (k : nat)
         (content : list byte) (w : World (FsEnv R)),
    (1 <= k)%nat ->
    Z.of_nat k <= retries ->
    0 <= base_delay_seconds ->
    (forall i, (i < k - 1)%nat ->
       transient_break
         (outcome_at (fun r => files_download r dbx_path) i (remote (env w))) = true) ->
    outcome_at (fun r => files_download r dbx_path) (k - 1) (remote (env w))
      = Complete content ->
    exists w',
      DropboxLeftoversProducer.safe_download_to_file files_download dbx_path out_path
        retries base_delay_seconds w = (Return tt, w')
      /\ files (env w') !! out_path = Some content
      /\ files (env w') !! with_part_suffix out_path = None
      /\ (forall p, p <> out_path -> p <> with_part_suffix out_path ->
            files (env w') !! p = files (env w) !! p)
      /\ calls w' = calls w + Z.of_nat k
      /\ remote (env w')
         = state_after (fun r => files_download r dbx_path) k (remote (env w)).
Proof.
  intros R files_download dbx_path out_path retries base_delay_seconds k content w
    Hk Hkr Hbase Hfail Hok.
  destruct (safe_download_starts_clean files_download dbx_path out_path retries
              base_delay_seconds w) as (w0 & Hstart & Hf0 & Hr0 & Hc0).
  rewrite Hstart.
  destruct (download_loop_skips_transient_breaks files_download dbx_path
              (with_part_suffix out_path) out_path retries base_delay_seconds Hbase
              (k - 1) 1 None w0) as (last' & w1 & Hrun & Hr1 & Hc1 & Hf1).
  { lia. }
  { intros i Hi. rewrite Hr0. apply Hfail. exact Hi. }
  rewrite Hrun. rewrite (py_range_cons (1 + Z.of_nat (k - 1))) by lia.
  destruct (download_attempt_completes files_download dbx_path (with_part_suffix out_path)
              out_path retries base_delay_seconds (1 + Z.of_nat (k - 1))
              (py_range (1 + Z.of_nat (k - 1) + 1) (retries + 1)) last' w1 content)
    as (w2 & Hstep & Hf2 & Hr2 & Hc2).
  { rewrite Hr1, Hr0. exact Hok. }
  exists w2. rewrite Hstep. split; [reflexivity |].
  pose proof (with_part_suffix_differs out_path) as Hdiff.
  split; [rewrite Hf2; apply lookup_insert_eq |].
  split.
  { rewrite Hf2, lookup_insert_ne by congruence. apply lookup_delete_eq. }
  split.
  { intros p Hp Hq. rewrite Hf2, lookup_insert_ne by congruence.
    rewrite lookup_delete_ne by congruence. rewrite Hf1 by exact Hq.
    rewrite Hf0. apply lookup_delete_ne. congruence. }
  split; [lia |].
  rewrite Hr2, Hr1, Hr0. replace k with (Datatypes.S (k - 1)) at 2 by lia.
  clear. generalize (remote (env w)). induction (k - 1)%nat as [| n IH]; intros s; cbn.
  - reflexivity.
  - apply IH.
Qed.

(** The statement of X5 for a service whose first transfer times out and
    whose second delivers three bytes, with three attempts allowed. *)
Lemma download_returns_first_complete_transfer_witness :
  exists w',
    DropboxLeftoversProducer.safe_download_to_file (completes_at 2 [x01; x02; x03])
      "/videos/a.mp4" "raw/a.mp4" 3 5 (fresh_world (mkFsEnv ∅ O) 0) = (Return tt, w')
    /\ files (env w') !! "raw/a.mp4" = Some [x01; x02; x03]
    /\ files (env w') !! with_part_suffix "raw/a.mp4" = None
    /\ (forall p, p <> "raw/a.mp4" -> p <> with_part_suffix "raw/a.mp4" ->
          files (env w') !! p = files (env (fresh_world (mkFsEnv ∅ O) 0)) !! p)
    /\ calls w' = calls (fresh_world (mkFsEnv ∅ O) 0) + Z.of_nat 2
    /\ remote (env w')
       = state_after (fun r => completes_at 2 [x01; x02; x03] r "/videos/a.mp4") 2
           (remote (env (fresh_world (mkFsEnv ∅ O) 0))).
Proof.
  assert (H1 : (1 <= 2)%nat) by lia.
  assert (H2 : Z.of_nat 2 <= 3) by lia.
  assert (H0 : 0 <= 5) by lia.
  assert (H3 : forall i, (i < 2 - 1)%nat ->
             transient_break
               (outcome_at (fun r => completes_at 2 [x01; x02; x03] r "/videos/a.mp4") i
                  (remote (env (fresh_world (mkFsEnv ∅ O) 0)))) = true).
  { intros i Hi. destruct i as [| i]; [reflexivity | cbn in Hi; lia]. }
  assert (H4 : outcome_at (fun r => completes_at 2 [x01; x02; x03] r "/videos/a.mp4") (2 - 1)
                 (remote (env (fresh_world (mkFsEnv ∅ O) 0)))
               = Complete [x01; x02; x03]) by reflexivity.
  exact (download_returns_first_complete_transfer nat (completes_at 2 [x01; x02; x03])
           "/videos/a.mp4" "raw/a.mp4" 3 5 2%nat [x01; x02; x03]
           (fresh_world (mkFsEnv ∅ O) 0) H1 H2 H0 H3 H4).
Defined.



(** ** Folder paths on the drive *)

Lemma str_in_In (x : string) (parts : list string) : str_in x parts = true <-> In x parts.
Proof.
  unfold str_in. rewrite List.existsb_exists. split.
  - intros (y & Hy & Heq). apply String.eqb_eq in Heq. subst. exact Hy.
  - intros Hin. exists x. split; [exact Hin | apply String.eqb_refl].
Qed.

(** [parts.index(x)] splits [parts] at the first [x]. *)
Lemma str_index_first (x : string) :
  forall parts : list string,
    In x parts ->
    exists (idx : nat) (rest : list string),
      str_index x parts = Some idx
      /\ parts = (take idx parts ++ x :: rest)%list
      /\ ~ In x (take idx parts).
Proof.
  induction parts as [| p parts IH]; intros Hin; [destruct Hin |].
  cbn [str_index]. destruct (String.eqb p x) eqn:Heq.
  - apply String.eqb_eq in Heq. subst p. exists O, parts.
    split; [reflexivity |]. split; [reflexivity | intros []].
  - apply String.eqb_neq in Heq.
    destruct Hin as [Hin | Hin]; [congruence |].
    destruct (IH Hin) as (idx & rest & Hidx & Hsplit & Hnot).
    exists (Datatypes.S idx), rest. rewrite Hidx.
    split; [reflexivity |]. cbn [take]. split.
    + cbn [app]. f_equal. exact Hsplit.
    + intros [Hp | Hp]; [congruence | exact (Hnot Hp)].
Qed.

(** A segment that is not empty is among the segments of a path exactly when
    it is among its non-empty segments. *)
Lemma In_nonempty_parts (x path_display : string) :
  x <> EmptyString ->
  (In x (nonempty_parts path_display) <-> In x (Str.split "/"%char path_display)).
Proof.
  intros Hx. unfold nonempty_parts. rewrite List.filter_In. split.
  - intros [Hin _]. exact Hin.
  - intros Hin. split; [exact Hin |].
    apply negb_true_iff. apply String.eqb_neq. exact Hx.
Qed.

(** X7. [encoded_rel_folder_from_dropbox] returns exactly for the paths that
    pass the test of its caller [process_all], the paths with a segment
    [최종편집영상]: then its result is the non-empty segments before the first
    such segment, followed by [encoded]; for every other path it raises the
    [ValueError] that names the path. *)
Theorem encoded_folder_of_final_cut_path :
  forall path_display : string,
    (In VideoProducer.final_cut_folder (Str.split "/"%char path_display)
     /\ exists prefix rest : list string,
          nonempty_parts path_display
            = (prefix ++ VideoProducer.final_cut_folder :: rest)%list
          /\ ~ In VideoProducer.final_cut_folder prefix
          /\ ~ In EmptyString prefix
          /\ VideoProducer.encoded_rel_folder_from_dropbox path_display
             = Return (prefix ++ ["encoded"])%list)
    \/ (~ In VideoProducer.final_cut_folder (Str.split "/"%char path_display)
        /\ VideoProducer.encoded_rel_folder_from_dropbox path_display
           = Raise (VideoProducer.value_error
                      ("'최종편집영상' 폴더를 찾을 수 없습니다: " ++ path_display))).
Proof.
  intros path_display.
  assert (Hmarker : VideoProducer.final_cut_folder <> EmptyString) by discriminate.
  unfold VideoProducer.encoded_rel_folder_from_dropbox.
  destruct (str_in VideoProducer.final_cut_folder (nonempty_parts path_display)) eqn:Hin.
  - left. apply str_in_In in Hin.
    split; [apply (In_nonempty_parts _ _ Hmarker); exact Hin |].
    destruct (str_index_first _ _ Hin) as (idx & rest & Hidx & Hsplit & Hnot).
    exists (take idx (nonempty_parts path_display)), rest.
    split; [exact Hsplit |]. split; [exact Hnot |]. split.
    + intros Hempty.
      assert (Hall : In EmptyString (nonempty_parts path_display)).
      { rewrite Hsplit. apply List.in_or_app. left. exact Hempty. }
      unfold nonempty_parts in Hall. apply List.filter_In in Hall.
      destruct Hall as [_ Hne]. discriminate.
    + cbn [negb]. rewrite Hidx. reflexivity.
  - right. split.
    + intros Hsplit. apply (In_nonempty_parts _ _ Hmarker) in Hsplit.
      apply str_in_In in Hsplit. congruence.
    + reflexivity.
Qed.

(** X8. For a path that passes the test of [process_all] and on which
    [gdrive_raw_folder_parts_from_dropbox] returns, the raw folder path is
    the non-empty segments without the last, and
    [gdrive_folder_parts_from_dropbox] returns the folder [encoded] beside
    the first [최종편집영상] of that path: both paths start with the same
    segments, the raw one going on into [최종편집영상] (unless that is the name
    of the file itself). *)
Theorem raw_and_encoded_folders_share_a_parent :
  forall (path_display : string) (raw : list string),
    In VideoProducer.final_cut_folder (Str.split "/"%char path_display) ->
    EncodeLocalVideos.gdrive_raw_folder_parts_from_dropbox path_display = Return raw ->
    exists (prefix : list string) (filename : string),
      nonempty_parts path_display = (raw ++ [filename])%list
      /\ EncodeLocalVideos.gdrive_folder_parts_from_dropbox path_display
         = Return (prefix ++ ["encoded"])%list
      /\ ((exists more, raw = (prefix ++ VideoProducer.final_cut_folder :: more)%list)
          \/ (raw = prefix /\ filename = VideoProducer.final_cut_folder)).
Proof.
  intros path_display raw Hguard Hraw.
  assert (Hmarker : VideoProducer.final_cut_folder <> EmptyString) by discriminate.
  apply (In_nonempty_parts _ _ Hmarker) in Hguard.
  destruct (str_index_first _ _ Hguard) as (idx & rest & Hidx & Hsplit & Hnot).
  unfold EncodeLocalVideos.gdrive_raw_folder_parts_from_dropbox in Hraw.
  destruct (Nat.ltb (List.length (nonempty_parts path_display)) 2); [discriminate |].
  inversion Hraw as [Hraw']. clear Hraw.
  unfold EncodeLocalVideos.gdrive_folder_parts_from_dropbox.
  apply str_in_In in Hguard. rewrite Hguard, Hidx. cbn [negb].
  set (prefix := take idx (nonempty_parts path_display)) in *.
  destruct (List.exists_last (l := VideoProducer.final_cut_folder :: rest)
              ltac:(discriminate)) as (front & [filename Hlast]).
  exists prefix, filename.
  assert (Hparts : nonempty_parts path_display = ((prefix ++ front) ++ [filename])%list).
  { rewrite Hsplit at 1. rewrite Hlast. apply List.app_assoc. }
  clearbody prefix. subst raw. rewrite Hparts, List.removelast_last.
  split; [reflexivity |]. split; [reflexivity |].
  destruct front as [| m more].
  - right. cbn [app] in Hlast. inversion Hlast. split; [apply List.app_nil_r | reflexivity].
  - left. cbn [app] in Hlast. inversion Hlast. exists more. reflexivity.
Qed.

(** The statement of X8 on the example of the docstrings. *)
Lemma raw_and_encoded_folders_share_a_parent_witness :
  exists (prefix : list string) (filename : string),
    nonempty_parts "/디자인/그래픽디자인/MPC_임수연/최종편집영상/W1/2.mp4"
      = (["디자인"; "그래픽디자인"; "MPC_임수연"; "최종편집영상"; "W1"] ++ [filename])%list
    /\ EncodeLocalVideos.gdrive_folder_parts_from_dropbox
         "/디자인/그래픽디자인/MPC_임수연/최종편집영상/W1/2.mp4"
       = Return (prefix ++ ["encoded"])%list
    /\ ((exists more,
           ["디자인"; "그래픽디자인"; "MPC_임수연"; "최종편집영상"; "W1"]
           = (prefix ++ VideoProducer.final_cut_folder :: more)%list)
        \/ (["디자인"; "그래픽디자인"; "MPC_임수연"; "최종편집영상"; "W1"] = prefix
            /\ filename = VideoProducer.final_cut_folder)).
Proof.
  assert (H1 : In VideoProducer.final_cut_folder
                 (Str.split "/"%char "/디자인/그래픽디자인/MPC_임수연/최종편집영상/W1/2.mp4")).
  { vm_compute. right. right. right. right. left. reflexivity. }
  assert (H2 : EncodeLocalVideos.gdrive_raw_folder_parts_from_dropbox
                 "/디자인/그래픽디자인/MPC_임수연/최종편집영상/W1/2.mp4"
               = Return ["디자인"; "그래픽디자인"; "MPC_임수연"; "최종편집영상"; "W1"])
    by (vm_compute; reflexivity).
  exact (raw_and_encoded_folders_share_a_parent
           "/디자인/그래픽디자인/MPC_임수연/최종편집영상/W1/2.mp4"
           ["디자인"; "그래픽디자인"; "MPC_임수연"; "최종편집영상"; "W1"] H1 H2).
Defined.

(** ** Flat names are file names *)


(** No segment of [s.split(sep)] holds the separator. *)
Lemma split_segments_lack_sep (sep : ascii) :
  forall (s p : string), In p (Str.split sep s) -> ~ In sep (list_ascii_of_string p).
Proof.
  induction s as [| a s IH]; intros p Hin.
  - cbn in Hin. destruct Hin as [<- | []]. intros [].
  - cbn [Str.split] in Hin. destruct (Ascii.eqb a sep) eqn:Ha.
    + destruct Hin as [<- | Hin]; [intros [] | apply IH; exact Hin].
    + apply Ascii.eqb_neq in Ha.
      destruct (Str.split sep s) as [| h t] eqn:Hs.
      * destruct Hin as [<- | []]. cbn. intros [Heq | []]. congruence.
      * destruct Hin as [<- | Hin].
        -- cbn [list_ascii_of_string]. intros [Heq | Hh]; [congruence |].
           apply (IH h); [left; reflexivity | exact Hh].
        -- apply IH. right. exact Hin.
Qed.










(** On Windows a backslash inside a segment of the path stays in the flat
    name. *)
Example flat_name_keeps_backslash :
  VideoProducer.flat_name_from_dropbox_path OsPath.nt_splitext "/a/b\c.mov"
  = Some "a_b\c.mp4".
Proof. vm_compute. reflexivity. Qed.

(** ** The filter of the leftovers producer *)

(** X10. [should_skip] with the defaults of the command line - no include
    and no exclude text, closed courses not skipped, no extension to skip -
    skips no path, whatever its suffix; an empty include or exclude text is
    no filter; and a path without a suffix is never skipped for its
    extension, whatever the list of extensions holds. *)
Theorem default_filters_skip_nothing :
  forall (path_suffix : string -> string) (path_display : string),
    DropboxLeftoversProducer.should_skip path_suffix path_display None None false [] = false
    /\ (forall (skip_closed : bool) (skip_extensions : list string),
          DropboxLeftoversProducer.should_skip path_suffix path_display
            (Some EmptyString) (Some EmptyString) skip_closed skip_extensions
          = DropboxLeftoversProducer.should_skip path_suffix path_display
              None None skip_closed skip_extensions)
    /\ (path_suffix path_display = EmptyString ->
        forall (include_substr exclude_substr : option string) (skip_closed : bool)
               (skip_extensions : list string),
          DropboxLeftoversProducer.should_skip path_suffix path_display
            include_substr exclude_substr skip_closed skip_extensions
          = DropboxLeftoversProducer.should_skip path_suffix path_display
              include_substr exclude_substr skip_closed []).
Proof.
  intros path_suffix path_display. unfold DropboxLeftoversProducer.should_skip.
  split.
  - cbn [andb str_in existsb List.map]. rewrite andb_false_r. reflexivity.
  - split.
    + intros skip_closed skip_extensions. reflexivity.
    + intros Hsuffix include_substr exclude_substr skip_closed skip_extensions.
      rewrite Hsuffix. reflexivity.
Qed.

(** ** Counting files per folder *)

Lemma dict_get_insert (d : gmap string Z) (g f : string) (v : Z) :
  GdriveDesignCompare.dict_get (<[g := v]> d) f
  = if String.eqb g f then v else GdriveDesignCompare.dict_get d f.
Proof.
  unfold GdriveDesignCompare.dict_get. destruct (String.eqb g f) eqn:Heq.
  - apply String.eqb_eq in Heq. subst. rewrite lookup_insert_eq. reflexivity.
  - apply String.eqb_neq in Heq. rewrite lookup_insert_ne by exact Heq. reflexivity.
Qed.

Lemma count_folder_bounded (is_ok : bool) (total ok : gmap string Z) (g : string) :
  counts_bounded total ok ->
  counts_bounded (fst (GdriveDesignCompare.count_folder is_ok (total, ok) g))
    (snd (GdriveDesignCompare.count_folder is_ok (total, ok) g)).
Proof.
  intros Hb f. specialize (Hb f). cbn [GdriveDesignCompare.count_folder fst snd].
  rewrite dict_get_insert.
  destruct is_ok; [rewrite dict_get_insert |];
    destruct (String.eqb (GdriveDesignCompare._norm_rel_folder g) f) eqn:Heq; try lia.
  - apply String.eqb_eq in Heq. subst f. lia.
  - apply String.eqb_eq in Heq. subst f. lia.
Qed.

(** X11. [accumulate_folder_counts] keeps the two counters in order: if
    before the call no folder has a negative count of matched files or more
    matched files than files, the same holds after it, for every path and
    either verdict. *)
Theorem accumulate_keeps_counts_bounded :
  forall (rel_path : string) (total ok : gmap string Z) (is_ok : bool),
    counts_bounded total ok ->
    counts_bounded
      (fst (GdriveDesignCompare.accumulate_folder_counts rel_path total ok is_ok))
      (snd (GdriveDesignCompare.accumulate_folder_counts rel_path total ok is_ok)).
Proof.
  intros rel_path total ok is_ok. unfold GdriveDesignCompare.accumulate_folder_counts.
  generalize (GdriveDesignCompare.folders_above rel_path) as folders.
  intros folders. revert total ok.
  induction folders as [| g folders IH]; intros total ok Hb.
  - exact Hb.
  - cbn [List.fold_left].
    pose proof (count_folder_bounded is_ok total ok g Hb) as Hstep.
    destruct (GdriveDesignCompare.count_folder is_ok (total, ok) g) as [total1 ok1].
    apply IH. exact Hstep.
Qed.

(** The statement of X11 from the empty counters, for a matched file three
    folders deep. *)
Lemma accumulate_keeps_counts_bounded_witness :
  counts_bounded
    (fst (GdriveDesignCompare.accumulate_folder_counts "A/B/C/file.ext" ∅ ∅ true))
    (snd (GdriveDesignCompare.accumulate_folder_counts "A/B/C/file.ext" ∅ ∅ true)).
Proof.
  assert (H0 : counts_bounded ∅ ∅).
  { intros f. unfold GdriveDesignCompare.dict_get. rewrite lookup_empty. cbn. lia. }
  exact (accumulate_keeps_counts_bounded "A/B/C/file.ext" ∅ ∅ true H0).
Defined.

Lemma prefix_app (a b : string) : String.prefix a (a ++ b) = true.
Proof.
  induction a as [| x a IH]; [destruct b; reflexivity |].
  change (String x a ++ b) with (String x (a ++ b)). cbn [String.prefix].
  destruct (ascii_dec x x) as [_ | Hne]; [exact IH | congruence].
Qed.

Lemma prefix_split (a : string) :
  forall s : string, String.prefix a s = true -> exists b, s = a ++ b.
Proof.
  induction a as [| x a IH]; intros s Hp.
  - exists s. reflexivity.
  - destruct s as [| y s]; cbn [String.prefix] in Hp; [discriminate |].
    destruct (ascii_dec x y) as [-> | Hne]; [| discriminate].
    destruct (IH s Hp) as (b & ->). exists b. reflexivity.
Qed.

(** Splitting at a separator splits the list of the segments. *)
Lemma split_app_sep (sep : ascii) (b : string) :
  forall a : string,
    Str.split sep (a ++ String sep b) = (Str.split sep a ++ Str.split sep b)%list.
Proof.
  induction a as [| x a IH].
  - change (EmptyString ++ String sep b) with (String sep b).
    cbn [Str.split]. rewrite Ascii.eqb_refl. reflexivity.
  - change (String x a ++ String sep b) with (String x (a ++ String sep b)).
    cbn [Str.split]. rewrite IH. destruct (Ascii.eqb x sep); [reflexivity |].
    destruct (Str.split sep a) as [| h t] eqn:Hs; [| reflexivity].
    exfalso. exact (split_not_nil sep a Hs).
Qed.

Lemma join_cons (sep x : string) (rest : list string) :
  rest <> [] -> Str.join sep (x :: rest) = x ++ sep ++ Str.join sep rest.
Proof. destruct rest as [| y rest]; [congruence | reflexivity]. Qed.

(** Joining two lists that are not empty joins their joins. *)
Lemma join_app (sep : string) (l2 : list string) :
  l2 <> [] ->
  forall l1 : list string,
    l1 <> [] ->
    Str.join sep (l1 ++ l2) = Str.join sep l1 ++ sep ++ Str.join sep l2.
Proof.
  intros H2. induction l1 as [| x l1 IH]; intros H1; [congruence |].
  destruct l1 as [| y l1].
  - cbn [app]. rewrite join_cons by exact H2. reflexivity.
  - change ((x :: y :: l1) ++ l2)%list with (x :: ((y :: l1) ++ l2))%list.
    rewrite join_cons by discriminate. rewrite IH by discriminate.
    rewrite (join_cons sep x (y :: l1)) by discriminate.
    rewrite !str_app_assoc. reflexivity.
Qed.

(** What [folder_prefixes] lists: the joins of [cur] with each prefix of
    [parts] that is not empty. *)
Lemma folder_prefixes_In (f : string) :
  forall (parts cur : list string),
    In f (GdriveDesignCompare.folder_prefixes cur parts)
    <-> exists pre post : list string,
          parts = (pre ++ post)%list /\ pre <> [] /\ f = Str.join "/" (cur ++ pre).
Proof.
  induction parts as [| p rest IH]; intros cur.
  - split; [intros [] |]. intros (pre & post & Hsplit & Hne & _).
    destruct pre; [congruence | discriminate].
  - cbn [GdriveDesignCompare.folder_prefixes]. split.
    + intros [Hhead | Htail].
      * exists [p], rest. split; [reflexivity |]. split; [discriminate | congruence].
      * apply IH in Htail. destruct Htail as (pre & post & Hsplit & Hne & Hf).
        exists (p :: pre), post. split; [cbn; congruence |]. split; [discriminate |].
        rewrite Hf, <- List.app_assoc. reflexivity.
    + intros (pre & post & Hsplit & Hne & Hf).
      destruct pre as [| q pre]; [congruence |].
      cbn [app] in Hsplit. inversion Hsplit; subst q rest.
      destruct pre as [| q pre].
      * left. symmetry. exact Hf.
      * right. apply IH. exists (q :: pre), post.
        split; [reflexivity |]. split; [discriminate |].
        rewrite Hf, <- List.app_assoc. reflexivity.
Qed.

(** The folders [folder_prefixes] lists grow longer and longer. *)
Lemma folder_prefixes_longer (f : string) (parts cur : list string) :
  cur <> [] ->
  In f (GdriveDesignCompare.folder_prefixes cur parts) ->
  (String.length (Str.join "/" cur) < String.length f)%nat.
Proof.
  intros Hcur Hin. apply folder_prefixes_In in Hin.
  destruct Hin as (pre & post & _ & Hne & ->).
  rewrite (join_app "/" pre Hne cur Hcur), !string_length_append. cbn. lia.
Qed.

Lemma folder_prefixes_NoDup :
  forall (parts cur : list string),
    List.NoDup (GdriveDesignCompare.folder_prefixes cur parts).
Proof.
  induction parts as [| p rest IH]; intros cur; cbn [GdriveDesignCompare.folder_prefixes].
  - constructor.
  - constructor; [| apply IH].
    intros Hin. apply folder_prefixes_longer in Hin; [lia |].
    destruct cur; discriminate.
Qed.

(** The folders listed for a path are the root and the folders the path
    leads through. *)
Lemma folders_above_In (f rel_path : string) :
  In f (GdriveDesignCompare.folders_above rel_path) <-> folder_above f rel_path = true.
Proof.
  unfold GdriveDesignCompare.folders_above, folder_above.
  set (parts := Str.split "/"%char rel_path).
  assert (Hjoin : Str.join "/" parts = rel_path) by apply join_split.
  assert (Hlist :
    In f (if Nat.ltb 1 (List.length parts)
          then GdriveDesignCompare.folder_prefixes [] (List.removelast parts) else [])
    <-> In f (GdriveDesignCompare.folder_prefixes [] (List.removelast parts))).
  { destruct (Nat.ltb 1 (List.length parts)) eqn:Hlen; [reflexivity |].
    apply Nat.ltb_ge in Hlen.
    destruct parts as [| a [| b t]]; cbn in Hlen; [reflexivity | reflexivity | lia]. }
  split.
  - intros [Hroot | Hin].
    + subst f. reflexivity.
    + apply Hlist in Hin. apply folder_prefixes_In in Hin.
      destruct Hin as (pre & post & Hsplit & Hne & ->). cbn [app].
      apply orb_true_iff. right.
      destruct (List.exists_last (split_not_nil "/"%char rel_path)) as (dirs & [last Hparts]).
      fold parts in Hparts. rewrite Hparts, List.removelast_last in Hsplit.
      rewrite <- Hjoin, Hparts, Hsplit, <- List.app_assoc.
      rewrite (join_app "/" (post ++ [last])) by (try exact Hne; destruct post; discriminate).
      rewrite <- str_app_assoc. apply prefix_app.
  - intros Habove. apply orb_true_iff in Habove. destruct Habove as [Hroot | Hpre].
    + apply String.eqb_eq in Hroot. left. congruence.
    + right. apply Hlist. apply folder_prefixes_In.
      apply prefix_split in Hpre. destruct Hpre as (r & Hrel).
      rewrite str_app_assoc in Hrel. change ("/" ++ r) with (String "/"%char r) in Hrel.
      assert (Hparts : parts = (Str.split "/"%char f ++ Str.split "/"%char r)%list).
      { unfold parts. rewrite Hrel. apply split_app_sep. }
      destruct (List.exists_last (split_not_nil "/"%char r)) as (post & [last Hr]).
      exists (Str.split "/"%char f), post.
      split.
      * rewrite Hparts, Hr, List.app_assoc, List.removelast_last. reflexivity.
      * split; [apply split_not_nil |]. cbn [app]. symmetry. apply join_split.
Qed.

(** On a clean path no listed folder is changed by [_norm_rel_folder], and
    none but the first is the root. *)
Lemma clean_folders_are_normal (rel_path g : string) :
  clean_rel_path rel_path ->
  In g (GdriveDesignCompare.folder_prefixes [] (List.removelast (Str.split "/"%char rel_path))) ->
  str_in g [EmptyString; "."; "./"] = false.
Proof.
  intros Hclean Hin. apply folder_prefixes_In in Hin.
  destruct Hin as (pre & post & Hsplit & Hne & ->). cbn [app].
  destruct pre as [| p1 pre]; [congruence |].
  assert (Hp1 : p1 <> EmptyString /\ p1 <> ".").
  { apply Hclean. rewrite Hsplit. left. reflexivity. }
  destruct Hp1 as [Hp1 Hdot].
  assert (Hslash : ~ In "/"%char (list_ascii_of_string p1)).
  { apply (split_segments_lack_sep "/"%char rel_path).
    destruct (List.exists_last (split_not_nil "/"%char rel_path)) as (dirs & [last Hparts]).
    rewrite Hparts, List.removelast_last in Hsplit. rewrite Hparts, Hsplit.
    left. reflexivity. }
  destruct pre as [| p2 pre].
  - cbn [Str.join str_in existsb].
    destruct (String.eqb p1 EmptyString) eqn:H1; [apply String.eqb_eq in H1; congruence |].
    destruct (String.eqb p1 ".") eqn:H2; [apply String.eqb_eq in H2; congruence |].
    destruct (String.eqb p1 "./") eqn:H3; [| reflexivity].
    apply String.eqb_eq in H3. subst p1. exfalso. apply Hslash. cbn. right. left. reflexivity.
  - rewrite join_cons by discriminate.
    destruct p1 as [| c1 p1]; [congruence |].
    change (String c1 p1 ++ "/" ++ Str.join "/" (p2 :: pre))
      with (String c1 (p1 ++ String "/"%char (Str.join "/" (p2 :: pre)))).
    cbn [str_in existsb].
    destruct p1 as [| c2 p1].
    + change (EmptyString ++ String "/"%char (Str.join "/" (p2 :: pre)))
        with (String "/"%char (Str.join "/" (p2 :: pre))).
      assert (Hp2 : p2 <> EmptyString).
      { apply (Hclean p2). rewrite Hsplit. right. left. reflexivity. }
      assert (Hc1 : c1 <> "."%char) by (intros ->; apply Hdot; reflexivity).
      cbn [String.eqb]. apply Ascii.eqb_neq in Hc1. rewrite Hc1. reflexivity.
    + change (String c2 p1 ++ String "/"%char (Str.join "/" (p2 :: pre)))
        with (String c2 (p1 ++ String "/"%char (Str.join "/" (p2 :: pre)))).
      cbn [String.eqb].
      destruct (Ascii.eqb c1 "."%char); [| reflexivity].
      destruct (Ascii.eqb c2 "/"%char) eqn:Hc2; [| reflexivity].
      destruct p1 as [| c3 p1]; reflexivity.
Qed.

(** What the loop over [folders] adds to the two counters of a folder [f]:
    one for every listed folder that [_norm_rel_folder] maps to [f]. *)
Lemma accumulate_counts_hits (is_ok : bool) (f : string) :
  forall (folders : list string) (total ok : gmap string Z),
    GdriveDesignCompare.dict_get
      (fst (List.fold_left (GdriveDesignCompare.count_folder is_ok) folders (total, ok))) f
    = GdriveDesignCompare.dict_get total f
      + Z.of_nat (List.length
                    (List.filter
                       (fun g => String.eqb (GdriveDesignCompare._norm_rel_folder g) f)
                       folders))
    /\ GdriveDesignCompare.dict_get
         (snd (List.fold_left (GdriveDesignCompare.count_folder is_ok) folders (total, ok))) f
       = GdriveDesignCompare.dict_get ok f
         + (if is_ok
            then Z.of_nat (List.length
                             (List.filter
                                (fun g => String.eqb (GdriveDesignCompare._norm_rel_folder g) f)
                                folders))
            else 0).
Proof.
  induction folders as [| g folders IH]; intros total ok.
  - cbn. destruct is_ok; split; lia.
  - cbn [List.fold_left List.filter GdriveDesignCompare.count_folder].
    match goal with
    | |- context [List.fold_left _ folders (?t, ?o)] => destruct (IH t o) as [Ht Ho]
    end.
    rewrite Ht, Ho. rewrite dict_get_insert.
    destruct is_ok; [rewrite dict_get_insert |];
      destruct (String.eqb (GdriveDesignCompare._norm_rel_folder g) f) eqn:Heq;
      cbn [List.length]; try (split; lia).
    + apply String.eqb_eq in Heq. rewrite Heq. split; lia.
    + apply String.eqb_eq in Heq. rewrite Heq. split; lia.
Qed.

(** In a list without repetition a value is found once or not at all. *)
Lemma filter_eqb_NoDup (f : string) :
  forall l : list string,
    List.NoDup l ->
    List.length (List.filter (fun g => String.eqb g f) l)
    = if str_in f l then 1%nat else 0%nat.
Proof.
  induction l as [| g l IH]; intros Hnd; [reflexivity |].
  inversion Hnd as [| ? ? Hnot Hnd']; subst.
  cbn [List.filter str_in existsb]. rewrite (String.eqb_sym f g).
  destruct (String.eqb g f) eqn:Heq.
  - apply String.eqb_eq in Heq. subst g. cbn [List.length orb].
    rewrite (IH Hnd').
    destruct (str_in f l) eqn:Hin; [| reflexivity].
    apply str_in_In in Hin. contradiction.
  - cbn [orb]. apply IH. exact Hnd'.
Qed.

(** What a call on a clean path adds to the counters of a folder. *)
Lemma accumulate_counts_clean :
  forall (rel_path : string) (total ok : gmap string Z) (is_ok : bool) (f : string),
    clean_rel_path rel_path ->
    GdriveDesignCompare.dict_get
      (fst (GdriveDesignCompare.accumulate_folder_counts rel_path total ok is_ok)) f
    = GdriveDesignCompare.dict_get total f + (if folder_above f rel_path then 1 else 0)
    /\ GdriveDesignCompare.dict_get
         (snd (GdriveDesignCompare.accumulate_folder_counts rel_path total ok is_ok)) f
       = GdriveDesignCompare.dict_get ok f
         + (if is_ok && folder_above f rel_path then 1 else 0).
Proof.
  intros rel_path total ok is_ok f Hclean.
  unfold GdriveDesignCompare.accumulate_folder_counts.
  destruct (accumulate_counts_hits is_ok f (GdriveDesignCompare.folders_above rel_path)
              total ok) as [Ht Ho].
  rewrite Ht, Ho. clear Ht Ho.
  assert (Hnormal : forall g, In g (GdriveDesignCompare.folders_above rel_path) ->
            GdriveDesignCompare._norm_rel_folder g = g).
  { intros g Hg. unfold GdriveDesignCompare.folders_above in Hg.
    destruct Hg as [<- | Hg]; [reflexivity |].
    unfold GdriveDesignCompare._norm_rel_folder.
    rewrite (clean_folders_are_normal rel_path g Hclean); [reflexivity |].
    destruct (Nat.ltb 1 (List.length (Str.split "/"%char rel_path))); [exact Hg | destruct Hg]. }
  assert (Hnodup : List.NoDup (GdriveDesignCompare.folders_above rel_path)).
  { unfold GdriveDesignCompare.folders_above. constructor.
    - intros Hin.
      assert (Hin' : In EmptyString
                (GdriveDesignCompare.folder_prefixes []
                   (List.removelast (Str.split "/"%char rel_path)))).
      { destruct (Nat.ltb 1 (List.length (Str.split "/"%char rel_path)));
          [exact Hin | destruct Hin]. }
      pose proof (clean_folders_are_normal rel_path EmptyString Hclean Hin') as Hno.
      discriminate.
    - destruct (Nat.ltb 1 (List.length (Str.split "/"%char rel_path)));
        [apply folder_prefixes_NoDup | constructor]. }
  rewrite (List.filter_ext_in
             (fun g => String.eqb (GdriveDesignCompare._norm_rel_folder g) f)
             (fun g => String.eqb g f)).
  2: { intros g Hg. rewrite (Hnormal g Hg). reflexivity. }
  rewrite (filter_eqb_NoDup f _ Hnodup).
  assert (Hsame : str_in f (GdriveDesignCompare.folders_above rel_path)
                  = folder_above f rel_path).
  { destruct (folder_above f rel_path) eqn:Habove.
    - apply str_in_In. apply folders_above_In. exact Habove.
    - destruct (str_in f (GdriveDesignCompare.folders_above rel_path)) eqn:Hin;
        [| reflexivity].
      apply str_in_In in Hin. apply folders_above_In in Hin. congruence. }
  rewrite Hsame.
  destruct is_ok, (folder_above f rel_path); cbn; split; lia.
Qed.

(** X12. For a clean relative path - no folder on the way named with the
    empty string or [.] - [accumulate_folder_counts] adds exactly one to the
    total of the root and of every folder the path leads through, and
    nothing to any other folder; the count of matched files changes in the
    same way for a matched file and not at all for another. In particular
    the total of the root goes up by one with every such file. *)
Theorem accumulate_counts_each_folder_above_once :
  forall (rel_path : string) (total ok : gmap string Z) (is_ok : bool) (f : string),
    clean_rel_path rel_path ->
    GdriveDesignCompare.dict_get
      (fst (GdriveDesignCompare.accumulate_folder_counts rel_path total ok is_ok)) f
    = GdriveDesignCompare.dict_get total f + (if folder_above f rel_path then 1 else 0)
    /\ GdriveDesignCompare.dict_get
         (snd (GdriveDesignCompare.accumulate_folder_counts rel_path total ok is_ok)) f
       = GdriveDesignCompare.dict_get ok f
         + (if is_ok && folder_above f rel_path then 1 else 0)
    /\ GdriveDesignCompare.dict_get
         (fst (GdriveDesignCompare.accumulate_folder_counts rel_path total ok is_ok))
         EmptyString
       = GdriveDesignCompare.dict_get total EmptyString + 1.
Proof.
  intros rel_path total ok is_ok f Hclean.
  destruct (accumulate_counts_clean rel_path total ok is_ok f Hclean) as [Htotal Hok].
  destruct (accumulate_counts_clean rel_path total ok is_ok EmptyString Hclean)
    as [Hroot _].
  split; [exact Htotal |]. split; [exact Hok |].
  rewrite Hroot. reflexivity.
Qed.

(** The statement of X12 for the folder [A/B] on the way to a matched file
    three folders deep. *)
Lemma accumulate_counts_each_folder_above_once_witness :
  GdriveDesignCompare.dict_get
    (fst (GdriveDesignCompare.accumulate_folder_counts "A/B/C/file.ext" ∅ ∅ true)) "A/B"
  = GdriveDesignCompare.dict_get ∅ "A/B"
    + (if folder_above "A/B" "A/B/C/file.ext" then 1 else 0)
  /\ GdriveDesignCompare.dict_get
       (snd (GdriveDesignCompare.accumulate_folder_counts "A/B/C/file.ext" ∅ ∅ true)) "A/B"
     = GdriveDesignCompare.dict_get ∅ "A/B"
       + (if true && folder_above "A/B" "A/B/C/file.ext" then 1 else 0)
  /\ GdriveDesignCompare.dict_get
       (fst (GdriveDesignCompare.accumulate_folder_counts "A/B/C/file.ext" ∅ ∅ true))
       EmptyString
     = GdriveDesignCompare.dict_get ∅ EmptyString + 1.
Proof.
  assert (H0 : clean_rel_path "A/B/C/file.ext").
  { intros p Hp. cbn in Hp.
    destruct Hp as [<- | [<- | [<- | []]]]; split; discriminate. }
  exact (accumulate_counts_each_folder_above_once "A/B/C/file.ext" ∅ ∅ true "A/B" H0).
Defined.

(** ** Keeping the highest folders *)

Lemma leb_total (a : string) :
  forall b : string, Str.leb a b = true \/ Str.leb b a = true.
Proof.
  induction a as [| x a IH]; intros b; [left; reflexivity |].
  destruct b as [| y b]; [right; reflexivity |].
  cbn [Str.leb].
  destruct (Nat.ltb (nat_of_ascii x) (nat_of_ascii y)) eqn:Hxy; [left; reflexivity |].
  destruct (Nat.ltb (nat_of_ascii y) (nat_of_ascii x)) eqn:Hyx; [right; reflexivity |].
  apply IH.
Qed.

Lemma leb_trans (a : string) :
  forall b c : string, Str.leb a b = true -> Str.leb b c = true -> Str.leb a c = true.
Proof.
  induction a as [| x a IH]; intros b c Hab Hbc; [reflexivity |].
  destruct b as [| y b]; [discriminate |].
  destruct c as [| z c]; [discriminate |].
  cbn [Str.leb] in *.
  destruct (Nat.ltb (nat_of_ascii x) (nat_of_ascii y)) eqn:Hxy;
    destruct (Nat.ltb (nat_of_ascii y) (nat_of_ascii x)) eqn:Hyx;
    destruct (Nat.ltb (nat_of_ascii y) (nat_of_ascii z)) eqn:Hyz;
    destruct (Nat.ltb (nat_of_ascii z) (nat_of_ascii y)) eqn:Hzy;
    try discriminate;
    repeat match goal with
           | H : Nat.ltb _ _ = true |- _ => apply Nat.ltb_lt in H
           | H : Nat.ltb _ _ = false |- _ => apply Nat.ltb_ge in H
           end;
    try lia.
  - replace (Nat.ltb (nat_of_ascii x) (nat_of_ascii z)) with true
      by (symmetry; apply Nat.ltb_lt; lia). reflexivity.
  - replace (Nat.ltb (nat_of_ascii x) (nat_of_ascii z)) with true
      by (symmetry; apply Nat.ltb_lt; lia). reflexivity.
  - replace (Nat.ltb (nat_of_ascii x) (nat_of_ascii z)) with true
      by (symmetry; apply Nat.ltb_lt; lia). reflexivity.
  - replace (Nat.ltb (nat_of_ascii x) (nat_of_ascii z)) with false
      by (symmetry; apply Nat.ltb_ge; lia).
    replace (Nat.ltb (nat_of_ascii z) (nat_of_ascii x)) with false
      by (symmetry; apply Nat.ltb_ge; lia).
    apply (IH b c); assumption.
Qed.

Lemma leb_empty (a : string) : Str.leb a EmptyString = true -> a = EmptyString.
Proof. destruct a; [reflexivity | discriminate]. Qed.

Lemma count_app (c : ascii) (a b : string) :
  Str.count c (a ++ b) = (Str.count c a + Str.count c b)%nat.
Proof.
  induction a as [| x a IH]; [reflexivity |].
  change (String x a ++ b) with (String x (a ++ b)). cbn [Str.count]. rewrite IH. lia.
Qed.

#[global] Instance folder_key_le_total : Total GdriveDesignCompare.folder_key_le.
Proof.
  intros x y. unfold GdriveDesignCompare.folder_key_le, GdriveDesignCompare.folder_key_leb.
  destruct (Nat.lt_trichotomy (Str.count "/"%char x) (Str.count "/"%char y))
    as [Hlt | [Heq | Hgt]].
  - left. apply orb_true_iff. left. apply Nat.ltb_lt. exact Hlt.
  - destruct (leb_total x y) as [Hle | Hle].
    + left. apply orb_true_iff. right. rewrite Hle, andb_true_r. apply Nat.eqb_eq. exact Heq.
    + right. apply orb_true_iff. right. rewrite Hle, andb_true_r. apply Nat.eqb_eq. lia.
  - right. apply orb_true_iff. left. apply Nat.ltb_lt. exact Hgt.
Qed.

#[global] Instance folder_key_le_trans : Transitive GdriveDesignCompare.folder_key_le.
Proof.
  intros x y z. unfold GdriveDesignCompare.folder_key_le, GdriveDesignCompare.folder_key_leb.
  intros Hxy Hyz. apply orb_true_iff in Hxy. apply orb_true_iff in Hyz.
  apply orb_true_iff.
  destruct Hxy as [Hxy | Hxy], Hyz as [Hyz | Hyz];
    repeat match goal with
           | H : Nat.ltb _ _ = true |- _ => apply Nat.ltb_lt in H
           | H : _ && _ = true |- _ => apply andb_true_iff in H; destruct H
           | H : Nat.eqb _ _ = true |- _ => apply Nat.eqb_eq in H
           end.
  - left. apply Nat.ltb_lt. lia.
  - left. apply Nat.ltb_lt. lia.
  - left. apply Nat.ltb_lt. lia.
  - right. apply andb_true_iff. split; [apply Nat.eqb_eq; lia |].
    apply (leb_trans x y z); assumption.
Qed.

Lemma folder_covers_refl (f : string) : folder_covers f f = true.
Proof. unfold folder_covers. rewrite String.eqb_refl. reflexivity. Qed.

(** The cases of [folder_covers]. *)
Lemma folder_covers_cases (k f : string) :
  folder_covers k f = true <->
  k = f \/ k = EmptyString \/ exists r, f = k ++ String "/"%char r.
Proof.
  unfold folder_covers. rewrite !orb_true_iff, !String.eqb_eq. split.
  - intros [[H | H] | H]; [left; exact H | right; left; exact H |].
    right. right. apply prefix_split in H. destruct H as (r & Hr).
    exists r. rewrite Hr. apply str_app_assoc.
  - intros [H | [H | (r & Hr)]]; [left; left; exact H | left; right; exact H |].
    right. rewrite Hr.
    change (k ++ String "/"%char r) with (k ++ ("/" ++ r)).
    rewrite <- str_app_assoc. apply prefix_app.
Qed.

(** A folder comes after the folders it lies under in the order of the sort
    key. *)
Lemma folder_covers_key (k f : string) :
  folder_covers k f = true -> k <> f -> GdriveDesignCompare.folder_key_leb f k = false.
Proof.
  intros Hcov Hne. apply folder_covers_cases in Hcov.
  unfold GdriveDesignCompare.folder_key_leb.
  destruct Hcov as [H | [H | (r & Hr)]]; [congruence | |].
  - subst k. cbn [Str.count].
    replace (Nat.ltb (Str.count "/"%char f) 0) with false
      by (symmetry; apply Nat.ltb_ge; lia).
    cbn [orb]. destruct (Str.leb f EmptyString) eqn:Hle; [| apply andb_false_r].
    apply leb_empty in Hle. congruence.
  - subst f. rewrite count_app. cbn [Str.count]. rewrite Ascii.eqb_refl.
    replace (Nat.ltb (Str.count "/"%char k + (1 + Str.count "/"%char r)) (Str.count "/"%char k))
      with false by (symmetry; apply Nat.ltb_ge; lia).
    replace (Nat.eqb (Str.count "/"%char k + (1 + Str.count "/"%char r)) (Str.count "/"%char k))
      with false by (symmetry; apply Nat.eqb_neq; lia).
    reflexivity.
Qed.

Lemma folder_covers_trans (a b c : string) :
  folder_covers a b = true -> folder_covers b c = true -> folder_covers a c = true.
Proof.
  intros Hab Hbc. apply folder_covers_cases in Hab. apply folder_covers_cases in Hbc.
  apply folder_covers_cases.
  destruct Hab as [-> | [-> | (r & Hr)]]; [exact Hbc | right; left; reflexivity |].
  destruct Hbc as [<- | [-> | (r' & Hr')]].
  - right. right. exists r. exact Hr.
  - destruct a; discriminate.
  - right. right. subst b c. exists (r ++ String "/"%char r').
    rewrite str_app_assoc. reflexivity.
Qed.

Lemma folder_covers_antisym (a b : string) :
  folder_covers a b = true -> folder_covers b a = true -> a = b.
Proof.
  intros Hab Hba.
  destruct (String.eqb a b) eqn:Heq; [apply String.eqb_eq; exact Heq |].
  apply String.eqb_neq in Heq.
  pose proof (folder_covers_key a b Hab Heq) as H1.
  pose proof (folder_covers_key b a Hba ltac:(congruence)) as H2.
  destruct (folder_key_le_total a b) as [H | H];
    unfold GdriveDesignCompare.folder_key_le in H; congruence.
Qed.

(** The two tests of the loop skip [f] exactly when a kept folder covers
    it. *)
Lemma skip_iff_covered (kept : list string) (f : string) :
  (str_in EmptyString kept && negb (String.eqb f EmptyString))
  || GdriveDesignCompare.under_kept kept f = true
  <-> exists k, In k kept /\ folder_covers k f = true.
Proof.
  rewrite orb_true_iff, andb_true_iff, negb_true_iff, String.eqb_neq, str_in_In.
  unfold GdriveDesignCompare.under_kept. rewrite List.existsb_exists. split.
  - intros [[Hroot Hf] | (k & Hk & Htest)].
    + exists EmptyString. split; [exact Hroot |].
      apply folder_covers_cases. right. left. reflexivity.
    + exists k. split; [exact Hk |]. unfold folder_covers.
      apply orb_true_iff in Htest. destruct Htest as [Heq | Hpre].
      * rewrite String.eqb_sym, Heq. reflexivity.
      * apply andb_true_iff in Hpre. destruct Hpre as [_ Hpre]. rewrite Hpre.
        apply orb_true_r.
  - intros (k & Hk & Hcov). unfold folder_covers in Hcov.
    rewrite !orb_true_iff in Hcov. destruct Hcov as [[Heq | Hroot] | Hpre].
    + right. exists k. split; [exact Hk |]. rewrite String.eqb_sym, Heq. reflexivity.
    + apply String.eqb_eq in Hroot. subst k.
      destruct (String.eqb f EmptyString) eqn:Hf.
      * apply String.eqb_eq in Hf. subst f. right. exists EmptyString.
        split; [exact Hk | reflexivity].
      * left. split; [exact Hk | apply String.eqb_neq; exact Hf].
    + destruct (String.eqb k EmptyString) eqn:Hroot.
      * apply String.eqb_eq in Hroot. subst k.
        destruct (String.eqb f EmptyString) eqn:Hf.
        -- apply String.eqb_eq in Hf. subst f. right. exists EmptyString.
           split; [exact Hk | reflexivity].
        -- left. split; [exact Hk | apply String.eqb_neq; exact Hf].
      * right. exists k. split; [exact Hk |]. rewrite Hpre, Hroot. cbn [negb andb].
        apply orb_true_r.
Qed.

(** The loop over the sorted candidates: every candidate ends up covered by
    a kept folder, and no kept folder covers another. *)
Lemma keep_loop_spec :
  forall (ordered kept : list string),
    StronglySorted GdriveDesignCompare.folder_key_le ordered ->
    (forall k f, In k kept -> In f ordered -> GdriveDesignCompare.folder_key_le k f) ->
    (forall a b, In a kept -> In b kept -> folder_covers a b = true -> a = b) ->
    List.NoDup kept ->
    (forall f, In f (List.fold_left GdriveDesignCompare.keep_folder ordered kept) ->
       In f kept \/ In f ordered)
    /\ (forall k, In k kept ->
          In k (List.fold_left GdriveDesignCompare.keep_folder ordered kept))
    /\ (forall f, In f ordered ->
          exists k, In k (List.fold_left GdriveDesignCompare.keep_folder ordered kept)
                    /\ folder_covers k f = true)
    /\ (forall a b,
          In a (List.fold_left GdriveDesignCompare.keep_folder ordered kept) ->
          In b (List.fold_left GdriveDesignCompare.keep_folder ordered kept) ->
          folder_covers a b = true -> a = b)
    /\ List.NoDup (List.fold_left GdriveDesignCompare.keep_folder ordered kept).
Proof.
  induction ordered as [| f rest IH]; intros kept Hsorted Horder Hanti Hnodup.
  - cbn [List.fold_left]. split; [intros g Hg; left; exact Hg |].
    split; [intros k Hk; exact Hk |]. split; [intros g [] |].
    split; [exact Hanti | exact Hnodup].
  - inversion Hsorted as [| ? ? Hsorted' Hfirst]; subst.
    pose proof (proj1 (List.Forall_forall _ _) Hfirst) as Hfirst'.
    cbn [List.fold_left].
    assert (Hkeep : GdriveDesignCompare.keep_folder kept f
                    = if (str_in EmptyString kept && negb (String.eqb f EmptyString))
                         || GdriveDesignCompare.under_kept kept f
                      then kept else (kept ++ [f])%list).
    { unfold GdriveDesignCompare.keep_folder.
      destruct (str_in EmptyString kept && negb (String.eqb f EmptyString));
        [reflexivity |].
      destruct (GdriveDesignCompare.under_kept kept f); reflexivity. }
    rewrite Hkeep. clear Hkeep.
    destruct ((str_in EmptyString kept && negb (String.eqb f EmptyString))
              || GdriveDesignCompare.under_kept kept f) eqn:Hskip.
    + apply skip_iff_covered in Hskip. destruct Hskip as (k0 & Hk0 & Hcov0).
      destruct (IH kept Hsorted') as (H1 & H2 & H3 & H4 & H5).
      { intros k g Hk Hg. apply Horder; [exact Hk | right; exact Hg]. }
      { exact Hanti. }
      { exact Hnodup. }
      split.
      { intros g Hg. destruct (H1 g Hg) as [Hin | Hin]; [left | right; right]; exact Hin. }
      split; [exact H2 |]. split; [| split; [exact H4 | exact H5]].
      intros g [<- | Hg]; [| apply H3; exact Hg].
      exists k0. split; [apply H2; exact Hk0 | exact Hcov0].
    + assert (Hnone : forall k, In k kept -> folder_covers k f = false).
      { intros k Hk. destruct (folder_covers k f) eqn:Hcov; [| reflexivity].
        assert (Hyes : (str_in EmptyString kept && negb (String.eqb f EmptyString))
                       || GdriveDesignCompare.under_kept kept f = true).
        { apply skip_iff_covered. exists k. split; [exact Hk | exact Hcov]. }
        congruence. }
      destruct (IH (kept ++ [f])%list Hsorted') as (H1 & H2 & H3 & H4 & H5).
      { intros k g Hk Hg. apply List.in_app_or in Hk. destruct Hk as [Hk | [<- | []]].
        - apply Horder; [exact Hk | right; exact Hg].
        - apply Hfirst'. exact Hg. }
      { intros a b Ha Hb Hcov.
        apply List.in_app_or in Ha. apply List.in_app_or in Hb.
        destruct Ha as [Ha | [<- | []]], Hb as [Hb | [<- | []]].
        - apply Hanti; assumption.
        - rewrite (Hnone a Ha) in Hcov. discriminate.
        - destruct (String.eqb f b) eqn:Heq; [apply String.eqb_eq; exact Heq |].
          apply String.eqb_neq in Heq.
          pose proof (folder_covers_key f b Hcov Heq) as Hkey.
          assert (Hle : GdriveDesignCompare.folder_key_le b f)
            by (apply Horder; [exact Hb | left; reflexivity]).
          unfold GdriveDesignCompare.folder_key_le in Hle. congruence.
        - reflexivity. }
      { apply List.NoDup_app; [exact Hnodup | repeat constructor; intros [] |].
        intros g Hg [<- | []].
        pose proof (Hnone f Hg) as Hno. rewrite folder_covers_refl in Hno. discriminate. }
      split.
      { intros g Hg. destruct (H1 g Hg) as [Hin | Hin]; [| right; right; exact Hin].
        apply List.in_app_or in Hin. destruct Hin as [Hin | [<- | []]];
          [left; exact Hin | right; left; reflexivity]. }
      split.
      { intros k Hk. apply H2. apply List.in_or_app. left. exact Hk. }
      split; [| split; [exact H4 | exact H5]].
      intros g [<- | Hg]; [| apply H3; exact Hg].
      exists f. split; [| apply folder_covers_refl].
      apply H2. apply List.in_or_app. right. left. reflexivity.
Qed.

(** What [compress_highest_folders] returns, in terms of the candidates. *)
Lemma compress_spec (full_folders : gset string) :
  (forall f, In f (GdriveDesignCompare.compress_highest_folders full_folders) ->
     candidate_folder full_folders f)
  /\ (forall f, candidate_folder full_folders f ->
        exists k, In k (GdriveDesignCompare.compress_highest_folders full_folders)
                  /\ folder_covers k f = true)
  /\ (forall a b,
        In a (GdriveDesignCompare.compress_highest_folders full_folders) ->
        In b (GdriveDesignCompare.compress_highest_folders full_folders) ->
        folder_covers a b = true -> a = b)
  /\ List.NoDup (GdriveDesignCompare.compress_highest_folders full_folders).
Proof.
  unfold GdriveDesignCompare.compress_highest_folders.
  set (normalized := set_map GdriveDesignCompare._norm_rel_folder full_folders : gset string).
  set (ordered := merge_sort GdriveDesignCompare.folder_key_le (elements normalized)).
  assert (Hordered : forall f, In f ordered <-> candidate_folder full_folders f).
  { intros f. unfold ordered, candidate_folder. rewrite <- list_elem_of_In.
    rewrite merge_sort_Permutation, elem_of_elements. unfold normalized.
    rewrite elem_of_map. split.
    - intros (g & Hf & Hg). exists g. split; [exact Hg | congruence].
    - intros (g & Hg & Hf). exists g. split; [congruence | exact Hg]. }
  destruct (keep_loop_spec ordered []) as (H1 & H2 & H3 & H4 & H5).
  { apply StronglySorted_merge_sort; typeclasses eauto. }
  { intros k f []. }
  { intros a b []. }
  { constructor. }
  split.
  { intros f Hf. apply Hordered. destruct (H1 f Hf) as [[] | Hin]. exact Hin. }
  split.
  { intros f Hf. apply H3. apply Hordered. exact Hf. }
  split; [exact H4 | exact H5].
Qed.

(** X13. [compress_highest_folders] keeps exactly the highest candidates: a
    folder is in its result if and only if it is a candidate and no other
    candidate covers it - neither the root nor a folder it lies under. No
    folder is listed twice. *)
Theorem compress_keeps_the_highest_folders :
  forall (full_folders : gset string),
    List.NoDup (GdriveDesignCompare.compress_highest_folders full_folders)
    /\ forall f : string,
         In f (GdriveDesignCompare.compress_highest_folders full_folders)
         <-> (candidate_folder full_folders f
              /\ forall a, candidate_folder full_folders a ->
                           folder_covers a f = true -> a = f).
Proof.
  intros full_folders.
  destruct (compress_spec full_folders) as (Hsub & Hcover & Hanti & Hnodup).
  split; [exact Hnodup |]. intros f. split.
  - intros Hf. split; [apply Hsub; exact Hf |].
    intros a Ha Haf. destruct (Hcover a Ha) as (k & Hk & Hka).
    assert (Hkf : k = f).
    { apply Hanti; [exact Hk | exact Hf |]. apply (folder_covers_trans k a f); assumption. }
    subst k. apply folder_covers_antisym; assumption.
  - intros [Hf Hmax]. destruct (Hcover f Hf) as (k & Hk & Hkf).
    rewrite <- (Hmax k (Hsub k Hk) Hkf). exact Hk.
Qed.

(** X14. Every candidate is covered by the result of
    [compress_highest_folders]: it is one of the kept folders or lies under
    one, so that deleting the kept folders deletes every candidate. *)
Theorem compress_covers_every_candidate :
  forall (full_folders : gset string) (f : string),
    candidate_folder full_folders f ->
    exists k : string,
      In k (GdriveDesignCompare.compress_highest_folders full_folders)
      /\ folder_covers k f = true.
Proof.
  intros full_folders f Hf.
  destruct (compress_spec full_folders) as (_ & Hcover & _ & _).
  apply Hcover. exact Hf.
Qed.

(** The statement of X14 for the folder [A/B] among four candidates. *)
Lemma compress_covers_every_candidate_witness :
  exists k : string,
    In k (GdriveDesignCompare.compress_highest_folders
            (list_to_set ["A/B"; "A"; "C/D/E"; "C/D"]))
    /\ folder_covers k "A/B" = true.
Proof.
  assert (H0 : candidate_folder (list_to_set ["A/B"; "A"; "C/D/E"; "C/D"]) "A/B").
  { exists "A/B". split; [| reflexivity]. apply elem_of_list_to_set. left. }
  exact (compress_covers_every_candidate (list_to_set ["A/B"; "A"; "C/D/E"; "C/D"]) "A/B" H0).
Defined.

(** X15. If the root is a candidate - as [], [.] or [./] - the result of
    [compress_highest_folders] is the root alone. *)
Theorem compress_of_root_is_root :
  forall (full_folders : gset string),
    candidate_folder full_folders EmptyString ->
    GdriveDesignCompare.compress_highest_folders full_folders = [EmptyString].
Proof.
  intros full_folders Hroot.
  destruct (compress_spec full_folders) as (Hsub & Hcover & Hanti & Hnodup).
  destruct (Hcover EmptyString Hroot) as (k & Hk & Hcov).
  assert (Hk0 : k = EmptyString).
  { apply folder_covers_cases in Hcov.
    destruct Hcov as [H | [H | (r & Hr)]]; [exact H | exact H |].
    destruct k; discriminate. }
  subst k.
  assert (Hall : forall f, In f (GdriveDesignCompare.compress_highest_folders full_folders) ->
            f = EmptyString).
  { intros f Hf. symmetry. apply Hanti; [exact Hk | exact Hf |].
    apply folder_covers_cases. right. left. reflexivity. }
  destruct (GdriveDesignCompare.compress_highest_folders full_folders) as [| x [| y t]].
  - destruct Hk.
  - rewrite (Hall x); [reflexivity | left; reflexivity].
  - exfalso. inversion Hnodup as [| ? ? Hnot _]; subst. apply Hnot.
    rewrite (Hall x) by (left; reflexivity).
    rewrite <- (Hall y) at 1 by (right; left; reflexivity). left. reflexivity.
Qed.

(** The statement of X15 for a set in which the root stands as [.]. *)
Lemma compress_of_root_is_root_witness :
  GdriveDesignCompare.compress_highest_folders (list_to_set ["A/B"; "."; "A"])
  = [EmptyString].
Proof.
  assert (H0 : candidate_folder (list_to_set ["A/B"; "."; "A"]) EmptyString).
  { exists ".". split; [| reflexivity]. apply elem_of_list_to_set. right. left. }
  exact (compress_of_root_is_root (list_to_set ["A/B"; "."; "A"]) H0).
Defined.

(** ** The folder cache *)

Section FolderCache.
Variable drive_id : option string.
Variables max_retries base_delay : Z.

(** What follows the lookup of one folder in [get_path_if_exists_cached]. *)
Local Abbreviation descend rest folder_id :=
  (if negb (truthy folder_id) then ret None
   else match folder_id with
        | Some id =>
            DropboxLeftoversProducer.get_path_if_exists_cached id rest drive_id max_retries
              base_delay
        | None => ret None
        end).

(** One step of the walk: the folder comes from the cache, or from the
    drive and is then cached. *)
Lemma cached_step (current name : string) (rest : list string) (w w' : World DriveEnv)
    (o : outcome (option string)) :
  DropboxLeftoversProducer.get_path_if_exists_cached current (name :: rest) drive_id
    max_retries base_delay w = (o, w') ->
  (exists fv,
      folder_cache (env w) !! (current, name) = Some fv
      /\ descend rest fv w = (o, w'))
  \/ (folder_cache (env w) !! (current, name) = None
      /\ exists o1 w1,
           DropboxLeftoversProducer.get_folder_if_exists current name drive_id max_retries
             base_delay w = (o1, w1)
           /\ match o1 with
              | Raise r => o = Raise r /\ w' = w1
              | Return fv =>
                  descend rest fv
                    (mkWorld (mkDriveEnv (drive (env w1)) (faults (env w1))
                                (<[(current, name) := fv]> (folder_cache (env w1))))
                       (rng w1) (rng_pos w1) (trace w1)) = (o, w')
              end).
Proof.
  intros Hrun.
  cbn [DropboxLeftoversProducer.get_path_if_exists_cached] in Hrun. cbv zeta in Hrun.
  unfold bind at 1, DropboxLeftoversProducer.cache_get, bind at 1, get_env, ret at 1
    in Hrun.
  destruct (folder_cache (env w) !! (current, name)) as [fv |] eqn:Hcached.
  - left. exists fv. split; [reflexivity |].
    unfold bind at 1, ret at 1 in Hrun. exact Hrun.
  - right. split; [reflexivity |].
    unfold bind at 1, bind at 1 in Hrun.
    destruct (DropboxLeftoversProducer.get_folder_if_exists current name drive_id
                max_retries base_delay w) as [o1 w1] eqn:H1.
    exists o1, w1. split; [reflexivity |].
    destruct o1 as [fv | r].
    + unfold bind at 1, DropboxLeftoversProducer.cache_set, bind at 1, get_env, put_env,
        ret at 1 in Hrun.
      cbn [env rng rng_pos trace drive faults folder_cache] in Hrun. exact Hrun.
    + inversion Hrun; subst. split; reflexivity.
Qed.

(** The walk only adds entries to the cache. *)
Lemma cached_path_keeps_entries :
  forall (parts : list string) (current : string) (w w' : World DriveEnv)
         (o : outcome (option string)),
    DropboxLeftoversProducer.get_path_if_exists_cached current parts drive_id max_retries
      base_delay w = (o, w') ->
    forall key val,
      folder_cache (env w) !! key = Some val -> folder_cache (env w') !! key = Some val.
Proof.
  induction parts as [| name rest IH]; intros current w w' o Hrun key val Hkey.
  - cbn in Hrun. unfold ret in Hrun. inversion Hrun; subst. exact Hkey.
  - assert (Hdescend : forall fv w2,
              descend rest fv w2 = (o, w') ->
              folder_cache (env w2) !! key = Some val ->
              folder_cache (env w') !! key = Some val).
    { intros fv w2 Hrun2 Hkey2.
      destruct (negb (truthy fv)).
      - unfold ret in Hrun2. inversion Hrun2; subst. exact Hkey2.
      - destruct fv as [id |].
        + exact (IH id w2 w' o Hrun2 key val Hkey2).
        + unfold ret in Hrun2. inversion Hrun2; subst. exact Hkey2. }
    apply cached_step in Hrun.
    destruct Hrun as [(fv & Hcached & Hrun) | (Hmiss & o1 & w1 & H1 & Hrun)].
    + exact (Hdescend fv w Hrun Hkey).
    + apply get_folder_if_exists_run in H1. destruct H1 as (_ & Hc1 & _ & _).
      destruct o1 as [fv | r].
      * apply (Hdescend fv _ Hrun). cbn [env folder_cache]. rewrite Hc1.
        rewrite lookup_insert_ne; [exact Hkey |].
        intros Heq. subst key. congruence.
      * destruct Hrun as [_ ->]. rewrite Hc1. exact Hkey.
Qed.

End FolderCache.

(** X16. Started with a [folder_cache] that holds only answers of the
    drive, [get_path_if_exists_cached] returns what a walk of the drive
    itself gives - at each step the first folder of that name, [None] when
    one is missing - and leaves the drive as it is and the cache still
    holding only answers of the drive, with every earlier entry kept. *)
Theorem cached_path_lookup_answers_as_the_drive :
  forall (drive_id : option string) (max_retries base_delay : Z) (current : string)
         (parts : list string) (w w' : World DriveEnv) (v : option string),
    cache_consistent (drive (env w)) (folder_cache (env w)) ->
    DropboxLeftoversProducer.get_path_if_exists_cached current parts drive_id max_retries
      base_delay w = (Return v, w') ->
    v = resolve_path (drive (env w)) current parts
    /\ drive (env w') = drive (env w)
    /\ cache_consistent (drive (env w')) (folder_cache (env w'))
    /\ (forall key val,
          folder_cache (env w) !! key = Some val -> folder_cache (env w') !! key = Some val).
Proof.
  intros drive_id max_retries base_delay current parts w w' v Hcons Hrun.
  destruct (get_path_if_exists_cached_run drive_id max_retries base_delay parts current
              w w' (Return v) Hcons Hrun) as (Hd & Hc & Hv & _).
  split; [apply Hv; reflexivity |]. split; [exact Hd |].
  split; [rewrite Hd; exact Hc |].
  exact (cached_path_keeps_entries drive_id max_retries base_delay parts current w w'
           (Return v) Hrun).
Qed.

(** The statement of X16 on the sample drive, with an empty cache and a
    timeout on the first request. *)
Lemma cached_path_lookup_answers_as_the_drive_witness :
  Some "F2" = resolve_path (drive (env sample_drive_world)) "ROOT" ["lectures"; "w1"]
  /\ drive (env (snd (DropboxLeftoversProducer.get_path_if_exists_cached "ROOT"
                        ["lectures"; "w1"] None 3 3 sample_drive_world)))
     = drive (env sample_drive_world)
  /\ cache_consistent
       (drive (env (snd (DropboxLeftoversProducer.get_path_if_exists_cached "ROOT"
                           ["lectures"; "w1"] None 3 3 sample_drive_world))))
       (folder_cache (env (snd (DropboxLeftoversProducer.get_path_if_exists_cached "ROOT"
                                  ["lectures"; "w1"] None 3 3 sample_drive_world))))
  /\ (forall key val,
        folder_cache (env sample_drive_world) !! key = Some val ->
        folder_cache (env (snd (DropboxLeftoversProducer.get_path_if_exists_cached "ROOT"
                                  ["lectures"; "w1"] None 3 3 sample_drive_world)))
          !! key = Some val).
Proof.
  assert (H0 : cache_consistent (drive (env sample_drive_world))
                 (folder_cache (env sample_drive_world))).
  { intros parent_id name v Hv. cbn in Hv. rewrite lookup_empty in Hv. discriminate. }
  assert (H1 : DropboxLeftoversProducer.get_path_if_exists_cached "ROOT" ["lectures"; "w1"]
                 None 3 3 sample_drive_world
               = (Return (Some "F2"),
                  snd (DropboxLeftoversProducer.get_path_if_exists_cached "ROOT"
                         ["lectures"; "w1"] None 3 3 sample_drive_world))).
  { assert (Hfst : fst (DropboxLeftoversProducer.get_path_if_exists_cached "ROOT"
                          ["lectures"; "w1"] None 3 3 sample_drive_world)
                   = Return (Some "F2")) by (vm_compute; reflexivity).
    rewrite <- Hfst. apply surjective_pairing. }
  exact (cached_path_lookup_answers_as_the_drive None 3 3 "ROOT" ["lectures"; "w1"]
           sample_drive_world _ (Some "F2") H0 H1).
Defined.

(** X17. A path that [get_path_if_exists_cached] has walked is answered
    from the cache alone: called again in any world whose [folder_cache]
    holds the entries the first call left, it returns the same folder and
    leaves that world as it is - no request, no line printed, no sleep -
    whatever the drive holds by then and whatever the network would do. *)
Theorem cached_path_needs_no_request :
  forall (drive_id drive_id' : option string)
         (max_retries base_delay max_retries' base_delay' : Z)
         (current : string) (parts : list string) (w w1 w2 : World DriveEnv)
         (v : option string),
    DropboxLeftoversProducer.get_path_if_exists_cached current parts drive_id max_retries
      base_delay w = (Return v, w1) ->
    (forall key val,
       folder_cache (env w1) !! key = Some val -> folder_cache (env w2) !! key = Some val) ->
    DropboxLeftoversProducer.get_path_if_exists_cached current parts drive_id' max_retries'
      base_delay' w2 = (Return v, w2).
Proof.
  intros drive_id drive_id' max_retries base_delay max_retries' base_delay' current parts.
  revert current.
  induction parts as [| name rest IH]; intros current w w1 w2 v Hrun Hsub.
  - cbn in Hrun |- *. unfold ret in *. inversion Hrun; subst. reflexivity.
  - assert (Hdescend : forall fv wx,
              (if negb (truthy fv) then ret None
               else match fv with
                    | Some id =>
                        DropboxLeftoversProducer.get_path_if_exists_cached id rest drive_id
                          max_retries base_delay
                    | None => ret None
                    end) wx = (Return v, w1) ->
              folder_cache (env wx) !! (current, name) = Some fv ->
              DropboxLeftoversProducer.get_path_if_exists_cached current (name :: rest)
                drive_id' max_retries' base_delay' w2 = (Return v, w2)).
    { intros fv wx Hrunx Hkeyx.
      assert (Hkey1 : folder_cache (env w1) !! (current, name) = Some fv).
      { destruct (negb (truthy fv)).
        - unfold ret in Hrunx. inversion Hrunx; subst. exact Hkeyx.
        - destruct fv as [id |].
          + exact (cached_path_keeps_entries drive_id max_retries base_delay rest id wx w1
                     (Return v) Hrunx _ _ Hkeyx).
          + unfold ret in Hrunx. inversion Hrunx; subst. exact Hkeyx. }
      apply Hsub in Hkey1.
      cbn [DropboxLeftoversProducer.get_path_if_exists_cached]. cbv zeta.
      unfold bind at 1, DropboxLeftoversProducer.cache_get, bind at 1, get_env, ret at 1.
      rewrite Hkey1. unfold bind at 1, ret at 1.
      destruct (negb (truthy fv)).
      - unfold ret in Hrunx |- *. inversion Hrunx; subst. reflexivity.
      - destruct fv as [id |].
        + exact (IH id wx w1 w2 v Hrunx Hsub).
        + unfold ret in Hrunx |- *. inversion Hrunx; subst. reflexivity. }
    apply cached_step in Hrun.
    destruct Hrun as [(fv & Hcached & Hrun) | (Hmiss & o1 & w1' & H1 & Hrun)].
    + exact (Hdescend fv w Hrun Hcached).
    + destruct o1 as [fv | r].
      * apply (Hdescend fv _ Hrun). cbn [env folder_cache]. apply lookup_insert_eq.
      * destruct Hrun as [Hbad _]. discriminate.
Qed.

(** The statement of X17 on the sample drive: the second call, in the world
    the first call left, changes nothing. *)
Lemma cached_path_needs_no_request_witness :
  DropboxLeftoversProducer.get_path_if_exists_cached "ROOT" ["lectures"; "w1"] None 3 3
    (snd (DropboxLeftoversProducer.get_path_if_exists_cached "ROOT" ["lectures"; "w1"]
            None 3 3 sample_drive_world))
  = (Return (Some "F2"),
     snd (DropboxLeftoversProducer.get_path_if_exists_cached "ROOT" ["lectures"; "w1"]
            None 3 3 sample_drive_world)).
Proof.
  assert (H1 : DropboxLeftoversProducer.get_path_if_exists_cached "ROOT" ["lectures"; "w1"]
                 None 3 3 sample_drive_world
               = (Return (Some "F2"),
                  snd (DropboxLeftoversProducer.get_path_if_exists_cached "ROOT"
                         ["lectures"; "w1"] None 3 3 sample_drive_world))).
  { assert (Hfst : fst (DropboxLeftoversProducer.get_path_if_exists_cached "ROOT"
                          ["lectures"; "w1"] None 3 3 sample_drive_world)
                   = Return (Some "F2")) by (vm_compute; reflexivity).
    rewrite <- Hfst. apply surjective_pairing. }
  exact (cached_path_needs_no_request None None 3 3 3 3 "ROOT" ["lectures"; "w1"]
           sample_drive_world _ _ (Some "F2") H1 (fun key val H => H)).
Defined.

(** ** Skipping a download *)

(** X18. When [download_file] skips - it was asked to skip existing files
    and the target has the expected size - it returns after printing its
    [[SKIP]] line and nothing else has happened: no file is touched, the
    temporary file included, and no request is made. *)
Theorem skipped_download_touches_nothing :
  forall (R : Type) (service : string -> list GdriveEncodedDownloader.chunk_step)
         (file_id target_path : string) (size_bytes : option Z) (chunksize : Z)
         (skip_existing : bool) (w : World (FsEnv R)),
    skips_download w target_path size_bytes skip_existing ->
    GdriveEncodedDownloader.download_file service file_id target_path size_bytes chunksize
      skip_existing w
    = (Return tt,
       mkWorld (env w) (rng w) (rng_pos w)
         (trace w ++ [EvPrint ("[SKIP] exists: " ++ target_path)])).
Proof.
  intros R service file_id target_path size_bytes chunksize skip_existing w
    (Hskip & content & Hold & Hsize).
  subst skip_existing size_bytes.
  unfold GdriveEncodedDownloader.download_file, mkdir_parents, path_exists, path_size,
    bind, get_env, ret.
  cbv beta iota. rewrite bool_decide_eq_true_2 by eauto.
  cbv beta iota. rewrite ?Hold. cbv beta iota.
  rewrite Z.eqb_refl. reflexivity.
Qed.

(** The statement of X18 for a finished file beside a left-over temporary
    file. *)
Lemma skipped_download_touches_nothing_witness :
  GdriveEncodedDownloader.download_file two_chunks "1AbC" "out/encoded/a.mp4" (Some 3)
    1048576 true (fresh_world (mkFsEnv finished_with_leftover tt) 0)
  = (Return tt,
     mkWorld (env (fresh_world (mkFsEnv finished_with_leftover tt) 0))
       (rng (fresh_world (mkFsEnv finished_with_leftover tt) 0))
       (rng_pos (fresh_world (mkFsEnv finished_with_leftover tt) 0))
       (trace (fresh_world (mkFsEnv finished_with_leftover tt) 0)
        ++ [EvPrint ("[SKIP] exists: " ++ "out/encoded/a.mp4")])).
Proof.
  assert (H0 : skips_download (fresh_world (mkFsEnv finished_with_leftover tt) 0)
                 "out/encoded/a.mp4" (Some 3) true).
  { split; [reflexivity |]. exists [x01; x02; x03]. split; reflexivity. }
  exact (skipped_download_touches_nothing unit two_chunks "1AbC" "out/encoded/a.mp4"
           (Some 3) 1048576 true (fresh_world (mkFsEnv finished_with_leftover tt) 0) H0).
Defined.

Section DownloadRequests.
Context {R : Type}.
Variable service : string -> list GdriveEncodedDownloader.chunk_step.

(** Every run of the chunk loop asks the service for at least one chunk. *)
Lemma chunk_loop_requests (tmp_path : string) :
  forall (steps : list GdriveEncodedDownloader.chunk_step) (w : World (FsEnv R)),
    calls w < calls (snd (GdriveEncodedDownloader.chunk_loop tmp_path steps w)).
Proof.
  induction steps as [| [data | err] rest IH]; intros w.
  - cbn [GdriveEncodedDownloader.chunk_loop]. rewrite calls_emit. cbn. lia.
  - cbn [GdriveEncodedDownloader.chunk_loop].
    unfold bind at 1, emit at 1. unfold bind at 1, write_bytes, bind at 1, get_env, put_env.
    cbn [env rng rng_pos trace files remote].
    destruct rest as [| next rest'].
    + unfold ret. cbn [snd]. rewrite calls_log. cbn. unfold calls. lia.
    + match goal with
      | |- context [GdriveEncodedDownloader.chunk_loop tmp_path (next :: rest') ?w1] =>
          specialize (IH w1); rewrite calls_log in IH
      end.
      cbn [is_execute] in IH. unfold calls at 1. lia.
  - cbn [GdriveEncodedDownloader.chunk_loop]. unfold bind, emit, raise. cbn [snd].
    rewrite calls_log. cbn. unfold calls. lia.
Qed.

(** So does every transfer of [download_file]. *)
Lemma download_body_requests (file_id target_path : string) (w : World (FsEnv R)) :
  calls w < calls (snd (GdriveEncodedDownloader.download_body service file_id target_path w)).
Proof.
  unfold GdriveEncodedDownloader.download_body.
  unfold bind at 1, path_exists, bind at 1, get_env, ret.
  set (tmp := with_part_suffix target_path) in *.
  assert (Hclean : exists w0,
             (if bool_decide (is_Some (files (env w) !! tmp)) then path_unlink tmp
              else (fun w => (Return tt, w))) w = (Return tt, w0)
             /\ calls w0 = calls w).
  { destruct (files (env w) !! tmp) as [old |] eqn:Hold.
    - rewrite bool_decide_eq_true_2 by eauto.
      unfold path_unlink, bind, get_env, put_env. rewrite Hold.
      eexists. split; [reflexivity |]. reflexivity.
    - rewrite bool_decide_eq_false_2 by (intros [? ?]; congruence).
      exists w. split; reflexivity. }
  destruct Hclean as (w0 & Hrun0 & Hc0).
  unfold bind at 1. rewrite Hrun0.
  unfold bind at 1, open_wb, bind at 1, get_env, put_env.
  cbn [env rng rng_pos trace files remote]. unfold bind at 1.
  match goal with
  | |- context [GdriveEncodedDownloader.chunk_loop tmp (service file_id) ?w1] =>
      pose proof (chunk_loop_requests tmp (service file_id) w1) as Hreq;
      destruct (GdriveEncodedDownloader.chunk_loop tmp (service file_id) w1) as [o w2]
  end.
  cbn [snd] in Hreq. unfold calls at 1 in Hreq. cbn [trace] in Hreq.
  fold (calls w0) in Hreq.
  destruct o as [[] | err]; [| cbn [snd]; lia].
  unfold bind at 1, path_replace, bind at 1, get_env, put_env.
  destruct (files (env w2) !! tmp) as [content |].
  - unfold print, emit. cbn [snd env rng rng_pos trace]. rewrite calls_log. cbn [is_execute].
    fold (calls w2). lia.
  - unfold raise. cbn [snd]. lia.
Qed.

End DownloadRequests.

(** X19. [download_file] never skips a file whose size it was not given -
    [download_tree_under_encoded] passes [None] for a missing or zero size -
    nor any file when it was not asked to skip existing ones: whatever lies
    at the target, it asks the service for the chunks of the file, touches no
    file other than the target and its temporary file, and either returns
    with all the bytes received in the target and no temporary file left, or
    raises the error of the first failing chunk with the target as before and
    the bytes received until then in the temporary file. *)
Theorem download_without_size_never_skips :
  forall (R : Type) (service : string -> list GdriveEncodedDownloader.chunk_step)
         (file_id target_path : string) (size_bytes : option Z) (chunksize : Z)
         (skip_existing : bool) (w w' : World (FsEnv R)) (r : outcome unit),
    size_bytes = None \/ skip_existing = false ->
    GdriveEncodedDownloader.download_file service file_id target_path size_bytes chunksize
      skip_existing w = (r, w') ->
    calls w < calls w'
    /\ others_untouched (with_part_suffix target_path) target_path w w'
    /\ match first_failure (service file_id) with
       | None =>
           r = Return tt
           /\ files (env w') !! target_path = Some (received (service file_id))
           /\ files (env w') !! with_part_suffix target_path = None
       | Some err =>
           r = Raise err
           /\ target_untouched target_path w w'
           /\ files (env w') !! with_part_suffix target_path
              = Some (received (service file_id))
       end.
Proof.
  intros R service file_id target_path size_bytes chunksize skip_existing w w' r Hcase Hrun.
  assert (Hbody : GdriveEncodedDownloader.download_file service file_id target_path
                    size_bytes chunksize skip_existing w
                  = GdriveEncodedDownloader.download_body service file_id target_path w).
  { destruct (download_file_cases service file_id target_path size_bytes chunksize
                skip_existing w) as [((Hskip & c & _ & Hsize) & _) | [_ Hb]]; [| exact Hb].
    destruct Hcase as [Hnone | Hfalse]; [rewrite Hnone in Hsize | rewrite Hfalse in Hskip];
      discriminate. }
  rewrite Hbody in Hrun. split.
  - pose proof (download_body_requests service file_id target_path w) as Hreq.
    rewrite Hrun in Hreq. exact Hreq.
  - apply (download_body_outcome service file_id target_path w w' r Hrun).
Qed.

(** The statement of X19 for a finished file of the same size as the one on
    the drive, whose size the caller does not know. *)
Lemma download_without_size_never_skips_witness :
  (@None Z = None \/ true = false)
  /\ calls (fresh_world (mkFsEnv finished_with_leftover O) 0)
     < calls (snd (GdriveEncodedDownloader.download_file two_chunks "1AbC" "out/encoded/a.mp4"
                     None 1048576 true (fresh_world (mkFsEnv finished_with_leftover O) 0)))
  /\ files (env (snd (GdriveEncodedDownloader.download_file two_chunks "1AbC"
                        "out/encoded/a.mp4" None 1048576 true
                        (fresh_world (mkFsEnv finished_with_leftover O) 0))))
       !! with_part_suffix "out/encoded/a.mp4" = None.
Proof.
  assert (H1 : @None Z = None \/ true = false) by (left; reflexivity).
  pose proof (download_without_size_never_skips nat two_chunks "1AbC" "out/encoded/a.mp4"
                None 1048576 true (fresh_world (mkFsEnv finished_with_leftover O) 0) _ _
                H1 (surjective_pairing _)) as (Hcalls & _ & Hres).
  split; [exact H1 |]. split; [exact Hcalls |].
  change (first_failure (two_chunks "1AbC")) with (@None raised) in Hres.
  exact (proj2 (proj2 Hres)).
Defined.

(** ** Looking a file up by its path, in [video_producer.py] *)

Section VideoProducerDrive.
Variable drive_id : option string.

(** A search through the executor of [video_producer.py]: the drive is left
    as it is, an answer is the answer of the drive, and there is always a
    result. *)
Lemma vp_drive_list_run (name_q : string) (q : Query) (w w' : World DriveEnv)
    (o : outcome (option (list DriveFile))) :
  VideoProducer.drive_list name_q q drive_id w = (o, w') ->
  drive (env w') = drive (env w)
  /\ (forall res, o = Return res -> res = Some (run_query (drive (env w)) q))
  /\ calls w' <= calls w + 3
  /\ (faults (env w) = [] ->
      o = Return (Some (run_query (drive (env w)) q))
      /\ faults (env w') = []
      /\ calls w' = calls w + 1
      /\ sleeps w' = sleeps w).
Proof.
  unfold VideoProducer.drive_list. intros Hrun.
  destruct (vp_executor_outcome DriveEnv (list DriveFile) (list_request q)
              ("list q=" ++ Str.take_chars 80 (query_text name_q q) ++ "...") w)
    as (k & Hk & Hbefore & _ & Hfst & Hcalls & Hsleeps & Henv).
  rewrite Hrun in Hfst, Hcalls, Hsleeps, Henv. cbn [fst snd] in *.
  destruct (state_after_list_request_keeps q (Datatypes.S k) (env w)) as [Hd _].
  destruct (state_after_list_request_keeps q k (env w)) as [Hdk _].
  split; [rewrite Henv; exact Hd |]. split.
  { intros res Hres. rewrite Hres in Hfst.
    destruct (outcome_at (list_request q) k (env w)) as [answer | r] eqn:Hout;
      [| discriminate].
    inversion Hfst; subst res. f_equal.
    unfold outcome_at in Hout. apply list_request_answer in Hout.
    rewrite Hout, Hdk. reflexivity. }
  split; [lia |].
  intros Hfaults.
  assert (H0 : list_request q (env w) = (Return (run_query (drive (env w)) q), env w)).
  { unfold list_request. rewrite Hfaults. reflexivity. }
  assert (Hk0 : k = O).
  { destruct k as [| k]; [reflexivity |].
    assert (Hfail : exception_failure (outcome_at (list_request q) 0 (env w)) = true)
      by (apply Hbefore; lia).
    unfold outcome_at in Hfail. cbn [state_after] in Hfail. rewrite H0 in Hfail.
    discriminate. }
  subst k. unfold outcome_at in Hfst. cbn [state_after] in Hfst, Henv.
  rewrite H0 in Hfst, Henv. cbn [fst snd] in Hfst, Henv.
  split; [exact Hfst |]. split; [rewrite Henv; exact Hfaults |]. split; lia.
Qed.

(** The step shared by [get_folder_if_exists] and [find_file_in_folder]: the
    first entry of the answer, if there is one. *)
Lemma vp_first_match_run (kind name_q name parent_id : string) (q : Query)
    (w w' : World DriveEnv) (o : outcome (option string)) :
  (res <- VideoProducer.drive_list name_q q drive_id ;;
   files <- VideoProducer.files_of res ;;
   match files with
   | f :: _ =>
       (if Nat.ltb 1 (List.length files)
        then print (VideoProducer.duplicate_line kind name parent_id (List.length files))
        else ret tt) ;;
       ret (Some (f_id f))
   | [] => ret None
   end) w = (o, w') ->
  drive (env w') = drive (env w)
  /\ (forall v, o = Return v ->
        v = match run_query (drive (env w)) q with
            | f :: _ => Some (f_id f)
            | [] => None
            end)
  /\ calls w' <= calls w + 3
  /\ (faults (env w) = [] ->
      (exists v, o = Return v)
      /\ faults (env w') = []
      /\ calls w' = calls w + 1
      /\ sleeps w' = sleeps w).
Proof.
  unfold bind at 1.
  destruct (VideoProducer.drive_list name_q q drive_id w) as [o1 w1] eqn:H1.
  apply vp_drive_list_run in H1. destruct H1 as (Hd & Hans & Hcalls & Hok).
  destruct o1 as [res | r].
  - rewrite (Hans res eq_refl). unfold bind at 1, VideoProducer.files_of, ret at 1.
    destruct (run_query (drive (env w)) q) as [| f rest].
    + unfold ret. intros Hrun. inversion Hrun; subst.
      split; [exact Hd |]. split; [intros v Hv; inversion Hv; reflexivity |].
      split; [exact Hcalls |].
      intros Hf. destruct (Hok Hf) as (_ & Hf' & Hc & Hs).
      split; [eauto |]. split; [exact Hf' |]. split; [exact Hc | exact Hs].
    + destruct (Nat.ltb 1 (List.length (f :: rest)));
        unfold bind, print, emit, ret; cbn [env rng rng_pos trace];
        intros Hrun; inversion Hrun as [[Ho Hw]]; clear Hrun; subst w' o;
        unfold calls, sleeps in *; cbn [env trace];
        rewrite ?count_events_app, ?count_events_single; cbn [is_execute is_sleep];
        (split; [exact Hd |]);
        (split; [intros v Hv; inversion Hv; reflexivity |]);
        (split; [lia |]);
        intros Hf; destruct (Hok Hf) as (_ & Hf' & Hc & Hs);
        (split; [eauto |]); (split; [exact Hf' |]); split; lia.
  - intros Hrun. inversion Hrun; subst.
    split; [exact Hd |]. split; [intros v Hv; discriminate |]. split; [exact Hcalls |].
    intros Hf. destruct (Hok Hf) as (Hbad & _). discriminate.
Qed.

Lemma vp_get_folder_if_exists_run (parent_id name : string) (w w' : World DriveEnv)
    (o : outcome (option string)) :
  VideoProducer.get_folder_if_exists parent_id name drive_id w = (o, w') ->
  drive (env w') = drive (env w)
  /\ (forall v, o = Return v -> v = first_folder (drive (env w)) parent_id name)
  /\ calls w' <= calls w + 3
  /\ (faults (env w) = [] ->
      (exists v, o = Return v)
      /\ faults (env w') = []
      /\ calls w' = calls w + 1
      /\ sleeps w' = sleeps w).
Proof.
  unfold VideoProducer.get_folder_if_exists. cbv zeta. intros Hrun.
  apply vp_first_match_run in Hrun. exact Hrun.
Qed.

Lemma vp_find_file_in_folder_run (parent_id name : string) (w w' : World DriveEnv)
    (o : outcome (option string)) :
  VideoProducer.find_file_in_folder parent_id name drive_id w = (o, w') ->
  drive (env w') = drive (env w)
  /\ (forall v, o = Return v ->
        v = option_map f_id (first_file (drive (env w)) parent_id name))
  /\ calls w' <= calls w + 3
  /\ (faults (env w) = [] ->
      (exists v, o = Return v)
      /\ faults (env w') = []
      /\ calls w' = calls w + 1
      /\ sleeps w' = sleeps w).
Proof.
  unfold VideoProducer.find_file_in_folder. cbv zeta. intros Hrun.
  apply vp_first_match_run in Hrun. destruct Hrun as (Hd & Hv & Hrest).
  split; [exact Hd |]. split; [| exact Hrest].
  intros v Ho. rewrite (Hv v Ho). unfold first_file.
  destruct (run_query (drive (env w)) (mkQuery name None parent_id)); reflexivity.
Qed.

(** The walk down the path: what the drive itself gives, one search per
    folder reached. *)
Lemma vp_get_path_if_exists_run :
  forall (parts : list string) (current : string) (w w' : World DriveEnv)
         (o : outcome (option string)),
    VideoProducer.get_path_if_exists current parts drive_id w = (o, w') ->
    drive (env w') = drive (env w)
    /\ (forall v, o = Return v -> v = resolve_path (drive (env w)) current parts)
    /\ calls w' <= calls w + 3 * Z.of_nat (List.length parts)
    /\ (faults (env w) = [] ->
        (exists v, o = Return v)
        /\ faults (env w') = []
        /\ calls w' <= calls w + Z.of_nat (List.length parts)
        /\ sleeps w' = sleeps w).
Proof.
  induction parts as [| name rest IH]; intros current w w' o Hrun.
  - cbn in Hrun. unfold ret in Hrun. inversion Hrun; subst.
    split; [reflexivity |]. split; [intros v Hv; inversion Hv; reflexivity |].
    split; [cbn; lia |]. intros Hf. split; [eauto |]. split; [exact Hf |]. cbn. lia.
  - cbn [VideoProducer.get_path_if_exists] in Hrun. unfold bind at 1 in Hrun.
    destruct (VideoProducer.get_folder_if_exists current name drive_id w)
      as [o1 w1] eqn:H1.
    apply vp_get_folder_if_exists_run in H1. destruct H1 as (Hd1 & Hv1 & Hc1 & Hok1).
    cbn [List.length resolve_path].
    destruct o1 as [fv | r].
    + rewrite (Hv1 fv eq_refl) in Hrun.
      destruct (first_folder (drive (env w)) current name) as [id |]; cbn [truthy] in Hrun.
      * destruct (String.eqb id EmptyString); cbn [negb] in Hrun.
        -- unfold ret in Hrun. inversion Hrun; subst.
           split; [exact Hd1 |]. split; [intros v Hv; inversion Hv; reflexivity |].
           split; [lia |]. intros Hf. destruct (Hok1 Hf) as (_ & Hf1 & Hcalls & Hs).
           split; [eauto |]. split; [exact Hf1 |]. split; lia.
        -- destruct (IH id w1 w' o Hrun) as (Hd & Hv & Hc & Hok).
           split; [rewrite Hd; exact Hd1 |]. split; [rewrite <- Hd1; exact Hv |].
           split; [lia |]. intros Hf. destruct (Hok1 Hf) as (_ & Hf1 & Hcalls & Hs).
           destruct (Hok Hf1) as (Hret & Hf' & Hcalls' & Hs').
           split; [exact Hret |]. split; [exact Hf' |]. split; lia.
      * cbn [negb] in Hrun. unfold ret in Hrun. inversion Hrun; subst.
        split; [exact Hd1 |]. split; [intros v Hv; inversion Hv; reflexivity |].
        split; [lia |]. intros Hf. destruct (Hok1 Hf) as (_ & Hf1 & Hcalls & Hs).
        split; [eauto |]. split; [exact Hf1 |]. split; lia.
    + inversion Hrun; subst.
      split; [exact Hd1 |]. split; [intros v Hv; discriminate |]. split; [lia |].
      intros Hf. destruct (Hok1 Hf) as ((v & Hbad) & _). discriminate.
Qed.

(** [find_gdrive_file_by_path] as a whole. *)
Lemma vp_find_gdrive_file_by_path_run (root_id : string) (folder_parts : list string)
    (filename : string) (w w' : World DriveEnv) (o : outcome (option string)) :
  VideoProducer.find_gdrive_file_by_path root_id drive_id folder_parts filename w = (o, w') ->
  drive (env w') = drive (env w)
  /\ (forall v, o = Return v ->
        v = match resolve_path (drive (env w)) root_id folder_parts with
            | Some parent_id =>
                if String.eqb parent_id EmptyString then None
                else option_map f_id (first_file (drive (env w)) parent_id filename)
            | None => None
            end)
  /\ calls w' <= calls w + 3 * (Z.of_nat (List.length folder_parts) + 1)
  /\ (faults (env w) = [] ->
      (exists v, o = Return v)
      /\ calls w' <= calls w + Z.of_nat (List.length folder_parts) + 1
      /\ sleeps w' = sleeps w).
Proof.
  unfold VideoProducer.find_gdrive_file_by_path. unfold bind at 1. intros Hrun.
  destruct (VideoProducer.get_path_if_exists root_id folder_parts drive_id w)
    as [o1 w1] eqn:H1.
  apply vp_get_path_if_exists_run in H1. destruct H1 as (Hd1 & Hv1 & Hc1 & Hok1).
  destruct o1 as [pv | r].
  - rewrite (Hv1 pv eq_refl) in Hrun.
    destruct (resolve_path (drive (env w)) root_id folder_parts) as [parent_id |];
      cbn [truthy] in Hrun.
    + destruct (String.eqb parent_id EmptyString); cbn [negb] in Hrun.
      * unfold ret in Hrun. inversion Hrun; subst.
        split; [exact Hd1 |]. split; [intros v Hv; inversion Hv; reflexivity |].
        split; [lia |]. intros Hf. destruct (Hok1 Hf) as (_ & _ & Hcalls & Hs).
        split; [eauto |]. split; lia.
      * apply vp_find_file_in_folder_run in Hrun. destruct Hrun as (Hd & Hv & Hc & Hok).
        split; [rewrite Hd; exact Hd1 |]. split; [rewrite <- Hd1; exact Hv |].
        split; [lia |]. intros Hf. destruct (Hok1 Hf) as (_ & Hf1 & Hcalls & Hs).
        destruct (Hok Hf1) as (Hret & _ & Hcalls' & Hs').
        split; [exact Hret |]. split; lia.
    + cbn [negb] in Hrun. unfold ret in Hrun. inversion Hrun; subst.
      split; [exact Hd1 |]. split; [intros v Hv; inversion Hv; reflexivity |].
      split; [lia |]. intros Hf. destruct (Hok1 Hf) as (_ & _ & Hcalls & Hs).
      split; [eauto |]. split; lia.
  - inversion Hrun; subst.
    split; [exact Hd1 |]. split; [intros v Hv; discriminate |]. split; [lia |].
    intros Hf. destruct (Hok1 Hf) as ((v & Hbad) & _). discriminate.
Qed.

End VideoProducerDrive.

(** X20. What [find_gdrive_file_by_path] of [video_producer.py] returns is
    read off the drive, which it leaves as it is: an id is the id of the
    first live file of that name in the folder the path leads to, through a
    chain of live folders named as the path says; [None] means that a folder
    of the path is missing (or the root id is empty) or that the folder holds
    no live file of that name. *)
Theorem video_producer_finds_the_file_at_the_path :
  forall (drive_id : option string) (root_id : string) (folder_parts : list string)
         (filename : string) (w w' : World DriveEnv) (v : option string),
    VideoProducer.find_gdrive_file_by_path root_id drive_id folder_parts filename w
      = (Return v, w') ->
    drive (env w') = drive (env w)
    /\ (forall id, v = Some id ->
          exists parent_id f,
            folder_chain (drive (env w)) root_id folder_parts parent_id
            /\ file_in_folder (drive (env w)) parent_id filename f
            /\ first_file (drive (env w)) parent_id filename = Some f
            /\ f_id f = id)
    /\ (v = None ->
        resolve_path (drive (env w)) root_id folder_parts = None
        \/ resolve_path (drive (env w)) root_id folder_parts = Some EmptyString
        \/ exists parent_id,
             resolve_path (drive (env w)) root_id folder_parts = Some parent_id
             /\ forall f, ~ file_in_folder (drive (env w)) parent_id filename f).
Proof.
  intros drive_id root_id folder_parts filename w w' v Hrun.
  destruct (vp_find_gdrive_file_by_path_run drive_id root_id folder_parts filename w w'
              (Return v) Hrun) as (Hd & Hv & _ & _).
  specialize (Hv v eq_refl).
  split; [exact Hd |].
  destruct (resolve_path (drive (env w)) root_id folder_parts) as [parent_id |] eqn:Hpath.
  - destruct (String.eqb parent_id EmptyString) eqn:Hempty.
    + apply String.eqb_eq in Hempty. subst parent_id v.
      split; [intros id Hid; discriminate |]. intros _. right. left. reflexivity.
    + destruct (first_file (drive (env w)) parent_id filename) as [f |] eqn:Hfile;
        cbn [option_map] in Hv; subst v.
      * split; [| intros Hnone; discriminate].
        intros id Hid. inversion Hid; subst id. exists parent_id, f.
        split; [apply resolve_path_chain; exact Hpath |].
        split; [apply first_file_in_folder; exact Hfile |].
        split; [exact Hfile | reflexivity].
      * split; [intros id Hid; discriminate |]. intros _. right. right.
        exists parent_id. split; [reflexivity |].
        apply no_first_file_no_file. exact Hfile.
  - subst v. split; [intros id Hid; discriminate |]. intros _. left. reflexivity.
Qed.

(** The statement of X20 on the sample drive, whose first request times
    out. *)
Lemma video_producer_finds_the_file_at_the_path_witness :
  drive (env (snd (VideoProducer.find_gdrive_file_by_path "ROOT" None ["lectures"; "w1"]
                     "1.mp4" sample_drive_world)))
  = drive (env sample_drive_world)
  /\ (forall id, Some "A1" = Some id ->
        exists parent_id f,
          folder_chain (drive (env sample_drive_world)) "ROOT" ["lectures"; "w1"] parent_id
          /\ file_in_folder (drive (env sample_drive_world)) parent_id "1.mp4" f
          /\ first_file (drive (env sample_drive_world)) parent_id "1.mp4" = Some f
          /\ f_id f = id)
  /\ (Some "A1" = None ->
      resolve_path (drive (env sample_drive_world)) "ROOT" ["lectures"; "w1"] = None
      \/ resolve_path (drive (env sample_drive_world)) "ROOT" ["lectures"; "w1"]
         = Some EmptyString
      \/ exists parent_id,
           resolve_path (drive (env sample_drive_world)) "ROOT" ["lectures"; "w1"]
           = Some parent_id
           /\ forall f, ~ file_in_folder (drive (env sample_drive_world)) parent_id "1.mp4" f).
Proof.
  assert (H1 : VideoProducer.find_gdrive_file_by_path "ROOT" None ["lectures"; "w1"] "1.mp4"
                 sample_drive_world
               = (Return (Some "A1"),
                  snd (VideoProducer.find_gdrive_file_by_path "ROOT" None ["lectures"; "w1"]
                         "1.mp4" sample_drive_world))).
  { assert (Hfst : fst (VideoProducer.find_gdrive_file_by_path "ROOT" None
                          ["lectures"; "w1"] "1.mp4" sample_drive_world)
                   = Return (Some "A1")) by (vm_compute; reflexivity).
    rewrite <- Hfst. apply surjective_pairing. }
  exact (video_producer_finds_the_file_at_the_path None "ROOT" ["lectures"; "w1"] "1.mp4"
           sample_drive_world _ (Some "A1") H1).
Defined.

(** X21. [find_gdrive_file_by_path] of [video_producer.py] makes at most
    three requests per folder of the path and three for the file; when no
    request fails it returns after at most one request per folder and one
    for the file, without a sleep. *)
Theorem video_producer_lookup_requests_are_bounded :
  forall (drive_id : option string) (root_id : string) (folder_parts : list string)
         (filename : string) (w : World DriveEnv),
    calls (snd (VideoProducer.find_gdrive_file_by_path root_id drive_id folder_parts
                  filename w))
    <= calls w + 3 * (Z.of_nat (List.length folder_parts) + 1)
    /\ (faults (env w) = [] ->
        (exists v,
            fst (VideoProducer.find_gdrive_file_by_path root_id drive_id folder_parts
                   filename w) = Return v)
        /\ calls (snd (VideoProducer.find_gdrive_file_by_path root_id drive_id folder_parts
                         filename w))
           <= calls w + Z.of_nat (List.length folder_parts) + 1
        /\ sleeps (snd (VideoProducer.find_gdrive_file_by_path root_id drive_id folder_parts
                          filename w))
           = sleeps w).
Proof.
  intros drive_id root_id folder_parts filename w.
  destruct (VideoProducer.find_gdrive_file_by_path root_id drive_id folder_parts filename w)
    as [o w'] eqn:Hrun.
  destruct (vp_find_gdrive_file_by_path_run drive_id root_id folder_parts filename w w' o
              Hrun) as (_ & _ & Hc & Hok).
  cbn [fst snd]. split; [exact Hc | exact Hok].
Qed.

(** ** Making the folders of a path, in [video_consumer.py] *)

Section GetOrCreateRuns.
Variable new_id : list DriveFile -> string -> string -> string.
Variable new_place : list DriveFile -> nat.
Variable made_despite : raised -> bool.
Variable drive_id : option string.

(** A search of a drive with one more entry. *)
Lemma run_query_drive_with (d : list DriveFile) (f : DriveFile) (q : Query) :
  exists before after : list DriveFile,
    run_query d q = (before ++ after)%list
    /\ run_query (VideoConsumer.drive_with new_place d f) q
       = (before ++ (if matches q f then [f] else []) ++ after)%list.
Proof.
  unfold VideoConsumer.drive_with, run_query.
  exists (List.filter (matches q) (take (new_place d) d)),
         (List.filter (matches q) (drop (new_place d) d)).
  split.
  - rewrite <- List.filter_app, take_drop. reflexivity.
  - rewrite List.filter_app. cbn [List.filter]. destruct (matches q f); reflexivity.
Qed.

Lemma In_drive_with (d : list DriveFile) (f g : DriveFile) :
  In g (VideoConsumer.drive_with new_place d f) <-> g = f \/ In g d.
Proof.
  assert (Hd : In g d <-> In g (take (new_place d) d) \/ In g (drop (new_place d) d)).
  { rewrite <- List.in_app_iff, take_drop. reflexivity. }
  unfold VideoConsumer.drive_with. rewrite Hd, List.in_app_iff. cbn [In].
  split; [intros [H | [H | H]] | intros [H | [H | H]]]; subst; auto.
Qed.

Lemma length_drive_with (d : list DriveFile) (f : DriveFile) :
  List.length (VideoConsumer.drive_with new_place d f) = Datatypes.S (List.length d).
Proof.
  assert (Hd : List.length d
               = (List.length (take (new_place d) d)
                  + List.length (drop (new_place d) d))%nat).
  { rewrite <- List.length_app, take_drop. reflexivity. }
  unfold VideoConsumer.drive_with. rewrite List.length_app. cbn [List.length]. lia.
Qed.

(** The folder the service makes answers the search for it and no search
    for another name or another parent. *)
Lemma created_folder_matches (d : list DriveFile) (name parent_id n p : string) :
  matches (mkQuery n (Some FOLDER_MIMETYPE) p)
    (VideoConsumer.created_folder new_id d name parent_id)
  = String.eqb name n && String.eqb p parent_id.
Proof.
  unfold matches, VideoConsumer.created_folder.
  cbn [f_name f_mimeType f_parents f_trashed q_name q_mimeType q_parent existsb negb].
  rewrite String.eqb_refl, orb_false_r, !andb_true_r. reflexivity.
Qed.

(** One call of [get_or_create_folder] that returns: the folder was found,
    or there was none and it was made. *)
Lemma get_or_create_folder_run (parent_id name : string) (w w' : World DriveEnv)
    (fid : string) :
  VideoConsumer.get_or_create_folder new_id new_place made_despite parent_id name drive_id w
    = (Return fid, w') ->
  (first_folder (drive (env w)) parent_id name = Some fid
   /\ drive (env w') = drive (env w))
  \/ (first_folder (drive (env w)) parent_id name = None
      /\ fid = f_id (VideoConsumer.created_folder new_id (drive (env w)) name parent_id)
      /\ drive (env w')
         = VideoConsumer.drive_with new_place (drive (env w))
             (VideoConsumer.created_folder new_id (drive (env w)) name parent_id)).
Proof.
  unfold VideoConsumer.get_or_create_folder, VideoConsumer.drive_list. cbv zeta.
  unfold bind at 1.
  destruct (execute_run (list_request (mkQuery name (Some FOLDER_MIMETYPE) parent_id)) w)
    as (w1 & Hrun1 & He1 & _ & _).
  rewrite Hrun1.
  destruct (list_request_keeps (mkQuery name (Some FOLDER_MIMETYPE) parent_id) (env w))
    as [Hd1 _].
  rewrite <- He1 in Hd1.
  destruct (fst (list_request (mkQuery name (Some FOLDER_MIMETYPE) parent_id) (env w)))
    as [answer | r] eqn:Hans; [| intros Hbad; discriminate].
  apply list_request_answer in Hans.
  unfold first_folder. rewrite <- Hans.
  destruct answer as [| f rest].
  - unfold bind at 1.
    destruct (execute_run (VideoConsumer.create_request new_id new_place made_despite
                             name parent_id) w1) as (w2 & Hrun2 & He2 & _ & _).
    rewrite Hrun2. unfold VideoConsumer.create_request in *. cbv zeta in *.
    rewrite Hd1 in *.
    destruct (faults (env w1)) as [| [r |] more]; cbn [fst snd] in *.
    + unfold ret. intros Hrun. inversion Hrun; subst. right.
      split; [reflexivity |]. split; [reflexivity |]. rewrite He2. reflexivity.
    + intros Hbad. discriminate.
    + unfold ret. intros Hrun. inversion Hrun; subst. right.
      split; [reflexivity |]. split; [reflexivity |]. rewrite He2. reflexivity.
  - destruct (Nat.ltb 1 (List.length (f :: rest)));
      unfold bind, print, emit, ret; cbn [env rng rng_pos trace];
      intros Hrun; inversion Hrun; subst; cbn [env];
      left; (split; [reflexivity | exact Hd1]).
Qed.

(** What a returned call leaves on the drive. *)
Lemma get_or_create_folder_effect (parent_id name : string) (w w' : World DriveEnv)
    (fid : string) :
  VideoConsumer.get_or_create_folder new_id new_place made_despite parent_id name drive_id w
    = (Return fid, w') ->
  first_folder (drive (env w')) parent_id name = Some fid
  /\ (exists f, In f (drive (env w'))
                /\ f_name f = name /\ f_mimeType f = FOLDER_MIMETYPE
                /\ In parent_id (f_parents f) /\ f_trashed f = false /\ f_id f = fid)
  /\ (forall g, In g (drive (env w)) -> In g (drive (env w')))
  /\ (List.length (drive (env w')) <= Datatypes.S (List.length (drive (env w))))%nat
  /\ (forall p n x, first_folder (drive (env w)) p n = Some x ->
                    first_folder (drive (env w')) p n = Some x).
Proof.
  intros Hrun. apply get_or_create_folder_run in Hrun.
  destruct Hrun as [[Hfound Hd] | (Hnone & Hfid & Hd)].
  - rewrite Hd. split; [exact Hfound |]. split.
    + unfold first_folder in Hfound.
      destruct (run_query (drive (env w)) (mkQuery name (Some FOLDER_MIMETYPE) parent_id))
        as [| f rest] eqn:Hq; [discriminate |].
      inversion Hfound; subst fid.
      destruct (first_of_query _ _ _ _ Hq) as [Hin Hm].
      destruct (matches_sound _ _ Hm) as (Hn & Hmt & Hp & Ht).
      exists f. split; [exact Hin |]. split; [exact Hn |].
      split; [apply Hmt; reflexivity |]. split; [exact Hp |]. split; [exact Ht | reflexivity].
    + split; [intros g Hg; exact Hg |]. split; [lia |]. intros p n x Hx. exact Hx.
  - rewrite Hd.
    set (c := VideoConsumer.created_folder new_id (drive (env w)) name parent_id) in *.
    assert (Hafter : forall p n,
              first_folder (VideoConsumer.drive_with new_place (drive (env w)) c) p n
              = match first_folder (drive (env w)) p n with
                | Some x => Some x
                | None => if String.eqb name n && String.eqb p parent_id
                          then Some (f_id c) else None
                end).
    { intros p n. unfold first_folder.
      destruct (run_query_drive_with (drive (env w)) c (mkQuery n (Some FOLDER_MIMETYPE) p))
        as (before & after & Hq & Hq').
      rewrite Hq, Hq'. unfold c at 1. rewrite created_folder_matches.
      destruct before as [| b before].
      - cbn [app]. destruct after as [| a after].
        + destruct (String.eqb name n && String.eqb p parent_id); reflexivity.
        + assert (Hfalse : String.eqb name n && String.eqb p parent_id = false).
          { destruct (String.eqb name n && String.eqb p parent_id) eqn:Hsame;
              [| reflexivity].
            apply andb_true_iff in Hsame. destruct Hsame as [Hn Hp].
            apply String.eqb_eq in Hn, Hp. subst n p.
            unfold first_folder in Hnone. rewrite Hq in Hnone. discriminate. }
          rewrite Hfalse. reflexivity.
      - reflexivity. }
    split.
    { rewrite Hafter, Hnone, !String.eqb_refl. cbn [andb]. congruence. }
    split.
    { exists c. split; [apply In_drive_with; left; reflexivity |].
      split; [reflexivity |]. split; [reflexivity |].
      split; [left; reflexivity |]. split; [reflexivity | congruence]. }
    split; [intros g Hg; apply In_drive_with; right; exact Hg |].
    split; [rewrite length_drive_with; lia |].
    intros p n x Hx. rewrite Hafter, Hx. reflexivity.
Qed.

(** The folders of a drive stay where they are when entries are added. *)
Lemma folder_chain_grows (d d' : list DriveFile) :
  (forall g, In g d -> In g d') ->
  forall current parts dest,
    folder_chain d current parts dest -> folder_chain d' current parts dest.
Proof.
  intros Hsub current parts dest Hchain.
  induction Hchain as [current | current name rest f dest Hin Hn Hm Hp Ht _ IH].
  - constructor.
  - apply (chain_down d' current name rest f dest); auto.
Qed.

(** A returned call of [get_or_create_path]: the path now exists and leads
    to the result. *)
Lemma get_or_create_path_run :
  forall (parts : list string) (current : string) (w w' : World DriveEnv) (id : string),
    VideoConsumer.get_or_create_path new_id new_place made_despite current parts drive_id w
      = (Return id, w') ->
    folder_chain (drive (env w')) current parts id
    /\ (forall g, In g (drive (env w)) -> In g (drive (env w')))
    /\ (List.length (drive (env w'))
        <= List.length (drive (env w)) + List.length parts)%nat
    /\ (forall p n x, first_folder (drive (env w)) p n = Some x ->
                      first_folder (drive (env w')) p n = Some x).
Proof.
  induction parts as [| name rest IH]; intros current w w' id Hrun.
  - cbn in Hrun. unfold ret in Hrun. inversion Hrun; subst.
    split; [constructor |]. split; [auto |]. split; [cbn; lia | auto].
  - cbn [VideoConsumer.get_or_create_path] in Hrun. unfold bind at 1 in Hrun.
    destruct (VideoConsumer.get_or_create_folder new_id new_place made_despite current name
                drive_id w) as [[fid | r] w1] eqn:H1; [| discriminate].
    apply get_or_create_folder_effect in H1.
    destruct H1 as (_ & (f & Hin & Hn & Hm & Hp & Ht & Hid) & Hsub1 & Hlen1 & Hfirst1).
    destruct (IH fid w1 w' id Hrun) as (Hchain & Hsub & Hlen & Hfirst).
    split.
    { apply (chain_down (drive (env w')) current name rest f id); auto.
      rewrite Hid. exact Hchain. }
    split; [auto |]. split; [cbn [List.length]; lia | auto].
Qed.

(** Where every folder of the path is found, [get_or_create_path] makes
    nothing: one search per folder. *)
Lemma get_or_create_path_replay :
  forall (parts : list string) (current : string) (w w1 : World DriveEnv) (id : string),
    VideoConsumer.get_or_create_path new_id new_place made_despite current parts drive_id w
      = (Return id, w1) ->
    forall w2 : World DriveEnv,
      (forall p n x, first_folder (drive (env w1)) p n = Some x ->
                     first_folder (drive (env w2)) p n = Some x) ->
      faults (env w2) = [] ->
      exists w2',
        VideoConsumer.get_or_create_path new_id new_place made_despite current parts
          drive_id w2 = (Return id, w2')
        /\ env w2' = env w2
        /\ calls w2' = calls w2 + Z.of_nat (List.length parts).
Proof.
  induction parts as [| name rest IH]; intros current w w1 id Hrun w2 Hsub Hfaults.
  - cbn in Hrun |- *. unfold ret in *. inversion Hrun; subst.
    exists w2. split; [reflexivity |]. split; [reflexivity | cbn; lia].
  - cbn [VideoConsumer.get_or_create_path] in Hrun. unfold bind at 1 in Hrun.
    destruct (VideoConsumer.get_or_create_folder new_id new_place made_despite current name
                drive_id w) as [[fid | r] wa] eqn:H1; [| discriminate].
    apply get_or_create_folder_effect in H1. destruct H1 as (Hfid & _).
    pose proof (get_or_create_path_run rest fid wa w1 id Hrun) as (_ & _ & _ & Hkeep).
    assert (Hfid2 : first_folder (drive (env w2)) current name = Some fid)
      by (apply Hsub, Hkeep; exact Hfid).
    assert (Hstep : exists w2a,
              VideoConsumer.get_or_create_folder new_id new_place made_despite current name
                drive_id w2 = (Return fid, w2a)
              /\ env w2a = env w2 /\ calls w2a = calls w2 + 1).
    { unfold VideoConsumer.get_or_create_folder, VideoConsumer.drive_list. cbv zeta.
      unfold bind at 1.
      destruct (execute_run (list_request (mkQuery name (Some FOLDER_MIMETYPE) current)) w2)
        as (w3 & Hrun3 & He3 & Hc3 & _).
      rewrite Hrun3. unfold list_request in *. rewrite Hfaults in *. cbn [fst snd] in *.
      unfold first_folder in Hfid2.
      destruct (run_query (drive (env w2)) (mkQuery name (Some FOLDER_MIMETYPE) current))
        as [| f more]; [discriminate |].
      inversion Hfid2; subst fid.
      destruct (Nat.ltb 1 (List.length (f :: more)));
        unfold bind, print, emit, ret; cbn [env rng rng_pos trace];
        eexists; (split; [reflexivity |]); cbn [env]; (split; [exact He3 |]);
        unfold calls in *; cbn [trace];
        rewrite ?count_events_app, ?count_events_single; cbn [is_execute]; lia. }
    destruct Hstep as (w2a & Hstep & Hea & Hca).
    destruct (IH fid wa w1 id Hrun w2a) as (w2' & Hrest & He' & Hc').
    { rewrite Hea. exact Hsub. }
    { rewrite Hea. exact Hfaults. }
    exists w2'. cbn [VideoConsumer.get_or_create_path]. unfold bind at 1.
    rewrite Hstep. split; [exact Hrest |]. split; [congruence |].
    cbn [List.length]. lia.
Qed.

End GetOrCreateRuns.

(** X22. When [get_or_create_path] of [video_consumer.py] returns an id, the
    path exists on the drive and leads to it: a chain of live folders, each
    named as the path says and lying in the one before, goes from the root
    to the folder with that id. Every entry the drive held is still there,
    and at most one folder per segment of the path has been added. *)
Theorem get_or_create_path_makes_the_path :
  forall (new_id : list DriveFile -> string -> string -> string)
         (new_place : list DriveFile -> nat) (made_despite : raised -> bool)
         (drive_id : option string) (root_id : string) (parts : list string)
         (w w' : World DriveEnv) (id : string),
    VideoConsumer.get_or_create_path new_id new_place made_despite root_id parts drive_id w
      = (Return id, w') ->
    folder_chain (drive (env w')) root_id parts id
    /\ (forall g, In g (drive (env w)) -> In g (drive (env w')))
    /\ (List.length (drive (env w'))
        <= List.length (drive (env w)) + List.length parts)%nat.
Proof.
  intros new_id new_place made_despite drive_id root_id parts w w' id Hrun.
  destruct (get_or_create_path_run new_id new_place made_despite drive_id parts root_id
              w w' id Hrun) as (Hchain & Hsub & Hlen & _).
  split; [exact Hchain |]. split; [exact Hsub | exact Hlen].
Qed.

(** The statement of X22 on the sample drive, for a path whose first folder
    exists and whose other two are made. *)
Lemma get_or_create_path_makes_the_path_witness :
  folder_chain
    (drive (env (snd (VideoConsumer.get_or_create_path numbered_id listed_last never_made
                        "ROOT" ["lectures"; "w2"; "raw"] None healthy_drive_world))))
    "ROOT" ["lectures"; "w2"; "raw"] "NEW5"
  /\ (forall g, In g (drive (env healthy_drive_world)) ->
        In g (drive (env (snd (VideoConsumer.get_or_create_path numbered_id listed_last
                                 never_made "ROOT" ["lectures"; "w2"; "raw"] None
                                 healthy_drive_world)))))
  /\ (List.length
        (drive (env (snd (VideoConsumer.get_or_create_path numbered_id listed_last
                            never_made "ROOT" ["lectures"; "w2"; "raw"] None
                            healthy_drive_world))))
      <= List.length (drive (env healthy_drive_world))
         + List.length ["lectures"; "w2"; "raw"])%nat.
Proof.
  assert (H1 : VideoConsumer.get_or_create_path numbered_id listed_last never_made "ROOT"
                 ["lectures"; "w2"; "raw"] None healthy_drive_world
               = (Return "NEW5",
                  snd (VideoConsumer.get_or_create_path numbered_id listed_last never_made
                         "ROOT" ["lectures"; "w2"; "raw"] None healthy_drive_world))).
  { assert (Hfst : fst (VideoConsumer.get_or_create_path numbered_id listed_last never_made
                          "ROOT" ["lectures"; "w2"; "raw"] None healthy_drive_world)
                   = Return "NEW5") by (vm_compute; reflexivity).
    rewrite <- Hfst. apply surjective_pairing. }
  exact (get_or_create_path_makes_the_path numbered_id listed_last never_made None "ROOT"
           ["lectures"; "w2"; "raw"] healthy_drive_world _ "NEW5" H1).
Defined.

(** X23. [get_or_create_path] is repeatable: called again for a path it has
    returned an id for, on the drive as the first call left it and with no
    request failing, it returns the same id after one search per segment and
    makes no folder. *)
Theorem get_or_create_path_again_makes_nothing :
  forall (new_id : list DriveFile -> string -> string -> string)
         (new_place : list DriveFile -> nat) (made_despite : raised -> bool)
         (drive_id : option string) (root_id : string) (parts : list string)
         (w w1 w2 : World DriveEnv) (id : string),
    VideoConsumer.get_or_create_path new_id new_place made_despite root_id parts drive_id w
      = (Return id, w1) ->
    drive (env w2) = drive (env w1) ->
    faults (env w2) = [] ->
    exists w2',
      VideoConsumer.get_or_create_path new_id new_place made_despite root_id parts
        drive_id w2 = (Return id, w2')
      /\ env w2' = env w2
      /\ calls w2' = calls w2 + Z.of_nat (List.length parts).
Proof.
  intros new_id new_place made_despite drive_id root_id parts w w1 w2 id Hrun Hdrive
    Hfaults.
  apply (get_or_create_path_replay new_id new_place made_despite drive_id parts root_id
           w w1 id Hrun w2); [| exact Hfaults].
  intros p n x Hx. rewrite Hdrive. exact Hx.
Qed.

(** The statement of X23 on the sample drive: the second call, in the world
    the first call left. *)
Lemma get_or_create_path_again_makes_nothing_witness :
  exists w2',
    VideoConsumer.get_or_create_path numbered_id listed_last never_made "ROOT"
      ["lectures"; "w2"; "raw"] None
      (snd (VideoConsumer.get_or_create_path numbered_id listed_last never_made "ROOT"
              ["lectures"; "w2"; "raw"] None healthy_drive_world))
    = (Return "NEW5", w2')
    /\ env w2'
       = env (snd (VideoConsumer.get_or_create_path numbered_id listed_last never_made
                     "ROOT" ["lectures"; "w2"; "raw"] None healthy_drive_world))
    /\ calls w2'
       = calls (snd (VideoConsumer.get_or_create_path numbered_id listed_last never_made
                       "ROOT" ["lectures"; "w2"; "raw"] None healthy_drive_world))
         + Z.of_nat (List.length ["lectures"; "w2"; "raw"]).
Proof.
  assert (H1 : VideoConsumer.get_or_create_path numbered_id listed_last never_made "ROOT"
                 ["lectures"; "w2"; "raw"] None healthy_drive_world
               = (Return "NEW5",
                  snd (VideoConsumer.get_or_create_path numbered_id listed_last never_made
                         "ROOT" ["lectures"; "w2"; "raw"] None healthy_drive_world))).
  { assert (Hfst : fst (VideoConsumer.get_or_create_path numbered_id listed_last never_made
                          "ROOT" ["lectures"; "w2"; "raw"] None healthy_drive_world)
                   = Return "NEW5") by (vm_compute; reflexivity).
    rewrite <- Hfst. apply surjective_pairing. }
  assert (H2 : faults (env (snd (VideoConsumer.get_or_create_path numbered_id listed_last
                                   never_made "ROOT" ["lectures"; "w2"; "raw"] None
                                   healthy_drive_world))) = [])
    by (vm_compute; reflexivity).
  exact (get_or_create_path_again_makes_nothing numbered_id listed_last never_made None
           "ROOT" ["lectures"; "w2"; "raw"] healthy_drive_world _ _ "NEW5" H1 eq_refl H2).
Defined.

(** ** Which folders [gdrive_design_compare.py] lists for deletion *)

(** The [is_ok] of a verdict is true for a matched file only. *)
Lemma judge_file_ok (expected : Z) (candidates : option (list GdriveDesignCompare.Candidate)) :
  snd (GdriveDesignCompare.judge_file expected candidates) = true <->
  exists file_id mime : string,
    candidates = Some [(file_id, Some expected, mime)]
    /\ String.prefix GdriveDesignCompare.GOOGLE_APP_PREFIX mime = false
    /\ 0 < expected.
Proof.
  unfold GdriveDesignCompare.judge_file. split.
  - destruct candidates as [[| [[file_id gsize] mime] others] |]; cbn [snd];
      try discriminate.
    cbv zeta. destruct (Nat.ltb 1 (List.length ((file_id, gsize, mime) :: others))) eqn:Hlen;
      cbn [snd]; [discriminate |].
    destruct (String.prefix GdriveDesignCompare.GOOGLE_APP_PREFIX mime) eqn:Hmime;
      cbn [snd]; [discriminate |].
    destruct gsize as [g |]; cbn [snd]; [| discriminate].
    destruct (g <=? 0)%Z eqn:Hpos; cbn [snd]; [discriminate |].
    destruct (g =? expected)%Z eqn:Heq; cbn [snd]; [| discriminate].
    intros _. apply Z.eqb_eq in Heq. apply Z.leb_gt in Hpos. apply Nat.ltb_ge in Hlen.
    subst g. destruct others as [| c others]; [| cbn in Hlen; lia].
    exists file_id, mime. split; [reflexivity |]. split; [exact Hmime | exact Hpos].
  - intros (file_id & mime & -> & Hmime & Hpos). cbv zeta. cbn [List.length Nat.ltb Nat.leb].
    rewrite Hmime.
    replace (expected <=? 0)%Z with false by (symmetry; apply Z.leb_gt; exact Hpos).
    rewrite Z.eqb_refl. reflexivity.
Qed.

(** The status says [OK] exactly when [is_ok] is true. *)
Lemma judge_file_status (expected : Z) (candidates : option (list GdriveDesignCompare.Candidate)) :
  fst (fst (fst (fst (GdriveDesignCompare.judge_file expected candidates)))) = "OK"
  <-> snd (GdriveDesignCompare.judge_file expected candidates) = true.
Proof.
  unfold GdriveDesignCompare.judge_file.
  destruct candidates as [[| [[file_id gsize] mime] others] |]; cbn [fst snd];
    try (split; discriminate).
  cbv zeta. destruct (Nat.ltb 1 (List.length ((file_id, gsize, mime) :: others)));
    cbn [fst snd]; [split; discriminate |].
  destruct (String.prefix GdriveDesignCompare.GOOGLE_APP_PREFIX mime);
    cbn [fst snd]; [split; discriminate |].
  destruct gsize as [g |]; cbn [fst snd]; [| split; discriminate].
  destruct (g <=? 0)%Z; cbn [fst snd]; [split; discriminate |].
  destruct (g =? expected)%Z; cbn [fst snd]; split; (reflexivity || discriminate).
Qed.

Lemma norm_rel_folder_idempotent (f : string) :
  GdriveDesignCompare._norm_rel_folder (GdriveDesignCompare._norm_rel_folder f)
  = GdriveDesignCompare._norm_rel_folder f.
Proof.
  destruct (str_in f [EmptyString; "."; "./"]) eqn:Hin.
  - assert (H : GdriveDesignCompare._norm_rel_folder f = EmptyString)
      by (unfold GdriveDesignCompare._norm_rel_folder; rewrite Hin; reflexivity).
    rewrite H. reflexivity.
  - assert (H : GdriveDesignCompare._norm_rel_folder f = f)
      by (unfold GdriveDesignCompare._norm_rel_folder; rewrite Hin; reflexivity).
    rewrite H. exact H.
Qed.

Section MainAudit.
Variable normalize_rel_under_root : string -> string -> string + Exception.
Variable dropbox_root : string.
Variable gdrive_index : gmap string (list GdriveDesignCompare.Candidate).
Variable gdrive_folders : gset string.
Variables include_empty_folders allow_root_delete : bool.

Local Abbreviation audit_file :=
  (GdriveDesignCompare.audit_file normalize_rel_under_root dropbox_root gdrive_index).

(** One file of the loop: the counters of the folders above a file that was
    compared go up by one, the count of matched files only for a matched
    file. *)
Lemma audit_file_counts (st : list GdriveDesignCompare.FileMatch
                              * (gmap string Z * gmap string Z))
    (m : GdriveDesignCompare.DropboxFile) (f : string) :
  (forall rel,
     normalize_rel_under_root (GdriveDesignCompare.path_display m) dropbox_root = inl rel ->
     clean_rel_path rel) ->
  match normalize_rel_under_root (GdriveDesignCompare.path_display m) dropbox_root with
  | inl rel =>
      GdriveDesignCompare.dict_get (fst (snd (audit_file st m))) f
      = GdriveDesignCompare.dict_get (fst (snd st)) f
        + (if folder_above f rel then 1 else 0)
      /\ GdriveDesignCompare.dict_get (snd (snd (audit_file st m))) f
         = GdriveDesignCompare.dict_get (snd (snd st)) f
           + (if snd (GdriveDesignCompare.judge_file (GdriveDesignCompare.size m)
                        (gdrive_index !! rel))
                 && folder_above f rel
              then 1 else 0)
  | inr _ => snd (audit_file st m) = snd st
  end.
Proof.
  intros Hclean. destruct st as [file_results [total ok]].
  unfold GdriveDesignCompare.audit_file.
  destruct (normalize_rel_under_root (GdriveDesignCompare.path_display m) dropbox_root)
    as [rel | e] eqn:Hnorm; [| reflexivity].
  destruct (GdriveDesignCompare.judge_file (GdriveDesignCompare.size m) (gdrive_index !! rel))
    as [[[[status gsize] ids] note] is_ok].
  cbn [fst snd].
  exact (accumulate_counts_clean rel total ok is_ok f (Hclean rel eq_refl)).
Qed.

(** The loop over the files: the counters only grow, and every compared file
    shows in the counters of the folders above it. *)
Lemma audit_files_counts (f : string) :
  forall (ms : list GdriveDesignCompare.DropboxFile)
         (st : list GdriveDesignCompare.FileMatch * (gmap string Z * gmap string Z)),
    (forall m rel,
       In m ms ->
       normalize_rel_under_root (GdriveDesignCompare.path_display m) dropbox_root = inl rel ->
       clean_rel_path rel) ->
    GdriveDesignCompare.dict_get (fst (snd st)) f
    <= GdriveDesignCompare.dict_get (fst (snd (List.fold_left audit_file ms st))) f
    /\ GdriveDesignCompare.dict_get (fst (snd st)) f
       - GdriveDesignCompare.dict_get (snd (snd st)) f
       <= GdriveDesignCompare.dict_get (fst (snd (List.fold_left audit_file ms st))) f
          - GdriveDesignCompare.dict_get (snd (snd (List.fold_left audit_file ms st))) f
    /\ forall m rel,
         In m ms ->
         normalize_rel_under_root (GdriveDesignCompare.path_display m) dropbox_root = inl rel ->
         folder_above f rel = true ->
         GdriveDesignCompare.dict_get (fst (snd st)) f
         < GdriveDesignCompare.dict_get (fst (snd (List.fold_left audit_file ms st))) f
         /\ (snd (GdriveDesignCompare.judge_file (GdriveDesignCompare.size m)
                    (gdrive_index !! rel)) = false ->
             GdriveDesignCompare.dict_get (fst (snd st)) f
             - GdriveDesignCompare.dict_get (snd (snd st)) f
             < GdriveDesignCompare.dict_get (fst (snd (List.fold_left audit_file ms st))) f
               - GdriveDesignCompare.dict_get
                   (snd (snd (List.fold_left audit_file ms st))) f).
Proof.
  induction ms as [| m0 ms IH]; intros st Hclean.
  - cbn [List.fold_left]. split; [lia |]. split; [lia |]. intros m rel [].
  - cbn [List.fold_left].
    destruct (IH (audit_file st m0)) as (Ht & Hgap & Hfiles).
    { intros m rel Hm. apply Hclean. right. exact Hm. }
    pose proof (audit_file_counts st m0 f (fun rel => Hclean m0 rel (or_introl eq_refl)))
      as Hstep.
    assert (Hgrow :
      GdriveDesignCompare.dict_get (fst (snd st)) f
      <= GdriveDesignCompare.dict_get (fst (snd (audit_file st m0))) f
      /\ GdriveDesignCompare.dict_get (fst (snd st)) f
         - GdriveDesignCompare.dict_get (snd (snd st)) f
         <= GdriveDesignCompare.dict_get (fst (snd (audit_file st m0))) f
            - GdriveDesignCompare.dict_get (snd (snd (audit_file st m0))) f).
    { destruct (normalize_rel_under_root (GdriveDesignCompare.path_display m0) dropbox_root)
        as [rel0 | e0].
      - destruct Hstep as [H1 H2]. rewrite H1, H2.
        destruct (snd (GdriveDesignCompare.judge_file (GdriveDesignCompare.size m0)
                         (gdrive_index !! rel0))), (folder_above f rel0); cbn [andb]; lia.
      - rewrite Hstep. lia. }
    destruct Hgrow as [Hgrow1 Hgrow2].
    split; [lia |]. split; [lia |].
    intros m rel [<- | Hm] Hnorm Habove.
    + rewrite Hnorm in Hstep. destruct Hstep as [H1 H2]. rewrite Habove in H1, H2.
      split; [lia |]. intros Hbad. rewrite Hbad in H2. cbn [andb] in H2. lia.
    + destruct (Hfiles m rel Hm Hnorm Habove) as [H1 H2]. split; [lia |].
      intros Hbad. specialize (H2 Hbad). lia.
Qed.

(** The loop over the folders: a folder is put into [deletable_folders] when
    its verdict says so. *)
Lemma audit_folders_deletable (total_by_folder ok_by_folder : gmap string Z) (k : string) :
  forall (ordered : list string)
         (st : list GdriveDesignCompare.FolderMatch * gset string),
    k ∈ snd (List.fold_left
               (GdriveDesignCompare.audit_folder gdrive_folders include_empty_folders
                  allow_root_delete total_by_folder ok_by_folder) ordered st) ->
    k ∈ snd st
    \/ fst (GdriveDesignCompare.judge_folder include_empty_folders allow_root_delete k
              (GdriveDesignCompare.dict_get total_by_folder k)
              (GdriveDesignCompare.dict_get ok_by_folder k)) = true.
Proof.
  induction ordered as [| folder ordered IH]; intros st Hk.
  - left. exact Hk.
  - cbn [List.fold_left] in Hk. apply IH in Hk. destruct Hk as [Hk | Hk]; [| right; exact Hk].
    destruct st as [folder_results deletable_folders].
    unfold GdriveDesignCompare.audit_folder in Hk.
    destruct (GdriveDesignCompare.judge_folder include_empty_folders allow_root_delete folder
                (GdriveDesignCompare.dict_get total_by_folder folder)
                (GdriveDesignCompare.dict_get ok_by_folder folder))
      as [deletable note] eqn:Hverdict.
    cbn [snd] in Hk. destruct deletable; [| left; exact Hk].
    apply elem_of_union in Hk. destruct Hk as [Hk | Hk]; [| left; exact Hk].
    apply elem_of_singleton in Hk. subst k. right. rewrite Hverdict. reflexivity.
Qed.

(** A folder listed as deletable has no file under it or only matched
    ones, and is the root only when that is allowed. *)
Lemma judge_folder_deletable (folder : string) (total ok : Z) :
  fst (GdriveDesignCompare.judge_folder include_empty_folders allow_root_delete folder
         total ok) = true ->
  (total = 0 \/ total = ok)
  /\ (folder = EmptyString -> allow_root_delete = true).
Proof.
  unfold GdriveDesignCompare.judge_folder.
  destruct (total =? 0)%Z eqn:H0.
  - apply Z.eqb_eq in H0. destruct include_empty_folders; [| discriminate].
    destruct (String.eqb folder EmptyString && negb allow_root_delete) eqn:Hroot;
      [discriminate |].
    intros _. split; [left; exact H0 |]. intros ->. cbn in Hroot.
    destruct allow_root_delete; [reflexivity | discriminate].
  - destruct (total =? ok)%Z eqn:Hok; [| discriminate].
    apply Z.eqb_eq in Hok.
    destruct (String.eqb folder EmptyString && negb allow_root_delete) eqn:Hroot;
      [discriminate |].
    intros _. split; [right; exact Hok |]. intros ->. cbn in Hroot.
    destruct allow_root_delete; [reflexivity | discriminate].
Qed.

(** What steps 3 to 5 list for deletion. *)
Lemma compressed_folders_are_safe (dropbox_files : list GdriveDesignCompare.DropboxFile)
    (dropbox_folders : gset string) (k : string) :
  (forall m rel,
     In m dropbox_files ->
     normalize_rel_under_root (GdriveDesignCompare.path_display m) dropbox_root = inl rel ->
     clean_rel_path rel) ->
  In k (snd (GdriveDesignCompare.main_steps_3_to_5 normalize_rel_under_root dropbox_root
               gdrive_index gdrive_folders include_empty_folders allow_root_delete
               dropbox_files dropbox_folders)) ->
  (k = EmptyString -> allow_root_delete = true)
  /\ forall m rel,
       In m dropbox_files ->
       normalize_rel_under_root (GdriveDesignCompare.path_display m) dropbox_root = inl rel ->
       folder_above k rel = true ->
       file_matched gdrive_index rel (GdriveDesignCompare.size m).
Proof.
  intros Hclean Hk. unfold GdriveDesignCompare.main_steps_3_to_5 in Hk. cbv zeta in Hk.
  destruct (List.fold_left audit_file dropbox_files
              ([], (gset_to_gmap 0 dropbox_folders, gset_to_gmap 0 dropbox_folders)))
    as [file_results [total ok]] eqn:Hfiles.
  destruct (List.fold_left
              (GdriveDesignCompare.audit_folder gdrive_folders include_empty_folders
                 allow_root_delete total ok)
              (merge_sort GdriveDesignCompare.folder_key_le
                 (elements (set_map GdriveDesignCompare._norm_rel_folder dropbox_folders
                            : gset string)))
              ([], ∅)) as [folder_results deletable_folders] eqn:Hfolders.
  cbn [snd] in Hk.
  destruct (compress_spec deletable_folders) as (Hsub & _).
  destruct (Hsub k Hk) as (g & Hg & Hnorm).
  assert (Hg' : g ∈ snd (List.fold_left
                           (GdriveDesignCompare.audit_folder gdrive_folders
                              include_empty_folders allow_root_delete total ok)
                           (merge_sort GdriveDesignCompare.folder_key_le
                              (elements (set_map GdriveDesignCompare._norm_rel_folder
                                           dropbox_folders : gset string)))
                           ([], ∅)))
    by (rewrite Hfolders; exact Hg).
  assert (Hverdict : fst (GdriveDesignCompare.judge_folder include_empty_folders
                            allow_root_delete k (GdriveDesignCompare.dict_get total k)
                            (GdriveDesignCompare.dict_get ok k)) = true
                     /\ g = k).
  { (* every folder of the loop is a normalised one *)
    assert (Hall : forall (ordered : list string)
                     (st : list GdriveDesignCompare.FolderMatch * gset string),
               (forall x, In x ordered -> GdriveDesignCompare._norm_rel_folder x = x) ->
               (forall x, x ∈ snd st -> GdriveDesignCompare._norm_rel_folder x = x) ->
               forall x,
                 x ∈ snd (List.fold_left
                            (GdriveDesignCompare.audit_folder gdrive_folders
                               include_empty_folders allow_root_delete total ok)
                            ordered st) ->
                 GdriveDesignCompare._norm_rel_folder x = x).
    { induction ordered as [| folder ordered IH]; intros st Hord Hst x Hx.
      - apply Hst. exact Hx.
      - cbn [List.fold_left] in Hx. apply (IH _ (fun y Hy => Hord y (or_intror Hy))) in Hx;
          [exact Hx |].
        intros y Hy. destruct st as [fr del].
        unfold GdriveDesignCompare.audit_folder in Hy.
        destruct (GdriveDesignCompare.judge_folder include_empty_folders allow_root_delete
                    folder (GdriveDesignCompare.dict_get total folder)
                    (GdriveDesignCompare.dict_get ok folder)) as [deletable note].
        cbn [snd] in Hy. destruct deletable; [| apply Hst; exact Hy].
        apply elem_of_union in Hy. destruct Hy as [Hy | Hy]; [| apply Hst; exact Hy].
        apply elem_of_singleton in Hy. subst y. apply Hord. left. reflexivity. }
    assert (Hgk : GdriveDesignCompare._norm_rel_folder g = g).
    { apply (Hall _ _) in Hg'; [exact Hg' | | intros x Hx; cbn in Hx; set_solver].
      intros x Hx. apply list_elem_of_In in Hx.
      rewrite merge_sort_Permutation in Hx. apply elem_of_elements in Hx.
      apply elem_of_map in Hx. destruct Hx as (y & -> & _).
      apply norm_rel_folder_idempotent. }
    assert (Heq : g = k) by congruence.
    split; [| exact Heq]. subst g.
    apply audit_folders_deletable in Hg'. destruct Hg' as [Hbad | Hok]; [| exact Hok].
    cbn in Hbad. set_solver. }
  destruct Hverdict as [Hverdict _].
  apply judge_folder_deletable in Hverdict. destruct Hverdict as [Hcounts Hroot].
  split; [exact Hroot |].
  intros m rel Hm Hrel Habove.
  destruct (audit_files_counts k dropbox_files
              ([], (gset_to_gmap 0 dropbox_folders, gset_to_gmap 0 dropbox_folders)) Hclean)
    as (_ & _ & Hunder).
  destruct (Hunder m rel Hm Hrel Habove) as [Hpos Hgap].
  rewrite Hfiles in Hpos, Hgap. cbn [fst snd] in Hpos, Hgap.
  assert (Hzero : GdriveDesignCompare.dict_get (gset_to_gmap 0 dropbox_folders) k = 0).
  { unfold GdriveDesignCompare.dict_get. rewrite lookup_gset_to_gmap.
    destruct (decide (k ∈ dropbox_folders)) as [Hin | Hout].
    - rewrite option_guard_True by exact Hin. reflexivity.
    - rewrite option_guard_False by exact Hout. reflexivity. }
  rewrite Hzero in Hpos, Hgap.
  apply judge_file_ok.
  destruct (snd (GdriveDesignCompare.judge_file (GdriveDesignCompare.size m)
                   (gdrive_index !! rel))) eqn:Hjudge; [exact Hjudge |].
  specialize (Hgap eq_refl). lia.
Qed.

End MainAudit.

(** X24. Steps 3 to 5 of [main] of [gdrive_design_compare.py] list a folder
    for deletion only if every Dropbox file under it that was compared is
    matched on the drive: for a folder [k] of the compressed list and a file
    of [dropbox_files] whose relative path [normalize_rel_under_root]
    returned and which lies under [k], the index of the drive holds exactly
    one item at that path, not a native Google document, with the size of
    the file, which is not zero. The root is listed only when
    [allow_root_delete] is set. The relative paths are clean, as [pathlib]
    writes them. *)
Theorem deletable_folders_hold_only_matched_files :
  forall (normalize_rel_under_root : string -> string -> string + Exception)
         (dropbox_root : string)
         (gdrive_index : gmap string (list GdriveDesignCompare.Candidate))
         (gdrive_folders : gset string) (include_empty_folders allow_root_delete : bool)
         (dropbox_files : list GdriveDesignCompare.DropboxFile)
         (dropbox_folders : gset string) (k : string)
         (m : GdriveDesignCompare.DropboxFile) (rel : string),
    (forall m rel,
       In m dropbox_files ->
       normalize_rel_under_root (GdriveDesignCompare.path_display m) dropbox_root = inl rel ->
       clean_rel_path rel) ->
    In k (snd (GdriveDesignCompare.main_steps_3_to_5 normalize_rel_under_root dropbox_root
                 gdrive_index gdrive_folders include_empty_folders allow_root_delete
                 dropbox_files dropbox_folders)) ->
    In m dropbox_files ->
    normalize_rel_under_root (GdriveDesignCompare.path_display m) dropbox_root = inl rel ->
    folder_above k rel = true ->
    file_matched gdrive_index rel (GdriveDesignCompare.size m)
    /\ (k = EmptyString -> allow_root_delete = true).
Proof.
  intros normalize_rel_under_root dropbox_root gdrive_index gdrive_folders
    include_empty_folders allow_root_delete dropbox_files dropbox_folders k m rel
    Hclean Hk Hm Hrel Habove.
  destruct (compressed_folders_are_safe normalize_rel_under_root dropbox_root gdrive_index
              gdrive_folders include_empty_folders allow_root_delete dropbox_files
              dropbox_folders k Hclean Hk) as [Hroot Hfiles].
  split; [exact (Hfiles m rel Hm Hrel Habove) | exact Hroot].
Qed.

(** The statement of X24 on the sample audit: the folder [A/B] is listed and
    the file in it is matched. *)
Lemma deletable_folders_hold_only_matched_files_witness :
  file_matched sample_gdrive_index "A/B/a.png" 10
  /\ ("A/B" = EmptyString -> false = true).
Proof.
  assert (H0 : forall m rel,
             In m sample_dropbox_files ->
             cut_root (GdriveDesignCompare.path_display m) "/디자인" = inl rel ->
             clean_rel_path rel).
  { intros m rel [<- | [<- | []]] Hrel; vm_compute in Hrel; inversion Hrel; subst rel;
      intros p Hp; cbn in Hp; destruct Hp as [<- | [<- | []]]; split; discriminate. }
  assert (H1 : In "A/B"
                 (snd (GdriveDesignCompare.main_steps_3_to_5 cut_root "/디자인"
                         sample_gdrive_index ∅ true false sample_dropbox_files
                         sample_dropbox_folders))).
  { vm_compute. right. left. reflexivity. }
  assert (H2 : In (GdriveDesignCompare.mkDropboxFile "/디자인/A/B/a.png" 10)
                 sample_dropbox_files) by (left; reflexivity).
  assert (H3 : cut_root
                 (GdriveDesignCompare.path_display
                    (GdriveDesignCompare.mkDropboxFile "/디자인/A/B/a.png" 10)) "/디자인"
               = inl "A/B/a.png") by (vm_compute; reflexivity).
  assert (H4 : folder_above "A/B" "A/B/a.png" = true) by (vm_compute; reflexivity).
  exact (deletable_folders_hold_only_matched_files cut_root "/디자인" sample_gdrive_index ∅
           true false sample_dropbox_files sample_dropbox_folders "A/B"
           (GdriveDesignCompare.mkDropboxFile "/디자인/A/B/a.png" 10) "A/B/a.png"
           H0 H1 H2 H3 H4).
Defined.

(** X25. The verdict of [main] on a file says [OK] exactly when the file is
    matched on the drive - one item at its relative path, not a native
    Google document, of the file's own size, not zero - and only then does
    the file count as matched under its folders. *)
Theorem file_status_is_ok_iff_matched :
  forall (gdrive_index : gmap string (list GdriveDesignCompare.Candidate))
         (rel : string) (expected : Z),
    (fst (fst (fst (fst (GdriveDesignCompare.judge_file expected (gdrive_index !! rel)))))
       = "OK"
     <-> file_matched gdrive_index rel expected)
    /\ (snd (GdriveDesignCompare.judge_file expected (gdrive_index !! rel)) = true
        <-> file_matched gdrive_index rel expected).
Proof.
  intros gdrive_index rel expected. split.
  - rewrite judge_file_status. apply judge_file_ok.
  - apply judge_file_ok.
Qed.

(** No verdict on a compared file says [ERROR]. *)
Lemma judge_file_not_error (expected : Z)
    (candidates : option (list GdriveDesignCompare.Candidate)) :
  fst (fst (fst (fst (GdriveDesignCompare.judge_file expected candidates)))) <> "ERROR".
Proof.
  unfold GdriveDesignCompare.judge_file.
  destruct candidates as [[| [[file_id gsize] mime] others] |]; cbn [fst];
    try discriminate.
  cbv zeta. destruct (Nat.ltb 1 (List.length ((file_id, gsize, mime) :: others)));
    cbn [fst]; [discriminate |].
  destruct (String.prefix GdriveDesignCompare.GOOGLE_APP_PREFIX mime);
    cbn [fst]; [discriminate |].
  destruct gsize as [g |]; cbn [fst]; [| discriminate].
  destruct (g <=? 0)%Z; cbn [fst]; [discriminate |].
  destruct (g =? expected)%Z; cbn [fst]; discriminate.
Qed.

(** X26. The file report of [main] of [gdrive_design_compare.py] has one
    record per Dropbox file, in the order of the list: the record carries the
    size of the file; for a file whose relative path could be computed it
    carries that path and a status other than [ERROR], which is [OK] exactly
    when the file is matched on the drive; for a file whose relative path
    raised it carries the full path, the status [ERROR] and the error. *)
Theorem file_report_has_a_record_per_file :
  forall (normalize_rel_under_root : string -> string -> string + Exception)
         (dropbox_root : string)
         (gdrive_index : gmap string (list GdriveDesignCompare.Candidate))
         (gdrive_folders : gset string) (include_empty_folders allow_root_delete : bool)
         (dropbox_files : list GdriveDesignCompare.DropboxFile)
         (dropbox_folders : gset string),
    List.Forall2 (reports_file normalize_rel_under_root dropbox_root gdrive_index)
      dropbox_files
      (fst (fst (GdriveDesignCompare.main_steps_3_to_5 normalize_rel_under_root dropbox_root
                   gdrive_index gdrive_folders include_empty_folders allow_root_delete
                   dropbox_files dropbox_folders))).
Proof.
  intros normalize_rel_under_root dropbox_root gdrive_index gdrive_folders
    include_empty_folders allow_root_delete dropbox_files dropbox_folders.
  assert (Hloop : forall (ms : list GdriveDesignCompare.DropboxFile)
                    (st : list GdriveDesignCompare.FileMatch
                          * (gmap string Z * gmap string Z)),
            exists records,
              fst (List.fold_left
                     (GdriveDesignCompare.audit_file normalize_rel_under_root dropbox_root
                        gdrive_index) ms st)
              = (fst st ++ records)%list
              /\ List.Forall2 (reports_file normalize_rel_under_root dropbox_root gdrive_index)
                   ms records).
  { induction ms as [| m ms IH]; intros st.
    - exists []. split; [cbn; rewrite List.app_nil_r; reflexivity | constructor].
    - cbn [List.fold_left].
      destruct (IH (GdriveDesignCompare.audit_file normalize_rel_under_root dropbox_root
                      gdrive_index st m)) as (records & Hfold & Hrecords).
      assert (Hstep : exists r,
                fst (GdriveDesignCompare.audit_file normalize_rel_under_root dropbox_root
                       gdrive_index st m) = (fst st ++ [r])%list
                /\ reports_file normalize_rel_under_root dropbox_root gdrive_index m r).
      { destruct st as [file_results counts].
        unfold GdriveDesignCompare.audit_file, reports_file.
        destruct (normalize_rel_under_root (GdriveDesignCompare.path_display m) dropbox_root)
          as [rel | e] eqn:Hnorm.
        - pose proof (judge_file_not_error (GdriveDesignCompare.size m) (gdrive_index !! rel))
            as Hne.
          pose proof (judge_file_status (GdriveDesignCompare.size m) (gdrive_index !! rel))
            as Hst.
          pose proof (judge_file_ok (GdriveDesignCompare.size m) (gdrive_index !! rel))
            as Hok.
          destruct (GdriveDesignCompare.judge_file (GdriveDesignCompare.size m)
                      (gdrive_index !! rel)) as [[[[status gsize] ids] note] is_ok].
          cbn [fst snd] in *. eexists. split; [reflexivity |].
          cbn [GdriveDesignCompare.dropbox_size GdriveDesignCompare.rel_path
                 GdriveDesignCompare.status].
          split; [reflexivity |]. split; [reflexivity |]. split; [exact Hne |].
          rewrite Hst. exact Hok.
        - cbn [fst]. eexists. split; [reflexivity |].
          cbn [GdriveDesignCompare.dropbox_size GdriveDesignCompare.rel_path
                 GdriveDesignCompare.status GdriveDesignCompare.note].
          split; [reflexivity |]. split; [reflexivity |]. split; reflexivity. }
      destruct Hstep as (r & Hr & Hreports).
      exists (r :: records). split.
      + rewrite Hfold, Hr, <- List.app_assoc. reflexivity.
      + constructor; assumption. }
  unfold GdriveDesignCompare.main_steps_3_to_5. cbv zeta.
  destruct (Hloop dropbox_files
              ([], (gset_to_gmap 0 dropbox_folders, gset_to_gmap 0 dropbox_folders)))
    as (records & Hfold & Hrecords).
  destruct (List.fold_left
              (GdriveDesignCompare.audit_file normalize_rel_under_root dropbox_root
                 gdrive_index) dropbox_files
              ([], (gset_to_gmap 0 dropbox_folders, gset_to_gmap 0 dropbox_folders)))
    as [file_results [total ok]].
  destruct (List.fold_left _ _ _) as [folder_results deletable_folders].
  cbn [fst snd] in *. subst file_results. exact Hrecords.
Qed.
